(** * gurthang: the comux manifest codec, the replay library and the mutator

    A shallow embedding of the parts of gurthang that its specification
    makes claims about:

    - [Utils]   src/utils/utils.c   (integer packing, MIN/MAX, exit code)
    - [Comux]   src/comux/comux.c   (manifest encoder and decoders)
    - [Mutator] src/mutator.c       (validators, fuzz driver, trimming feedback)
    - [Preload] src/preload.c       (controller and chunk threads)
    - [Dict]    src/utils/dict.c    (dictionary loader)

    Fixed-width C integers are [Z] with their wrap-around written out,
    bytes are [Byte.byte], byte buffers and files are [list byte]. *)

From Stdlib Require Import ZArith List Lia Bool.
From Stdlib Require Strings.String Strings.Byte QArith.
From Stdlib Require Import Init.Byte.
From Stdlib Require Import Permutation Sorted RelationClasses.
Import ListNotations.
Open Scope Z_scope.

(* ===================================================================== *)
(** * utils/utils.h, utils/utils.c *)
(* ===================================================================== *)
Module Utils.

Definition FATAL_EXIT_CODE : Z := 24060.

Definition MAX (a b : Z) : Z := if a >? b then a else b.
Definition MIN (a b : Z) : Z := if a <? b then a else b.

(** Value ranges of the C integer types involved. *)
Definition u8_range  (z : Z) : Prop := 0 <= z < 2 ^ 8.
Definition u32_range (z : Z) : Prop := 0 <= z < 2 ^ 32.
Definition u64_range (z : Z) : Prop := 0 <= z < 2 ^ 64.

(** Conversions to the unsigned types (reduction modulo [2^w]) and to the
    signed 64-bit [ssize_t] (two's complement). *)
Definition to_u8  (z : Z) : Z := z mod 2 ^ 8.
Definition to_u32 (z : Z) : Z := z mod 2 ^ 32.
Definition to_u64 (z : Z) : Z := z mod 2 ^ 64.
Definition to_ssize (z : Z) : Z :=
  let u := z mod 2 ^ 64 in if u <? 2 ^ 63 then u else u - 2 ^ 64.

(** A [uint8_t] as a [byte] and back. *)
Definition Z_of_byte (b : byte) : Z := Z.of_N (Byte.to_N b).
Definition byte_of_Z (z : Z) : byte :=
  match Byte.of_N (Z.to_N (z mod 256)) with
  | Some b => b
  | None => x00
  end.

(** [INT_TO_BYTES_HELPER(val, bits, array)]:
    [for (shift = 0; shift < bits; shift += 8)
       array[shift / 8] = (val >> shift) & 0xff;]
    [n] is the number of iterations left, [shift] the current shift. *)
Fixpoint INT_TO_BYTES_HELPER (val shift : Z) (n : nat) : list byte :=
  match n with
  | O => []
  | S n' => byte_of_Z (Z.land (Z.shiftr val shift) 255)
            :: INT_TO_BYTES_HELPER val (shift + 8) n'
  end.

(** [BYTES_TO_INT_HELPER(retval, bits, type, array)]:
    [*retval |= (type) array[shift / 8] << (type) shift] for each shift;
    the shift is done in the [bits]-wide type. *)
Fixpoint BYTES_TO_INT_HELPER (bits retval shift : Z) (array : list byte) : Z :=
  match array with
  | [] => retval
  | b :: rest =>
      BYTES_TO_INT_HELPER bits
        (Z.lor retval (Z.shiftl (Z_of_byte b) shift mod 2 ^ bits))
        (shift + 8) rest
  end.

Definition u32_to_bytes (val : Z) : list byte := INT_TO_BYTES_HELPER val 0 4.
Definition bytes_to_u32 (src : list byte) : Z :=
  BYTES_TO_INT_HELPER 32 0 0 (firstn 4 src).
Definition u64_to_bytes (val : Z) : list byte := INT_TO_BYTES_HELPER val 0 8.
Definition bytes_to_u64 (src : list byte) : Z :=
  BYTES_TO_INT_HELPER 64 0 0 (firstn 8 src).

(** [qsort_u32_cmp] subtracts the two [uint32_t] values it is pointed at;
    the difference is taken in [uint32_t] and returned as an [int]. *)
Definition u32_as_int (z : Z) : Z :=
  let u := z mod 2 ^ 32 in if u <? 2 ^ 31 then u else u - 2 ^ 32.
Definition qsort_u32_cmp (a b : Z) : Z := u32_as_int (to_u32 (a - b)).

End Utils.

(* ===================================================================== *)
(** * comux/comux.h, comux/comux.c *)
(* ===================================================================== *)
Module Comux.
Import Utils.

(** ** Parse results *)
Inductive comux_parse_result_t : Set :=
  | COMUX_PARSE_OK
  | COMUX_PARSE_EOF
  | COMUX_PARSE_BAD_MAGIC
  | COMUX_PARSE_BAD_VERSION
  | COMUX_PARSE_BAD_NUM_CONNS
  | COMUX_PARSE_BAD_NUM_CHUNKS
  | COMUX_PARSE_BAD_CONN_ID
  | COMUX_PARSE_BAD_CONN_LEN
  | COMUX_PARSE_BAD_CONN_SCHED
  | COMUX_PARSE_BAD_CONN_FLAGS
  | COMUX_PARSE_CONN_LEN_MISMATCH.

(** The enumerators' values; [if (result)] tests them against zero. *)
Definition parse_result_value (r : comux_parse_result_t) : Z :=
  match r with
  | COMUX_PARSE_OK => 0
  | COMUX_PARSE_EOF => -1
  | COMUX_PARSE_BAD_MAGIC => 1
  | COMUX_PARSE_BAD_VERSION => 2
  | COMUX_PARSE_BAD_NUM_CONNS => 3
  | COMUX_PARSE_BAD_NUM_CHUNKS => 4
  | COMUX_PARSE_BAD_CONN_ID => 5
  | COMUX_PARSE_BAD_CONN_LEN => 6
  | COMUX_PARSE_BAD_CONN_SCHED => 7
  | COMUX_PARSE_BAD_CONN_FLAGS => 8
  | COMUX_PARSE_CONN_LEN_MISMATCH => 9
  end.

Definition nonzero (r : comux_parse_result_t) : bool :=
  negb (parse_result_value r =? 0).

(** ** Constants *)
Definition COMUX_MAGIC_LEN : Z := 8.
Module MagicLiteral.
Import Stdlib.Strings.String.
Local Open Scope string_scope.
Definition text : string := "comux!!!".
End MagicLiteral.
Definition COMUX_MAGIC : list byte :=
  String.list_byte_of_string MagicLiteral.text.
Definition COMUX_CHUNK_DATA_MAXLEN : Z := 524288.

Definition COMUX_CHUNK_FLAGS_NONE : Z := 0.
Definition COMUX_CHUNK_FLAGS_AWAIT_RESPONSE : Z := 1.
Definition COMUX_CHUNK_FLAGS_NO_SHUTDOWN : Z := 2.
Definition COMUX_CHUNK_FLAGS_ALL : Z := 3.

(** ** Structures
    [magic] is the 8-byte array of the header. A chunk's [data] is the
    contents of its [buffer_t] (the first [size] bytes); [offset] is the
    file offset recorded by the stream reader. The manifest's intrusive
    list of chunks is a [list]: [dllist_push_tail] appends. *)
Record comux_header_t : Set := mk_header {
  magic : list byte;
  version : Z;
  num_conns : Z;
  num_chunks : Z
}.

Record comux_cinfo_t : Set := mk_cinfo {
  id : Z;
  len : Z;
  sched : Z;
  flags : Z;
  data : list byte;
  offset : Z
}.

Record comux_manifest_t : Set := mk_manifest {
  header : comux_header_t;
  cinfo_list : list comux_cinfo_t
}.

Definition set_magic (h : comux_header_t) (m : list byte) :=
  mk_header m (version h) (num_conns h) (num_chunks h).
Definition set_version (h : comux_header_t) (v : Z) :=
  mk_header (magic h) v (num_conns h) (num_chunks h).
Definition set_num_conns (h : comux_header_t) (v : Z) :=
  mk_header (magic h) (version h) v (num_chunks h).
Definition set_num_chunks (h : comux_header_t) (v : Z) :=
  mk_header (magic h) (version h) (num_conns h) v.

Definition set_id (c : comux_cinfo_t) (v : Z) :=
  mk_cinfo v (len c) (sched c) (flags c) (data c) (offset c).
Definition set_len (c : comux_cinfo_t) (v : Z) :=
  mk_cinfo (id c) v (sched c) (flags c) (data c) (offset c).
Definition set_sched (c : comux_cinfo_t) (v : Z) :=
  mk_cinfo (id c) (len c) v (flags c) (data c) (offset c).
Definition set_flags (c : comux_cinfo_t) (v : Z) :=
  mk_cinfo (id c) (len c) (sched c) v (data c) (offset c).
Definition set_data (c : comux_cinfo_t) (d : list byte) :=
  mk_cinfo (id c) (len c) (sched c) (flags c) d (offset c).
Definition set_offset (c : comux_cinfo_t) (v : Z) :=
  mk_cinfo (id c) (len c) (sched c) (flags c) (data c) v.

Definition comux_header_init : comux_header_t := mk_header COMUX_MAGIC 0 0 0.
Definition comux_cinfo_init : comux_cinfo_t :=
  mk_cinfo 0 0 0 COMUX_CHUNK_FLAGS_NONE [] 0.
Definition comux_manifest_init : comux_manifest_t :=
  mk_manifest comux_header_init [].

(** [memcmp(a, b, n) != 0] on two [n]-byte arrays. *)
Definition memcmp_differs (a b : list byte) : bool :=
  negb (if list_eq_dec Byte.byte_eq_dec a b then true else false).

(** [memcpy(dst, buff + off, n)] out of a buffer that holds [buff]. *)
Definition bytes_at (buff : list byte) (off n : Z) : list byte :=
  firstn (Z.to_nat n) (skipn (Z.to_nat off) buff).

(** [buffer_appendn(&cinfo->data, string, n)] through
    [comux_cinfo_data_appendn]: the bytes are appended and [len] grows by
    [n] in its 64-bit type. *)
Definition comux_cinfo_data_appendn (c : comux_cinfo_t) (bytes : list byte) :=
  set_len (set_data c (data c ++ bytes))
          (to_u64 (len c + Z.of_nat (length bytes))).

(** ** Writing into a buffer
    Each writer returns its [ssize_t] result and the bytes it copied to
    [buff]; a negative result means nothing was copied. *)
Definition comux_header_write_buffer (h : comux_header_t) (max_len : Z)
  : Z * list byte :=
  let space_needed := COMUX_MAGIC_LEN + 4 + 4 + 4 in
  if max_len <? space_needed then (- space_needed, [])
  else (space_needed,
        magic h ++ u32_to_bytes (version h) ++ u32_to_bytes (num_conns h)
                ++ u32_to_bytes (num_chunks h)).

Definition comux_cinfo_write_buffer (c : comux_cinfo_t) (max_len : Z)
  : Z * list byte :=
  let space_needed := 4 + 8 + 4 + 4 in
  if max_len <? space_needed then (- space_needed, [])
  else (space_needed,
        u32_to_bytes (id c) ++ u64_to_bytes (len c) ++ u32_to_bytes (sched c)
                ++ u32_to_bytes (flags c)).

(** [space_needed] is the [ssize_t] image of [len]; the comparison with
    [buff_len] is unsigned. [memcpy] copies [len] bytes starting at the
    buffer's data pointer. *)
Definition comux_cinfo_data_write_buffer (c : comux_cinfo_t) (buff_len : Z)
  : Z * list byte :=
  let space_needed := to_ssize (len c) in
  if to_u64 space_needed >? buff_len then (to_ssize (- space_needed), [])
  else (space_needed, firstn (Z.to_nat space_needed) (data c)).

(** The loop of [comux_manifest_write_buffer] over the chunk list. [out]
    is what has been copied to [buff] up to [buff + total_wcount];
    [space_remaining] is an [ssize_t] and is passed on as a [size_t]. *)
Fixpoint write_buffer_chunks (l : list comux_cinfo_t)
    (total_wcount space_remaining : Z) (out : list byte) : Z * list byte :=
  match l with
  | [] => (total_wcount, out)
  | cinfo :: rest =>
      let '(wcount, hbytes) :=
        comux_cinfo_write_buffer cinfo (to_u64 space_remaining) in
      if wcount <? 0 then (wcount, out) else
      let total_wcount := total_wcount + wcount in
      let space_remaining := MAX 0 (space_remaining - wcount) in
      let '(wcount, dbytes) :=
        comux_cinfo_data_write_buffer cinfo (to_u64 space_remaining) in
      if wcount <? 0 then (wcount, out ++ hbytes) else
      let total_wcount := total_wcount + wcount in
      let space_remaining := MAX 0 (space_remaining - wcount) in
      write_buffer_chunks rest total_wcount space_remaining
                          (out ++ hbytes ++ dbytes)
  end.

Definition comux_manifest_write_buffer (m : comux_manifest_t) (max_len : Z)
  : Z * list byte :=
  let space_remaining := to_ssize max_len in
  let '(wcount, hbytes) :=
    comux_header_write_buffer (header m) (to_u64 space_remaining) in
  if wcount <? 0 then (wcount, []) else
  let total_wcount := wcount in
  let space_remaining := MAX 0 (space_remaining - wcount) in
  write_buffer_chunks (cinfo_list m) total_wcount space_remaining hbytes.

(** ** Reading from a buffer
    [buff] is the memory from the pointer passed in to the end of the
    buffer, so [buff_len] is its length. [read_len] is the caller's
    variable behind the out-pointer: it is only written on success. *)
Definition comux_header_read_buffer (h : comux_header_t) (buff : list byte)
    (read_len : Z) : comux_parse_result_t * comux_header_t * Z :=
  let space_remaining := Z.of_nat (length buff) in
  let space_remaining := space_remaining - COMUX_MAGIC_LEN in
  if space_remaining <? 0 then (COMUX_PARSE_BAD_MAGIC, h, read_len) else
  let h := set_magic h (bytes_at buff 0 COMUX_MAGIC_LEN) in
  let total_rcount := COMUX_MAGIC_LEN in
  if memcmp_differs (magic h) COMUX_MAGIC
  then (COMUX_PARSE_BAD_MAGIC, h, read_len) else
  let space_remaining := space_remaining - 4 in
  if space_remaining <? 0 then (COMUX_PARSE_BAD_VERSION, h, read_len) else
  let h := set_version h (bytes_to_u32 (bytes_at buff total_rcount 4)) in
  let total_rcount := total_rcount + 4 in
  let space_remaining := space_remaining - 4 in
  if space_remaining <? 0 then (COMUX_PARSE_BAD_NUM_CONNS, h, read_len) else
  let h := set_num_conns h (bytes_to_u32 (bytes_at buff total_rcount 4)) in
  let total_rcount := total_rcount + 4 in
  let space_remaining := space_remaining - 4 in
  if space_remaining <? 0 then (COMUX_PARSE_BAD_NUM_CHUNKS, h, read_len) else
  let h := set_num_chunks h (bytes_to_u32 (bytes_at buff total_rcount 4)) in
  let total_rcount := total_rcount + 4 in
  (COMUX_PARSE_OK, h, total_rcount).

Definition comux_cinfo_read_buffer (c : comux_cinfo_t) (buff : list byte)
    (read_len : Z) : comux_parse_result_t * comux_cinfo_t * Z :=
  let total_rcount := 0 in
  let space_remaining := Z.of_nat (length buff) in
  let space_remaining := space_remaining - 4 in
  if space_remaining <? 0 then (COMUX_PARSE_BAD_CONN_ID, c, read_len) else
  let c := set_id c (bytes_to_u32 (bytes_at buff total_rcount 4)) in
  let total_rcount := total_rcount + 4 in
  let space_remaining := space_remaining - 8 in
  if space_remaining <? 0 then (COMUX_PARSE_BAD_CONN_LEN, c, read_len) else
  let c := set_len c (bytes_to_u64 (bytes_at buff total_rcount 8)) in
  let total_rcount := total_rcount + 8 in
  let space_remaining := space_remaining - 4 in
  if space_remaining <? 0 then (COMUX_PARSE_BAD_CONN_SCHED, c, read_len) else
  let c := set_sched c (bytes_to_u32 (bytes_at buff total_rcount 4)) in
  let total_rcount := total_rcount + 4 in
  let space_remaining := space_remaining - 4 in
  if space_remaining <? 0 then (COMUX_PARSE_BAD_CONN_FLAGS, c, read_len) else
  let c := set_flags c (bytes_to_u32 (bytes_at buff total_rcount 4)) in
  let total_rcount := total_rcount + 4 in
  (COMUX_PARSE_OK, c, total_rcount).

(** [buffer_init] starts the chunk's buffer afresh, the append copies
    [cap] bytes, and [len] is then set to [cap]. Returns [cap]. *)
Definition comux_cinfo_data_read_buffer (c : comux_cinfo_t) (buff : list byte)
  : Z * comux_cinfo_t :=
  let cap := if len c >? COMUX_CHUNK_DATA_MAXLEN
             then COMUX_CHUNK_DATA_MAXLEN else len c in
  let cap := MIN cap (Z.of_nat (length buff)) in
  let c := set_data c [] in
  let c := comux_cinfo_data_appendn c (bytes_at buff 0 cap) in
  let c := set_len c cap in
  (cap, c).

(** The [for] loop of [comux_manifest_read_buffer]: [n] iterations are
    left; it stops as soon as [result] is set. Returns the final
    [result], the chunk list and [total_rcount]. *)
Fixpoint read_buffer_chunks (n : nat) (buff : list byte)
    (total_rcount rcount : Z) (l : list comux_cinfo_t)
  : comux_parse_result_t * list comux_cinfo_t * Z :=
  match n with
  | O => (COMUX_PARSE_OK, l, total_rcount)
  | S n' =>
      let cinfo := comux_cinfo_init in
      let '(result, cinfo, rcount) :=
        comux_cinfo_read_buffer cinfo
          (skipn (Z.to_nat total_rcount) buff) rcount in
      if nonzero result then (result, l, total_rcount) else
      let total_rcount := total_rcount + rcount in
      let expected_len := len cinfo in
      let '(rcount, cinfo) :=
        comux_cinfo_data_read_buffer cinfo
          (skipn (Z.to_nat total_rcount) buff) in
      if rcount <? expected_len
      then (COMUX_PARSE_CONN_LEN_MISMATCH, l, total_rcount) else
      let total_rcount := total_rcount + rcount in
      read_buffer_chunks n' buff total_rcount rcount (l ++ [cinfo])
  end.

(** The function ends with [*read_len = total_rcount; return
    COMUX_PARSE_OK;] whatever [result] the loop stopped with. *)
Definition comux_manifest_read_buffer (m : comux_manifest_t)
    (buff : list byte) (read_len : Z)
  : comux_parse_result_t * comux_manifest_t * Z :=
  let '(result, h, rcount) := comux_header_read_buffer (header m) buff 0 in
  if nonzero result then (result, mk_manifest h (cinfo_list m), read_len) else
  let total_rcount := rcount in
  let '(result, l, total_rcount) :=
    read_buffer_chunks (Z.to_nat (num_chunks h)) buff total_rcount rcount
                       (cinfo_list m) in
  (COMUX_PARSE_OK, mk_manifest h l, total_rcount).

(** ** Layout and well-formedness *)

(** The bytes of a chunk record and of a header, as the writers lay them
    out. *)
Definition cinfo_header_bytes (c : comux_cinfo_t) : list byte :=
  u32_to_bytes (id c) ++ u64_to_bytes (len c) ++ u32_to_bytes (sched c)
    ++ u32_to_bytes (flags c).
Definition cinfo_bytes (c : comux_cinfo_t) : list byte :=
  cinfo_header_bytes c ++ data c.
Definition header_bytes (h : comux_header_t) : list byte :=
  magic h ++ u32_to_bytes (version h) ++ u32_to_bytes (num_conns h)
    ++ u32_to_bytes (num_chunks h).

Definition chunks_size (l : list comux_cinfo_t) : Z :=
  fold_right (fun c acc => 20 + len c + acc) 0 l.
Definition manifest_size (m : comux_manifest_t) : Z :=
  20 + chunks_size (cinfo_list m).

(** Well-formedness: the integer fields hold values of their C types, the
    magic is the literal, [num_chunks] counts the chunk records and every
    [len] is the payload length, at most [COMUX_CHUNK_DATA_MAXLEN]. *)
Definition wf_header (h : comux_header_t) : Prop :=
  magic h = COMUX_MAGIC /\ u32_range (version h) /\
  u32_range (num_conns h) /\ u32_range (num_chunks h).
Definition wf_cinfo (c : comux_cinfo_t) : Prop :=
  u32_range (id c) /\ u32_range (sched c) /\ u32_range (flags c) /\
  len c = Z.of_nat (length (data c)) /\ len c <= COMUX_CHUNK_DATA_MAXLEN.
Definition wf_manifest (m : comux_manifest_t) : Prop :=
  wf_header (header m) /\
  num_chunks (header m) = Z.of_nat (length (cinfo_list m)) /\
  Forall wf_cinfo (cinfo_list m).

(** Field-by-field equality of two chunks (the stream offset apart). *)
Definition same_chunk (c c' : comux_cinfo_t) : Prop :=
  id c = id c' /\ len c = len c' /\ sched c = sched c' /\
  flags c = flags c' /\ data c = data c'.

(** ** Reading from a file descriptor
    A descriptor open on a regular file: the file's bytes and the cursor.
    [read] returns the bytes from the cursor on, at most [count] of them,
    and moves the cursor past them; it returns nothing at or after the end
    of the file. The error return of [read] (which [read_check] turns into
    a fatal exit) does not occur on such a descriptor. *)
Record fd_t : Set := mk_fd {
  contents : list byte;
  pos : Z
}.

Definition read (fd : fd_t) (count : Z) : list byte * fd_t :=
  let bytes := bytes_at (contents fd) (pos fd) count in
  (bytes, mk_fd (contents fd) (pos fd + Z.of_nat (length bytes))).

Definition read_check := read.

(** [lseek(fd, 0, SEEK_CUR)], [lseek(fd, n, SEEK_CUR)] and
    [lseek(fd, off, SEEK_SET)]. *)
Definition lseek_tell (fd : fd_t) : Z := pos fd.
Definition lseek_cur (fd : fd_t) (n : Z) : fd_t :=
  mk_fd (contents fd) (pos fd + n).
Definition lseek_set (fd : fd_t) (off : Z) : fd_t :=
  mk_fd (contents fd) off.

(** A short [read] into an array overwrites its first bytes only. *)
Definition overwrite (old new : list byte) : list byte :=
  new ++ skipn (length new) old.

Definition comux_header_read (h : comux_header_t) (fd : fd_t)
  : comux_parse_result_t * comux_header_t * fd_t :=
  let '(bytes, fd) := read_check fd COMUX_MAGIC_LEN in
  let amount_read := Z.of_nat (length bytes) in
  let h := set_magic h (overwrite (magic h) bytes) in
  if amount_read =? 0 then (COMUX_PARSE_EOF, h, fd) else
  if amount_read <? COMUX_MAGIC_LEN then (COMUX_PARSE_BAD_MAGIC, h, fd) else
  if memcmp_differs (magic h) COMUX_MAGIC
  then (COMUX_PARSE_BAD_MAGIC, h, fd) else
  let '(bytes, fd) := read_check fd 4 in
  let amount_read := Z.of_nat (length bytes) in
  if amount_read =? 0 then (COMUX_PARSE_EOF, h, fd) else
  if amount_read <? 4 then (COMUX_PARSE_BAD_VERSION, h, fd) else
  let h := set_version h (bytes_to_u32 bytes) in
  let '(bytes, fd) := read_check fd 4 in
  let amount_read := Z.of_nat (length bytes) in
  if amount_read =? 0 then (COMUX_PARSE_EOF, h, fd) else
  if amount_read <? 4 then (COMUX_PARSE_BAD_NUM_CONNS, h, fd) else
  let h := set_num_conns h (bytes_to_u32 bytes) in
  let '(bytes, fd) := read_check fd 4 in
  let amount_read := Z.of_nat (length bytes) in
  if amount_read =? 0 then (COMUX_PARSE_EOF, h, fd) else
  if amount_read <? 4 then (COMUX_PARSE_BAD_NUM_CHUNKS, h, fd) else
  let h := set_num_chunks h (bytes_to_u32 bytes) in
  (COMUX_PARSE_OK, h, fd).

Definition comux_cinfo_read (c : comux_cinfo_t) (fd : fd_t)
  : comux_parse_result_t * comux_cinfo_t * fd_t :=
  let c := set_offset c (lseek_tell fd) in
  let '(bytes, fd) := read_check fd 4 in
  let amount_read := Z.of_nat (length bytes) in
  if amount_read =? 0 then (COMUX_PARSE_EOF, c, fd) else
  if amount_read <? 4 then (COMUX_PARSE_BAD_CONN_ID, c, fd) else
  let c := set_id c (bytes_to_u32 bytes) in
  let '(bytes, fd) := read_check fd 8 in
  let amount_read := Z.of_nat (length bytes) in
  if amount_read =? 0 then (COMUX_PARSE_EOF, c, fd) else
  if amount_read <? 8 then (COMUX_PARSE_BAD_CONN_LEN, c, fd) else
  let c := set_len c (bytes_to_u64 bytes) in
  let '(bytes, fd) := read_check fd 4 in
  let amount_read := Z.of_nat (length bytes) in
  if amount_read =? 0 then (COMUX_PARSE_EOF, c, fd) else
  if amount_read <? 4 then (COMUX_PARSE_BAD_CONN_SCHED, c, fd) else
  let c := set_sched c (bytes_to_u32 bytes) in
  let '(bytes, fd) := read_check fd 4 in
  let amount_read := Z.of_nat (length bytes) in
  if amount_read =? 0 then (COMUX_PARSE_EOF, c, fd) else
  if amount_read <? 4 then (COMUX_PARSE_BAD_CONN_FLAGS, c, fd) else
  let c := set_flags c (bytes_to_u32 bytes) in
  (COMUX_PARSE_OK, c, fd).

(** The reading loop of [comux_cinfo_data_read]:
    [while ((rcount = read(fd, buff, MIN(cap - total_rcount, buff_size))) > 0
            && total_rcount < cap)].
    Every turn of the loop takes at least one byte, so [fuel] turns
    suffice when [fuel] exceeds [cap]; [None] means the fuel ran out. *)
Fixpoint data_read_loop (fuel : nat) (c : comux_cinfo_t) (fd : fd_t)
    (cap buff_size total_rcount : Z) : option (comux_cinfo_t * fd_t * Z) :=
  match fuel with
  | O => None
  | S fuel' =>
      let '(bytes, fd) := read fd (MIN (cap - total_rcount) buff_size) in
      let rcount := Z.of_nat (length bytes) in
      if (rcount >? 0) && (total_rcount <? cap)
      then data_read_loop fuel' (comux_cinfo_data_appendn c bytes) fd
                          cap buff_size (total_rcount + rcount)
      else Some (c, fd, total_rcount)
  end.

Definition comux_cinfo_data_read (c : comux_cinfo_t) (fd : fd_t)
  : option (Z * comux_cinfo_t * fd_t) :=
  let cap := if len c >? COMUX_CHUNK_DATA_MAXLEN
             then COMUX_CHUNK_DATA_MAXLEN else len c in
  let c := set_data c [] in
  let buff_size := if cap >? 2048 then 2048 else cap in
  match data_read_loop (S (Z.to_nat cap)) c fd cap buff_size 0 with
  | None => None
  | Some (c, fd, total_rcount) =>
      Some (total_rcount, set_len c total_rcount, fd)
  end.

(** The [while (!result)] loop of [comux_manifest_read]. A chunk that
    fails to parse, or whose payload comes up short, is dropped and ends
    the loop with its result. *)
Fixpoint manifest_read_loop (fuel : nat) (l : list comux_cinfo_t) (fd : fd_t)
  : option (comux_parse_result_t * list comux_cinfo_t * fd_t) :=
  match fuel with
  | O => None
  | S fuel' =>
      let cinfo := comux_cinfo_init in
      let '(result, cinfo, fd) := comux_cinfo_read cinfo fd in
      if nonzero result then Some (result, l, fd) else
      let expected_len := len cinfo in
      match comux_cinfo_data_read cinfo fd with
      | None => None
      | Some (rcount, cinfo, fd) =>
          if rcount <? expected_len
          then Some (COMUX_PARSE_CONN_LEN_MISMATCH, l, fd)
          else manifest_read_loop fuel' (l ++ [cinfo]) fd
      end
  end.

(** [return result == COMUX_PARSE_EOF ? COMUX_PARSE_OK : result;]
    Each turn of the loop that goes on has consumed a 20-byte chunk
    header, so more turns than the file has bytes are never needed. *)
Definition comux_manifest_read (m : comux_manifest_t) (fd : fd_t)
  : option (comux_parse_result_t * comux_manifest_t * fd_t) :=
  let '(result, h, fd) := comux_header_read (header m) fd in
  if nonzero result then Some (result, mk_manifest h (cinfo_list m), fd) else
  match manifest_read_loop (S (length (contents fd))) (cinfo_list m) fd with
  | None => None
  | Some (result, l, fd) =>
      Some (match result with
            | COMUX_PARSE_EOF => COMUX_PARSE_OK
            | _ => result
            end, mk_manifest h l, fd)
  end.

(** The offsets the stream reader records for consecutive chunk records
    that start at offset [off]. *)
Fixpoint with_offsets (off : Z) (l : list comux_cinfo_t) : list comux_cinfo_t :=
  match l with
  | [] => []
  | c :: rest => set_offset c off :: with_offsets (off + 20 + len c) rest
  end.


(** Bytes available from offset [p] on. *)
Definition available (s : list byte) (p : Z) : Z :=
  Z.of_nat (length (skipn (Z.to_nat p) s)).


(** ** Writing to a file descriptor
    [write] on a descriptor open on a regular file: the bytes replace what
    the file holds from the cursor on and extend the file where they reach
    past its end (a gap between the end of the file and the cursor reads as
    zero bytes); the cursor moves past them. A [write] of no bytes changes
    nothing. The error and short returns of [write], which [write_check]
    turns into a fatal exit, do not occur on such a descriptor. *)
Definition write (fd : fd_t) (bytes : list byte) : Z * fd_t :=
  match bytes with
  | [] => (0, fd)
  | _ =>
      let p := Z.to_nat (pos fd) in
      (Z.of_nat (length bytes),
       mk_fd (firstn p (contents fd)
                ++ repeat x00 (p - length (contents fd))
                ++ bytes ++ skipn (p + length bytes) (contents fd))
             (pos fd + Z.of_nat (length bytes)))
  end.

Definition write_check := write.

(** [total_bytes_written] is a [size_t]. *)
Definition comux_header_write (h : comux_header_t) (fd : fd_t) : Z * fd_t :=
  let total_bytes_written := 0 in
  let '(amount_written, fd) := write_check fd (magic h) in
  let total_bytes_written := to_u64 (total_bytes_written + amount_written) in
  let '(amount_written, fd) := write_check fd (u32_to_bytes (version h)) in
  let total_bytes_written := to_u64 (total_bytes_written + amount_written) in
  let '(amount_written, fd) := write_check fd (u32_to_bytes (num_conns h)) in
  let total_bytes_written := to_u64 (total_bytes_written + amount_written) in
  let '(amount_written, fd) := write_check fd (u32_to_bytes (num_chunks h)) in
  let total_bytes_written := to_u64 (total_bytes_written + amount_written) in
  (total_bytes_written, fd).

(** The chunk's [offset] is set to where the descriptor stands. *)
Definition comux_cinfo_write (c : comux_cinfo_t) (fd : fd_t)
  : Z * comux_cinfo_t * fd_t :=
  let total_bytes_written := 0 in
  let c := set_offset c (lseek_tell fd) in
  let '(amount_written, fd) := write_check fd (u32_to_bytes (id c)) in
  let total_bytes_written := to_u64 (total_bytes_written + amount_written) in
  let '(amount_written, fd) := write_check fd (u64_to_bytes (len c)) in
  let total_bytes_written := to_u64 (total_bytes_written + amount_written) in
  let '(amount_written, fd) := write_check fd (u32_to_bytes (sched c)) in
  let total_bytes_written := to_u64 (total_bytes_written + amount_written) in
  let '(amount_written, fd) := write_check fd (u32_to_bytes (flags c)) in
  let total_bytes_written := to_u64 (total_bytes_written + amount_written) in
  (total_bytes_written, c, fd).

(** The loop of [comux_cinfo_data_write]:
    [while ((wcount = write(fd, data + total_wcount,
                            MIN(cinfo->len - total_wcount, chunk_size))) > 0)].
    The bytes from [data + total_wcount] on are those of the payload the
    chunk's buffer holds. Every turn but the last writes at least one byte,
    so [fuel] turns suffice when [fuel] exceeds [len]; [None] means the fuel
    ran out. *)
Fixpoint data_write_loop (fuel : nat) (c : comux_cinfo_t) (fd : fd_t)
    (chunk_size total_wcount : Z) : option (fd_t * Z) :=
  match fuel with
  | O => None
  | S fuel' =>
      let '(wcount, fd) :=
        write fd (bytes_at (data c) total_wcount
                           (MIN (to_u64 (len c - total_wcount)) chunk_size)) in
      if wcount >? 0
      then data_write_loop fuel' c fd chunk_size (to_u64 (total_wcount + wcount))
      else Some (fd, total_wcount)
  end.

Definition comux_cinfo_data_write (c : comux_cinfo_t) (fd : fd_t)
  : option (Z * fd_t) :=
  let chunk_size := if len c >? 2048 then 2048 else len c in
  match data_write_loop (S (Z.to_nat (len c))) c fd chunk_size 0 with
  | None => None
  | Some (fd, total_wcount) => Some (total_wcount, fd)
  end.

(** The loop of [comux_manifest_write] over the chunk list; the chunks come
    back with the offsets [comux_cinfo_write] stored in them. *)
Fixpoint manifest_write_chunks (l : list comux_cinfo_t) (fd : fd_t)
    (total_bytes_written : Z) : option (Z * list comux_cinfo_t * fd_t) :=
  match l with
  | [] => Some (total_bytes_written, [], fd)
  | cinfo :: rest =>
      let '(n, cinfo, fd) := comux_cinfo_write cinfo fd in
      let total_bytes_written := to_u64 (total_bytes_written + n) in
      match comux_cinfo_data_write cinfo fd with
      | None => None
      | Some (n, fd) =>
          let total_bytes_written := to_u64 (total_bytes_written + n) in
          match manifest_write_chunks rest fd total_bytes_written with
          | None => None
          | Some (total_bytes_written, rest, fd) =>
              Some (total_bytes_written, cinfo :: rest, fd)
          end
      end
  end.

Definition comux_manifest_write (m : comux_manifest_t) (fd : fd_t)
  : option (Z * comux_manifest_t * fd_t) :=
  let '(total_bytes_written, fd) := comux_header_write (header m) fd in
  match manifest_write_chunks (cinfo_list m) fd total_bytes_written with
  | None => None
  | Some (total_bytes_written, l, fd) =>
      Some (total_bytes_written, mk_manifest (header m) l, fd)
  end.

(** ** The chunk list of a manifest
    [num_chunks] is a [uint32_t]; [idx] is a [uint32_t] compared with the
    list's [size_t] size. [comux_manifest_cinfo_remove] returns the chunk it
    unlinked, or [NULL]. *)
Definition comux_manifest_cinfo_add (m : comux_manifest_t)
    (cinfo : comux_cinfo_t) : comux_manifest_t :=
  mk_manifest (set_num_chunks (header m) (to_u32 (num_chunks (header m) + 1)))
              (cinfo_list m ++ [cinfo]).

Definition comux_manifest_cinfo_remove (m : comux_manifest_t) (idx : Z)
  : option comux_cinfo_t * comux_manifest_t :=
  if (idx <? 0) || (idx >=? Z.of_nat (length (cinfo_list m))) then (None, m)
  else match nth_error (cinfo_list m) (Z.to_nat idx) with
       | Some cinfo =>
           (Some cinfo,
            mk_manifest
              (set_num_chunks (header m) (to_u32 (num_chunks (header m) - 1)))
              (firstn (Z.to_nat idx) (cinfo_list m)
                 ++ skipn (S (Z.to_nat idx)) (cinfo_list m)))
       | None => (None, m)
       end.


End Comux.

(* ===================================================================== *)
(** * preload.c: the controller thread and the chunk threads *)
(* ===================================================================== *)
Module Preload.
Import Utils Comux.

Definition CHUNKS_MAX : Z := Z.shiftl 1 13.
Definition CTABLE_MAXLEN : Z := Z.shiftl 1 12.
Definition EXIT_SUCCESS : Z := 0.

(** ** The connection table *)
Inductive ctable_status_t : Set :=
  | CONN_STATUS_DEAD
  | CONN_STATUS_ALIVE
  | CONN_STATUS_CLOSED_REMOTE.

Record ctable_entry_t : Set := mk_entry {
  entry_fd : Z;
  status : ctable_status_t
}.

(** An array indexed by integers, and the store [a[i] = v]. *)
Definition upd {A : Type} (a : Z -> A) (i : Z) (v : A) : Z -> A :=
  fun j => if j =? i then v else a j.

(** ** The target server and the operating system
    What the calls on sockets return is the environment's choice:
    - [connect_ok cid]: [getsockname], [socket] and [connect] all succeed
      when a connection for [cid] is opened;
    - [on_send n count]: the result of the [n]-th [send] of the run, which
      was asked to take [count] bytes;
    - [on_recv n]: what the target answers to the [n]-th wait for a
      response: the pieces successive [recv] calls return, and how the
      sequence ends;
    - [shutdown_ok cid]: [shutdown(sockfd, SHUT_WR)] succeeds. *)
Inductive send_result : Set :=
  | SendAccepted (n : Z)
  | SendEPIPE
  | SendECONNRESET
  | SendError.

Inductive recv_end : Set :=
  | RecvEOF
  | RecvECONNRESET
  | RecvError
  | RecvNever.

Record target_t : Type := mk_target {
  connect_ok : Z -> bool;
  on_send : nat -> Z -> send_result;
  on_recv : nat -> list (list byte) * recv_end;
  shutdown_ok : Z -> bool
}.

(** ** What a run does, as seen from outside *)
Inductive event : Set :=
  | EvSpawn (thread_id : Z) (chunk : nat) (is_final : bool)
  | EvSkip (thread_id : Z)
  | EvConnect (cid : Z)
  | EvLoad (thread_id : Z) (nbytes : Z)
  | EvSend (cid : Z) (bytes : list byte)
  | EvShutdown (cid : Z)
  | EvClose (cid : Z).

(** The state of the process: standard input, the connection table, the
    number of [send] calls and of waits for a response so far, what went
    to standard output, and the events so far (oldest first). *)
Record process_t : Type := mk_process {
  stdin : fd_t;
  ctable : Z -> ctable_entry_t;
  sends : nat;
  recvs : nat;
  stdout : list byte;
  events : list event
}.

Definition set_stdin (p : process_t) (f : fd_t) :=
  mk_process f (ctable p) (sends p) (recvs p) (stdout p) (events p).
Definition set_ctable (p : process_t) (t : Z -> ctable_entry_t) :=
  mk_process (stdin p) t (sends p) (recvs p) (stdout p) (events p).
Definition set_sends (p : process_t) (n : nat) :=
  mk_process (stdin p) (ctable p) n (recvs p) (stdout p) (events p).
Definition set_recvs (p : process_t) (n : nat) :=
  mk_process (stdin p) (ctable p) (sends p) n (stdout p) (events p).
Definition put_stdout (p : process_t) (bytes : list byte) :=
  mk_process (stdin p) (ctable p) (sends p) (recvs p) (stdout p ++ bytes)
             (events p).
Definition log_event (p : process_t) (e : event) :=
  mk_process (stdin p) (ctable p) (sends p) (recvs p) (stdout p)
             (events p ++ [e]).

(** How a thread's code ends: it returns (or calls [pthread_exit]), it
    ends the whole process with an exit code, it blocks for ever, or the
    model's fuel ran out. *)
Inductive outcome (A : Type) : Type :=
  | Returned (a : A) (p : process_t)
  | Exited (code : Z) (p : process_t)
  | Blocked (p : process_t)
  | OutOfFuel.
Arguments Returned {A} a p.
Arguments Exited {A} code p.
Arguments Blocked {A} p.
Arguments OutOfFuel {A}.

(** [fatality] and [fatality_errno]: [exit(FATAL_EXIT_CODE)] (or [_exit]). *)
Definition fatality {A : Type} (p : process_t) : outcome A :=
  Exited FATAL_EXIT_CODE p.

(** Sequencing of thread code. *)
Definition bind {A B : Type} (m : outcome A) (k : A -> process_t -> outcome B)
  : outcome B :=
  match m with
  | Returned a p => k a p
  | Exited code p => Exited code p
  | Blocked p => Blocked p
  | OutOfFuel => OutOfFuel
  end.

(** ** Chunk threads *)
(** [cinfo] points to one of the heap structures [chunks[i]]: the
    parameters carry that index [chunk] next to the structure's contents. *)
Record chunk_thread_params_t : Set := mk_params {
  chunk : nat;
  cinfo : comux_cinfo_t;
  thread_id : Z;
  is_final_chunk : bool
}.

(** [chunk_get_connection]: [Returned (Some fd)] is the descriptor;
    [Returned None] is the [pthread_exit] taken when the target had closed
    the connection. New descriptors are numbered by connection id. *)
Definition chunk_get_connection (tg : target_t) (tid cid : Z) (p : process_t)
  : outcome (option Z) :=
  let entry := ctable p cid in
  match status entry with
  | CONN_STATUS_ALIVE => Returned (Some (entry_fd entry)) p
  | CONN_STATUS_CLOSED_REMOTE => Returned None (log_event p (EvSkip tid))
  | CONN_STATUS_DEAD =>
      if connect_ok tg cid then
        let sockfd := cid in
        let p := set_ctable p (upd (ctable p) cid
                                   (mk_entry sockfd CONN_STATUS_ALIVE)) in
        Returned (Some sockfd) (log_event p (EvConnect cid))
      else fatality p
  end.

(** [chunk_load_data]: seek standard input to the chunk's data segment and
    read it. [lseek] fails on a negative offset. *)
Definition chunk_load_data (tid : Z) (c : comux_cinfo_t) (p : process_t)
  : outcome (Z * comux_cinfo_t) :=
  let off := offset c + 20 in
  if off <? 0 then fatality p else
  match comux_cinfo_data_read c (lseek_set (stdin p) off) with
  | None => OutOfFuel
  | Some (rcount, c, fd) =>
      Returned (rcount, c) (log_event (set_stdin p fd) (EvLoad tid rcount))
  end.

(** The [send] loop of [chunk_send_data]:
    [while ((wcount = send(sockfd, dptr + wcount,
                           MIN(cinfo->len - total_wcount, interval_size),
                           MSG_NOSIGNAL)) > 0)
       total_wcount += wcount;]
    The pointer argument is evaluated with the previous value of [wcount].
    A blocking [send] of [count > 0] bytes that does not fail takes between
    1 and [count] bytes; a [send] of no bytes returns 0. The loop returns
    the last [wcount] ([-1] on error, with the error) and [total_wcount]. *)
Definition accepted (r : Z) (count : Z) : Z :=
  if count <=? 0 then 0 else Z.max 1 (Z.min r count).

Fixpoint send_loop (fuel : nat) (tg : target_t) (cid : Z) (dptr : list byte)
    (len interval_size wcount total_wcount : Z) (p : process_t)
  : outcome (send_result * Z) :=
  match fuel with
  | O => OutOfFuel
  | S fuel' =>
      let count := MIN (len - total_wcount) interval_size in
      let r := on_send tg (sends p) count in
      let p := set_sends p (S (sends p)) in
      match r with
      | SendAccepted n =>
          let wcount' := accepted n count in
          let p := log_event p (EvSend cid (bytes_at dptr wcount wcount')) in
          if wcount' >? 0
          then send_loop fuel' tg cid dptr len interval_size wcount'
                         (total_wcount + wcount') p
          else Returned (SendAccepted 0, total_wcount) p
      | _ => Returned (r, total_wcount) p
      end
  end.

Definition chunk_send_data (tg : target_t) (chunk_thread_write_buffsize : Z)
    (chunk_thread_is_final : bool) (c : comux_cinfo_t) (sockfd : Z)
    (p : process_t) : outcome Z :=
  let dptr := data c in
  let interval_size := if len c >? chunk_thread_write_buffsize
                       then chunk_thread_write_buffsize else len c in
  bind (send_loop (S (Z.to_nat (len c))) tg (id c) dptr (len c)
                  interval_size 0 0 p)
       (fun '(last, total_wcount) p =>
    match last with
    | SendEPIPE | SendECONNRESET =>
        let p := set_ctable p
                   (upd (ctable p) (id c)
                        (mk_entry (entry_fd (ctable p (id c)))
                                  CONN_STATUS_CLOSED_REMOTE)) in
        Returned 0 (log_event p (EvClose (id c)))
    | SendError => fatality p
    | SendAccepted _ =>
        if chunk_thread_is_final
           && (Z.land (flags c) COMUX_CHUNK_FLAGS_NO_SHUTDOWN =? 0)
        then if shutdown_ok tg (id c)
             then Returned total_wcount (log_event p (EvShutdown (id c)))
             else fatality p
        else Returned total_wcount p
    end).

(** [chunk_recv_data]: every piece received goes to standard output, a
    newline follows a non-empty response, and the connection is marked
    closed by the target when nothing came or the connection was reset. *)
Definition chunk_recv_data (tg : target_t) (c : comux_cinfo_t) (sockfd : Z)
    (p : process_t) : outcome Z :=
  let '(pieces, ending) := on_recv tg (recvs p) in
  let p := set_recvs p (S (recvs p)) in
  let received := concat pieces in
  let total_rcount := Z.of_nat (length received) in
  let p := put_stdout p received in
  match ending with
  | RecvNever => Blocked p
  | RecvError =>
      fatality (if total_rcount >? 0 then put_stdout p [x0a] else p)
  | RecvEOF | RecvECONNRESET =>
      let p := if total_rcount >? 0 then put_stdout p [x0a] else p in
      let do_conn_close :=
        match ending with
        | RecvECONNRESET => true
        | _ => total_rcount =? 0
        end in
      if do_conn_close then
        let p := set_ctable p
                   (upd (ctable p) (id c)
                        (mk_entry (entry_fd (ctable p (id c)))
                                  CONN_STATUS_CLOSED_REMOTE)) in
        Returned total_rcount (log_event p (EvClose (id c)))
      else Returned total_rcount p
  end.

(** [chunk_main] *)
Definition chunk_main (tg : target_t) (chunk_thread_write_buffsize : Z)
    (params : chunk_thread_params_t) (p : process_t) : outcome unit :=
  let c := cinfo params in
  let chunk_thread_is_final := is_final_chunk params in
  let chunk_thread_id := thread_id params in
  bind (chunk_get_connection tg chunk_thread_id (id c) p) (fun conn p =>
  match conn with
  | None => Returned tt p
  | Some fd =>
      if fd =? -1 then fatality p else
      bind (chunk_load_data chunk_thread_id c p) (fun '(data_length, c) p =>
      if data_length =? 0 then fatality p else
      bind (chunk_send_data tg chunk_thread_write_buffsize
                            chunk_thread_is_final c fd p) (fun sent p =>
      if sent =? 0 then Returned tt p else
      if negb (Z.land (flags c) COMUX_CHUNK_FLAGS_AWAIT_RESPONSE =? 0)
      then bind (chunk_recv_data tg c fd p) (fun _ p => Returned tt p)
      else Returned tt p))
  end).

(** ** The controller thread
    An element of the manifest's list is a chunk structure's address, here
    its index in [chunks[]], with the structure's contents. *)
Abbreviation elem := (nat * comux_cinfo_t)%type.

(** The scan for the lowest scheduling value: [next] starts as the head
    and [if (cinfo->sched < next->sched) next = cinfo;] runs over the
    list. *)
Fixpoint find_next (next : elem) (l : list elem) : elem :=
  match l with
  | [] => next
  | e :: rest =>
      find_next (if sched (snd e) <? sched (snd next) then e else next) rest
  end.

(** [dllist_remove(&manifest.cinfo_list, &next->elem)] *)
Fixpoint dllist_remove (l : list elem) (next : elem) : list elem :=
  match l with
  | [] => []
  | e :: rest =>
      if Nat.eqb (fst e) (fst next) then rest
      else e :: dllist_remove rest next
  end.

(** The loop that reads the chunk headers: [n] headers are left to read,
    [i] is the index of the next one. [ccheck_buff] counts, in bytes, the
    chunks of each connection. *)
Fixpoint read_chunk_headers (n : nat) (i : nat) (h : comux_header_t)
    (l : list elem) (ccheck_buff : Z -> Z) (p : process_t)
  : outcome (list elem * (Z -> Z)) :=
  match n with
  | O => Returned (l, ccheck_buff) p
  | S n' =>
      let '(res, current, fd) := comux_cinfo_read comux_cinfo_init (stdin p) in
      let p := set_stdin p fd in
      if nonzero res then fatality p else
      if id current >=? num_conns h then fatality p else
      let ccheck_buff :=
        upd ccheck_buff (id current) (to_u8 (ccheck_buff (id current) + 1)) in
      let l := l ++ [(i, current)] in
      let target := pos (stdin p) + to_ssize (len current) in
      if (target <? 0) || (target >=? 2 ^ 63) then fatality p else
      let p := set_stdin p (lseek_set (stdin p) target) in
      read_chunk_headers n' (S i) h l ccheck_buff p
  end.

(** The spawning loop, with [wait_for_chunk_threads] set: each thread is
    joined right after [pthread_create]. [start_routine] is the thread's
    function. The loop runs once per element of the list. *)
Fixpoint controller_loop
    (start_routine : chunk_thread_params_t -> process_t -> outcome unit)
    (fuel : nat) (l : list elem) (ccheck_buff : Z -> Z) (idx : Z)
    (p : process_t) : outcome unit :=
  match l with
  | [] => Returned tt p
  | e :: _ =>
      match fuel with
      | O => OutOfFuel
      | S fuel' =>
          let next := find_next e l in
          let l := dllist_remove l next in
          let count := to_u8 (ccheck_buff (id (snd next)) - 1) in
          let ccheck_buff := upd ccheck_buff (id (snd next)) count in
          let is_final_conn_chunk := count =? 0 in
          let params :=
            mk_params (fst next) (snd next) idx is_final_conn_chunk in
          let p := log_event p (EvSpawn idx (fst next) is_final_conn_chunk) in
          bind (start_routine params p) (fun _ p =>
          controller_loop start_routine fuel' l ccheck_buff (idx + 1) p)
      end
  end.

(** [controller_main], up to [controller_exit], in the default mode:
    [wait_for_chunk_threads] is 1 unless GURTHANG_LIB_NO_WAIT is in the
    environment, and each chunk thread is then joined before the next one
    is spawned. *)
Definition controller_main (tg : target_t) (chunk_thread_write_buffsize : Z)
    (p : process_t) : outcome unit :=
  let '(res, h, fd) := comux_header_read comux_header_init (stdin p) in
  let p := set_stdin p fd in
  if nonzero res then fatality p else
  if num_conns h >? CTABLE_MAXLEN then fatality p else
  let num_chunks := num_chunks h in
  if num_chunks >? CHUNKS_MAX then fatality p else
  bind (read_chunk_headers (Z.to_nat num_chunks) 0 h [] (fun _ => 0) p)
       (fun '(l, ccheck_buff) p =>
  if existsb (fun i => ccheck_buff (Z.of_nat i) =? 0)
             (seq 0 (Z.to_nat (num_conns h)))
  then fatality p else
  bind (controller_loop (chunk_main tg chunk_thread_write_buffsize)
                        (length l) l ccheck_buff 0 p)
       (fun _ p => Exited EXIT_SUCCESS p)).

(** A process that has just started: nothing connected, nothing sent. *)
Definition start_process (input : list byte) : process_t :=
  mk_process (mk_fd input 0) (fun _ => mk_entry 0 CONN_STATUS_DEAD)
             0 0 [] [].

(** The chunks [pthread_create] was called for, oldest first. *)
Fixpoint spawned (evs : list event) : list nat :=
  match evs with
  | [] => []
  | EvSpawn _ chunk _ :: rest => chunk :: spawned rest
  | _ :: rest => spawned rest
  end.

(** The bytes the target received on connection [cid]. *)
Fixpoint received_on (cid : Z) (evs : list event) : list byte :=
  match evs with
  | [] => []
  | EvSend c bytes :: rest =>
      if c =? cid then bytes ++ received_on cid rest else received_on cid rest
  | _ :: rest => received_on cid rest
  end.

(** The order in which the controller spawns threads for the chunks of a
    list, when every thread returns. *)
Definition chunks_of (l : list comux_cinfo_t) : list elem :=
  combine (seq 0 (length l)) l.

Definition dispatch_order (l : list comux_cinfo_t) : list nat :=
  match controller_loop (fun _ p => Returned tt p) (length l)
                        (chunks_of l) (fun _ => 0) 0 (start_process [])
  with
  | Returned _ p => spawned (events p)
  | Exited _ p => spawned (events p)
  | Blocked p => spawned (events p)
  | OutOfFuel => []
  end.

(** The order the controller implements: by [sched], then by position. *)
Definition before (a b : elem) : Prop :=
  sched (snd a) < sched (snd b) \/
  (sched (snd a) = sched (snd b) /\ (fst a < fst b)%nat).

(** The scheduling value of the [i]-th chunk of the array. *)
Definition sched_at (l : list comux_cinfo_t) (i : nat) : Z :=
  sched (nth i l comux_cinfo_init).

(** Chunks (conn, sched) = (0,8), (1,2), (1,4), (0,1). *)
Definition interleaved_chunks : list comux_cinfo_t :=
  [mk_cinfo 0 1 8 0 ["D"%byte] 0; mk_cinfo 1 1 2 0 ["B"%byte] 0;
   mk_cinfo 1 1 4 0 ["C"%byte] 0; mk_cinfo 0 1 1 0 ["A"%byte] 0].


(** The byte counts of the payload loads of a run, oldest first. *)
Fixpoint loads (evs : list event) : list Z :=
  match evs with
  | [] => []
  | EvLoad _ n :: rest => n :: loads rest
  | _ :: rest => loads rest
  end.

(** A chunk whose data segment loads as no bytes from [input]: its
    declared length is zero or nothing is left at its data offset. *)
Definition loads_nothing (input : list byte) (c : comux_cinfo_t) : Prop :=
  Z.min (Z.min (len c) COMUX_CHUNK_DATA_MAXLEN)
        (available input (offset c + 20)) = 0.


(** A target that takes every [send] in full. *)
Definition takes_all (tg : target_t) : Prop :=
  forall n count, on_send tg n count = SendAccepted count.

(** A payload of four bytes sent in slices of two bytes. *)
Definition four_bytes : comux_cinfo_t :=
  mk_cinfo 0 4 0 0 ["A"; "B"; "C"; "D"]%byte 0.

(** ** The events of one connection
    The events on connection [cid], and the events that are traffic. What
    has happened on a connection agrees with its status in the table:
    nothing on a dead one; on a live one a [connect] and then traffic only;
    on one the target has closed, the same with the closing at the end. *)
Definition on_conn (cid : Z) (e : event) : bool :=
  match e with
  | EvConnect c => c =? cid
  | EvSend c _ => c =? cid
  | EvShutdown c => c =? cid
  | EvClose c => c =? cid
  | _ => false
  end.

Definition traffic (e : event) : bool :=
  match e with
  | EvSend _ _ => true
  | EvShutdown _ => true
  | _ => false
  end.

Definition conn_ok (p : process_t) (cid : Z) : Prop :=
  let trace := filter (on_conn cid) (events p) in
  match status (ctable p cid) with
  | CONN_STATUS_DEAD => trace = []
  | CONN_STATUS_ALIVE =>
      exists rest, trace = EvConnect cid :: rest /\ forallb traffic rest = true
  | CONN_STATUS_CLOSED_REMOTE =>
      exists rest, trace = EvConnect cid :: rest ++ [EvClose cid] /\
                   forallb traffic rest = true
  end.

Definition conns_ok (p : process_t) : Prop := forall cid, conn_ok p cid.


(** ** The flag of a connection's final chunk
    The chunk and the flag of every thread spawned, oldest first; the
    number of chunks of connection [cid] in a list of the manifest; and
    the connection of the chunk with index [k]. *)
Fixpoint spawn_flags (evs : list event) : list (nat * bool) :=
  match evs with
  | [] => []
  | EvSpawn _ chunk is_final :: rest => (chunk, is_final) :: spawn_flags rest
  | _ :: rest => spawn_flags rest
  end.

Definition elems_on (l : list elem) (cid : Z) : Z :=
  Z.of_nat (length (filter (fun e => id (snd e) =? cid) l)).

Definition conn_of (l : list elem) (k : nat) : Z :=
  id (snd (nth k l (O, comux_cinfo_init))).

(** The input made of the four chunks above, the process before and
    after the header loop, and what that loop has read and counted. *)
Definition interleaved_input : list byte :=
  snd (comux_manifest_write_buffer
         (mk_manifest (mk_header COMUX_MAGIC 0 2 4) interleaved_chunks) 4096).

Definition interleaved_at (pos : Z) : process_t :=
  set_stdin (start_process interleaved_input) (mk_fd interleaved_input pos).

Definition interleaved_elems : list elem :=
  [(0%nat, mk_cinfo 0 1 8 0 [] 20); (1%nat, mk_cinfo 1 1 2 0 [] 41);
   (2%nat, mk_cinfo 1 1 4 0 [] 62); (3%nat, mk_cinfo 0 1 1 0 [] 83)].

Definition interleaved_counts : Z -> Z :=
  fold_left (fun ccheck_buff e =>
               upd ccheck_buff (id (snd e))
                   (to_u8 (ccheck_buff (id (snd e)) + 1)))
            interleaved_elems (fun _ => 0).










End Preload.

(* ===================================================================== *)
(** * utils/dict.h, utils/dict.c: the dictionary *)
(* ===================================================================== *)
Module Dict.
Import Utils.

Definition DICT_ENTRY_MAXLEN : Z := 128.
Definition DICT_MAXLEN : Z := 2048.

(** An entry: the characters of its heap string (without the terminator)
    and its [len] field. A dictionary is the used part of its [entries]
    array; [size] is the length of the list. *)
Record dict_entry_t : Set := mk_dict_entry {
  str : list byte;
  len : Z
}.

Definition dict_t : Set := list dict_entry_t.
Definition size (d : dict_t) : Z := Z.of_nat (length d).
Definition dict_init : dict_t := [].

(** The C string that starts at a pointer into [s]: the bytes before the
    first terminator. *)
Fixpoint cstr (s : list byte) : list byte :=
  match s with
  | [] => []
  | b :: rest => if Byte.eqb b x00 then [] else b :: cstr rest
  end.

(** [strcmp] on two strings given by their characters, which are compared
    as [unsigned char]; only the sign of the result is used. *)
Fixpoint strcmp (a b : list byte) : Z :=
  match a, b with
  | [], [] => 0
  | [], y :: _ => - Z_of_byte y
  | x :: _, [] => Z_of_byte x
  | x :: a', y :: b' =>
      if Z_of_byte x =? Z_of_byte y then strcmp a' b'
      else Z_of_byte x - Z_of_byte y
  end.

Definition dict_entry_cmp (de1 de2 : dict_entry_t) : Z :=
  strcmp (str de1) (str de2).

(** [dict_entry_init]: [None] is the failure return; [snprintf] copies at
    most [str_len] characters of the string. *)
Definition dict_entry_init (s : list byte) (str_len : Z) : option dict_entry_t :=
  if (str_len =? 0) || (str_len >? DICT_ENTRY_MAXLEN) then None
  else Some (mk_dict_entry (firstn (Z.to_nat str_len) (cstr s)) str_len).

(** [qsort] with [dict_entry_cmp]. The library's algorithm is not fixed;
    the entries of a dictionary compare different pairwise, so every
    sorting algorithm gives the same array. Here: insertion. *)
Fixpoint qsort_insert (e : dict_entry_t) (l : list dict_entry_t)
  : list dict_entry_t :=
  match l with
  | [] => [e]
  | x :: rest =>
      if dict_entry_cmp e x <=? 0 then e :: l else x :: qsort_insert e rest
  end.

Definition qsort (l : list dict_entry_t) : list dict_entry_t :=
  fold_right qsort_insert [] l.

Definition dict_sort (d : dict_t) : dict_t :=
  if size d =? 0 then d else qsort d.

(** The binary search of [dict_search]; the interval shrinks at every
    turn, so [size + 1] turns are enough. Returns [idx]. *)
Fixpoint search_loop (fuel : nat) (d : dict_t) (word : list byte)
    (left right : Z) : Z :=
  match fuel with
  | O => -1
  | S fuel' =>
      if left <=? right then
        let mid := (left + right) / 2 in
        let comparison :=
          dict_entry_cmp (mk_dict_entry word (Z.of_nat (length word)))
                         (nth (Z.to_nat mid) d (mk_dict_entry [] 0)) in
        if comparison <? 0 then search_loop fuel' d word left (mid - 1)
        else if comparison >? 0 then search_loop fuel' d word (mid + 1) right
        else mid
      else -1
  end.

Definition dict_search (d : dict_t) (word : list byte) : option dict_entry_t :=
  let idx := search_loop (S (length d)) d (cstr word) 0 (size d - 1) in
  if idx <? 0 then None else nth_error d (Z.to_nat idx).

(** [dict_add]: success with the new dictionary, the failure return, or a
    store to [entries[size]] with [size] at [DICT_MAXLEN], which is past
    the end of the array: the function has no test of [size]. *)
Inductive add_result : Set :=
  | Added (d : dict_t)
  | AddFailed
  | StoredPastEnd.

Definition dict_add (d : dict_t) (s : list byte) (str_len : Z) : add_result :=
  match dict_search d s with
  | Some _ => AddFailed
  | None =>
      match dict_entry_init s str_len with
      | None => AddFailed
      | Some de =>
          if size d <? DICT_MAXLEN then Added (dict_sort (d ++ [de]))
          else StoredPastEnd
      end
  end.

(** The lines [getline] returns for a file: each ends with its newline,
    except the last one when the file does not end with a newline. [cur]
    holds the bytes of the current line, last first. *)
Fixpoint getlines (cur : list byte) (file : list byte) : list (list byte) :=
  match file with
  | [] => match cur with [] => [] | _ => [rev cur] end
  | b :: rest =>
      if Byte.eqb b x0a then rev (b :: cur) :: getlines [] rest
      else getlines (b :: cur) rest
  end.

(** [dict_from_file] on a file that [fopen] opens: the dictionary, [NULL],
    or the store past the end of [entries]. [line[rcount - 1] = 0] cuts
    the line's last byte. *)
Inductive load_result : Set :=
  | Loaded (d : dict_t)
  | LoadFailed
  | LoadStoredPastEnd.

Fixpoint load_lines (d : dict_t) (lines : list (list byte)) : load_result :=
  match lines with
  | [] => Loaded d
  | line :: rest =>
      let rcount := Z.of_nat (length line) in
      let line := firstn (Z.to_nat (rcount - 1)) line ++ [x00] in
      match dict_add d line (rcount - 1) with
      | Added d => load_lines d rest
      | AddFailed => LoadFailed
      | StoredPastEnd => LoadStoredPastEnd
      end
  end.

Definition dict_from_file (file : list byte) : load_result :=
  load_lines dict_init (getlines [] file).

(** The order of a sorted dictionary. *)
Definition entry_le (a b : dict_entry_t) : Prop := dict_entry_cmp a b <= 0.

(** What holds of every dictionary the loader hands out. *)
Definition dict_ok (d : dict_t) : Prop :=
  size d <= DICT_MAXLEN /\
  Forall (fun e => 0 < len e <= DICT_ENTRY_MAXLEN /\
                   Z.of_nat (length (str e)) <= len e) d /\
  Sorted entry_le d.

(** Words that the loader takes as they are: not empty, at most 128
    bytes, without terminator or newline; and lists of words in strictly
    ascending [strcmp] order. *)
Definition plain_word (w : list byte) : bool :=
  negb (Z.of_nat (length w) =? 0) && (Z.of_nat (length w) <=? DICT_ENTRY_MAXLEN)
  && forallb (fun b => negb (Byte.eqb b x00) && negb (Byte.eqb b x0a)) w.

Fixpoint ascending (ws : list (list byte)) : bool :=
  match ws with
  | [] => true
  | w :: rest =>
      match rest with
      | [] => true
      | w' :: _ => (strcmp w w' <? 0) && ascending rest
      end
  end.

(** The file with one word per line, every line ended by a newline, and
    the entry a word gives. *)
Definition file_of (ws : list (list byte)) : list byte :=
  concat (map (fun w => w ++ [x0a]) ws).

Definition entry_of (w : list byte) : dict_entry_t :=
  mk_dict_entry w (Z.of_nat (length w)).

Definition strlt (a b : list byte) : Prop := strcmp a b < 0.

(** [n] different two-character words, in ascending order. *)
Definition numbered_word (i : nat) : list byte :=
  [byte_of_Z (33 + Z.of_nat i / 64); byte_of_Z (33 + Z.of_nat i mod 64)].
Definition numbered_words (n : nat) : list (list byte) :=
  map numbered_word (seq 0 n).

(** The characters of a C string: none is the terminator. *)
Definition c_chars (s : list byte) : Prop := Forall (fun b => b <> x00) s.

(** A dictionary whose entries are C strings in strictly ascending
    [strcmp] order. *)
Definition strictly_sorted (d : dict_t) : Prop :=
  StronglySorted (fun a b => strlt (str a) (str b)) d /\
  Forall (fun e => c_chars (str e)) d.

(** The words of a sample dictionary, in ascending order. *)
Definition abc_words : list (list byte) :=
  [["a"]; ["a"; "b"]; ["b"; "c"]]%byte.

(** The word the loader takes from a line: the C string of the line
    without its last byte. *)
Definition line_word (line : list byte) : list byte := cstr (removelast line).

(** The lines the loader accepts, and the entry a line gives. *)
Definition line_ok (line : list byte) : Prop :=
  (2 <= length line <= 129)%nat.

Definition line_entry (line : list byte) : dict_entry_t :=
  mk_dict_entry (line_word line) (Z.of_nat (length line) - 1).

End Dict.

(* ===================================================================== *)
(** * The [float] arithmetic of the trimming feedback *)
(* ===================================================================== *)
Module Float.
Import Stdlib.QArith.QArith.
Local Open Scope Z_scope.

(** A finite [float] or [double] is the rational number it stands for.
    The mutator only divides [int] counters converted to [float], so a
    quotient is zero or lies between [2 ^ -31] and [2 ^ 31]: neither
    subnormal numbers nor overflow occur, and rounding is the one of
    normal numbers, to the nearest value of [prec] significant bits, ties
    to even. *)

(** The integer nearest to [p / q] for [q > 0], ties to even. *)
Definition rne (p q : Z) : Z :=
  let f := p / q in
  let r := p mod q in
  if 2 * r <? q then f
  else if q <? 2 * r then f + 1
  else if Z.even f then f else f + 1.

(** The exponent [e] with [2 ^ e <= p / q < 2 ^ (e + 1)], for positive
    [p] and [q] with [p / q] at least [2 ^ -64]. *)
Definition binade (p q : Z) : Z := Z.log2 (p * 2 ^ 64 / q) - 64.









End Float.

(* ===================================================================== *)
(** * mutator.h, mutator.c: validators, fuzz driver, trimming feedback *)
(* ===================================================================== *)
Module Mutator.
Import Utils Comux.

(** [#define MAX_CONNECTIONS 1 << 12] and [#define MAX_CHUNKS 1 << 13]:
    in [x > MAX_CONNECTIONS] the shift binds tighter than the comparison. *)
Definition MAX_CONNECTIONS : Z := Z.shiftl 1 12.
Definition MAX_CHUNKS : Z := Z.shiftl 1 13.

Module Messages.
Import Stdlib.Strings.String.
Local Open Scope string_scope.
Definition too_many_connections : string := "too many connections specified".
Definition too_many_chunks : string := "too many chunks specified".
Definition zero_connections : string :=
  "zero connections are specified by the comux header".
Definition zero_chunks : string :=
  "zero chunks are specified by the comux header".
Definition bad_conn_id : string := "out-of-bounds connection ID".
Definition bad_flags : string := "unsupported flag bits are enabled".
End Messages.

(** [check_comux_header]: an error message, or [None] for [NULL]. *)
Definition check_comux_header (h : comux_header_t) : option String.string :=
  if num_conns h >? MAX_CONNECTIONS then Some Messages.too_many_connections
  else if num_chunks h >? MAX_CHUNKS then Some Messages.too_many_chunks
  else if num_conns h =? 0 then Some Messages.zero_connections
  else if num_chunks h =? 0 then Some Messages.zero_chunks
  else None.

(** [check_comux_cinfo]: [mask] is [~((uint32_t) COMUX_CHUNK_FLAGS_ALL)]. *)
Definition check_comux_cinfo (h : comux_header_t) (c : comux_cinfo_t)
  : option String.string :=
  if id c >=? num_conns h then Some Messages.bad_conn_id else
  let mask := to_u32 (Z.lnot COMUX_CHUNK_FLAGS_ALL) in
  if negb (Z.land (flags c) mask =? 0) then Some Messages.bad_flags
  else None.

(** ** The fuzz driver *)

Inductive gurthang_strategy_t : Set :=
  | STRAT_CHUNK_DATA_HAVOC
  | STRAT_CHUNK_DATA_EXTRA
  | STRAT_CHUNK_SCHED_BUMP
  | STRAT_CHUNK_SPLIT
  | STRAT_CHUNK_SPLICE
  | STRAT_CHUNK_DICT_SWAP
  | STRAT_LENGTH
  | STRAT_FIXUP
  | STRAT_UNKNOWN.

Definition strategy_value (s : gurthang_strategy_t) : Z :=
  match s with
  | STRAT_CHUNK_DATA_HAVOC => 0
  | STRAT_CHUNK_DATA_EXTRA => 1
  | STRAT_CHUNK_SCHED_BUMP => 2
  | STRAT_CHUNK_SPLIT => 3
  | STRAT_CHUNK_SPLICE => 4
  | STRAT_CHUNK_DICT_SWAP => 5
  | STRAT_LENGTH => 6
  | STRAT_FIXUP => 7
  | STRAT_UNKNOWN => 8
  end.

(** [(gurthang_strategy_t) idx]. *)
Definition strategy_of_index (idx : Z) : gurthang_strategy_t :=
  if idx =? 0 then STRAT_CHUNK_DATA_HAVOC
  else if idx =? 1 then STRAT_CHUNK_DATA_EXTRA
  else if idx =? 2 then STRAT_CHUNK_SCHED_BUMP
  else if idx =? 3 then STRAT_CHUNK_SPLIT
  else if idx =? 4 then STRAT_CHUNK_SPLICE
  else if idx =? 5 then STRAT_CHUNK_DICT_SWAP
  else if idx =? 6 then STRAT_LENGTH
  else if idx =? 7 then STRAT_FIXUP
  else STRAT_UNKNOWN.

(** What a call of the fuzz hook takes from outside the code in this
    file: the results of the successive calls of [rand]; AFL++'s
    [surgical_havoc_mutate], given as the bytes it leaves in the buffer
    and the number of [rand] calls made once it returns; the bytes an
    uninitialised array holds ([uninitialised k i] is byte [i] of the
    [k]-th such array of a call) and the fields of the uninitialised
    [new_cinfo]; the globals [use_dicts] and [dlist]; and [mut->strat]. *)
Record environment : Type := mk_environment {
  rand_values : nat -> Z;
  surgical_havoc_mutate : list byte -> nat -> list byte * nat;
  uninitialised : nat -> nat -> byte;
  uninitialised_cinfo : comux_cinfo_t;
  use_dicts : Z;
  dlist : list Dict.dict_t;
  strat : gurthang_strategy_t
}.

(** A computation that calls [rand]: from the number of calls made so
    far to a value and the new number of calls, a division by zero
    ([rand() % 0]), or a loop that has not ended within its bound. *)
Inductive drawn (A : Type) : Type :=
  | Drawn (a : A) (calls : nat)
  | DivisionByZero
  | Spinning.
Arguments Drawn {A} a calls.
Arguments DivisionByZero {A}.
Arguments Spinning {A}.

Definition draw (A : Type) : Type := nat -> drawn A.

Definition pure {A : Type} (a : A) : draw A := fun calls => Drawn a calls.

Definition and_then {A B : Type} (m : draw A) (k : A -> draw B) : draw B :=
  fun calls =>
    match m calls with
    | Drawn a calls' => k a calls'
    | DivisionByZero => DivisionByZero
    | Spinning => Spinning
    end.

Definition division_by_zero {A : Type} : draw A := fun _ => DivisionByZero.
Definition spinning {A : Type} : draw A := fun _ => Spinning.

Definition RAND_MAX : Z := 2147483647.

(** Reading [cinfos[i]] and other array elements, and storing to them. *)
Definition cinfo_at (cinfos : list comux_cinfo_t) (i : Z) : comux_cinfo_t :=
  nth (Z.to_nat i) cinfos comux_cinfo_init.

Fixpoint update_nth {A : Type} (n : nat) (f : A -> A) (l : list A) : list A :=
  match l, n with
  | [], _ => []
  | x :: rest, O => f x :: rest
  | x :: rest, S n' => x :: update_nth n' f rest
  end.

Definition cinfo_update (cinfos : list comux_cinfo_t) (i : Z)
    (f : comux_cinfo_t -> comux_cinfo_t) : list comux_cinfo_t :=
  update_nth (Z.to_nat i) f cinfos.

(** The C string at a pointer: the bytes before the first terminator. *)
Fixpoint c_string (s : list byte) : list byte :=
  match s with
  | [] => []
  | b :: rest => if Byte.eqb b x00 then [] else b :: c_string rest
  end.

Fixpoint is_prefix (needle hay : list byte) : bool :=
  match needle, hay with
  | [], _ => true
  | _ :: _, [] => false
  | x :: needle', y :: hay' => Byte.eqb x y && is_prefix needle' hay'
  end.

(** [strstr(hay, needle) - hay] on C strings, [None] for [NULL]. *)
Fixpoint strstr (hay needle : list byte) (pos : Z) : option Z :=
  if is_prefix needle hay then Some pos
  else match hay with
       | [] => None
       | _ :: hay' => strstr hay' needle (pos + 1)
       end.

Section Fuzz.
Notation "x <- m ;; k" := (and_then m (fun x => k))
  (at level 61, m at next level, right associativity).
Notation "' pat <- m ;; k" := (and_then m (fun x => match x with pat => k end))
  (at level 61, pat pattern, m at next level, right associativity).

Variable E : environment.
(** The bound on the turns of the loops that draw until a value fits. *)
Variable fuel : nat.

Definition rand : draw Z :=
  fun calls => Drawn (rand_values E calls mod (RAND_MAX + 1)) (S calls).

(** [#define RAND_UNDER(ceiling) (rand() % (ceiling))]. *)
Definition RAND_UNDER (ceiling : Z) : draw Z :=
  r <- rand ;;
  if ceiling =? 0 then division_by_zero else pure (r mod ceiling).

(** [surgical_havoc_mutate(buf, 0, size)] rewrites bytes of the buffer
    where they are: the buffer keeps its size. *)
Definition havoc (buf : list byte) : draw (list byte) :=
  fun calls =>
    let '(buf', calls') := surgical_havoc_mutate E buf calls in
    Drawn (firstn (length buf) buf' ++ skipn (length buf') buf) calls'.

(** [gurthang_strategy_choose] with a header: [free_strats] maps a
    strategy's value to its counter. *)
Fixpoint choose_walk (turns : nat) (free_strats : Z -> Z) (idx count : Z) : Z :=
  match turns with
  | O => idx
  | S turns' =>
      if negb (free_strats idx =? 0) && (count <? strategy_value STRAT_LENGTH)
      then choose_walk turns' free_strats
             ((idx + 1) mod strategy_value STRAT_LENGTH) (count + 1)
      else idx
  end.

Definition gurthang_strategy_choose (free_strats : Z -> Z)
  : draw gurthang_strategy_t :=
  idx <- RAND_UNDER (strategy_value STRAT_LENGTH) ;;
  let idx := choose_walk 7 free_strats idx 0 in
  pure (if negb (free_strats idx =? 0) then STRAT_UNKNOWN
        else strategy_of_index idx).

(** [find_cinfo_sched_bounds]: [None] for the non-zero return, else the
    two values written to [range]. *)
Fixpoint sched_bounds_scan (cinfos : list comux_cinfo_t) (index : Z)
    (todo : nat) (i : Z) (lims0 lims1 max_sched : Z) : Z * Z * Z :=
  match todo with
  | O => (lims0, lims1, max_sched)
  | S todo' =>
      let max_sched :=
        if sched (cinfo_at cinfos i) >? max_sched
        then sched (cinfo_at cinfos i) else max_sched in
      if i =? index
      then sched_bounds_scan cinfos index todo' (i + 1) lims0 lims1 max_sched
      else if id (cinfo_at cinfos i) =? id (cinfo_at cinfos index) then
        let diff := sched (cinfo_at cinfos i) - sched (cinfo_at cinfos index) in
        let lims0 :=
          if (diff <? 0) && ((lims0 =? 0) || (diff >? lims0))
          then diff else lims0 in
        let lims1 :=
          if (diff >? 0) && ((lims1 =? 0) || (diff <? lims1))
          then diff else lims1 in
        sched_bounds_scan cinfos index todo' (i + 1) lims0 lims1 max_sched
      else sched_bounds_scan cinfos index todo' (i + 1) lims0 lims1 max_sched
  end.

Definition find_cinfo_sched_bounds (cinfos : list comux_cinfo_t)
    (cinfos_len index : Z) : option (Z * Z) :=
  let '(lims0, lims1, max_sched) :=
    sched_bounds_scan cinfos index (Z.to_nat cinfos_len) 0 0 0 0 in
  let max_sched := to_u32 (max_sched + 1) in
  let lims0 :=
    if lims0 =? 0 then 0
    else lims0 + to_u32 (sched (cinfo_at cinfos index) + 1) in
  let lims1 :=
    if lims1 =? 0 then max_sched else lims1 + sched (cinfo_at cinfos index) in
  if lims1 - lims0 <? 2 then None
  else Some (to_u32 lims0, to_u32 lims1).

(** [mutate_cinfo_data_havoc]. *)
Definition mutate_cinfo_data_havoc (cinfo : comux_cinfo_t)
  : draw comux_cinfo_t :=
  if len cinfo =? 0 then pure cinfo
  else buf <- havoc (data cinfo) ;; pure (set_data cinfo buf).

(** [mutate_cinfo_data_extra]: the bytes from [reverse_idx] on are
    reversed, or two bytes change places. *)
Definition reverse_bytes (buf : list byte) (reverse_idx reverse_size : Z)
  : list byte :=
  firstn (Z.to_nat reverse_idx) buf
  ++ rev (bytes_at buf reverse_idx reverse_size)
  ++ skipn (Z.to_nat (reverse_idx + reverse_size)) buf.

Definition swap_bytes (buf : list byte) (idx1 idx2 : Z) : list byte :=
  let tmp := nth (Z.to_nat idx1) buf x00 in
  let buf := update_nth (Z.to_nat idx1)
               (fun _ => nth (Z.to_nat idx2) buf x00) buf in
  update_nth (Z.to_nat idx2) (fun _ => tmp) buf.

Fixpoint other_index (turns : nat) (data_len idx1 : Z) : draw Z :=
  match turns with
  | O => spinning
  | S turns' =>
      idx2 <- RAND_UNDER data_len ;;
      if idx1 =? idx2 then other_index turns' data_len idx1 else pure idx2
  end.

Definition mutate_cinfo_data_extra (cinfo : comux_cinfo_t)
  : draw comux_cinfo_t :=
  if len cinfo =? 0 then pure cinfo else
  let data_len := Z.of_nat (length (data cinfo)) in
  extra <- RAND_UNDER 2 ;;
  if (extra =? 0) && (len cinfo >? 2) then
    reverse_size <- RAND_UNDER (len cinfo) ;;
    reverse_idx <- RAND_UNDER (to_u64 (len cinfo - reverse_size)) ;;
    pure (set_data cinfo (reverse_bytes (data cinfo) reverse_idx reverse_size))
  else if len cinfo >? 1 then
    idx1 <- RAND_UNDER data_len ;;
    idx2 <- other_index fuel data_len idx1 ;;
    pure (set_data cinfo (swap_bytes (data cinfo) idx1 idx2))
  else
    buf <- havoc (data cinfo) ;; pure (set_data cinfo buf).

(** [mutate_cinfo_sched_bump]: the returned index (or -1) and the array. *)
Fixpoint bump_search (cinfos : list comux_cinfo_t) (cinfos_len : Z)
    (todo : nat) (index count : Z) (lims : Z * Z) : Z * Z * (Z * Z) :=
  match todo with
  | O => (index, count, lims)
  | S todo' =>
      match find_cinfo_sched_bounds cinfos cinfos_len index with
      | Some range => (index, count, range)
      | None =>
          bump_search cinfos cinfos_len todo'
            (to_u32 (index + 1) mod cinfos_len) (count + 1) lims
      end
  end.

Fixpoint new_sched_draw (turns : nat) (old : Z) (lims : Z * Z) : draw Z :=
  match turns with
  | O => spinning
  | S turns' =>
      r <- rand ;;
      let width := to_u32 (snd lims - fst lims) in
      if width =? 0 then division_by_zero else
      let new_sched := to_u32 (r mod width + fst lims) in
      if new_sched =? old then new_sched_draw turns' old lims
      else pure new_sched
  end.

Definition mutate_cinfo_sched_bump (cinfos : list comux_cinfo_t)
    (cinfos_len : Z) : draw (Z * list comux_cinfo_t) :=
  index <- RAND_UNDER cinfos_len ;;
  let '(index, count, lims) :=
    bump_search cinfos cinfos_len (Z.to_nat cinfos_len) index 0 (0, 0) in
  if count =? cinfos_len then pure (-1, cinfos) else
  new_sched <- new_sched_draw fuel (sched (cinfo_at cinfos index)) lims ;;
  pure (index, cinfo_update cinfos index (fun c => set_sched c new_sched)).

(** [mutate_cinfo_split]. [snprintf(dst, n + 1, "%s", src)] copies the C
    string at [src], at most [n] characters, and a terminator into the
    uninitialised array [dst]; the first [n] bytes of [dst] are then
    appended to the chunk. *)
Definition snprintf_s (array : nat) (n : Z) (src : list byte) : list byte :=
  let s := firstn (Z.to_nat n) (c_string src) in
  firstn (Z.to_nat n)
         (s ++ x00 :: map (uninitialised E array)
                          (seq (S (length s)) (Z.to_nat n - length s))).

Fixpoint split_search (cinfos : list comux_cinfo_t) (cinfos_len : Z)
    (todo : nat) (index count : Z) (lims : Z * Z) : Z * Z * (Z * Z) :=
  match todo with
  | O => (index, count, lims)
  | S todo' =>
      let found := find_cinfo_sched_bounds cinfos cinfos_len index in
      let lims := match found with Some range => range | None => lims end in
      match found with
      | Some _ =>
          if len (cinfo_at cinfos index) >? 1 then (index, count, lims)
          else split_search cinfos cinfos_len todo'
                 (to_u32 (index + 1) mod cinfos_len) (count + 1) lims
      | None =>
          split_search cinfos cinfos_len todo'
            (to_u32 (index + 1) mod cinfos_len) (count + 1) lims
      end
  end.

(** [while (new_cinfo->sched >= lims[1])]: both [sched] fields go down. *)
Fixpoint split_scheds (turns : nat) (old_sched new_sched lim : Z)
  : draw (Z * Z) :=
  match turns with
  | O => spinning
  | S turns' =>
      if new_sched >=? lim
      then split_scheds turns' (to_u32 (old_sched - 1)) (to_u32 (new_sched - 1)) lim
      else pure (old_sched, new_sched)
  end.

Definition mutate_cinfo_split (cinfos : list comux_cinfo_t) (cinfos_len : Z)
    (new_cinfo : comux_cinfo_t)
  : draw (Z * list comux_cinfo_t * comux_cinfo_t) :=
  index <- RAND_UNDER cinfos_len ;;
  let '(index, count, lims) :=
    split_search cinfos cinfos_len (Z.to_nat cinfos_len) index 0 (0, 0) in
  if count =? cinfos_len then pure (-1, cinfos, new_cinfo) else
  let cinfo := cinfo_at cinfos index in
  r <- RAND_UNDER (to_u64 (len cinfo - 1)) ;;
  let split_index := to_u64 (r + 1) in
  let datalens0 := split_index in
  let datalens1 := to_u64 (len cinfo - split_index) in
  let split_left := snprintf_s 0 datalens0 (data cinfo) in
  let split_right :=
    snprintf_s 1 datalens1 (skipn (Z.to_nat datalens0) (data cinfo)) in
  let new_cinfo := comux_cinfo_data_appendn comux_cinfo_init split_right in
  let cinfo := set_len (set_data cinfo []) 0 in
  let cinfo := comux_cinfo_data_appendn cinfo split_left in
  '(old_sched, new_sched) <-
    split_scheds fuel (sched cinfo) (to_u32 (sched cinfo + 1)) (snd lims) ;;
  let cinfo := set_sched cinfo old_sched in
  let new_cinfo := set_sched new_cinfo new_sched in
  let new_cinfo := set_id new_cinfo (id cinfo) in
  let '(cinfo, new_cinfo) :=
    if negb (Z.land (flags cinfo) COMUX_CHUNK_FLAGS_AWAIT_RESPONSE =? 0)
    then (set_flags cinfo
            (Z.lxor (flags cinfo) COMUX_CHUNK_FLAGS_AWAIT_RESPONSE),
          set_flags new_cinfo
            (Z.lor (flags new_cinfo) COMUX_CHUNK_FLAGS_AWAIT_RESPONSE))
    else (cinfo, new_cinfo) in
  pure (to_u32 (index + 1), cinfo_update cinfos index (fun _ => cinfo), new_cinfo).

(** [mutate_cinfo_splice]. [cid_counts[cid]] is the number of chunks of
    connection [cid]; [conn_indexes] are their indexes. *)
Definition cid_count (cinfos : list comux_cinfo_t) (cid : Z) : Z :=
  Z.of_nat (length (filter (fun c => id c =? cid) cinfos)).

Fixpoint splice_search (cinfos : list comux_cinfo_t) (num_conns : Z)
    (todo : nat) (cid count : Z) : Z * Z :=
  match todo with
  | O => (cid, count)
  | S todo' =>
      if cid_count cinfos cid >? 1 then (cid, count)
      else splice_search cinfos num_conns todo'
             (to_u32 (cid + 1) mod num_conns) (count + 1)
  end.

Fixpoint conn_indexes (cinfos : list comux_cinfo_t) (cid : Z) (i : Z) : list Z :=
  match cinfos with
  | [] => []
  | c :: rest =>
      if id c =? cid then i :: conn_indexes rest cid (i + 1)
      else conn_indexes rest cid (i + 1)
  end.

Definition mutate_cinfo_splice (header : comux_header_t)
    (cinfos : list comux_cinfo_t) (cinfos_len : Z)
  : draw (Z * list comux_cinfo_t) :=
  if cinfos_len <? 2 then pure (-1, cinfos) else
  cid <- RAND_UNDER (num_conns header) ;;
  let '(cid, count) :=
    splice_search cinfos (num_conns header) (Z.to_nat (num_conns header))
                  cid 0 in
  if count =? num_conns header then pure (-1, cinfos) else
  let indexes := conn_indexes cinfos cid 0 in
  let conn_indexes_len := Z.of_nat (length indexes) in
  pair_index <- RAND_UNDER (to_u32 (conn_indexes_len - 1)) ;;
  let pair0 := nth (Z.to_nat pair_index) indexes 0 in
  let pair1 := nth (Z.to_nat (pair_index + 1)) indexes 0 in
  let second := cinfo_at cinfos pair1 in
  let cinfos :=
    cinfo_update cinfos pair0
      (fun c => comux_cinfo_data_appendn c (data second)) in
  let cinfos :=
    if negb (Z.land (flags second) COMUX_CHUNK_FLAGS_AWAIT_RESPONSE =? 0)
    then cinfo_update cinfos pair0
           (fun c => set_flags c
                       (Z.lor (flags c) COMUX_CHUNK_FLAGS_AWAIT_RESPONSE))
    else cinfos in
  pure (pair1, cinfos).

(** [mutate_cinfo_dict_swap]: 0 and the array on success, else 1. An
    entry is found by its index in [entries]. *)
Fixpoint find_entry (dict : Dict.dict_t) (hay : list byte) (todo : nat)
    (idx cnt : Z) : option (Z * Z) :=
  match todo with
  | O => None
  | S todo' =>
      let de := nth (Z.to_nat idx) dict (Dict.mk_dict_entry [] 0) in
      match strstr (c_string hay) (Dict.str de) 0 with
      | Some dentry_offset => Some (idx, dentry_offset)
      | None => find_entry dict hay todo' ((idx + 1) mod Dict.size dict) (cnt + 1)
      end
  end.

(** [dict_get_rand] until it gives another entry than [dentry]. *)
Fixpoint swap_draw (turns : nat) (dict : Dict.dict_t) (dentry : Z) : draw Z :=
  match turns with
  | O => spinning
  | S turns' =>
      r <- rand ;;
      let swap := r mod Dict.size dict in
      if swap =? dentry then swap_draw turns' dict dentry else pure swap
  end.

(** The chunk's buffer after the swap. [len] keeps its value and the
    writer copies [len] bytes from the buffer's data pointer, so [data]
    is given here with the terminator and the bytes that stay behind
    it from the old contents. *)
Definition swap_word (cinfo : comux_cinfo_t) (dentry swap : Dict.dict_entry_t)
    (dentry_offset : Z) : comux_cinfo_t :=
  let data_len := Z.of_nat (length (data cinfo)) in
  let copy_len := to_u64 (data_len - (dentry_offset + Dict.len dentry)) in
  let copy := bytes_at (data cinfo) (dentry_offset + Dict.len dentry) copy_len in
  let contents :=
    firstn (Z.to_nat dentry_offset) (data cinfo)
    ++ firstn (Z.to_nat (Dict.len swap)) (Dict.str swap ++ [x00])
    ++ copy in
  set_data cinfo (contents ++ x00 :: skipn (S (length contents)) (data cinfo)).

Fixpoint swap_in_dicts (dicts : list Dict.dict_t) (cinfo : comux_cinfo_t)
  : draw (option comux_cinfo_t) :=
  match dicts with
  | [] => pure None
  | dict :: rest =>
      idx <- RAND_UNDER (Dict.size dict) ;;
      match find_entry dict (data cinfo) (Z.to_nat (Dict.size dict)) idx 0 with
      | None => swap_in_dicts rest cinfo
      | Some (dentry, dentry_offset) =>
          swap <- swap_draw fuel dict dentry ;;
          pure (Some (swap_word cinfo
                        (nth (Z.to_nat dentry) dict (Dict.mk_dict_entry [] 0))
                        (nth (Z.to_nat swap) dict (Dict.mk_dict_entry [] 0))
                        dentry_offset))
      end
  end.

Fixpoint dict_swap_search (cinfos : list comux_cinfo_t) (cinfos_len : Z)
    (todo : nat) (index count : Z) : draw (Z * list comux_cinfo_t) :=
  match todo with
  | O => pure (1, cinfos)
  | S todo' =>
      swapped <- swap_in_dicts (dlist E) (cinfo_at cinfos index) ;;
      match swapped with
      | Some cinfo => pure (0, cinfo_update cinfos index (fun _ => cinfo))
      | None =>
          dict_swap_search cinfos cinfos_len todo'
            (to_u32 (index + 1) mod cinfos_len) (count + 1)
      end
  end.

Definition mutate_cinfo_dict_swap (cinfos : list comux_cinfo_t)
    (cinfos_len : Z) : draw (Z * list comux_cinfo_t) :=
  index <- RAND_UNDER cinfos_len ;;
  dict_swap_search cinfos cinfos_len (Z.to_nat cinfos_len) index 0.

(** [mutate_cinfos]. The fields a strategy may set, and the loop behind
    the label [retry_strategy]. *)
Record mutation : Set := mk_mutation {
  cinfos : list comux_cinfo_t;
  new_cinfo : comux_cinfo_t;
  new_cinfo_index : Z;
  delete_cinfo_index : Z
}.

Definition set_cinfos (m : mutation) (l : list comux_cinfo_t) :=
  mk_mutation l (new_cinfo m) (new_cinfo_index m) (delete_cinfo_index m).

Definition mark (free_strats : Z -> Z) (s : gurthang_strategy_t) : Z -> Z :=
  fun idx =>
    if idx =? strategy_value s then free_strats idx + 1 else free_strats idx.

Fixpoint retry_strategy (turns : nat) (header : comux_header_t)
    (cinfos_len : Z) (free_strats : Z -> Z) (strat : gurthang_strategy_t)
    (m : mutation) : draw mutation :=
  match turns with
  | O => spinning
  | S turns' =>
      let retry s m :=
        let free_strats := mark free_strats s in
        strat <- gurthang_strategy_choose free_strats ;;
        retry_strategy turns' header cinfos_len free_strats strat m in
      match strat with
      | STRAT_UNKNOWN => pure m
      | STRAT_CHUNK_DATA_EXTRA =>
          i <- RAND_UNDER (num_chunks header) ;;
          cinfo <- mutate_cinfo_data_extra (cinfo_at (cinfos m) i) ;;
          pure (set_cinfos m (cinfo_update (cinfos m) i (fun _ => cinfo)))
      | STRAT_CHUNK_SCHED_BUMP =>
          '(index, l) <- mutate_cinfo_sched_bump (cinfos m) cinfos_len ;;
          if index =? -1 then retry STRAT_CHUNK_SCHED_BUMP m
          else pure (set_cinfos m l)
      | STRAT_CHUNK_SPLIT =>
          '(index, l, new) <-
            mutate_cinfo_split (cinfos m) cinfos_len (new_cinfo m) ;;
          let m := mk_mutation l new index (delete_cinfo_index m) in
          if index =? -1 then retry STRAT_CHUNK_SPLIT m else pure m
      | STRAT_CHUNK_SPLICE =>
          '(index, l) <- mutate_cinfo_splice header (cinfos m) cinfos_len ;;
          let m := mk_mutation l (new_cinfo m) (new_cinfo_index m) index in
          if index =? -1 then retry STRAT_CHUNK_SPLICE m else pure m
      | STRAT_CHUNK_DICT_SWAP =>
          '(failed, l) <- mutate_cinfo_dict_swap (cinfos m) cinfos_len ;;
          if negb (failed =? 0) then retry STRAT_CHUNK_DICT_SWAP m
          else pure (set_cinfos m l)
      | _ =>
          i <- RAND_UNDER (num_chunks header) ;;
          cinfo <- mutate_cinfo_data_havoc (cinfo_at (cinfos m) i) ;;
          pure (set_cinfos m (cinfo_update (cinfos m) i (fun _ => cinfo)))
      end
  end.

Definition mutate_cinfos (header : comux_header_t)
    (l : list comux_cinfo_t) (cinfos_len : Z) (new : comux_cinfo_t)
  : draw mutation :=
  let free_strats : Z -> Z := fun _ => 0 in
  let free_strats :=
    if num_conns header <? 2 then mark free_strats STRAT_CHUNK_SCHED_BUMP
    else free_strats in
  let free_strats :=
    if use_dicts E =? 0 then mark free_strats STRAT_CHUNK_DICT_SWAP
    else free_strats in
  strat <- match strat E with
           | STRAT_UNKNOWN => gurthang_strategy_choose free_strats
           | s => pure s
           end ;;
  retry_strategy 8 header cinfos_len free_strats strat (mk_mutation l new (-1) (-1)).

(** [afl_custom_fuzz]. The result is the input buffer itself
    ([*outbuff = buff; return buff_len;], also through [make_new_comux])
    or the bytes written to [mut->buff]; [written] keeps, next to these
    bytes, the chunk structures that were handed to the two chunk
    writers, in this order. *)
Inductive fuzz_output : Set :=
  | Unchanged
  | Rewritten (written : list comux_cinfo_t) (out : list byte).

(** The chunk parsing loop; [None] where the code calls [make_new_comux]. *)
Fixpoint parse_chunks (todo : nat) (header : comux_header_t)
    (buff : list byte) (total_rcount rcount : Z) (l : list comux_cinfo_t)
  : option (list comux_cinfo_t) :=
  match todo with
  | O => Some l
  | S todo' =>
      let cinfo := comux_cinfo_init in
      let '(pr, cinfo, rcount) :=
        comux_cinfo_read_buffer cinfo
          (skipn (Z.to_nat total_rcount) buff) rcount in
      if nonzero pr then None else
      let total_rcount := total_rcount + rcount in
      let cinfo :=
        set_flags cinfo (Z.land (flags cinfo) COMUX_CHUNK_FLAGS_ALL) in
      match check_comux_cinfo header cinfo with
      | Some _ => None
      | None =>
          let cinfo :=
            set_flags cinfo
              (Z.land (flags cinfo)
                      (to_u32 (Z.lnot COMUX_CHUNK_FLAGS_NO_SHUTDOWN))) in
          let '(rcount, cinfo) :=
            comux_cinfo_data_read_buffer cinfo
              (skipn (Z.to_nat total_rcount) buff) in
          let total_rcount := total_rcount + rcount in
          let cinfo :=
            set_len cinfo (if len cinfo =? rcount then len cinfo else rcount) in
          parse_chunks todo' header buff total_rcount rcount (l ++ [cinfo])
      end
  end.

(** The chunk writing loop, from [i] on, with [out] in [mut->buff];
    [None] when the turns do not reach the end of the loop. After the
    new chunk is written, [i--] and the loop's [i++] leave [i] as it is.
    A chunk's [len] is at most twice [COMUX_CHUNK_DATA_MAXLEN] here, so a
    [wcount] that is not negative is the number of bytes copied. *)
Fixpoint write_chunks (turns : nat) (m : mutation) (num_chunks max_len : Z)
    (i new_cinfo_index : Z) (written : list comux_cinfo_t) (out : list byte)
  : option fuzz_output :=
  match turns with
  | O => None
  | S turns' =>
      if negb (i <? to_u32 (num_chunks + 1))
      then Some (Rewritten written out) else
      let new_cinfo_match :=
        (new_cinfo_index >? -1) && (to_u32 new_cinfo_index =? i) in
      if (i =? num_chunks) && negb new_cinfo_match
      then write_chunks turns' m num_chunks max_len (to_u32 (i + 1))
                        new_cinfo_index written out
      else if negb (i =? num_chunks) && (delete_cinfo_index m >? -1)
              && (to_u32 (delete_cinfo_index m) =? i)
      then write_chunks turns' m num_chunks max_len (to_u32 (i + 1))
                        new_cinfo_index written out
      else
        let cinfo := if new_cinfo_match then new_cinfo m
                     else cinfo_at (cinfos m) i in
        let '(wcount, hbytes) :=
          comux_cinfo_write_buffer cinfo
            (to_u64 (max_len - Z.of_nat (length out))) in
        if wcount <? 0 then Some Unchanged else
        let out := out ++ hbytes in
        let '(wcount, dbytes) :=
          comux_cinfo_data_write_buffer cinfo
            (to_u64 (max_len - Z.of_nat (length out))) in
        if wcount <? 0 then Some Unchanged else
        let out := out ++ dbytes in
        let written := written ++ [cinfo] in
        if new_cinfo_match
        then write_chunks turns' m num_chunks max_len i (-1) written out
        else write_chunks turns' m num_chunks max_len (to_u32 (i + 1))
                          new_cinfo_index written out
  end.

Definition make_new_comux : draw fuzz_output := pure Unchanged.

Definition afl_custom_fuzz (buff : list byte) (max_len : Z)
  : draw fuzz_output :=
  let '(pr, header, rcount) :=
    comux_header_read_buffer comux_header_init buff 0 in
  if nonzero pr then make_new_comux else
  let total_rcount := rcount in
  match check_comux_header header with
  | Some _ => make_new_comux
  | None =>
      let header := set_version header 0 in
      let num_chunks := Comux.num_chunks header in
      match parse_chunks (Z.to_nat num_chunks) header buff total_rcount rcount []
      with
      | None => make_new_comux
      | Some l =>
          m <- mutate_cinfos header l num_chunks (uninitialised_cinfo E) ;;
          let header :=
            if new_cinfo_index m >? -1
            then set_num_chunks header (to_u32 (Comux.num_chunks header + 1))
            else if delete_cinfo_index m >? -1
            then set_num_chunks header (to_u32 (Comux.num_chunks header - 1))
            else header in
          let '(wcount, hbytes) := comux_header_write_buffer header max_len in
          if wcount <? 0 then pure Unchanged else
          match write_chunks (Z.to_nat num_chunks + 3) m num_chunks max_len
                             0 (new_cinfo_index m) [] hbytes with
          | Some output => pure output
          | None => spinning
          end
      end
  end.

(** What the hook hands back for the input [buff]. *)
Definition emitted (buff : list byte) (output : fuzz_output) : list byte :=
  match output with
  | Unchanged => buff
  | Rewritten _ out => out
  end.

(** [NO_SHUTDOWN] is not set in a chunk's flags; and the bytes the two
    chunk writers copy for a chunk. *)
Definition no_shutdown_clear (c : comux_cinfo_t) : Prop :=
  Z.land (flags c) COMUX_CHUNK_FLAGS_NO_SHUTDOWN = 0.

Definition written_record (c : comux_cinfo_t) : list byte :=
  cinfo_header_bytes c ++ firstn (Z.to_nat (to_ssize (len c))) (data c).

End Fuzz.

(** ** The trimming feedback *)
Import Float.
Import Stdlib.QArith.QArith.
Local Open Scope Z_scope.












(** Chunks whose [sched] leaves room for the [+ 1] of the bounds. *)
Definition sched_room (l : list comux_cinfo_t) : Prop :=
  Forall (fun c => 0 <= sched c < 2 ^ 32 - 1) l.

(** Two chunks of connection 0, scheduled at 0 and at 5. *)
Definition two_on_one : list comux_cinfo_t :=
  [mk_cinfo 0 1 0 0 ["a"%byte] 0; mk_cinfo 0 1 5 0 ["b"%byte] 0].

(** A chunk whose [len] is the size of its payload and whose payload holds
    no terminator byte. *)
Definition text_chunk (c : comux_cinfo_t) : Prop :=
  len c = Z.of_nat (length (data c)) /\ len c < 2 ^ 63 /\
  Forall (fun b => b <> x00) (data c).

(** One chunk of three bytes after which a response is awaited, and the
    two chunks a split makes of it. *)
Definition split_sample : list comux_cinfo_t :=
  [mk_cinfo 0 3 4 1 ["a"; "b"; "c"]%byte 0].
Definition split_sample_left : comux_cinfo_t :=
  mk_cinfo 0 1 3 0 ["a"%byte] 0.
Definition split_sample_new : comux_cinfo_t :=
  mk_cinfo 0 2 4 1 ["b"; "c"]%byte 0.

(** The chunk a splice makes of the chunk [c0] and the next chunk [c1] of
    its connection; the payload a connection carries over its chunks, in
    the order of the array; and the array without the chunk at [idx], the
    one the writing loop leaves out. *)
Definition spliced (c0 c1 : comux_cinfo_t) : comux_cinfo_t :=
  mk_cinfo (id c0) (to_u64 (len c0 + Z.of_nat (length (data c1)))) (sched c0)
           (if Z.land (flags c1) COMUX_CHUNK_FLAGS_AWAIT_RESPONSE =? 0
            then flags c0
            else Z.lor (flags c0) COMUX_CHUNK_FLAGS_AWAIT_RESPONSE)
           (data c0 ++ data c1) (offset c0).

Definition conn_stream (cid : Z) (l : list comux_cinfo_t) : list byte :=
  concat (map data (filter (fun c => id c =? cid) l)).

Definition drop_at (idx : Z) (l : list comux_cinfo_t) : list comux_cinfo_t :=
  firstn (Z.to_nat idx) l ++ skipn (S (Z.to_nat idx)) l.


(** What [mutate_cinfos] leaves behind for an array of [n] chunks: the
    array has kept its size, and at most one of the two indexes is set, the
    place of a new chunk within [1, n] or the index of a chunk to leave out
    within [1, n). *)
Definition mutation_shape (n : Z) (m : mutation) : Prop :=
  Z.of_nat (length (cinfos m)) = n /\
  ((new_cinfo_index m = -1 /\ delete_cinfo_index m = -1) \/
   (1 <= new_cinfo_index m <= n /\ delete_cinfo_index m = -1) \/
   (new_cinfo_index m = -1 /\ 1 <= delete_cinfo_index m < n)).

(** The chunks of a mutation in the order of the array, with the new chunk
    in its place or the deleted chunk left out. *)
Definition assembled (m : mutation) : list comux_cinfo_t :=
  if new_cinfo_index m >? -1
  then firstn (Z.to_nat (new_cinfo_index m)) (cinfos m)
       ++ new_cinfo m :: skipn (Z.to_nat (new_cinfo_index m)) (cinfos m)
  else if delete_cinfo_index m >? -1
  then drop_at (delete_cinfo_index m) (cinfos m)
  else cinfos m.


(** ** The removal loop of [afl_custom_trim]
    [for (i = 0; i < buffer_size(&mut->trim_cinfo_old.data); i++)] over the
    old payload, with [byte_indexes] as [qsort] has left it, [bps] for
    [mut->trim_bytes_per_step], and the bytes stored through [dptr_new] as
    the result; [byte_counter] is their number. [old] holds the bytes from
    index [i] on. *)
Fixpoint trim_remove_loop (old : list byte) (i : Z) (byte_indexes : list Z)
    (bps byte_index : Z) : list byte :=
  match old with
  | [] => []
  | b :: rest =>
      let still_processing_removals := byte_index <? bps in
      if still_processing_removals then
        let x := nth (Z.to_nat byte_index) byte_indexes 0 in
        if i >? x
        then b :: trim_remove_loop rest (i + 1) byte_indexes bps (byte_index + 1)
        else if i =? x
        then trim_remove_loop rest (i + 1) byte_indexes bps (byte_index + 1)
        else b :: trim_remove_loop rest (i + 1) byte_indexes bps byte_index
      else b :: trim_remove_loop rest (i + 1) byte_indexes bps byte_index
  end.

(** The payload without the bytes at the positions [removed]; [old] holds
    the bytes from position [i] on. *)
Fixpoint without (removed : list Z) (i : Z) (old : list byte) : list byte :=
  match old with
  | [] => []
  | b :: rest =>
      if existsb (Z.eqb i) removed then without removed (i + 1) rest
      else b :: without removed (i + 1) rest
  end.


End Mutator.

(* ===================================================================== *)
(** * Properties of the byte primitives *)
(* ===================================================================== *)
Module UtilsFacts.
Import Utils.

Lemma Z_of_byte_range (b : byte) : 0 <= Z_of_byte b < 256.
Proof.
  unfold Z_of_byte. pose proof (Byte.to_N_bounded b) as H.
  split; [apply N2Z.is_nonneg|].
  apply N2Z.inj_le in H. change (Z.of_N 255) with 255 in H. lia.
Qed.

Lemma Z_of_byte_of_Z (z : Z) : Z_of_byte (byte_of_Z z) = z mod 256.
Proof.
  unfold Z_of_byte, byte_of_Z.
  assert (Hr : 0 <= z mod 256 < 256) by (apply Z.mod_pos_bound; lia).
  destruct (Byte.of_N (Z.to_N (z mod 256))) as [b|] eqn:E.
  - apply Byte.to_of_N in E. rewrite E. rewrite Z2N.id; lia.
  - apply Byte.of_N_None_iff in E. exfalso.
    apply N2Z.inj_lt in E. rewrite Z2N.id in E by lia.
    change (Z.of_N 255) with 255 in E. lia.
Qed.

Lemma byte_of_Z_of_byte (b : byte) : byte_of_Z (Z_of_byte b) = b.
Proof.
  unfold byte_of_Z. pose proof (Z_of_byte_range b) as Hr.
  rewrite Z.mod_small by lia. unfold Z_of_byte. rewrite N2Z.id.
  now rewrite Byte.of_to_N.
Qed.

Lemma INT_TO_BYTES_HELPER_length val shift n :
  length (INT_TO_BYTES_HELPER val shift n) = n.
Proof. revert shift; induction n; intros; simpl; auto. Qed.

(** Bit-level description of what [BYTES_TO_INT_HELPER] accumulates when it
    reads back the bytes that [INT_TO_BYTES_HELPER] produced. *)
Lemma BYTES_TO_INT_HELPER_bits bits val n : forall shift retval,
  0 <= shift -> shift + 8 * Z.of_nat n <= bits ->
  forall i, 0 <= i ->
  Z.testbit (BYTES_TO_INT_HELPER bits retval shift
               (INT_TO_BYTES_HELPER val shift n)) i
  = Z.testbit retval i
    || ((shift <=? i) && (i <? shift + 8 * Z.of_nat n) && Z.testbit val i).
Proof.
  induction n as [|n IH]; intros shift retval Hs Hb i Hi.
  - cbn [INT_TO_BYTES_HELPER BYTES_TO_INT_HELPER].
    destruct (Z.leb_spec shift i), (Z.ltb_spec i (shift + 8 * Z.of_nat 0));
      simpl; rewrite ?orb_false_r; auto; lia.
  - cbn [INT_TO_BYTES_HELPER BYTES_TO_INT_HELPER].
    rewrite IH by lia.
    rewrite Z.lor_spec, Z_of_byte_of_Z.
    change 256 with (2 ^ 8). change 255 with (Z.ones 8).
    rewrite Z.land_ones by lia. rewrite Z.mod_mod by lia.
    rewrite <- (Z.land_ones _ 8) by lia.
    rewrite <- (Z.land_ones _ bits) by lia.
    rewrite Z.land_spec, Z.shiftl_spec by lia.
    rewrite (Z.testbit_ones_nonneg bits i) by lia.
    destruct (Z.leb_spec shift i) as [Hle|Hlt].
    + rewrite Z.land_spec, Z.shiftr_spec by lia.
      replace (i - shift + shift) with i by lia.
      rewrite (Z.testbit_ones_nonneg 8 (i - shift)) by lia.
      destruct (Z.ltb_spec (i - shift) 8), (Z.leb_spec (shift + 8) i),
               (Z.ltb_spec i (shift + 8 * Z.of_nat (S n))),
               (Z.ltb_spec i (shift + 8 + 8 * Z.of_nat n)),
               (Z.ltb_spec i bits); try lia;
        destruct (Z.testbit val i), (Z.testbit retval i); reflexivity.
    + rewrite (Z.testbit_neg_r _ (i - shift)) by lia.
      destruct (Z.leb_spec (shift + 8) i); try lia.
      simpl. now rewrite !orb_false_r.
Qed.

Lemma bytes_to_int_of_int_to_bytes bits val n :
  bits = 8 * Z.of_nat n -> 0 <= val < 2 ^ bits ->
  BYTES_TO_INT_HELPER bits 0 0 (INT_TO_BYTES_HELPER val 0 n) = val.
Proof.
  intros Hb Hv. apply Z.bits_inj'. intros i Hi.
  rewrite BYTES_TO_INT_HELPER_bits by lia.
  rewrite Z.testbit_0_l, orb_false_l, Z.add_0_l.
  destruct (Z.testbit val i) eqn:E; [|now rewrite andb_false_r].
  rewrite andb_true_r.
  assert (Hlt : i < bits).
  { destruct (Z.eq_dec val 0) as [->|Hnz]; [now rewrite Z.testbit_0_l in E|].
    destruct (Z.lt_ge_cases (Z.log2 val) i) as [Hgt|Hle].
    - rewrite Z.bits_above_log2 in E by lia. discriminate.
    - assert (Z.log2 val < bits) by (apply Z.log2_lt_pow2; lia). lia. }
  destruct (Z.leb_spec 0 i), (Z.ltb_spec i (8 * Z.of_nat n)); simpl; auto; lia.
Qed.

Lemma bytes_to_u32_to_bytes (val : Z) (rest : list byte) :
  u32_range val -> bytes_to_u32 (u32_to_bytes val ++ rest) = val.
Proof.
  intros Hv. unfold bytes_to_u32, u32_to_bytes.
  rewrite firstn_app, INT_TO_BYTES_HELPER_length.
  rewrite firstn_all2 by (rewrite INT_TO_BYTES_HELPER_length; lia).
  simpl firstn. rewrite app_nil_r.
  apply bytes_to_int_of_int_to_bytes; [reflexivity|exact Hv].
Qed.

Lemma bytes_to_u64_to_bytes (val : Z) (rest : list byte) :
  u64_range val -> bytes_to_u64 (u64_to_bytes val ++ rest) = val.
Proof.
  intros Hv. unfold bytes_to_u64, u64_to_bytes.
  rewrite firstn_app, INT_TO_BYTES_HELPER_length.
  rewrite firstn_all2 by (rewrite INT_TO_BYTES_HELPER_length; lia).
  simpl firstn. rewrite app_nil_r.
  apply bytes_to_int_of_int_to_bytes; [reflexivity|exact Hv].
Qed.

(** Bits of what [BYTES_TO_INT_HELPER] accumulates from any array. *)
Lemma BYTES_TO_INT_HELPER_testbit bits (array : list byte) :
  forall shift retval i,
  0 <= shift -> 0 <= i -> 0 <= bits ->
  Z.testbit (BYTES_TO_INT_HELPER bits retval shift array) i
  = Z.testbit retval i
    || ((shift <=? i) && (i <? shift + 8 * Z.of_nat (length array)) && (i <? bits)
        && Z.testbit (Z_of_byte (nth (Z.to_nat ((i - shift) / 8)) array x00))
                     ((i - shift) mod 8)).
Proof.
  induction array as [|b rest IH]; intros shift retval i Hs Hi Hb;
    cbn [BYTES_TO_INT_HELPER length].
  - destruct (Z.leb_spec shift i), (Z.ltb_spec i (shift + 8 * Z.of_nat 0));
      cbn; rewrite ?orb_false_r; auto; lia.
  - rewrite IH by lia. rewrite Z.lor_spec.
    rewrite <- (Z.land_ones _ bits) by lia.
    rewrite Z.land_spec, Z.shiftl_spec by lia.
    rewrite (Z.testbit_ones_nonneg bits i) by lia.
    pose proof (Z_of_byte_range b) as Hr.
    destruct (Z.leb_spec shift i) as [Hle|Hlt].
    + destruct (Z.leb_spec (shift + 8) i) as [Hle8|Hlt8].
      * assert (Hz : Z.testbit (Z_of_byte b) (i - shift) = false).
        { destruct (Z.eq_dec (Z_of_byte b) 0) as [->|Hnz];
            [apply Z.testbit_0_l|].
          apply Z.bits_above_log2; [lia|].
          assert (Z.log2 (Z_of_byte b) < 8) by (apply Z.log2_lt_pow2; lia). lia. }
        rewrite Hz. cbn [andb orb]. rewrite orb_false_r.
        replace ((i - shift) / 8) with ((i - (shift + 8)) / 8 + 1).
        2:{ replace (i - shift) with (i - (shift + 8) + 1 * 8) by lia.
            now rewrite Z.div_add by lia. }
        replace ((i - shift) mod 8) with ((i - (shift + 8)) mod 8).
        2:{ replace (i - shift) with (i - (shift + 8) + 1 * 8) by lia.
            now rewrite Z.mod_add by lia. }
        assert (0 <= (i - (shift + 8)) / 8) by (apply Z.div_pos; lia).
        rewrite Z2Nat.inj_add by lia. change (Z.to_nat 1) with 1%nat.
        rewrite Nat.add_1_r. cbn [nth].
        replace (shift + 8 + 8 * Z.of_nat (length rest))
          with (shift + 8 * Z.of_nat (S (length rest))) by lia.
        reflexivity.
      * destruct (Z.leb_spec (shift + 8) i); [lia|]. cbn [andb]. rewrite orb_false_r.
        rewrite Z.div_small, Z.mod_small by lia. cbn [Z.to_nat nth].
        destruct (Z.ltb_spec i (shift + 8 * Z.of_nat (S (length rest)))); [|lia].
        cbn [andb]. f_equal. apply andb_comm.
    + rewrite (Z.testbit_neg_r _ (i - shift)) by lia.
      destruct (Z.leb_spec (shift + 8) i); [lia|].
      cbn [andb]. now rewrite !orb_false_r.
Qed.

Lemma INT_TO_BYTES_HELPER_nth val (n : nat) : forall shift (k : nat),
  (k < n)%nat ->
  nth k (INT_TO_BYTES_HELPER val shift n) x00
  = byte_of_Z (Z.land (Z.shiftr val (shift + 8 * Z.of_nat k)) 255).
Proof.
  induction n as [|n IH]; intros shift k Hk; [lia|].
  cbn [INT_TO_BYTES_HELPER]. destruct k as [|k]; cbn [nth].
  - now rewrite Z.add_0_r.
  - rewrite IH by lia. do 3 f_equal. lia.
Qed.

Lemma Z_of_byte_inj (x y : byte) : Z_of_byte x = Z_of_byte y -> x = y.
Proof.
  intros H. rewrite <- (byte_of_Z_of_byte x), <- (byte_of_Z_of_byte y).
  now rewrite H.
Qed.

Lemma int_to_bytes_of_bytes_to_int bits (array : list byte) :
  bits = 8 * Z.of_nat (length array) ->
  INT_TO_BYTES_HELPER (BYTES_TO_INT_HELPER bits 0 0 array) 0 (length array)
  = array.
Proof.
  intros Hb. apply (nth_ext _ _ x00 x00); [apply INT_TO_BYTES_HELPER_length|].
  rewrite INT_TO_BYTES_HELPER_length. intros k Hk.
  rewrite INT_TO_BYTES_HELPER_nth by exact Hk.
  apply Z_of_byte_inj. rewrite Z_of_byte_of_Z.
  change 255 with (Z.ones 8). rewrite Z.land_ones by lia.
  change 256 with (2 ^ 8). rewrite Z.mod_mod by lia.
  pose proof (Z_of_byte_range (nth k array x00)) as Hr.
  apply Z.bits_inj'. intros i Hi.
  destruct (Z.ltb_spec i 8) as [Hlt|Hge].
  - rewrite Z.mod_pow2_bits_low by lia.
    rewrite Z.shiftr_spec by lia.
    rewrite BYTES_TO_INT_HELPER_testbit by lia.
    rewrite Z.testbit_0_l, orb_false_l, Z.sub_0_r.
    replace (i + (0 + 8 * Z.of_nat k)) with (i + Z.of_nat k * 8) by lia.
    rewrite Z.div_add, Z.mod_add by lia.
    rewrite Z.div_small, Z.mod_small by lia. rewrite Z.add_0_l.
    rewrite ?Z.add_0_l, ?Nat2Z.id.
    destruct (Z.leb_spec 0 (i + Z.of_nat k * 8)); [|lia].
    destruct (Z.ltb_spec (i + Z.of_nat k * 8) (8 * Z.of_nat (length array)));
      [|lia].
    destruct (Z.ltb_spec (i + Z.of_nat k * 8) bits); [|lia].
    reflexivity.
  - rewrite Z.mod_pow2_bits_high by lia.
    destruct (Z.eq_dec (Z_of_byte (nth k array x00)) 0) as [->|Hnz];
      [now rewrite Z.testbit_0_l|].
    symmetry. apply Z.bits_above_log2; [lia|].
    assert (Z.log2 (Z_of_byte (nth k array x00)) < 8)
      by (apply Z.log2_lt_pow2; lia). lia.
Qed.

Lemma BYTES_TO_INT_HELPER_range bits (array : list byte) :
  0 <= bits -> 0 <= BYTES_TO_INT_HELPER bits 0 0 array < 2 ^ bits.
Proof.
  intros Hb.
  assert (Hnn : forall shift retval, 0 <= retval -> 0 <= shift ->
                0 <= BYTES_TO_INT_HELPER bits retval shift array).
  { induction array as [|b rest IH]; intros shift retval Hr Hs;
      cbn [BYTES_TO_INT_HELPER]; [exact Hr|].
    apply IH; [|lia]. apply Z.lor_nonneg. split; [exact Hr|].
    apply Z.mod_pos_bound. apply Z.pow_pos_nonneg; lia. }
  split; [apply Hnn; lia|].
  set (v := BYTES_TO_INT_HELPER bits 0 0 array).
  assert (Hv : 0 <= v) by (apply Hnn; lia).
  destruct (Z.eq_dec v 0) as [->|Hnz]; [apply Z.pow_pos_nonneg; lia|].
  apply Z.log2_lt_pow2; [lia|].
  destruct (Z.lt_ge_cases (Z.log2 v) bits) as [Hlt|Hge]; [exact Hlt|exfalso].
  pose proof (Z.bit_log2 v ltac:(lia)) as Hbit. unfold v in Hbit at 1.
  rewrite BYTES_TO_INT_HELPER_testbit in Hbit by (try apply Z.log2_nonneg; lia).
  rewrite Z.testbit_0_l, orb_false_l in Hbit.
  destruct (Z.ltb_spec (Z.log2 v) bits); [lia|].
  now rewrite andb_false_r, andb_false_l in Hbit.
Qed.

Lemma u32_to_bytes_of_bytes_to_u32 (src : list byte) :
  (4 <= length src)%nat ->
  u32_range (bytes_to_u32 src) /\ u32_to_bytes (bytes_to_u32 src) = firstn 4 src.
Proof.
  intros H. unfold bytes_to_u32, u32_to_bytes, u32_range.
  split; [apply BYTES_TO_INT_HELPER_range; lia|].
  pose proof (int_to_bytes_of_bytes_to_int 32 (firstn 4 src)) as E.
  rewrite length_firstn, Nat.min_l in E by exact H. now apply E.
Qed.

Lemma u64_to_bytes_of_bytes_to_u64 (src : list byte) :
  (8 <= length src)%nat ->
  u64_range (bytes_to_u64 src) /\ u64_to_bytes (bytes_to_u64 src) = firstn 8 src.
Proof.
  intros H. unfold bytes_to_u64, u64_to_bytes, u64_range.
  split; [apply BYTES_TO_INT_HELPER_range; lia|].
  pose proof (int_to_bytes_of_bytes_to_int 64 (firstn 8 src)) as E.
  rewrite length_firstn, Nat.min_l in E by exact H. now apply E.
Qed.

(** ** Byte order
    The value of a byte array read with the first byte as the least
    significant one. *)
Fixpoint little_endian (array : list byte) : Z :=
  match array with
  | [] => 0
  | b :: rest => Z_of_byte b + 2 ^ 8 * little_endian rest
  end.

Lemma little_endian_range (array : list byte) :
  0 <= little_endian array < 2 ^ (8 * Z.of_nat (length array)).
Proof.
  induction array as [|b rest IH]; [cbn; lia|].
  cbn [little_endian length]. pose proof (Z_of_byte_range b) as Hb.
  replace (8 * Z.of_nat (S (length rest))) with (8 + 8 * Z.of_nat (length rest)) by lia.
  rewrite Z.pow_add_r by lia. nia.
Qed.

Lemma lor_shiftl_add (a b k : Z) :
  0 <= k -> 0 <= a < 2 ^ k -> Z.lor a (Z.shiftl b k) = a + 2 ^ k * b.
Proof.
  intros Hk Ha.
  assert (H0 : Z.land a (Z.shiftl b k) = 0).
  { apply Z.bits_inj'. intros i Hi. rewrite Z.land_spec, Z.testbit_0_l.
    destruct (Z.lt_ge_cases i k) as [Hlt|Hge].
    - rewrite Z.shiftl_spec_low by lia. apply andb_false_r.
    - destruct (Z.eq_dec a 0) as [->|Hnz]; [now rewrite Z.testbit_0_l|].
      rewrite Z.bits_above_log2; [reflexivity|lia|].
      assert (Z.log2 a < k) by (apply Z.log2_lt_pow2; lia). lia. }
  rewrite <- Z.lxor_lor by exact H0.
  rewrite <- Z.add_nocarry_lxor by exact H0.
  rewrite Z.shiftl_mul_pow2 by lia. lia.
Qed.

(** [BYTES_TO_INT_HELPER] adds the bytes of the array at their places, the
    first one lowest, as long as they fit in the [bits]-wide type. *)
Lemma BYTES_TO_INT_HELPER_little_endian (bits : Z) (array : list byte) :
  forall shift retval,
  0 <= shift -> 0 <= retval < 2 ^ shift ->
  shift + 8 * Z.of_nat (length array) <= bits ->
  BYTES_TO_INT_HELPER bits retval shift array
  = retval + 2 ^ shift * little_endian array.
Proof.
  induction array as [|b rest IH]; intros shift retval Hs Hr Hb;
    cbn [BYTES_TO_INT_HELPER little_endian length] in *; [lia|].
  pose proof (Z_of_byte_range b) as Hbyte.
  assert (Hp : 0 < 2 ^ shift) by (apply Z.pow_pos_nonneg; lia).
  assert (Hsmall : 0 <= Z.shiftl (Z_of_byte b) shift < 2 ^ bits).
  { rewrite Z.shiftl_mul_pow2 by lia. split; [nia|].
    apply Z.lt_le_trans with (2 ^ (shift + 8)).
    - rewrite Z.pow_add_r by lia. nia.
    - apply Z.pow_le_mono_r; lia. }
  rewrite Z.mod_small by exact Hsmall.
  rewrite lor_shiftl_add by lia.
  rewrite IH.
  - rewrite Z.pow_add_r by lia. ring.
  - lia.
  - rewrite Z.pow_add_r by lia. nia.
  - lia.
Qed.

(** [bytes_to_u32] and [bytes_to_u64] read the first four and eight bytes
    of an array as little-endian integers, the first byte being the least
    significant one, whatever follows them; the value read is in the range
    of its type, and [u32_to_bytes], [u64_to_bytes] write exactly those
    bytes back, in the same order. *)
Theorem bytes_to_int_little_endian (b0 b1 b2 b3 b4 b5 b6 b7 : byte)
    (rest : list byte) :
  bytes_to_u32 (b0 :: b1 :: b2 :: b3 :: rest)
  = Z_of_byte b0 + 2 ^ 8 * Z_of_byte b1 + 2 ^ 16 * Z_of_byte b2
    + 2 ^ 24 * Z_of_byte b3 /\
  u32_range (bytes_to_u32 (b0 :: b1 :: b2 :: b3 :: rest)) /\
  u32_to_bytes (bytes_to_u32 (b0 :: b1 :: b2 :: b3 :: rest))
  = [b0; b1; b2; b3] /\
  bytes_to_u64 (b0 :: b1 :: b2 :: b3 :: b4 :: b5 :: b6 :: b7 :: rest)
  = Z_of_byte b0 + 2 ^ 8 * Z_of_byte b1 + 2 ^ 16 * Z_of_byte b2
    + 2 ^ 24 * Z_of_byte b3 + 2 ^ 32 * Z_of_byte b4 + 2 ^ 40 * Z_of_byte b5
    + 2 ^ 48 * Z_of_byte b6 + 2 ^ 56 * Z_of_byte b7 /\
  u64_range (bytes_to_u64 (b0 :: b1 :: b2 :: b3 :: b4 :: b5 :: b6 :: b7 :: rest)) /\
  u64_to_bytes (bytes_to_u64 (b0 :: b1 :: b2 :: b3 :: b4 :: b5 :: b6 :: b7 :: rest))
  = [b0; b1; b2; b3; b4; b5; b6; b7].
Proof.
  set (s4 := b0 :: b1 :: b2 :: b3 :: rest).
  set (s8 := b0 :: b1 :: b2 :: b3 :: b4 :: b5 :: b6 :: b7 :: rest).
  destruct (u32_to_bytes_of_bytes_to_u32 s4) as [R4 E4]; [cbn; lia|].
  destruct (u64_to_bytes_of_bytes_to_u64 s8) as [R8 E8]; [cbn; lia|].
  repeat split; try apply R4; try apply R8; try exact E4; try exact E8.
  - unfold bytes_to_u32, s4. cbn [firstn].
    rewrite BYTES_TO_INT_HELPER_little_endian by (cbn; lia).
    cbn [little_endian]. lia.
  - unfold bytes_to_u64, s8. cbn [firstn].
    rewrite BYTES_TO_INT_HELPER_little_endian by (cbn; lia).
    cbn [little_endian]. lia.
Qed.

(** [qsort_u32_cmp] is zero exactly on equal values, but it is negative
    exactly when [a] is below [b] by at most [2 ^ 31] or above it by at least
    [2 ^ 31]: it has the sign of [a - b] only while the two values are less
    than [2 ^ 31] apart. *)
Theorem qsort_u32_cmp_sign (a b : Z) :
  u32_range a -> u32_range b ->
  (qsort_u32_cmp a b = 0 <-> a = b) /\
  (qsort_u32_cmp a b < 0 <-> (a < b <= a + 2 ^ 31) \/ b + 2 ^ 31 <= a).
Proof.
  unfold u32_range, qsort_u32_cmp, u32_as_int, to_u32. intros Ha Hb.
  rewrite Z.mod_mod by lia.
  destruct (Z.lt_ge_cases (a - b) 0) as [Hneg|Hpos].
  - replace (a - b) with (a - b + 2 ^ 32 + (-1) * 2 ^ 32) by lia.
    rewrite Z.mod_add by lia. rewrite Z.mod_small by lia.
    destruct (Z.ltb_spec (a - b + 2 ^ 32) (2 ^ 31)); split; lia.
  - rewrite Z.mod_small by lia.
    destruct (Z.ltb_spec (a - b) (2 ^ 31)); split; lia.
Qed.

Lemma qsort_u32_cmp_sign_witness :
  (qsort_u32_cmp (2 ^ 31) 0 = 0 <-> 2 ^ 31 = 0) /\
  (qsort_u32_cmp (2 ^ 31) 0 < 0 <-> (2 ^ 31 < 0 <= 2 ^ 31 + 2 ^ 31) \/ 0 + 2 ^ 31 <= 2 ^ 31).
Proof. apply qsort_u32_cmp_sign; unfold u32_range; lia. Defined.

(** [INT_TO_BYTES_HELPER] reads only the bits of [val] below [bits]. *)
Lemma INT_TO_BYTES_HELPER_low (bits val : Z) (n : nat) : forall shift,
  0 <= shift -> shift + 8 * Z.of_nat n <= bits ->
  INT_TO_BYTES_HELPER val shift n = INT_TO_BYTES_HELPER (val mod 2 ^ bits) shift n.
Proof.
  induction n as [|n IH]; intros shift Hs Hb; [reflexivity|].
  cbn [INT_TO_BYTES_HELPER]. rewrite <- IH by lia. f_equal. f_equal.
  apply Z.bits_inj'. intros i Hi.
  rewrite !Z.land_spec, !Z.shiftr_spec by lia.
  destruct (Z.lt_ge_cases i 8) as [Hlt|Hge].
  - rewrite Z.mod_pow2_bits_low by lia. reflexivity.
  - change 255 with (Z.ones 8). rewrite Z.ones_spec_high by lia.
    now rewrite !andb_false_r.
Qed.

(** Encoding then decoding: [u32_to_bytes] and [u64_to_bytes] write 4 and
    8 bytes, and [bytes_to_u32] and [bytes_to_u64] read back from them,
    whatever follows, the value reduced to its type: the value itself
    when it is in range. *)
Theorem int_to_bytes_to_int (val : Z) (rest : list byte) :
  length (u32_to_bytes val) = 4%nat /\
  bytes_to_u32 (u32_to_bytes val ++ rest) = to_u32 val /\
  length (u64_to_bytes val) = 8%nat /\
  bytes_to_u64 (u64_to_bytes val ++ rest) = to_u64 val.
Proof.
  split; [apply INT_TO_BYTES_HELPER_length|].
  split; [|split; [apply INT_TO_BYTES_HELPER_length|]].
  - unfold u32_to_bytes. rewrite (INT_TO_BYTES_HELPER_low 32) by (cbn; lia).
    apply bytes_to_u32_to_bytes. unfold u32_range.
    apply Z.mod_pos_bound. lia.
  - unfold u64_to_bytes. rewrite (INT_TO_BYTES_HELPER_low 64) by (cbn; lia).
    apply bytes_to_u64_to_bytes. unfold u64_range.
    apply Z.mod_pos_bound. lia.
Qed.

End UtilsFacts.

(* ===================================================================== *)
(** * Properties of the manifest codec *)
(* ===================================================================== *)
Module ComuxFacts.
Import Utils UtilsFacts Comux.

Lemma bytes_at_app (pre x rest : list byte) :
  bytes_at (pre ++ x ++ rest) (Z.of_nat (length pre)) (Z.of_nat (length x)) = x.
Proof.
  unfold bytes_at. rewrite !Nat2Z.id.
  rewrite skipn_app, skipn_all, Nat.sub_diag. simpl.
  rewrite firstn_app, Nat.sub_diag, firstn_all. simpl. now rewrite app_nil_r.
Qed.

Lemma cinfo_header_bytes_length c : length (cinfo_header_bytes c) = 20%nat.
Proof.
  unfold cinfo_header_bytes, u32_to_bytes, u64_to_bytes.
  now rewrite !length_app, !INT_TO_BYTES_HELPER_length.
Qed.

Lemma chunks_size_cons c l :
  chunks_size (c :: l) = 20 + len c + chunks_size l.
Proof. reflexivity. Qed.

Lemma chunks_size_nonneg l :
  Forall wf_cinfo l -> 0 <= chunks_size l.
Proof.
  induction 1 as [|c l Hc _ IH]; [unfold chunks_size; simpl; lia|].
  rewrite chunks_size_cons. destruct Hc as (_ & _ & _ & Hl & _). lia.
Qed.

Lemma to_ssize_small z : 0 <= z < 2 ^ 63 -> to_ssize z = z.
Proof.
  intros H. unfold to_ssize. rewrite Z.mod_small by lia.
  destruct (Z.ltb_spec z (2 ^ 63)); lia.
Qed.

Lemma to_u64_small z : 0 <= z < 2 ^ 64 -> to_u64 z = z.
Proof. intros H. unfold to_u64. now rewrite Z.mod_small. Qed.

Lemma MAX_0_nonneg z : 0 <= z -> MAX 0 z = z.
Proof. intros H. unfold MAX. destruct (Z.gtb_spec 0 z); lia. Qed.

Lemma bytes_at_mid (pre x rest : list byte) (off n : Z) :
  off = Z.of_nat (length pre) -> n = Z.of_nat (length x) ->
  bytes_at (pre ++ x ++ rest) off n = x.
Proof. intros -> ->. apply bytes_at_app. Qed.

Lemma u32_to_bytes_length v : length (u32_to_bytes v) = 4%nat.
Proof. apply INT_TO_BYTES_HELPER_length. Qed.
Lemma u64_to_bytes_length v : length (u64_to_bytes v) = 8%nat.
Proof. apply INT_TO_BYTES_HELPER_length. Qed.

Lemma bytes_to_u32_to_bytes' v : u32_range v -> bytes_to_u32 (u32_to_bytes v) = v.
Proof. intros H. rewrite <- (app_nil_r (u32_to_bytes v)). now apply bytes_to_u32_to_bytes. Qed.
Lemma bytes_to_u64_to_bytes' v : u64_range v -> bytes_to_u64 (u64_to_bytes v) = v.
Proof. intros H. rewrite <- (app_nil_r (u64_to_bytes v)). now apply bytes_to_u64_to_bytes. Qed.

Lemma comux_cinfo_read_buffer_bytes (c0 c : comux_cinfo_t) (rest : list byte) (rl : Z) :
  u32_range (id c) -> u64_range (len c) -> u32_range (sched c) -> u32_range (flags c) ->
  comux_cinfo_read_buffer c0 (cinfo_header_bytes c ++ rest) rl
  = (COMUX_PARSE_OK,
     mk_cinfo (id c) (len c) (sched c) (flags c) (data c0) (offset c0), 20).
Proof.
  intros Hi Hl Hs Hf. unfold comux_cinfo_read_buffer.
  assert (HL : Z.of_nat (length (cinfo_header_bytes c ++ rest)) = 20 + Z.of_nat (length rest)).
  { rewrite length_app, cinfo_header_bytes_length. lia. }
  rewrite HL. cbv zeta.
  repeat match goal with
  | |- context [?a <? 0] => destruct (Z.ltb_spec a 0); [lia|]
  end.
  unfold cinfo_header_bytes. rewrite <- !app_assoc.
  set (A := u32_to_bytes (id c)). set (B := u64_to_bytes (len c)).
  set (C := u32_to_bytes (sched c)). set (D := u32_to_bytes (flags c)).
  assert (E1 : bytes_at (A ++ B ++ C ++ D ++ rest) 0 4 = A).
  { apply (bytes_at_mid [] A); reflexivity. }
  assert (E2 : bytes_at (A ++ B ++ C ++ D ++ rest) (0 + 4) 8 = B).
  { apply (bytes_at_mid A B); reflexivity. }
  assert (E3 : bytes_at (A ++ B ++ C ++ D ++ rest) (0 + 4 + 8) 4 = C).
  { rewrite (app_assoc A). apply bytes_at_mid; [now rewrite length_app|reflexivity]. }
  assert (E4 : bytes_at (A ++ B ++ C ++ D ++ rest) (0 + 4 + 8 + 4) 4 = D).
  { rewrite (app_assoc A), (app_assoc (A ++ B)). apply bytes_at_mid; [now rewrite !length_app|reflexivity]. }
  rewrite E1, E2.
  rewrite E3, E4.
  subst A B C D.
  rewrite !bytes_to_u32_to_bytes', bytes_to_u64_to_bytes' by assumption.
  reflexivity.
Qed.

Lemma COMUX_MAGIC_length : length COMUX_MAGIC = 8%nat.
Proof. reflexivity. Qed.

Lemma memcmp_differs_refl a : memcmp_differs a a = false.
Proof. unfold memcmp_differs. destruct (list_eq_dec Byte.byte_eq_dec a a); [reflexivity|contradiction]. Qed.

Lemma comux_header_read_buffer_bytes (h0 h : comux_header_t) (rest : list byte) (rl : Z) :
  wf_header h ->
  comux_header_read_buffer h0 (header_bytes h ++ rest) rl = (COMUX_PARSE_OK, h, 20).
Proof.
  intros (Hm & Hv & Hc & Hk). unfold comux_header_read_buffer.
  assert (HL : Z.of_nat (length (header_bytes h ++ rest)) = 20 + Z.of_nat (length rest)).
  { unfold header_bytes. rewrite !length_app, !u32_to_bytes_length, Hm, COMUX_MAGIC_length. lia. }
  rewrite HL. cbv zeta. unfold COMUX_MAGIC_LEN.
  destruct (Z.ltb_spec (20 + Z.of_nat (length rest) - 8) 0); [lia|].
  unfold header_bytes. rewrite <- !app_assoc.
  set (A := magic h). set (B := u32_to_bytes (version h)).
  set (C := u32_to_bytes (num_conns h)). set (D := u32_to_bytes (num_chunks h)).
  assert (LA : length A = 8%nat) by (unfold A; now rewrite Hm).
  assert (E1 : bytes_at (A ++ B ++ C ++ D ++ rest) 0 8 = A).
  { apply (bytes_at_mid [] A); [reflexivity|now rewrite LA]. }
  assert (E2 : bytes_at (A ++ B ++ C ++ D ++ rest) 8 4 = B).
  { apply (bytes_at_mid A B); [now rewrite LA|reflexivity]. }
  assert (E3 : bytes_at (A ++ B ++ C ++ D ++ rest) (8 + 4) 4 = C).
  { rewrite (app_assoc A). apply bytes_at_mid; [now rewrite length_app, LA|reflexivity]. }
  assert (E4 : bytes_at (A ++ B ++ C ++ D ++ rest) (8 + 4 + 4) 4 = D).
  { rewrite (app_assoc A), (app_assoc (A ++ B)). apply bytes_at_mid; [now rewrite !length_app, LA|reflexivity]. }
  rewrite E1. cbn [magic set_magic].
  replace (memcmp_differs A COMUX_MAGIC) with false
    by (unfold A; rewrite Hm; symmetry; apply memcmp_differs_refl).
  repeat match goal with
  | |- context [?a <? 0] => destruct (Z.ltb_spec a 0); [lia|]
  end.
  cbn [magic version num_conns num_chunks set_magic set_version set_num_conns set_num_chunks].
  rewrite E2, E3, E4. subst B C D.
  rewrite !bytes_to_u32_to_bytes' by assumption.
  destruct h; reflexivity.
Qed.

Lemma write_buffer_chunks_ok (l : list comux_cinfo_t) :
  forall total space out,
  Forall wf_cinfo l -> chunks_size l <= space -> space < 2 ^ 63 ->
  write_buffer_chunks l total space out
  = (total + chunks_size l, out ++ concat (map cinfo_bytes l)).
Proof.
  induction l as [|c l IH]; intros total space out Hwf Hsz Hsp.
  - simpl. unfold chunks_size. simpl. now rewrite Z.add_0_r, app_nil_r.
  - inversion Hwf as [|? ? Hc Hl]; subst.
    pose proof (chunks_size_nonneg l Hl) as Hnn.
    rewrite chunks_size_cons in Hsz |- *.
    destruct Hc as (Hid & Hsc & Hfl & Hlen & Hmax).
    assert (Hlen0 : 0 <= len c) by lia.
    unfold COMUX_CHUNK_DATA_MAXLEN in Hmax.
    cbn [write_buffer_chunks].
    unfold comux_cinfo_write_buffer, comux_cinfo_data_write_buffer.
    rewrite (to_u64_small space) by lia.
    destruct (Z.ltb_spec space (4 + 8 + 4 + 4)); [lia|].
    change (4 + 8 + 4 + 4 <? 0) with false. cbv iota.
    rewrite MAX_0_nonneg by lia.
    rewrite (to_ssize_small (len c)) by lia.
    rewrite (to_u64_small (len c)) by lia.
    rewrite (to_u64_small (space - (4 + 8 + 4 + 4))) by lia.
    destruct (Z.gtb_spec (len c) (space - (4 + 8 + 4 + 4))); [lia|].
    destruct (Z.ltb_spec (len c) 0); [lia|].
    rewrite MAX_0_nonneg by lia.
    rewrite IH by (auto; lia).
    f_equal; [lia|].
    cbn [map concat]. unfold cinfo_bytes at 2, cinfo_header_bytes.
    rewrite Hlen, Nat2Z.id, firstn_all.
    now rewrite <- !app_assoc.
Qed.

Lemma skipn_app_exact (pre x : list byte) (off : Z) :
  off = Z.of_nat (length pre) -> skipn (Z.to_nat off) (pre ++ x) = x.
Proof.
  intros ->. rewrite Nat2Z.id, skipn_app, skipn_all, Nat.sub_diag. reflexivity.
Qed.

Lemma comux_cinfo_data_read_buffer_exact (c : comux_cinfo_t) (payload rest : list byte) :
  len c = Z.of_nat (length payload) -> len c <= COMUX_CHUNK_DATA_MAXLEN ->
  comux_cinfo_data_read_buffer c (payload ++ rest)
  = (len c, set_data c payload).
Proof.
  intros Hl Hm. unfold comux_cinfo_data_read_buffer.
  destruct (Z.gtb_spec (len c) COMUX_CHUNK_DATA_MAXLEN); [lia|].
  assert (Hcap : MIN (len c) (Z.of_nat (length (payload ++ rest))) = len c).
  { unfold MIN. rewrite length_app.
    destruct (Z.ltb_spec (len c) (Z.of_nat (length payload + length rest))); lia. }
  rewrite Hcap.
  replace (bytes_at (payload ++ rest) 0 (len c)) with payload
    by (symmetry; apply (bytes_at_mid [] payload rest); [reflexivity|assumption]).
  destruct c; reflexivity.
Qed.

Lemma read_buffer_chunks_ok (l : list comux_cinfo_t) :
  forall pre rest acc rcount,
  Forall wf_cinfo l ->
  read_buffer_chunks (length l) (pre ++ concat (map cinfo_bytes l) ++ rest)
                     (Z.of_nat (length pre)) rcount acc
  = (COMUX_PARSE_OK, acc ++ map (fun c => set_offset c 0) l,
     Z.of_nat (length pre) + chunks_size l).
Proof.
  induction l as [|c l IH]; intros pre rest acc rcount Hwf.
  - simpl. unfold chunks_size. simpl. now rewrite Z.add_0_r, app_nil_r.
  - inversion Hwf as [|? ? Hc Hl]; subst.
    destruct Hc as (Hid & Hsc & Hfl & Hlen & Hmax).
    cbn [length read_buffer_chunks map concat].
    change (cinfo_bytes c) with (cinfo_header_bytes c ++ data c).
    rewrite <- !app_assoc.
    rewrite (skipn_app_exact pre) by reflexivity.
    rewrite comux_cinfo_read_buffer_bytes;
      [|assumption|unfold u64_range, COMUX_CHUNK_DATA_MAXLEN in *; lia|assumption|assumption].
    cbn [nonzero parse_result_value Z.eqb negb len].
    rewrite (app_assoc pre).
    rewrite (skipn_app_exact (pre ++ cinfo_header_bytes c))
      by (rewrite length_app, cinfo_header_bytes_length; lia).
    rewrite comux_cinfo_data_read_buffer_exact by assumption.
    cbn [len].
    destruct (Z.ltb_spec (len c) (len c)); [lia|].
    rewrite (app_assoc (pre ++ cinfo_header_bytes c)).
    replace (Z.of_nat (length pre) + 20 + len c)
      with (Z.of_nat (length ((pre ++ cinfo_header_bytes c) ++ data c)))
      by (rewrite !length_app, cinfo_header_bytes_length; lia).
    rewrite IH by assumption.
    rewrite chunks_size_cons, !length_app, cinfo_header_bytes_length.
    rewrite <- app_assoc. cbn [app].
    replace (Z.of_nat (length pre + 20 + length (data c)) + chunks_size l)
      with (Z.of_nat (length pre) + (20 + len c + chunks_size l)) by lia.
    destruct c; reflexivity.
Qed.

(** C1: for every well-formed manifest (magic "comux!!!", [num_chunks]
    equal to the number of chunk records, every [len] equal to its payload
    length and at most 524288), [comux_manifest_write_buffer] into a large
    enough buffer succeeds, and [comux_manifest_read_buffer] of the bytes it
    wrote returns [COMUX_PARSE_OK] with the same header, the same number of
    chunks in the same order, and for each chunk the same conn id, len,
    sched, flags and payload bytes. *)
Theorem manifest_buffer_roundtrip (m : comux_manifest_t) (max_len : Z) :
  wf_manifest m -> manifest_size m <= max_len < 2 ^ 63 ->
  exists bytes m',
    comux_manifest_write_buffer m max_len = (manifest_size m, bytes) /\
    comux_manifest_read_buffer comux_manifest_init bytes 0
      = (COMUX_PARSE_OK, m', manifest_size m) /\
    header m' = header m /\
    length (cinfo_list m') = length (cinfo_list m) /\
    Forall2 same_chunk (cinfo_list m') (cinfo_list m).
Proof.
  intros (Hh & Hn & Hl) [Hsz Hmax].
  pose proof (chunks_size_nonneg _ Hl) as Hnn. unfold manifest_size in *.
  exists (header_bytes (header m) ++ concat (map cinfo_bytes (cinfo_list m))).
  exists (mk_manifest (header m) (map (fun c => set_offset c 0) (cinfo_list m))).
  split; [|split; [|split; [|split]]].
  - unfold comux_manifest_write_buffer, comux_header_write_buffer.
    rewrite to_ssize_small by lia. rewrite to_u64_small by lia.
    unfold COMUX_MAGIC_LEN.
    destruct (Z.ltb_spec max_len (8 + 4 + 4 + 4)); [lia|].
    change (8 + 4 + 4 + 4 <? 0) with false. cbv iota.
    rewrite MAX_0_nonneg by lia.
    rewrite write_buffer_chunks_ok by (auto; lia). reflexivity.
  - unfold comux_manifest_read_buffer. cbn [header cinfo_list comux_manifest_init].
    rewrite comux_header_read_buffer_bytes by assumption.
    cbn [nonzero parse_result_value Z.eqb negb].
    rewrite Hn, Nat2Z.id.
    pose proof (read_buffer_chunks_ok (cinfo_list m) (header_bytes (header m)) [] [] 20 Hl) as R.
    rewrite app_nil_r in R.
    assert (HL : Z.of_nat (length (header_bytes (header m))) = 20).
    { destruct Hh as (Hm & _). unfold header_bytes.
      rewrite !length_app, !u32_to_bytes_length, Hm, COMUX_MAGIC_length. reflexivity. }
    rewrite HL in R. rewrite R. reflexivity.
  - reflexivity.
  - cbn [cinfo_list]. apply length_map.
  - cbn [cinfo_list]. clear. induction (cinfo_list m) as [|c l IH]; simpl; constructor; auto.
    unfold same_chunk; destruct c; simpl; auto.
Qed.

(** The minimal manifest: one connection, one chunk holding "hello". *)
Definition hello_manifest : comux_manifest_t :=
  mk_manifest (mk_header COMUX_MAGIC 0 1 1)
    [mk_cinfo 0 5 0 0 (map byte_of_Z [104; 101; 108; 108; 111]) 0].

Lemma hello_manifest_wf : wf_manifest hello_manifest.
Proof.
  unfold wf_manifest, wf_header, wf_cinfo, u32_range, hello_manifest; simpl.
  repeat split; try lia; try reflexivity.
  constructor; [|constructor]. simpl.
  unfold COMUX_CHUNK_DATA_MAXLEN. repeat split; lia.
Defined.

Lemma manifest_buffer_roundtrip_witness :
  exists bytes m',
    comux_manifest_write_buffer hello_manifest 45
      = (manifest_size hello_manifest, bytes) /\
    comux_manifest_read_buffer comux_manifest_init bytes 0
      = (COMUX_PARSE_OK, m', manifest_size hello_manifest) /\
    header m' = header hello_manifest /\
    length (cinfo_list m') = length (cinfo_list hello_manifest) /\
    Forall2 same_chunk (cinfo_list m') (cinfo_list hello_manifest).
Proof.
  apply (manifest_buffer_roundtrip hello_manifest 45).
  - exact hello_manifest_wf.
  - vm_compute. split; [discriminate|reflexivity].
Defined.

Lemma firstn_plus {A} (a b : nat) (l : list A) :
  firstn a l ++ firstn b (skipn a l) = firstn (a + b) l.
Proof.
  revert l; induction a as [|a IH]; intros l; simpl; [reflexivity|].
  destruct l; simpl; [now rewrite firstn_nil|]. now rewrite IH.
Qed.

Lemma skipn_skipn' {A} (a b : nat) (l : list A) :
  skipn a (skipn b l) = skipn (b + a) l.
Proof.
  revert l; induction b as [|b IH]; intros l; simpl; [reflexivity|].
  destruct l; simpl; [now rewrite skipn_nil|]. apply IH.
Qed.

Lemma bytes_at_length s p n :
  0 <= p -> 0 <= n ->
  Z.of_nat (length (bytes_at s p n)) = Z.min n (available s p).
Proof.
  intros Hp Hn. unfold bytes_at, available. rewrite length_firstn. lia.
Qed.

Lemma data_read_loop_spec (s : list byte) (p0 cap : Z) :
  0 <= p0 -> 0 <= cap ->
  forall fuel c t,
  0 <= t <= cap -> t <= available s p0 ->
  (Z.to_nat (cap - t) < fuel)%nat ->
  data c = bytes_at s p0 t ->
  exists c',
    data_read_loop fuel c (mk_fd s (p0 + t)) cap
                   (if cap >? 2048 then 2048 else cap) t
    = Some (c', mk_fd s (p0 + Z.min cap (available s p0)),
            Z.min cap (available s p0)) /\
    data c' = bytes_at s p0 (Z.min cap (available s p0)) /\
    id c' = id c /\ sched c' = sched c /\ flags c' = flags c /\
    offset c' = offset c.
Proof.
  intros Hp0 Hcap. induction fuel as [|fuel IH]; intros c t Ht HtA Hfuel Hdata; [lia|].
  cbn [data_read_loop]. unfold read. cbn [contents pos].
  set (bs := if cap >? 2048 then 2048 else cap).
  assert (Hbs : 0 <= bs /\ (0 < cap -> 0 < bs)).
  { unfold bs. destruct (Z.gtb_spec cap 2048); lia. }
  set (req := MIN (cap - t) bs).
  assert (Hreq : 0 <= req <= cap - t /\ (t < cap -> 0 < req)).
  { unfold req, MIN. destruct (Z.ltb_spec (cap - t) bs); lia. }
  set (bytes := bytes_at s (p0 + t) req).
  assert (Hlen : Z.of_nat (length bytes) = Z.min req (available s p0 - t)).
  { unfold bytes. rewrite bytes_at_length by lia. unfold available.
    replace (Z.to_nat (p0 + t)) with (Z.to_nat p0 + Z.to_nat t)%nat by lia.
    rewrite <- skipn_skipn', length_skipn.
    pose proof (length_skipn (Z.to_nat t) (skipn (Z.to_nat p0) s)).
    unfold available in HtA. lia. }
  destruct (Z.gtb_spec (Z.of_nat (length bytes)) 0) as [Hpos|Hzero];
  destruct (Z.ltb_spec t cap) as [Hlt|Hge]; cbn [andb].
  - (* another turn *)
    destruct (IH (comux_cinfo_data_appendn c bytes) (t + Z.of_nat (length bytes)))
      as (c' & E & D & I1 & I2 & I3 & I4); try lia.
    + unfold comux_cinfo_data_appendn, set_len, set_data; cbn [data].
      rewrite Hdata.
      set (Y := skipn (Z.to_nat t) (skipn (Z.to_nat p0) s)).
      assert (Hb : bytes = firstn (Z.to_nat req) Y).
      { unfold bytes, bytes_at, Y.
        replace (Z.to_nat (p0 + t)) with (Z.to_nat p0 + Z.to_nat t)%nat by lia.
        now rewrite <- skipn_skipn'. }
      assert (Hb' : bytes = firstn (length bytes) Y).
      { rewrite Hb at 2. rewrite length_firstn.
        destruct (Nat.le_ge_cases (Z.to_nat req) (length Y)).
        - now rewrite Nat.min_l.
        - rewrite Nat.min_r by assumption. rewrite Hb. now rewrite !firstn_all2 by lia. }
      unfold bytes_at at 2.
      replace (Z.to_nat (t + Z.of_nat (length bytes)))
        with (Z.to_nat t + length bytes)%nat by lia.
      rewrite <- firstn_plus. fold Y. unfold bytes_at. now rewrite <- Hb'.
    + exists c'. rewrite <- Z.add_assoc. fold bs in E. rewrite E. repeat split; auto.
  - (* t = cap with bytes read: impossible *) lia.
  - (* nothing more to read *)
    exists c. replace (Z.of_nat (length bytes)) with 0 by lia.
    rewrite Z.add_0_r.
    assert (Hmin : Z.min cap (available s p0) = t) by lia.
    rewrite Hmin. repeat split; auto.
  - (* t = cap *)
    exists c. replace (Z.of_nat (length bytes)) with 0 by lia.
    rewrite Z.add_0_r.
    assert (Hmin : Z.min cap (available s p0) = t) by lia.
    rewrite Hmin. repeat split; auto.
Qed.

(** [comux_cinfo_data_read] loads [min(len, 524288, available)] bytes,
    sets [len] to that number and returns it. *)
Lemma comux_cinfo_data_read_spec (c : comux_cinfo_t) (fd : fd_t) :
  0 <= pos fd -> 0 <= len c ->
  let n := Z.min (Z.min (len c) COMUX_CHUNK_DATA_MAXLEN)
                 (available (contents fd) (pos fd)) in
  comux_cinfo_data_read c fd
  = Some (n, mk_cinfo (id c) n (sched c) (flags c)
                      (bytes_at (contents fd) (pos fd) n) (offset c),
          mk_fd (contents fd) (pos fd + n)).
Proof.
  intros Hp Hl n. unfold comux_cinfo_data_read.
  set (cap := if len c >? COMUX_CHUNK_DATA_MAXLEN then COMUX_CHUNK_DATA_MAXLEN else len c).
  assert (Hcap : cap = Z.min (len c) COMUX_CHUNK_DATA_MAXLEN).
  { unfold cap. destruct (Z.gtb_spec (len c) COMUX_CHUNK_DATA_MAXLEN); lia. }
  assert (Hc0 : 0 <= cap) by (unfold COMUX_CHUNK_DATA_MAXLEN in *; lia).
  destruct (data_read_loop_spec (contents fd) (pos fd) cap Hp Hc0
              (S (Z.to_nat cap)) (set_data c []) 0)
    as (c' & E & D & I1 & I2 & I3 & I4).
  - lia.
  - unfold available. lia.
  - lia.
  - reflexivity.
  - rewrite Z.add_0_r in E. destruct fd as [s p]. cbn [contents pos] in *.
    rewrite E. subst n. rewrite <- Hcap.
    f_equal. f_equal. f_equal.
    destruct c'; cbn in *. unfold set_len; cbn. now subst.
Qed.

Lemma read_exact (pre x rest : list byte) (p n : Z) :
  p = Z.of_nat (length pre) -> n = Z.of_nat (length x) ->
  read (mk_fd (pre ++ x ++ rest) p) n = (x, mk_fd (pre ++ x ++ rest) (p + n)).
Proof.
  intros Hp Hn. unfold read. cbn [contents pos].
  rewrite (bytes_at_mid pre x rest p n Hp Hn). now rewrite <- Hn.
Qed.

Lemma read_at_end (s : list byte) (p n : Z) :
  p = Z.of_nat (length s) -> read (mk_fd s p) n = ([], mk_fd s p).
Proof.
  intros ->. unfold read, bytes_at. cbn [contents pos].
  rewrite Nat2Z.id, skipn_all, firstn_nil. cbn [length]. now rewrite Z.add_0_r.
Qed.

Lemma comux_cinfo_read_at_end (c0 : comux_cinfo_t) (s : list byte) (p : Z) :
  p = Z.of_nat (length s) ->
  comux_cinfo_read c0 (mk_fd s p) = (COMUX_PARSE_EOF, set_offset c0 p, mk_fd s p).
Proof.
  intros Hp. unfold comux_cinfo_read, read_check, lseek_tell.
  rewrite read_at_end by assumption. reflexivity.
Qed.

Lemma read_mid (s pre x rest : list byte) (p n : Z) :
  s = pre ++ x ++ rest ->
  p = Z.of_nat (length pre) -> n = Z.of_nat (length x) ->
  read (mk_fd s p) n = (x, mk_fd s (p + n)).
Proof. intros ->. apply read_exact. Qed.

Lemma comux_cinfo_read_bytes (c0 c : comux_cinfo_t) (pre rest : list byte) (p : Z) :
  p = Z.of_nat (length pre) ->
  u32_range (id c) -> u64_range (len c) -> u32_range (sched c) -> u32_range (flags c) ->
  comux_cinfo_read c0 (mk_fd (pre ++ cinfo_header_bytes c ++ rest) p)
  = (COMUX_PARSE_OK,
     mk_cinfo (id c) (len c) (sched c) (flags c) (data c0) p,
     mk_fd (pre ++ cinfo_header_bytes c ++ rest) (p + 20)).
Proof.
  intros Hp Hi Hl Hs Hf. unfold comux_cinfo_read, read_check, lseek_tell.
  cbn [pos]. unfold cinfo_header_bytes.
  set (A := u32_to_bytes (id c)). set (B := u64_to_bytes (len c)).
  set (C := u32_to_bytes (sched c)). set (D := u32_to_bytes (flags c)).
  set (S := pre ++ (A ++ B ++ C ++ D) ++ rest).
  assert (LA : length A = 4%nat) by apply u32_to_bytes_length.
  assert (LB : length B = 8%nat) by apply u64_to_bytes_length.
  assert (LC : length C = 4%nat) by apply u32_to_bytes_length.
  assert (LD : length D = 4%nat) by apply u32_to_bytes_length.
  assert (R1 : read (mk_fd S p) 4 = (A, mk_fd S (p + 4))).
  { apply (read_mid S pre A (B ++ C ++ D ++ rest));
      [unfold S; now rewrite <- !app_assoc|assumption|now rewrite LA]. }
  assert (R2 : read (mk_fd S (p + 4)) 8 = (B, mk_fd S (p + 4 + 8))).
  { apply (read_mid S (pre ++ A) B (C ++ D ++ rest));
      [unfold S; now rewrite <- !app_assoc|rewrite length_app; lia|now rewrite LB]. }
  assert (R3 : read (mk_fd S (p + 4 + 8)) 4 = (C, mk_fd S (p + 4 + 8 + 4))).
  { apply (read_mid S (pre ++ A ++ B) C (D ++ rest));
      [unfold S; now rewrite <- !app_assoc|rewrite !length_app; lia|now rewrite LC]. }
  assert (R4 : read (mk_fd S (p + 4 + 8 + 4)) 4 = (D, mk_fd S (p + 4 + 8 + 4 + 4))).
  { apply (read_mid S (pre ++ A ++ B ++ C) D rest);
      [unfold S; now rewrite <- !app_assoc|rewrite !length_app; lia|now rewrite LD]. }
  rewrite R1, LA. cbn [Z.of_nat Pos.of_succ_nat Pos.succ Z.eqb Z.ltb Z.compare Pos.compare Pos.compare_cont].
  rewrite R2, LB. cbn [Z.of_nat Pos.of_succ_nat Pos.succ Z.eqb Z.ltb Z.compare Pos.compare Pos.compare_cont].
  rewrite R3, LC. cbn [Z.of_nat Pos.of_succ_nat Pos.succ Z.eqb Z.ltb Z.compare Pos.compare Pos.compare_cont].
  rewrite R4, LD. cbn [Z.of_nat Pos.of_succ_nat Pos.succ Z.eqb Z.ltb Z.compare Pos.compare Pos.compare_cont].
  subst A B C D.
  rewrite !bytes_to_u32_to_bytes', bytes_to_u64_to_bytes' by assumption.
  replace (p + 4 + 8 + 4 + 4) with (p + 20) by lia.
  reflexivity.
Qed.

Lemma header_bytes_length h : wf_header h -> length (header_bytes h) = 20%nat.
Proof.
  intros (Hm & _). unfold header_bytes.
  now rewrite !length_app, !u32_to_bytes_length, Hm.
Qed.

Lemma comux_header_read_bytes (h0 h : comux_header_t) (rest : list byte) :
  wf_header h -> length (magic h0) = 8%nat ->
  comux_header_read h0 (mk_fd (header_bytes h ++ rest) 0)
  = (COMUX_PARSE_OK, h, mk_fd (header_bytes h ++ rest) 20).
Proof.
  intros (Hm & Hv & Hc & Hk) H0. unfold comux_header_read, read_check.
  unfold header_bytes.
  set (A := magic h). set (B := u32_to_bytes (version h)).
  set (C := u32_to_bytes (num_conns h)). set (D := u32_to_bytes (num_chunks h)).
  set (S := (A ++ B ++ C ++ D) ++ rest).
  assert (LA : length A = 8%nat) by (unfold A; now rewrite Hm).
  assert (LB : length B = 4%nat) by apply u32_to_bytes_length.
  assert (LC : length C = 4%nat) by apply u32_to_bytes_length.
  assert (LD : length D = 4%nat) by apply u32_to_bytes_length.
  assert (R1 : read (mk_fd S 0) COMUX_MAGIC_LEN = (A, mk_fd S (0 + 8))).
  { apply (read_mid S [] A (B ++ C ++ D ++ rest));
      [unfold S; now rewrite <- !app_assoc|reflexivity|now rewrite LA]. }
  assert (R2 : read (mk_fd S (0 + 8)) 4 = (B, mk_fd S (0 + 8 + 4))).
  { apply (read_mid S A B (C ++ D ++ rest));
      [unfold S; now rewrite <- !app_assoc|now rewrite LA|now rewrite LB]. }
  assert (R3 : read (mk_fd S (0 + 8 + 4)) 4 = (C, mk_fd S (0 + 8 + 4 + 4))).
  { apply (read_mid S (A ++ B) C (D ++ rest));
      [unfold S; now rewrite <- !app_assoc|now rewrite !length_app, LA, LB|now rewrite LC]. }
  assert (R4 : read (mk_fd S (0 + 8 + 4 + 4)) 4 = (D, mk_fd S (0 + 8 + 4 + 4 + 4))).
  { apply (read_mid S (A ++ B ++ C) D rest);
      [unfold S; now rewrite <- !app_assoc|now rewrite !length_app, LA, LB, LC|now rewrite LD]. }
  rewrite R1, LA. unfold COMUX_MAGIC_LEN.
  cbn [Z.of_nat Pos.of_succ_nat Pos.succ Z.eqb Z.ltb Z.compare Pos.compare Pos.compare_cont].
  assert (Hov : overwrite (magic h0) A = A).
  { unfold overwrite. rewrite LA, <- H0, skipn_all. apply app_nil_r. }
  cbn [magic set_magic]. rewrite Hov.
  replace (memcmp_differs A COMUX_MAGIC) with false
    by (unfold A; rewrite Hm; symmetry; apply memcmp_differs_refl).
  rewrite R2, LB. cbn [Z.of_nat Pos.of_succ_nat Pos.succ Z.eqb Z.ltb Z.compare Pos.compare Pos.compare_cont].
  rewrite R3, LC. cbn [Z.of_nat Pos.of_succ_nat Pos.succ Z.eqb Z.ltb Z.compare Pos.compare Pos.compare_cont].
  rewrite R4, LD. cbn [Z.of_nat Pos.of_succ_nat Pos.succ Z.eqb Z.ltb Z.compare Pos.compare Pos.compare_cont].
  subst B C D.
  rewrite !bytes_to_u32_to_bytes' by assumption.
  unfold set_num_chunks, set_num_conns, set_version; cbn.
  destruct h; reflexivity.
Qed.

Lemma with_offsets_length off l : length (with_offsets off l) = length l.
Proof. revert off; induction l; intros; simpl; auto. Qed.

Lemma chunks_bytes_length (l : list comux_cinfo_t) :
  Forall wf_cinfo l ->
  Z.of_nat (length (concat (map cinfo_bytes l))) = chunks_size l.
Proof.
  induction 1 as [|c l Hc _ IH]; [reflexivity|].
  cbn [map concat]. rewrite length_app, chunks_size_cons.
  unfold cinfo_bytes at 1. rewrite length_app, cinfo_header_bytes_length.
  destruct Hc as (_ & _ & _ & Hl & _). lia.
Qed.

Lemma available_app (pre x : list byte) (p : Z) :
  p = Z.of_nat (length pre) -> available (pre ++ x) p = Z.of_nat (length x).
Proof. intros ->. unfold available. now rewrite skipn_app_exact. Qed.

Lemma manifest_read_loop_clean (chunks : list comux_cinfo_t) :
  forall (pre : list byte) (acc : list comux_cinfo_t) (fuel : nat),
  Forall wf_cinfo chunks -> (length chunks < fuel)%nat ->
  manifest_read_loop fuel acc
    (mk_fd (pre ++ concat (map cinfo_bytes chunks)) (Z.of_nat (length pre)))
  = Some (COMUX_PARSE_EOF,
          acc ++ with_offsets (Z.of_nat (length pre)) chunks,
          mk_fd (pre ++ concat (map cinfo_bytes chunks))
                (Z.of_nat (length pre) + chunks_size chunks)).
Proof.
  induction chunks as [|c l IH]; intros pre acc fuel Hwf Hfuel.
  - destruct fuel as [|fuel]; [simpl in Hfuel; lia|].
    cbn [manifest_read_loop map concat with_offsets]. rewrite !app_nil_r.
    rewrite comux_cinfo_read_at_end by reflexivity.
    cbn. unfold chunks_size; simpl. now rewrite Z.add_0_r.
  - destruct fuel as [|fuel]; [simpl in Hfuel; lia|].
    inversion Hwf as [|? ? Hc Hl]; subst.
    destruct Hc as (Hid & Hsc & Hfl & Hlen & Hmax).
    cbn [manifest_read_loop map concat with_offsets].
    change (cinfo_bytes c) with (cinfo_header_bytes c ++ data c).
    rewrite <- !app_assoc.
    set (tl := concat (map cinfo_bytes l)).
    rewrite comux_cinfo_read_bytes;
      [|reflexivity|assumption|unfold u64_range, COMUX_CHUNK_DATA_MAXLEN in *; lia|assumption|assumption].
    cbn [nonzero parse_result_value Z.eqb negb len data].
    rewrite comux_cinfo_data_read_spec by (simpl; lia).
    cbn [id len sched flags data offset contents pos].
    assert (Hav : available (pre ++ cinfo_header_bytes c ++ data c ++ tl)
                            (Z.of_nat (length pre) + 20)
                  = len c + Z.of_nat (length tl)).
    { rewrite (app_assoc pre). rewrite available_app
        by (rewrite length_app, cinfo_header_bytes_length; lia).
      rewrite length_app. lia. }
    rewrite Hav.
    replace (Z.min (Z.min (len c) COMUX_CHUNK_DATA_MAXLEN) (len c + Z.of_nat (length tl)))
      with (len c) by lia.
    destruct (Z.ltb_spec (len c) (len c)); [lia|].
    assert (Hd : bytes_at (pre ++ cinfo_header_bytes c ++ data c ++ tl)
                          (Z.of_nat (length pre) + 20) (len c) = data c).
    { rewrite (app_assoc pre). apply bytes_at_mid;
        [rewrite length_app, cinfo_header_bytes_length; lia|assumption]. }
    rewrite Hd.
    pose proof (IH ((pre ++ cinfo_header_bytes c) ++ data c)
                   (acc ++ [mk_cinfo (id c) (len c) (sched c) (flags c) (data c)
                                     (Z.of_nat (length pre))])
                   fuel Hl ltac:(simpl in Hfuel; lia)) as R.
    fold tl in R. rewrite <- !app_assoc in R.
    rewrite !length_app, cinfo_header_bytes_length in R.
    replace (Z.of_nat (length pre + (20 + length (data c))))
      with (Z.of_nat (length pre) + 20 + len c) in R by lia.
    cbn [app] in R. rewrite R.
    rewrite chunks_size_cons.
    replace (Z.of_nat (length pre) + (20 + len c + chunks_size l))
      with (Z.of_nat (length pre) + 20 + len c + chunks_size l) by lia.
    destruct c; reflexivity.
Qed.

(** C8: a stream that holds a header that parses and then ends exactly at
    a chunk-record boundary, after any number of complete chunk records
    that each declare at most [COMUX_CHUNK_DATA_MAXLEN] payload bytes,
    makes [comux_manifest_read] return [COMUX_PARSE_OK]; the manifest
    holds the parsed header and exactly the chunks read, in order, with
    their offsets. The header's [num_chunks] is not compared with the
    number of records: [wf_header] does not constrain it. *)
Theorem manifest_read_clean_end (m0 : comux_manifest_t) (h : comux_header_t)
    (chunks : list comux_cinfo_t) :
  wf_header h -> Forall wf_cinfo chunks -> length (magic (header m0)) = 8%nat ->
  let stream := header_bytes h ++ concat (map cinfo_bytes chunks) in
  comux_manifest_read m0 (mk_fd stream 0)
  = Some (COMUX_PARSE_OK,
          mk_manifest h (cinfo_list m0 ++ with_offsets 20 chunks),
          mk_fd stream (Z.of_nat (length stream))).
Proof.
  intros Hh Hl Hm0 stream. unfold comux_manifest_read.
  unfold stream. rewrite comux_header_read_bytes by assumption.
  cbn [nonzero parse_result_value Z.eqb negb contents].
  pose proof (header_bytes_length h Hh) as HL.
  pose proof (manifest_read_loop_clean chunks (header_bytes h) (cinfo_list m0)
                (S (length (header_bytes h ++ concat (map cinfo_bytes chunks)))) Hl) as R.
  rewrite HL in R. change (Z.of_nat 20) with 20 in R.
  rewrite R.
  - rewrite length_app, HL, Nat2Z.inj_add, chunks_bytes_length by assumption.
    reflexivity.
  - rewrite length_app, HL.
    assert (length chunks <= length (concat (map cinfo_bytes chunks)))%nat; [|lia].
    clear. induction chunks as [|c l IH]; cbn [map concat length]; [lia|].
    rewrite length_app. unfold cinfo_bytes at 1.
    rewrite length_app, cinfo_header_bytes_length. lia.
Qed.

(** A header announcing seven chunks, followed by two complete records. *)
Definition hello_cinfo : comux_cinfo_t :=
  mk_cinfo 0 5 0 0 (map byte_of_Z [104; 101; 108; 108; 111]) 0.

Lemma hello_cinfo_wf : wf_cinfo hello_cinfo.
Proof.
  unfold wf_cinfo, u32_range, hello_cinfo, COMUX_CHUNK_DATA_MAXLEN; simpl.
  repeat split; lia.
Defined.

Lemma manifest_read_clean_end_witness :
  let h := mk_header COMUX_MAGIC 0 1 7 in
  let chunks := [hello_cinfo; hello_cinfo] in
  let stream := header_bytes h ++ concat (map cinfo_bytes chunks) in
  comux_manifest_read comux_manifest_init (mk_fd stream 0)
  = Some (COMUX_PARSE_OK,
          mk_manifest h (with_offsets 20 chunks),
          mk_fd stream (Z.of_nat (length stream))).
Proof.
  apply (manifest_read_clean_end comux_manifest_init
           (mk_header COMUX_MAGIC 0 1 7) [hello_cinfo; hello_cinfo]).
  - unfold wf_header, u32_range; simpl. repeat split; lia.
  - repeat constructor; apply hello_cinfo_wf.
  - reflexivity.
Defined.

(** ** A record that declares more than the reader loads
    [comux_cinfo_data_read] caps what it loads at
    [COMUX_CHUNK_DATA_MAXLEN] bytes, and [comux_manifest_read] compares
    the number loaded with the [len] the record declares. A complete record
    whose [len] is above the cap therefore comes up short: the reader takes
    its header and [COMUX_CHUNK_DATA_MAXLEN] bytes of its payload, drops
    the chunk and returns [COMUX_PARSE_CONN_LEN_MISMATCH], whatever
    follows. *)
Lemma manifest_read_oversized_record (h : comux_header_t) (c : comux_cinfo_t)
    (rest : list byte) :
  wf_header h ->
  u32_range (id c) -> u32_range (sched c) -> u32_range (flags c) ->
  len c = Z.of_nat (length (data c)) ->
  COMUX_CHUNK_DATA_MAXLEN < len c < 2 ^ 64 ->
  let stream := header_bytes h ++ cinfo_bytes c ++ rest in
  comux_manifest_read comux_manifest_init (mk_fd stream 0)
  = Some (COMUX_PARSE_CONN_LEN_MISMATCH, mk_manifest h [],
          mk_fd stream (40 + COMUX_CHUNK_DATA_MAXLEN)).
Proof.
  intros Hh Hi Hs Hf Hl Hbig stream. unfold comux_manifest_read.
  unfold stream. rewrite comux_header_read_bytes by (assumption || reflexivity).
  cbn [nonzero parse_result_value Z.eqb negb contents cinfo_list comux_manifest_init].
  cbn [manifest_read_loop].
  pose proof (header_bytes_length h Hh) as HL.
  unfold cinfo_bytes. rewrite <- app_assoc.
  rewrite (comux_cinfo_read_bytes comux_cinfo_init c (header_bytes h) (data c ++ rest) 20);
    [|now rewrite HL|assumption|unfold u64_range, COMUX_CHUNK_DATA_MAXLEN in *; lia
     |assumption|assumption].
  cbn [nonzero parse_result_value Z.eqb negb len].
  set (s := header_bytes h ++ cinfo_header_bytes c ++ data c ++ rest).
  unfold COMUX_CHUNK_DATA_MAXLEN in Hbig.
  rewrite comux_cinfo_data_read_spec by (cbn [pos len]; lia).
  cbn [len pos contents].
  assert (Hav : available s (20 + 20) = len c + Z.of_nat (length rest)).
  { unfold s. rewrite (app_assoc (header_bytes h)).
    rewrite available_app by (rewrite length_app, HL, cinfo_header_bytes_length; lia).
    rewrite length_app. lia. }
  rewrite Hav. unfold COMUX_CHUNK_DATA_MAXLEN.
  replace (Z.min (Z.min (len c) 524288) (len c + Z.of_nat (length rest)))
    with 524288 by lia.
  destruct (Z.ltb_spec 524288 (len c)); [|lia].
  reflexivity.
Qed.

(** A manifest of one connection and one chunk whose payload is one byte
    longer than [COMUX_CHUNK_DATA_MAXLEN]. *)
Definition oversized_cinfo : comux_cinfo_t :=
  mk_cinfo 0 (COMUX_CHUNK_DATA_MAXLEN + 1) 0 0
           (repeat x00 (Z.to_nat (COMUX_CHUNK_DATA_MAXLEN + 1))) 0.

Definition oversized_stream : list byte :=
  header_bytes (mk_header COMUX_MAGIC 0 1 1) ++ cinfo_bytes oversized_cinfo.

(** C8 as stated fails on a record that declares more than
    [COMUX_CHUNK_DATA_MAXLEN] bytes. The stream below is a header that
    parses followed by one complete chunk record, 20 bytes of chunk header
    and the 524289 payload bytes they declare, and nothing else: it ends
    at a chunk-record boundary. The reader does not return
    [COMUX_PARSE_OK] with that chunk: it returns
    [COMUX_PARSE_CONN_LEN_MISMATCH], keeps no chunk and stops one byte
    before the end of the stream. *)
Theorem manifest_read_drops_oversized_record :
  Z.of_nat (length oversized_stream) = 20 + (20 + len oversized_cinfo) /\
  len oversized_cinfo = Z.of_nat (length (data oversized_cinfo)) /\
  comux_manifest_read comux_manifest_init (mk_fd oversized_stream 0)
  = Some (COMUX_PARSE_CONN_LEN_MISMATCH,
          mk_manifest (mk_header COMUX_MAGIC 0 1 1) [],
          mk_fd oversized_stream (Z.of_nat (length oversized_stream) - 1)).
Proof.
  assert (Hd : Z.of_nat (length (data oversized_cinfo)) = len oversized_cinfo).
  { unfold oversized_cinfo. cbn [data len]. rewrite repeat_length.
    unfold COMUX_CHUNK_DATA_MAXLEN. lia. }
  assert (Hn : Z.of_nat (length oversized_stream) = 20 + (20 + len oversized_cinfo)).
  { unfold oversized_stream, cinfo_bytes.
    rewrite !length_app, cinfo_header_bytes_length, !Nat2Z.inj_add, Hd.
    reflexivity. }
  split; [exact Hn|]. split; [symmetry; exact Hd|].
  rewrite Hn. unfold oversized_stream.
  rewrite <- (app_nil_r (cinfo_bytes oversized_cinfo)).
  rewrite manifest_read_oversized_record.
  - reflexivity.
  - unfold wf_header, u32_range; cbn. repeat split; lia.
  - unfold u32_range; cbn; lia.
  - unfold u32_range; cbn; lia.
  - unfold u32_range; cbn; lia.
  - symmetry; exact Hd.
  - unfold oversized_cinfo, COMUX_CHUNK_DATA_MAXLEN; cbn [len]. lia.
Qed.

(** ** The length check of the buffer decoder *)

(** [comux_cinfo_data_read_buffer] loads [min(len, 524288, buff_len)]
    bytes, sets [len] to that number and returns it. *)
Lemma comux_cinfo_data_read_buffer_spec (c : comux_cinfo_t) (buff : list byte) :
  0 <= len c ->
  let n := Z.min (Z.min (len c) COMUX_CHUNK_DATA_MAXLEN)
                 (Z.of_nat (length buff)) in
  comux_cinfo_data_read_buffer c buff
  = (n, mk_cinfo (id c) n (sched c) (flags c)
                 (firstn (Z.to_nat n) buff) (offset c)).
Proof.
  intros Hl n. unfold comux_cinfo_data_read_buffer.
  set (cap := if len c >? COMUX_CHUNK_DATA_MAXLEN
              then COMUX_CHUNK_DATA_MAXLEN else len c).
  assert (Hcap : MIN cap (Z.of_nat (length buff)) = n).
  { unfold n, cap, MIN.
    destruct (Z.gtb_spec (len c) COMUX_CHUNK_DATA_MAXLEN);
      match goal with |- context [?a <? ?b] => destruct (Z.ltb_spec a b) end; lia. }
  rewrite Hcap. unfold bytes_at. cbn [Z.to_nat skipn].
  destruct c; reflexivity.
Qed.

(** Whatever the buffer holds, [comux_manifest_read_buffer] returns
    [COMUX_PARSE_OK] or one of the header's results. *)
Lemma comux_manifest_read_buffer_results (m : comux_manifest_t)
    (buff : list byte) (read_len : Z) :
  In (fst (fst (comux_manifest_read_buffer m buff read_len)))
     [COMUX_PARSE_OK; COMUX_PARSE_BAD_MAGIC; COMUX_PARSE_BAD_VERSION;
      COMUX_PARSE_BAD_NUM_CONNS; COMUX_PARSE_BAD_NUM_CHUNKS].
Proof.
  unfold comux_manifest_read_buffer, comux_header_read_buffer. cbv zeta.
  repeat match goal with
  | |- context [if ?b then _ else _] => destruct b; cbn; auto 6
  end.
  destruct (read_buffer_chunks _ _ _ _ _) as [[r l] t]. cbn. auto.
Qed.

(** The "hello" manifest cut after the third of its five payload bytes. *)
Definition short_input : list byte :=
  firstn 43 (snd (comux_manifest_write_buffer hello_manifest 45)).

(** C2 fails on the code: for a chunk that declares 5 bytes of which 3 are
    present, [comux_cinfo_data_read_buffer] loads min(5, 524288, 3) = 3
    bytes and sets [len] to 3, and the loop of
    [comux_manifest_read_buffer] sets its result to
    [COMUX_PARSE_CONN_LEN_MISMATCH]; but the function returns
    [COMUX_PARSE_OK], with the chunk dropped. [comux_manifest_read]
    returns [COMUX_PARSE_CONN_LEN_MISMATCH] on the same bytes. *)
Theorem manifest_read_buffer_hides_len_mismatch :
  (let '(result, c, rcount) :=
     comux_cinfo_read_buffer comux_cinfo_init (skipn 20 short_input) 0 in
   result = COMUX_PARSE_OK /\ len c = 5 /\
   let '(loaded, c') := comux_cinfo_data_read_buffer c (skipn 40 short_input) in
   loaded = 3 /\ len c' = 3 /\ data c' = ["h"; "e"; "l"]%byte) /\
  fst (read_buffer_chunks 1 short_input 20 20 [])
    = (COMUX_PARSE_CONN_LEN_MISMATCH, []) /\
  comux_manifest_read_buffer comux_manifest_init short_input 0
    = (COMUX_PARSE_OK, mk_manifest (header hello_manifest) [], 40) /\
  (exists fd, comux_manifest_read comux_manifest_init (mk_fd short_input 0)
    = Some (COMUX_PARSE_CONN_LEN_MISMATCH,
            mk_manifest (header hello_manifest) [], fd)).
Proof.
  split; [vm_compute; repeat split|].
  split; [vm_compute; reflexivity|].
  split; [vm_compute; reflexivity|].
  eexists. vm_compute. reflexivity.
Qed.

Lemma bytes_at_full_length (s : list byte) (p n : Z) :
  0 <= p -> 0 <= n -> p + n <= Z.of_nat (length s) ->
  length (bytes_at s p n) = Z.to_nat n.
Proof.
  intros Hp Hn Hs. unfold bytes_at.
  rewrite length_firstn, length_skipn. lia.
Qed.

Lemma bytes_at_0 (s : list byte) (n : Z) : bytes_at s 0 n = firstn (Z.to_nat n) s.
Proof. reflexivity. Qed.

Lemma bytes_at_cat (s : list byte) (p a q b : Z) :
  q = p + a -> 0 <= p -> 0 <= a -> 0 <= b ->
  bytes_at s p a ++ bytes_at s q b = bytes_at s p (a + b).
Proof.
  intros -> Hp Ha Hb. unfold bytes_at.
  rewrite Z2Nat.inj_add by lia. rewrite <- skipn_skipn'.
  rewrite firstn_plus. now rewrite Z2Nat.inj_add by lia.
Qed.

Lemma u32_of_bytes_at (s : list byte) (p : Z) :
  0 <= p -> p + 4 <= Z.of_nat (length s) ->
  u32_range (bytes_to_u32 (bytes_at s p 4)) /\
  u32_to_bytes (bytes_to_u32 (bytes_at s p 4)) = bytes_at s p 4.
Proof.
  intros Hp Hs.
  assert (L : length (bytes_at s p 4) = 4%nat)
    by (rewrite bytes_at_full_length by lia; reflexivity).
  destruct (u32_to_bytes_of_bytes_to_u32 (bytes_at s p 4)) as [R E]; [lia|].
  split; [exact R|]. rewrite E. apply firstn_all2. lia.
Qed.

Lemma u64_of_bytes_at (s : list byte) (p : Z) :
  0 <= p -> p + 8 <= Z.of_nat (length s) ->
  u64_range (bytes_to_u64 (bytes_at s p 8)) /\
  u64_to_bytes (bytes_to_u64 (bytes_at s p 8)) = bytes_at s p 8.
Proof.
  intros Hp Hs.
  assert (L : length (bytes_at s p 8) = 8%nat)
    by (rewrite bytes_at_full_length by lia; reflexivity).
  destruct (u64_to_bytes_of_bytes_to_u64 (bytes_at s p 8)) as [R E]; [lia|].
  split; [exact R|]. rewrite E. apply firstn_all2. lia.
Qed.

Lemma memcmp_differs_false a b : memcmp_differs a b = false <-> a = b.
Proof.
  unfold memcmp_differs. destruct (list_eq_dec Byte.byte_eq_dec a b); cbn;
    split; congruence.
Qed.

Definition header_short_result (buff : list byte) : comux_parse_result_t :=
  if (length buff <? 8)%nat then COMUX_PARSE_BAD_MAGIC
  else if memcmp_differs (firstn 8 buff) COMUX_MAGIC then COMUX_PARSE_BAD_MAGIC
  else if (length buff <? 12)%nat then COMUX_PARSE_BAD_VERSION
  else if (length buff <? 16)%nat then COMUX_PARSE_BAD_NUM_CONNS
  else COMUX_PARSE_BAD_NUM_CHUNKS.

Definition cinfo_short_result (buff : list byte) : comux_parse_result_t :=
  if (length buff <? 4)%nat then COMUX_PARSE_BAD_CONN_ID
  else if (length buff <? 12)%nat then COMUX_PARSE_BAD_CONN_LEN
  else if (length buff <? 16)%nat then COMUX_PARSE_BAD_CONN_SCHED
  else COMUX_PARSE_BAD_CONN_FLAGS.

Lemma comux_header_read_buffer_full (h : comux_header_t) (buff : list byte)
    (rl : Z) :
  (20 <= length buff)%nat -> firstn 8 buff = COMUX_MAGIC ->
  exists h', comux_header_read_buffer h buff rl = (COMUX_PARSE_OK, h', 20) /\
    wf_header h' /\ header_bytes h' = firstn 20 buff.
Proof.
  intros H Em. unfold comux_header_read_buffer, COMUX_MAGIC_LEN.
  cbn [magic set_magic]. rewrite bytes_at_0. change (Z.to_nat 8) with 8%nat.
  rewrite Em, memcmp_differs_refl.
  destruct (Z.ltb_spec (Z.of_nat (length buff) - 8) 0); [lia|].
  destruct (Z.ltb_spec (Z.of_nat (length buff) - 8 - 4) 0); [lia|].
  destruct (Z.ltb_spec (Z.of_nat (length buff) - 8 - 4 - 4) 0); [lia|].
  destruct (Z.ltb_spec (Z.of_nat (length buff) - 8 - 4 - 4 - 4) 0); [lia|].
  eexists. split; [reflexivity|].
  destruct (u32_of_bytes_at buff 8 ltac:(lia) ltac:(lia)) as [R1 E1].
  destruct (u32_of_bytes_at buff (8 + 4) ltac:(lia) ltac:(lia)) as [R2 E2].
  destruct (u32_of_bytes_at buff (8 + 4 + 4) ltac:(lia) ltac:(lia)) as [R3 E3].
  unfold wf_header, header_bytes.
  cbn [magic version num_conns num_chunks
       set_magic set_version set_num_conns set_num_chunks].
  split; [repeat split; apply R1 || apply R2 || apply R3|].
  rewrite E1, E2, E3, <- Em.
  change (firstn 8 buff) with (bytes_at buff 0 8).
  rewrite (bytes_at_cat buff (8 + 4) 4 (8 + 4 + 4) 4) by lia.
  rewrite (bytes_at_cat buff 8 4 (8 + 4) (4 + 4)) by lia.
  rewrite (bytes_at_cat buff 0 8 8 (4 + (4 + 4))) by lia.
  reflexivity.
Qed.

Lemma comux_header_read_buffer_short (h : comux_header_t) (buff : list byte)
    (rl : Z) :
  ~ ((20 <= length buff)%nat /\ firstn 8 buff = COMUX_MAGIC) ->
  exists h', comux_header_read_buffer h buff rl = (header_short_result buff, h', rl) /\
    header_short_result buff <> COMUX_PARSE_OK.
Proof.
  intros H. unfold comux_header_read_buffer, header_short_result, COMUX_MAGIC_LEN.
  cbn [magic set_magic]. rewrite bytes_at_0. change (Z.to_nat 8) with 8%nat.
  destruct (Z.ltb_spec (Z.of_nat (length buff) - 8) 0);
    destruct (Nat.ltb_spec (length buff) 8); try lia;
    [eexists; split; [reflexivity|discriminate]|].
  destruct (memcmp_differs (firstn 8 buff) COMUX_MAGIC) eqn:Em;
    [eexists; split; [reflexivity|discriminate]|].
  apply memcmp_differs_false in Em.
  destruct (Z.ltb_spec (Z.of_nat (length buff) - 8 - 4) 0);
    destruct (Nat.ltb_spec (length buff) 12); try lia;
    [eexists; split; [reflexivity|discriminate]|].
  destruct (Z.ltb_spec (Z.of_nat (length buff) - 8 - 4 - 4) 0);
    destruct (Nat.ltb_spec (length buff) 16); try lia;
    [eexists; split; [reflexivity|discriminate]|].
  destruct (Z.ltb_spec (Z.of_nat (length buff) - 8 - 4 - 4 - 4) 0);
    [eexists; split; [reflexivity|discriminate]|].
  exfalso. apply H. split; [lia|exact Em].
Qed.

Lemma comux_cinfo_read_buffer_full (c : comux_cinfo_t) (buff : list byte) (rl : Z) :
  (20 <= length buff)%nat ->
  exists c', comux_cinfo_read_buffer c buff rl = (COMUX_PARSE_OK, c', 20) /\
    cinfo_header_bytes c' = firstn 20 buff /\
    u32_range (id c') /\ u64_range (len c') /\ u32_range (sched c') /\
    u32_range (flags c') /\ data c' = data c /\ offset c' = offset c.
Proof.
  intros H. unfold comux_cinfo_read_buffer.
  destruct (Z.ltb_spec (Z.of_nat (length buff) - 4) 0); [lia|].
  destruct (Z.ltb_spec (Z.of_nat (length buff) - 4 - 8) 0); [lia|].
  destruct (Z.ltb_spec (Z.of_nat (length buff) - 4 - 8 - 4) 0); [lia|].
  destruct (Z.ltb_spec (Z.of_nat (length buff) - 4 - 8 - 4 - 4) 0); [lia|].
  eexists. split; [reflexivity|].
  destruct (u32_of_bytes_at buff 0 ltac:(lia) ltac:(lia)) as [R1 E1].
  destruct (u64_of_bytes_at buff (0 + 4) ltac:(lia) ltac:(lia)) as [R2 E2].
  destruct (u32_of_bytes_at buff (0 + 4 + 8) ltac:(lia) ltac:(lia)) as [R3 E3].
  destruct (u32_of_bytes_at buff (0 + 4 + 8 + 4) ltac:(lia) ltac:(lia)) as [R4 E4].
  unfold cinfo_header_bytes.
  cbn [id len sched flags set_id set_len set_sched set_flags data offset].
  split; [|repeat split; apply R1 || apply R2 || apply R3 || apply R4].
  rewrite E1, E2, E3, E4.
  rewrite (bytes_at_cat buff (0 + 4 + 8) 4 (0 + 4 + 8 + 4) 4) by lia.
  rewrite (bytes_at_cat buff (0 + 4) 8 (0 + 4 + 8) (4 + 4)) by lia.
  rewrite (bytes_at_cat buff 0 4 (0 + 4) (8 + (4 + 4))) by lia.
  reflexivity.
Qed.

Lemma comux_cinfo_read_buffer_short (c : comux_cinfo_t) (buff : list byte) (rl : Z) :
  (length buff < 20)%nat ->
  exists c', comux_cinfo_read_buffer c buff rl = (cinfo_short_result buff, c', rl) /\
    cinfo_short_result buff <> COMUX_PARSE_OK /\
    data c' = data c /\ offset c' = offset c.
Proof.
  intros H. unfold comux_cinfo_read_buffer, cinfo_short_result.
  destruct (Z.ltb_spec (Z.of_nat (length buff) - 4) 0);
    destruct (Nat.ltb_spec (length buff) 4); try lia;
    [eexists; split; [reflexivity|split; [discriminate|split; reflexivity]]|].
  destruct (Z.ltb_spec (Z.of_nat (length buff) - 4 - 8) 0);
    destruct (Nat.ltb_spec (length buff) 12); try lia;
    [eexists; split; [reflexivity|split; [discriminate|split; reflexivity]]|].
  destruct (Z.ltb_spec (Z.of_nat (length buff) - 4 - 8 - 4) 0);
    destruct (Nat.ltb_spec (length buff) 16); try lia;
    [eexists; split; [reflexivity|split; [discriminate|split; reflexivity]]|].
  destruct (Z.ltb_spec (Z.of_nat (length buff) - 4 - 8 - 4 - 4) 0); [|lia].
  eexists; split; [reflexivity|split; [discriminate|split; reflexivity]].
Qed.

(** [comux_header_read_buffer] accepts a buffer exactly when it holds at
    least 20 bytes that start with the magic, whatever the version and the
    counts say. It then reports 20 bytes read, and the header it filled in
    encodes to the first 20 bytes of the buffer. Otherwise [read_len] is
    left as it was and the result names the first field that does not
    fit. *)
Theorem comux_header_read_buffer_cases (h : comux_header_t) (buff : list byte)
    (read_len : Z) :
  let '(result, h', n) := comux_header_read_buffer h buff read_len in
  (result = COMUX_PARSE_OK <->
     (20 <= length buff)%nat /\ firstn 8 buff = COMUX_MAGIC) /\
  (result = COMUX_PARSE_OK ->
     n = 20 /\ wf_header h' /\ header_bytes h' = firstn 20 buff) /\
  (result <> COMUX_PARSE_OK ->
     n = read_len /\
     result = (if (length buff <? 8)%nat then COMUX_PARSE_BAD_MAGIC
               else if memcmp_differs (firstn 8 buff) COMUX_MAGIC
                    then COMUX_PARSE_BAD_MAGIC
               else if (length buff <? 12)%nat then COMUX_PARSE_BAD_VERSION
               else if (length buff <? 16)%nat then COMUX_PARSE_BAD_NUM_CONNS
               else COMUX_PARSE_BAD_NUM_CHUNKS)).
Proof.
  destruct (Nat.le_gt_cases 20 (length buff)) as [L|L];
    [destruct (list_eq_dec Byte.byte_eq_dec (firstn 8 buff) COMUX_MAGIC) as [Em|Em]|].
  - destruct (comux_header_read_buffer_full h buff read_len L Em)
      as [h' [-> [W B]]].
    split; [tauto|]. split; [auto|]. intros N; now destruct N.
  - destruct (comux_header_read_buffer_short h buff read_len) as [h' [-> N]];
      [tauto|].
    repeat split; try congruence; tauto.
  - destruct (comux_header_read_buffer_short h buff read_len) as [h' [-> N]];
      [lia|].
    repeat split; try congruence; try tauto. lia.
Qed.

(** [comux_cinfo_read_buffer] accepts a buffer exactly when it holds at
    least 20 bytes, whatever they are: no field is checked. It then reports
    20 bytes read, and the fields it filled in encode to the first 20 bytes
    of the buffer. Otherwise [read_len] is left as it was and the result
    names the first field that does not fit. The payload and the offset of
    the chunk are never touched. *)
Theorem comux_cinfo_read_buffer_cases (c : comux_cinfo_t) (buff : list byte)
    (read_len : Z) :
  let '(result, c', n) := comux_cinfo_read_buffer c buff read_len in
  (result = COMUX_PARSE_OK <-> (20 <= length buff)%nat) /\
  (result = COMUX_PARSE_OK ->
     n = 20 /\ cinfo_header_bytes c' = firstn 20 buff /\
     u32_range (id c') /\ u64_range (len c') /\ u32_range (sched c') /\
     u32_range (flags c')) /\
  (result <> COMUX_PARSE_OK ->
     n = read_len /\
     result = (if (length buff <? 4)%nat then COMUX_PARSE_BAD_CONN_ID
               else if (length buff <? 12)%nat then COMUX_PARSE_BAD_CONN_LEN
               else if (length buff <? 16)%nat then COMUX_PARSE_BAD_CONN_SCHED
               else COMUX_PARSE_BAD_CONN_FLAGS)) /\
  data c' = data c /\ offset c' = offset c.
Proof.
  destruct (Nat.le_gt_cases 20 (length buff)) as [L|L].
  - destruct (comux_cinfo_read_buffer_full c buff read_len L)
      as [c' [-> [B [R1 [R2 [R3 [R4 [D O]]]]]]]].
    split; [tauto|]. split; [auto 7|]. split; [|auto]. intros N; now destruct N.
  - destruct (comux_cinfo_read_buffer_short c buff read_len L)
      as [c' [-> [N [D O]]]].
    repeat split; try congruence; try tauto. lia.
Qed.

Lemma bytes_at_nil (s : list byte) (p : Z) : bytes_at s p 0 = [].
Proof. reflexivity. Qed.

Lemma chunks_size_app l l' : chunks_size (l ++ l') = chunks_size l + chunks_size l'.
Proof.
  induction l as [|c l IH]; [reflexivity|].
  cbn [app]. rewrite !chunks_size_cons, IH. lia.
Qed.

(** The chunk loop of the buffer decoder on any buffer: the chunks it keeps
    are well formed and are exactly the records that the buffer holds from
    [total] on. *)
Lemma read_buffer_chunks_sound (n : nat) : forall buff total rcount acc,
  0 <= total <= Z.of_nat (length buff) ->
  exists result l total',
    read_buffer_chunks n buff total rcount acc = (result, acc ++ l, total') /\
    Forall wf_cinfo l /\ (length l <= n)%nat /\
    concat (map cinfo_bytes l) = bytes_at buff total (chunks_size l) /\
    total + chunks_size l <= total' <= Z.of_nat (length buff) /\
    total' <= total + chunks_size l + 20 /\
    (length l = n -> result = COMUX_PARSE_OK /\ total' = total + chunks_size l).
Proof.
  induction n as [|n IH]; intros buff total rcount acc Ht.
  - exists COMUX_PARSE_OK, [], total. cbn [read_buffer_chunks].
    rewrite app_nil_r. repeat split; auto; cbn; lia.
  - cbn [read_buffer_chunks].
    assert (Hsk : Z.of_nat (length (skipn (Z.to_nat total) buff))
                  = Z.of_nat (length buff) - total)
      by (rewrite length_skipn; lia).
    destruct (Nat.le_gt_cases 20 (length (skipn (Z.to_nat total) buff))) as [L|L].
    2:{ destruct (comux_cinfo_read_buffer_short comux_cinfo_init
                    (skipn (Z.to_nat total) buff) rcount L) as [c' [-> [N _]]].
        assert (Hn : nonzero (cinfo_short_result (skipn (Z.to_nat total) buff)) = true)
          by (destruct (cinfo_short_result _); try reflexivity; congruence).
        rewrite Hn. exists (cinfo_short_result (skipn (Z.to_nat total) buff)), [], total.
        rewrite app_nil_r. repeat split; auto; cbn; try lia; discriminate. }
    destruct (comux_cinfo_read_buffer_full comux_cinfo_init
                (skipn (Z.to_nat total) buff) rcount L)
      as [c' [-> [B [R1 [R2 [R3 [R4 [D O]]]]]]]].
    change (nonzero COMUX_PARSE_OK) with false. cbv iota.
    rewrite comux_cinfo_data_read_buffer_spec by (apply R2).
    set (avail := Z.of_nat (length (skipn (Z.to_nat (total + 20)) buff))).
    assert (Hav : avail = Z.of_nat (length buff) - total - 20)
      by (unfold avail; rewrite length_skipn; lia).
    set (n0 := Z.min (Z.min (len c') COMUX_CHUNK_DATA_MAXLEN) avail).
    destruct (Z.ltb_spec n0 (len c')) as [Hlt|Hge].
    { exists COMUX_PARSE_CONN_LEN_MISMATCH, [], (total + 20).
      rewrite app_nil_r. repeat split; auto; cbn; try lia; discriminate. }
    assert (Hn0 : n0 = len c') by lia.
    assert (Hmax : len c' <= COMUX_CHUNK_DATA_MAXLEN) by lia.
    assert (Hfit : len c' <= avail) by lia.
    assert (Hl0 : 0 <= len c') by apply R2.
    set (c'' := mk_cinfo (id c') n0 (sched c') (flags c')
                  (firstn (Z.to_nat n0) (skipn (Z.to_nat (total + 20)) buff))
                  (offset c')).
    destruct (IH buff (total + 20 + n0) n0 (acc ++ [c'']) ltac:(lia))
      as [r [l [t' [E [W [Hlen [Hb [Hr1 [Hr2 Hfull]]]]]]]]].
    rewrite E. exists r, (c'' :: l), t'.
    assert (Wc : wf_cinfo c'').
    { unfold wf_cinfo, c''. cbn [id len sched flags data].
      repeat split; try apply R1; try apply R3; try apply R4; try lia.
      rewrite length_firstn, length_skipn. lia. }
    pose proof (chunks_size_nonneg l W) as Hcs.
    rewrite chunks_size_cons. change (len c'') with n0.
    split; [now rewrite <- app_assoc|].
    split; [constructor; assumption|].
    split; [cbn [length]; lia|].
    split.
    { cbn [map concat]. rewrite Hb. unfold cinfo_bytes.
      assert (Hh : cinfo_header_bytes c'' = bytes_at buff total 20).
      { transitivity (cinfo_header_bytes c'); [|exact B].
        unfold cinfo_header_bytes, c''. cbn [id len sched flags]. now rewrite Hn0. }
      rewrite Hh. change (data c'') with (bytes_at buff (total + 20) n0).
      rewrite <- app_assoc.
      rewrite (bytes_at_cat buff (total + 20) n0 (total + 20 + n0) (chunks_size l))
        by lia.
      rewrite (bytes_at_cat buff total 20 (total + 20) (n0 + chunks_size l)) by lia.
      f_equal. lia. }
    split; [lia|]. split; [lia|].
    cbn [length]. intros Hfl. destruct Hfull as [-> ->]; [lia|]. split; [reflexivity|lia].
Qed.

(** A buffer that holds a header, one complete chunk of connection 0 and the
    first three bytes of a second chunk. *)
Definition cut_input : list byte :=
  header_bytes (mk_header COMUX_MAGIC 0 1 2)
  ++ cinfo_bytes (mk_cinfo 0 2 0 0 ["h"; "i"]%byte 0) ++ [x01; x00; x00].

(** On any buffer of at least 20 bytes that starts with the magic,
    [comux_manifest_read_buffer] returns [COMUX_PARSE_OK]. The header and
    chunks it hands back are well formed and are what the buffer holds: they
    encode to a prefix of the buffer. There are at most [num_chunks] chunks;
    [read_len] covers the encoded bytes and at most one further chunk
    header of 20 bytes, and nothing beyond the buffer. When all [num_chunks]
    chunks were kept, [read_len] is exactly the encoded size. *)
Theorem manifest_read_buffer_sound (buff : list byte) (read_len : Z) :
  (20 <= length buff)%nat -> firstn 8 buff = COMUX_MAGIC ->
  exists m n,
    comux_manifest_read_buffer comux_manifest_init buff read_len
      = (COMUX_PARSE_OK, m, n) /\
    wf_header (header m) /\ Forall wf_cinfo (cinfo_list m) /\
    (length (cinfo_list m) <= Z.to_nat (num_chunks (header m)))%nat /\
    header_bytes (header m) ++ concat (map cinfo_bytes (cinfo_list m))
      = firstn (Z.to_nat (manifest_size m)) buff /\
    manifest_size m <= n <= Z.of_nat (length buff) /\
    n <= manifest_size m + 20 /\
    (length (cinfo_list m) = Z.to_nat (num_chunks (header m)) ->
     n = manifest_size m).
Proof.
  intros L Em. unfold comux_manifest_read_buffer.
  destruct (comux_header_read_buffer_full (header comux_manifest_init) buff 0 L Em)
    as [h [-> [W B]]].
  change (nonzero COMUX_PARSE_OK) with false. cbv iota.
  destruct (read_buffer_chunks_sound (Z.to_nat (num_chunks h)) buff 20 20
              (cinfo_list comux_manifest_init) ltac:(lia))
    as [r [l [t [E [Wl [Hlen [Hb [Hr1 [Hr2 Hfull]]]]]]]]].
  rewrite E. cbn [cinfo_list comux_manifest_init app].
  exists (mk_manifest h l), t. unfold manifest_size. cbn [header cinfo_list].
  pose proof (chunks_size_nonneg l Wl) as Hcs.
  split; [reflexivity|]. split; [exact W|]. split; [exact Wl|].
  split; [exact Hlen|]. split.
  { rewrite Hb, B. change (firstn 20 buff) with (bytes_at buff 0 20).
    rewrite (bytes_at_cat buff 0 20 20 (chunks_size l)) by lia. reflexivity. }
  split; [lia|]. split; [lia|]. intros Hf. now apply Hfull.
Qed.

Lemma manifest_read_buffer_sound_witness :
  exists m n,
    comux_manifest_read_buffer comux_manifest_init cut_input 7
      = (COMUX_PARSE_OK, m, n) /\
    wf_header (header m) /\ Forall wf_cinfo (cinfo_list m) /\
    (length (cinfo_list m) <= Z.to_nat (num_chunks (header m)))%nat /\
    header_bytes (header m) ++ concat (map cinfo_bytes (cinfo_list m))
      = firstn (Z.to_nat (manifest_size m)) cut_input /\
    manifest_size m <= n <= Z.of_nat (length cut_input) /\
    n <= manifest_size m + 20 /\
    (length (cinfo_list m) = Z.to_nat (num_chunks (header m)) ->
     n = manifest_size m).
Proof.
  apply (manifest_read_buffer_sound cut_input 7); [cbn; lia|reflexivity].
Defined.

Lemma to_ssize_opp (z : Z) : 0 < z < 2 ^ 63 -> to_ssize (- z) = - z.
Proof.
  intros H. unfold to_ssize.
  replace (- z) with (2 ^ 64 - z + (-1) * 2 ^ 64) by lia.
  rewrite Z.mod_add by lia. rewrite Z.mod_small by lia.
  destruct (Z.ltb_spec (2 ^ 64 - z) (2 ^ 63)); lia.
Qed.

(** The buffer writer copies a manifest part by part: the header, then
    for each chunk its 20-byte header and its payload. [manifest_parts]
    lists the sizes of these parts in the order they are written. *)
Definition chunk_parts (l : list comux_cinfo_t) : list Z :=
  flat_map (fun c => [20; len c]) l.
Definition manifest_parts (m : comux_manifest_t) : list Z :=
  20 :: chunk_parts (cinfo_list m).
Definition sum_sizes (parts : list Z) : Z := fold_right Z.add 0 parts.

(** The chunk loop of the buffer writer when the chunks do not fit: it
    stops at the first part that is larger than the room left after the
    parts before it, returns that part's size negated, and has copied the
    parts before it. *)
Lemma write_buffer_chunks_first_short (l : list comux_cinfo_t) :
  forall total space out,
  Forall wf_cinfo l -> 0 <= space < chunks_size l -> space < 2 ^ 63 ->
  exists before n after,
    chunk_parts l = before ++ n :: after /\
    0 <= sum_sizes before <= space /\ space < sum_sizes before + n /\
    write_buffer_chunks l total space out
    = (- n, out ++ firstn (Z.to_nat (sum_sizes before))
                          (concat (map cinfo_bytes l))).
Proof.
  induction l as [|c l IH]; intros total space out Hwf Hsp Hsm.
  - unfold chunks_size in Hsp. cbn in Hsp. lia.
  - inversion Hwf as [|? ? Hc Hl]; subst.
    pose proof (chunks_size_nonneg l Hl) as Hnn.
    rewrite chunks_size_cons in Hsp.
    destruct Hc as (Hid & Hsc & Hfl & Hlen & Hmax).
    assert (Hlen0 : 0 <= len c) by lia.
    unfold COMUX_CHUNK_DATA_MAXLEN in Hmax.
    cbn [write_buffer_chunks].
    unfold comux_cinfo_write_buffer, comux_cinfo_data_write_buffer.
    fold (cinfo_header_bytes c).
    rewrite (to_u64_small space) by lia.
    cbn [chunk_parts flat_map app]. fold (chunk_parts l).
    cbn [map concat].
    destruct (Z.ltb_spec space (4 + 8 + 4 + 4)) as [H20|H20].
    { change (- (4 + 8 + 4 + 4) <? 0) with true. cbv iota.
      exists [], 20, (len c :: chunk_parts l).
      split; [reflexivity|]. cbn [sum_sizes fold_right].
      split; [lia|]. split; [lia|].
      change (Z.to_nat 0) with 0%nat. cbn [firstn]. now rewrite app_nil_r. }
    change (4 + 8 + 4 + 4 <? 0) with false. cbv iota.
    rewrite MAX_0_nonneg by lia.
    rewrite (to_ssize_small (len c)) by lia.
    rewrite (to_u64_small (len c)) by lia.
    rewrite (to_u64_small (space - (4 + 8 + 4 + 4))) by lia.
    destruct (Z.gtb_spec (len c) (space - (4 + 8 + 4 + 4))) as [Hgt|Hle].
    { rewrite to_ssize_opp by lia.
      destruct (Z.ltb_spec (- len c) 0); [|lia].
      exists [20], (len c), (chunk_parts l).
      split; [reflexivity|]. cbn [sum_sizes fold_right].
      split; [lia|]. split; [lia|].
      reflexivity. }
    destruct (Z.ltb_spec (len c) 0); [lia|].
    rewrite MAX_0_nonneg by lia.
    destruct (IH (total + (4 + 8 + 4 + 4) + len c) (space - (4 + 8 + 4 + 4) - len c)
                 (out ++ cinfo_header_bytes c
                      ++ firstn (Z.to_nat (len c)) (data c)) Hl ltac:(lia) ltac:(lia))
      as [before [n [after [Ep [Hb0 [Hb1 E]]]]]].
    exists (20 :: len c :: before), n, after.
    split; [now rewrite Ep|]. cbn [sum_sizes fold_right]. fold (sum_sizes before).
    split; [lia|]. split; [lia|].
    rewrite E. f_equal. rewrite <- !app_assoc. f_equal.
    rewrite firstn_all2 by lia.
    replace (Z.to_nat (20 + (len c + sum_sizes before)))
      with (length (cinfo_bytes c) + Z.to_nat (sum_sizes before))%nat
      by (unfold cinfo_bytes; rewrite length_app, cinfo_header_bytes_length; lia).
    rewrite firstn_app_2. unfold cinfo_bytes. now rewrite <- app_assoc.
Qed.

(** [comux_manifest_write_buffer], for a manifest whose magic has 8 bytes
    and whose chunks are well formed, and a buffer of less than [2 ^ 63]
    bytes, never copies more than [max_len] bytes. When the manifest fits
    it returns the manifest's size and has copied the header followed by
    every chunk record. When it does not fit, the writer stops at the
    first part (header, chunk header or payload, in the order written)
    that is larger than the room the parts before it leave: it returns
    that part's size negated (20 for a header, the payload length for a
    payload) and has copied exactly the parts before it. *)
Theorem manifest_write_buffer_bound (m : comux_manifest_t) (max_len : Z) :
  length (magic (header m)) = 8%nat -> Forall wf_cinfo (cinfo_list m) ->
  0 <= max_len < 2 ^ 63 ->
  let encoding :=
    header_bytes (header m) ++ concat (map cinfo_bytes (cinfo_list m)) in
  let '(w, bytes) := comux_manifest_write_buffer m max_len in
  Z.of_nat (length bytes) <= max_len /\
  (manifest_size m <= max_len -> w = manifest_size m /\ bytes = encoding) /\
  (max_len < manifest_size m ->
   exists before n after,
     manifest_parts m = before ++ n :: after /\
     sum_sizes before <= max_len < sum_sizes before + n /\
     w = - n /\ w < 0 /\
     bytes = firstn (Z.to_nat (sum_sizes before)) encoding).
Proof.
  intros Hm Hwf Hmax encoding. unfold encoding.
  unfold comux_manifest_write_buffer, manifest_size, manifest_parts.
  pose proof (chunks_size_nonneg _ Hwf) as Hnn.
  rewrite (to_ssize_small max_len) by lia. rewrite (to_u64_small max_len) by lia.
  unfold comux_header_write_buffer, COMUX_MAGIC_LEN.
  fold (header_bytes (header m)).
  assert (Hh : length (header_bytes (header m)) = 20%nat).
  { unfold header_bytes. rewrite !length_app, !u32_to_bytes_length, Hm. reflexivity. }
  destruct (Z.ltb_spec max_len (8 + 4 + 4 + 4)) as [H20|H20].
  { change (- (8 + 4 + 4 + 4) <? 0) with true. cbv iota. cbn [length].
    split; [lia|]. split; [lia|]. intros _.
    exists [], 20, (chunk_parts (cinfo_list m)).
    split; [reflexivity|]. cbn [sum_sizes fold_right].
    split; [lia|]. split; [reflexivity|]. split; [lia|]. reflexivity. }
  change (8 + 4 + 4 + 4 <? 0) with false. cbv iota.
  rewrite MAX_0_nonneg by lia.
  destruct (Z.le_gt_cases (chunks_size (cinfo_list m)) (max_len - (8 + 4 + 4 + 4)))
    as [Hfit|Hshort].
  - rewrite write_buffer_chunks_ok by (auto; lia).
    split; [|split; [intros _; split; [lia|reflexivity]|lia]].
    rewrite length_app, Nat2Z.inj_add, Hh, chunks_bytes_length by assumption. lia.
  - destruct (write_buffer_chunks_first_short (cinfo_list m) (8 + 4 + 4 + 4)
                (max_len - (8 + 4 + 4 + 4)) (header_bytes (header m))
                Hwf ltac:(lia) ltac:(lia))
      as [before [n [after [Ep [Hb0 [Hb1 ->]]]]]].
    split.
    { rewrite length_app, length_firstn, Hh. lia. }
    split; [lia|]. intros _.
    exists (20 :: before), n, after.
    split; [now rewrite Ep|]. cbn [sum_sizes fold_right]. fold (sum_sizes before).
    split; [lia|]. split; [reflexivity|]. split; [lia|].
    replace (Z.to_nat (20 + sum_sizes before))
      with (length (header_bytes (header m)) + Z.to_nat (sum_sizes before))%nat
      by (rewrite Hh; lia).
    now rewrite firstn_app_2.
Qed.

(** A buffer of 42 bytes takes the header and the chunk header of the
    minimal manifest, and has 2 bytes left for a payload of 5. *)
Lemma manifest_write_buffer_bound_witness :
  let encoding :=
    header_bytes (header hello_manifest)
    ++ concat (map cinfo_bytes (cinfo_list hello_manifest)) in
  let '(w, bytes) := comux_manifest_write_buffer hello_manifest 42 in
  Z.of_nat (length bytes) <= 42 /\
  (manifest_size hello_manifest <= 42 ->
   w = manifest_size hello_manifest /\ bytes = encoding) /\
  (42 < manifest_size hello_manifest ->
   exists before n after,
     manifest_parts hello_manifest = before ++ n :: after /\
     sum_sizes before <= 42 < sum_sizes before + n /\
     w = - n /\ w < 0 /\
     bytes = firstn (Z.to_nat (sum_sizes before)) encoding).
Proof.
  apply (manifest_write_buffer_bound hello_manifest 42);
    [reflexivity|apply hello_manifest_wf|lia].
Defined.

Lemma write_at_end (s bytes : list byte) (p : Z) :
  p = Z.of_nat (length s) ->
  write (mk_fd s p) bytes
  = (Z.of_nat (length bytes), mk_fd (s ++ bytes) (p + Z.of_nat (length bytes))).
Proof.
  intros ->. unfold write. destruct bytes as [|b bytes].
  - cbn [length Z.of_nat]. now rewrite app_nil_r, Z.add_0_r.
  - cbn [contents pos]. rewrite Nat2Z.id, firstn_all, Nat.sub_diag.
    rewrite skipn_all2 by lia. cbn [repeat app]. now rewrite app_nil_r.
Qed.

Lemma comux_header_write_at_end (h : comux_header_t) (s : list byte) (p : Z) :
  p = Z.of_nat (length s) -> length (magic h) = 8%nat ->
  comux_header_write h (mk_fd s p)
  = (20, mk_fd (s ++ header_bytes h) (p + 20)).
Proof.
  intros Hp Hm. unfold comux_header_write, write_check.
  rewrite write_at_end by exact Hp.
  rewrite write_at_end by (rewrite length_app; lia).
  rewrite write_at_end by (rewrite !length_app, u32_to_bytes_length; lia).
  rewrite write_at_end by (rewrite !length_app, !u32_to_bytes_length; lia).
  rewrite !u32_to_bytes_length, Hm. unfold header_bytes.
  rewrite <- !app_assoc. f_equal. f_equal. lia.
Qed.

Lemma comux_cinfo_write_at_end (c : comux_cinfo_t) (s : list byte) (p : Z) :
  p = Z.of_nat (length s) ->
  comux_cinfo_write c (mk_fd s p)
  = (20, set_offset c p, mk_fd (s ++ cinfo_header_bytes c) (p + 20)).
Proof.
  intros Hp. unfold comux_cinfo_write, write_check, lseek_tell.
  cbn [pos set_offset id len sched flags].
  rewrite write_at_end by exact Hp.
  rewrite write_at_end by (rewrite length_app; lia).
  rewrite write_at_end by (rewrite !length_app, u32_to_bytes_length; lia).
  rewrite write_at_end
    by (rewrite !length_app, !u32_to_bytes_length, u64_to_bytes_length; lia).
  rewrite !u32_to_bytes_length, u64_to_bytes_length. unfold cinfo_header_bytes.
  rewrite <- !app_assoc. f_equal. f_equal. lia.
Qed.

Lemma data_write_loop_at_end (c : comux_cinfo_t) (s : list byte) (p : Z) :
  p = Z.of_nat (length s) ->
  len c = Z.of_nat (length (data c)) -> len c < 2 ^ 64 ->
  forall fuel t,
  0 <= t <= len c -> (Z.to_nat (len c - t) < fuel)%nat ->
  data_write_loop fuel c (mk_fd (s ++ bytes_at (data c) 0 t) (p + t))
                  (if len c >? 2048 then 2048 else len c) t
  = Some (mk_fd (s ++ data c) (p + len c), len c).
Proof.
  intros Hp Hlen Hmax. induction fuel as [|fuel IH]; intros t Ht Hf; [lia|].
  cbn [data_write_loop].
  set (k := MIN (to_u64 (len c - t)) (if len c >? 2048 then 2048 else len c)).
  assert (Hk : 0 <= k <= len c - t /\ (t < len c -> 0 < k)).
  { unfold k, MIN. rewrite to_u64_small by lia.
    destruct (Z.gtb_spec (len c) 2048);
      match goal with |- context [?a <? ?b] => destruct (Z.ltb_spec a b) end; lia. }
  assert (Lt : Z.of_nat (length (bytes_at (data c) 0 t)) = t).
  { rewrite bytes_at_full_length by lia. lia. }
  assert (Lk : Z.of_nat (length (bytes_at (data c) t k)) = k).
  { rewrite bytes_at_full_length by lia. lia. }
  rewrite write_at_end by (rewrite length_app; lia).
  rewrite Lk. rewrite <- app_assoc.
  rewrite (bytes_at_cat (data c) 0 t t k) by lia.
  destruct (Z.gtb_spec k 0) as [Hpos|Hzero].
  - rewrite to_u64_small by lia.
    replace (p + t + k) with (p + (t + k)) by lia.
    apply IH; lia.
  - assert (t = len c) by lia. assert (k = 0) by lia. subst t. rewrite H0.
    rewrite !Z.add_0_r. unfold bytes_at. cbn [Z.to_nat skipn].
    rewrite Hlen, Nat2Z.id, firstn_all. reflexivity.
Qed.

Lemma comux_cinfo_data_write_at_end (c : comux_cinfo_t) (s : list byte) (p : Z) :
  p = Z.of_nat (length s) ->
  len c = Z.of_nat (length (data c)) -> len c < 2 ^ 64 ->
  comux_cinfo_data_write c (mk_fd s p)
  = Some (len c, mk_fd (s ++ data c) (p + len c)).
Proof.
  intros Hp Hlen Hmax. unfold comux_cinfo_data_write.
  pose proof (data_write_loop_at_end c s p Hp Hlen Hmax
                (S (Z.to_nat (len c))) 0 ltac:(lia) ltac:(lia)) as E.
  rewrite bytes_at_nil, app_nil_r, Z.add_0_r in E. now rewrite E.
Qed.

Lemma manifest_write_chunks_at_end (l : list comux_cinfo_t) :
  forall (s : list byte) (p total : Z),
  p = Z.of_nat (length s) -> Forall wf_cinfo l ->
  0 <= total -> total + chunks_size l < 2 ^ 64 ->
  manifest_write_chunks l (mk_fd s p) total
  = Some (total + chunks_size l, with_offsets p l,
          mk_fd (s ++ concat (map cinfo_bytes l)) (p + chunks_size l)).
Proof.
  induction l as [|c l IH]; intros s p total Hp Hwf Ht Hsz.
  - cbn. now rewrite app_nil_r, !Z.add_0_r.
  - inversion Hwf as [|? ? Hc Hl]; subst.
    pose proof (chunks_size_nonneg l Hl) as Hnn.
    rewrite chunks_size_cons in Hsz |- *.
    destruct Hc as (Hid & Hsc & Hfl & Hlen & Hmax).
    unfold COMUX_CHUNK_DATA_MAXLEN in Hmax.
    cbn [manifest_write_chunks with_offsets map concat].
    rewrite comux_cinfo_write_at_end by reflexivity.
    rewrite comux_cinfo_data_write_at_end
      by (cbn [set_offset len data]; rewrite ?length_app, ?cinfo_header_bytes_length; lia).
    cbn [set_offset len data].
    rewrite (to_u64_small (total + 20)) by lia.
    rewrite (to_u64_small (total + 20 + len c)) by lia.
    rewrite IH; try assumption; try lia.
    + unfold cinfo_bytes at 2. rewrite <- !app_assoc.
      do 2 f_equal; [f_equal; lia|f_equal; lia].
    + rewrite !length_app, cinfo_header_bytes_length. lia.
Qed.

Lemma chunks_count_le_bytes (chunks : list comux_cinfo_t) :
  (length chunks <= length (concat (map cinfo_bytes chunks)))%nat.
Proof.
  induction chunks as [|c l IH]; cbn [map concat length]; [lia|].
  rewrite length_app. unfold cinfo_bytes at 1.
  rewrite length_app, cinfo_header_bytes_length. lia.
Qed.

(** Round trip through a file: [comux_manifest_write] on an empty file
    writes the header and every chunk record one after the other, returns
    the manifest's size and stores in each chunk the offset it was written
    at; [comux_manifest_read] from the start of that file returns
    [COMUX_PARSE_OK] with the same header and the same chunks, offsets
    included, and ends at the end of the file. *)
Theorem manifest_stream_roundtrip (m : comux_manifest_t) :
  wf_header (header m) -> Forall wf_cinfo (cinfo_list m) ->
  manifest_size m < 2 ^ 64 ->
  exists m' fd,
    comux_manifest_write m (mk_fd [] 0) = Some (manifest_size m, m', fd) /\
    header m' = header m /\
    cinfo_list m' = with_offsets 20 (cinfo_list m) /\
    contents fd = header_bytes (header m)
                  ++ concat (map cinfo_bytes (cinfo_list m)) /\
    pos fd = manifest_size m /\
    comux_manifest_read comux_manifest_init (lseek_set fd 0)
    = Some (COMUX_PARSE_OK, m', fd).
Proof.
  intros Hh Hl Hsz. unfold manifest_size in *.
  pose proof (chunks_size_nonneg _ Hl) as Hnn.
  pose proof (header_bytes_length _ Hh) as HL.
  assert (Hm : length (magic (header m)) = 8%nat)
    by (destruct Hh as [-> _]; reflexivity).
  unfold comux_manifest_write.
  rewrite comux_header_write_at_end by (auto; reflexivity).
  cbn [app Z.add].
  rewrite manifest_write_chunks_at_end by (auto; try lia; rewrite HL; reflexivity).
  eexists. eexists. split; [reflexivity|].
  cbn [header cinfo_list contents pos lseek_set].
  split; [reflexivity|]. split; [reflexivity|]. split; [reflexivity|].
  split; [reflexivity|].
  unfold comux_manifest_read, lseek_set. cbn [contents].
  rewrite comux_header_read_bytes by (auto; reflexivity).
  cbn [nonzero parse_result_value Z.eqb negb contents].
  pose proof (manifest_read_loop_clean (cinfo_list m) (header_bytes (header m))
                (cinfo_list comux_manifest_init)
                (S (length (header_bytes (header m)
                            ++ concat (map cinfo_bytes (cinfo_list m))))) Hl) as R.
  rewrite HL in R. change (Z.of_nat 20) with 20 in R.
  rewrite R; [reflexivity|].
  rewrite length_app, HL. pose proof (chunks_count_le_bytes (cinfo_list m)). lia.
Qed.

Lemma manifest_stream_roundtrip_witness :
  exists m' fd,
    comux_manifest_write hello_manifest (mk_fd [] 0)
      = Some (manifest_size hello_manifest, m', fd) /\
    header m' = header hello_manifest /\
    cinfo_list m' = with_offsets 20 (cinfo_list hello_manifest) /\
    contents fd = header_bytes (header hello_manifest)
                  ++ concat (map cinfo_bytes (cinfo_list hello_manifest)) /\
    pos fd = manifest_size hello_manifest /\
    comux_manifest_read comux_manifest_init (lseek_set fd 0)
    = Some (COMUX_PARSE_OK, m', fd).
Proof.
  apply (manifest_stream_roundtrip hello_manifest);
    [apply hello_manifest_wf|apply hello_manifest_wf|reflexivity].
Defined.

(** What the chunk loop of the stream reader ends with when [rest] bytes
    are left that do not start with a complete chunk record. *)
Definition chunk_end_result (rest : Z) : comux_parse_result_t :=
  if rest =? 0 then COMUX_PARSE_EOF
  else if rest <? 4 then COMUX_PARSE_BAD_CONN_ID
  else if rest =? 4 then COMUX_PARSE_EOF
  else if rest <? 12 then COMUX_PARSE_BAD_CONN_LEN
  else if rest =? 12 then COMUX_PARSE_EOF
  else if rest <? 16 then COMUX_PARSE_BAD_CONN_SCHED
  else if rest =? 16 then COMUX_PARSE_EOF
  else if rest <? 20 then COMUX_PARSE_BAD_CONN_FLAGS
  else COMUX_PARSE_CONN_LEN_MISMATCH.

Lemma available_eq (s : list byte) (p : Z) :
  0 <= p -> available s p = Z.max 0 (Z.of_nat (length s) - p).
Proof. intros Hp. unfold available. rewrite length_skipn. lia. Qed.

Lemma read_at (s : list byte) (p n : Z) :
  0 <= p -> 0 <= n ->
  read (mk_fd s p) n = (bytes_at s p n, mk_fd s (p + Z.min n (available s p))).
Proof.
  intros Hp Hn. unfold read. cbn [contents pos].
  now rewrite bytes_at_length by assumption.
Qed.

Ltac bool_to_prop :=
  repeat match goal with
  | H : (_ =? _) = true |- _ => apply Z.eqb_eq in H
  | H : (_ =? _) = false |- _ => apply Z.eqb_neq in H
  | H : (_ <? _) = true |- _ => apply Z.ltb_lt in H
  | H : (_ <? _) = false |- _ => apply Z.ltb_ge in H
  end.

Lemma comux_cinfo_read_short (c0 : comux_cinfo_t) (s : list byte) (p : Z) :
  0 <= p <= Z.of_nat (length s) -> Z.of_nat (length s) - p < 20 ->
  exists c',
    comux_cinfo_read c0 (mk_fd s p)
    = (chunk_end_result (Z.of_nat (length s) - p), c', mk_fd s (Z.of_nat (length s))) /\
    nonzero (chunk_end_result (Z.of_nat (length s) - p)) = true.
Proof.
  intros Hp Ha. unfold comux_cinfo_read, read_check, lseek_tell, chunk_end_result.
  cbn [pos].
  set (L := Z.of_nat (length s)) in *.
  rewrite (read_at s p 4) by lia.
  rewrite (bytes_at_length s p 4), (available_eq s p) by lia. fold L.
  destruct (Z.min 4 (Z.max 0 (L - p)) =? 0) eqn:E1;
    [bool_to_prop; destruct (L - p =? 0) eqn:F1; bool_to_prop; try lia;
     eexists; split; [do 2 f_equal; lia|reflexivity]|].
  destruct (Z.min 4 (Z.max 0 (L - p)) <? 4) eqn:E2;
    [bool_to_prop; destruct (L - p =? 0) eqn:F1; bool_to_prop; try lia;
     destruct (L - p <? 4) eqn:F2; bool_to_prop; try lia;
     eexists; split; [do 2 f_equal; lia|reflexivity]|].
  bool_to_prop.
  replace (p + Z.min 4 (Z.max 0 (L - p))) with (p + 4) by lia.
  destruct (L - p =? 0) eqn:F1; bool_to_prop; try lia.
  destruct (L - p <? 4) eqn:F2; bool_to_prop; try lia.
  rewrite (read_at s (p + 4) 8) by lia.
  rewrite (bytes_at_length s (p + 4) 8), (available_eq s (p + 4)) by lia. fold L.
  destruct (Z.min 8 (Z.max 0 (L - (p + 4))) =? 0) eqn:E3;
    [bool_to_prop; destruct (L - p =? 4) eqn:F3; bool_to_prop; try lia;
     eexists; split; [do 2 f_equal; lia|reflexivity]|].
  destruct (L - p =? 4) eqn:F3; bool_to_prop; try lia.
  destruct (Z.min 8 (Z.max 0 (L - (p + 4))) <? 8) eqn:E4;
    [bool_to_prop; destruct (L - p <? 12) eqn:F4; bool_to_prop; try lia;
     eexists; split; [do 2 f_equal; lia|reflexivity]|].
  bool_to_prop.
  replace (p + 4 + Z.min 8 (Z.max 0 (L - (p + 4)))) with (p + 12) by lia.
  destruct (L - p <? 12) eqn:F4; bool_to_prop; try lia.
  rewrite (read_at s (p + 12) 4) by lia.
  rewrite (bytes_at_length s (p + 12) 4), (available_eq s (p + 12)) by lia. fold L.
  destruct (Z.min 4 (Z.max 0 (L - (p + 12))) =? 0) eqn:E5;
    [bool_to_prop; destruct (L - p =? 12) eqn:F5; bool_to_prop; try lia;
     eexists; split; [do 2 f_equal; lia|reflexivity]|].
  destruct (L - p =? 12) eqn:F5; bool_to_prop; try lia.
  destruct (Z.min 4 (Z.max 0 (L - (p + 12))) <? 4) eqn:E6;
    [bool_to_prop; destruct (L - p <? 16) eqn:F6; bool_to_prop; try lia;
     eexists; split; [do 2 f_equal; lia|reflexivity]|].
  bool_to_prop.
  replace (p + 12 + Z.min 4 (Z.max 0 (L - (p + 12)))) with (p + 16) by lia.
  destruct (L - p <? 16) eqn:F6; bool_to_prop; try lia.
  rewrite (read_at s (p + 16) 4) by lia.
  rewrite (bytes_at_length s (p + 16) 4), (available_eq s (p + 16)) by lia. fold L.
  destruct (Z.min 4 (Z.max 0 (L - (p + 16))) =? 0) eqn:E7;
    [bool_to_prop; destruct (L - p =? 16) eqn:F7; bool_to_prop; try lia;
     eexists; split; [do 2 f_equal; lia|reflexivity]|].
  destruct (L - p =? 16) eqn:F7; bool_to_prop; try lia.
  destruct (Z.min 4 (Z.max 0 (L - (p + 16))) <? 4) eqn:E8;
    [bool_to_prop; destruct (L - p <? 20) eqn:F8; bool_to_prop; try lia;
     eexists; split; [do 2 f_equal; lia|reflexivity]|].
  bool_to_prop. lia.
Qed.

Lemma split_at (s : list byte) (p n : Z) :
  0 <= p -> 0 <= n ->
  s = firstn (Z.to_nat p) s ++ bytes_at s p n ++ skipn (Z.to_nat (p + n)) s.
Proof.
  intros Hp Hn. unfold bytes_at.
  rewrite <- (firstn_skipn (Z.to_nat p) s) at 1. f_equal.
  rewrite <- (firstn_skipn (Z.to_nat n) (skipn (Z.to_nat p) s)) at 1. f_equal.
  rewrite skipn_skipn'. f_equal. lia.
Qed.

Lemma comux_cinfo_read_full (c0 : comux_cinfo_t) (s : list byte) (p : Z) :
  0 <= p -> p + 20 <= Z.of_nat (length s) ->
  exists c',
    comux_cinfo_read c0 (mk_fd s p) = (COMUX_PARSE_OK, c', mk_fd s (p + 20)) /\
    cinfo_header_bytes c' = bytes_at s p 20 /\
    u32_range (id c') /\ u64_range (len c') /\ u32_range (sched c') /\
    u32_range (flags c') /\ data c' = data c0 /\ offset c' = p.
Proof.
  intros Hp Hs.
  destruct (comux_cinfo_read_buffer_full c0 (skipn (Z.to_nat p) s) 0)
    as [c [_ [B [R1 [R2 [R3 [R4 _]]]]]]]; [rewrite length_skipn; lia|].
  change (firstn 20 (skipn (Z.to_nat p) s)) with (bytes_at s p 20) in B.
  exists (mk_cinfo (id c) (len c) (sched c) (flags c) (data c0) p).
  split; [|repeat split; try assumption; apply R1 || apply R2 || apply R3 || apply R4].
  rewrite (split_at s p 20) at 1 2 by lia. rewrite <- B.
  apply comux_cinfo_read_bytes; try assumption.
  rewrite length_firstn. lia.
Qed.

Lemma cinfo_header_bytes_len (c c' : comux_cinfo_t) :
  u64_range (len c) -> u64_range (len c') ->
  cinfo_header_bytes c = cinfo_header_bytes c' -> len c = len c'.
Proof.
  intros R R' E.
  assert (F : forall x, bytes_at (cinfo_header_bytes x) 4 8 = u64_to_bytes (len x)).
  { intros x. unfold cinfo_header_bytes.
    apply (bytes_at_mid (u32_to_bytes (id x)) (u64_to_bytes (len x)));
      [now rewrite u32_to_bytes_length|now rewrite u64_to_bytes_length]. }
  rewrite <- (bytes_to_u64_to_bytes' (len c) R), <- (bytes_to_u64_to_bytes' (len c') R').
  now rewrite <- !F, E.
Qed.

(** The chunk loop of the stream reader on any file. *)
Lemma manifest_read_loop_any (s : list byte) : forall fuel p acc,
  0 <= p <= Z.of_nat (length s) ->
  (Z.to_nat (Z.of_nat (length s) - p) < fuel)%nat ->
  exists l p',
    let rest := Z.of_nat (length s) - (p + chunks_size l) in
    manifest_read_loop fuel acc (mk_fd s p)
      = Some (chunk_end_result rest, acc ++ l, mk_fd s p') /\
    Forall wf_cinfo l /\ with_offsets p l = l /\
    concat (map cinfo_bytes l) = bytes_at s p (chunks_size l) /\
    p + chunks_size l <= p' <= Z.of_nat (length s) /\
    0 <= rest /\
    ~ (exists c, wf_cinfo c /\
                 bytes_at s (p + chunks_size l) (20 + len c) = cinfo_bytes c).
Proof.
  induction fuel as [|fuel IH]; intros p acc Hp Hf; [lia|].
  cbn [manifest_read_loop].
  destruct (Z.lt_ge_cases (Z.of_nat (length s) - p) 20) as [Hshort|Hfull].
  - destruct (comux_cinfo_read_short comux_cinfo_init s p Hp Hshort)
      as [c' [E N]].
    exists [], (Z.of_nat (length s)). cbv zeta.
    change (chunks_size []) with 0. rewrite Z.add_0_r, app_nil_r.
    rewrite E, N. split; [reflexivity|]. split; [constructor|].
    split; [reflexivity|]. split; [reflexivity|]. split; [lia|]. split; [lia|].
    intros [c [W B]]. apply (f_equal (@length byte)) in B.
    apply (f_equal Z.of_nat) in B.
    destruct W as (_ & _ & _ & Hlen & _).
    rewrite bytes_at_length, available_eq in B by lia.
    unfold cinfo_bytes in B. rewrite length_app, cinfo_header_bytes_length in B. lia.
  - destruct (comux_cinfo_read_full comux_cinfo_init s p ltac:(lia) ltac:(lia))
      as [c' [E [B [R1 [R2 [R3 [R4 [D O]]]]]]]].
    rewrite E. change (nonzero COMUX_PARSE_OK) with false. cbv iota.
    rewrite comux_cinfo_data_read_spec by (cbn [pos]; try apply R2; lia).
    cbn [pos contents]. rewrite available_eq by lia.
    set (n0 := Z.min (Z.min (len c') COMUX_CHUNK_DATA_MAXLEN)
                     (Z.max 0 (Z.of_nat (length s) - (p + 20)))).
    assert (Hl0 : 0 <= len c') by apply R2.
    unfold COMUX_CHUNK_DATA_MAXLEN in *.
    destruct (Z.ltb_spec n0 (len c')) as [Hlt|Hge].
    + exists [], (p + 20 + n0). cbv zeta.
      change (chunks_size []) with 0. rewrite Z.add_0_r, app_nil_r.
      assert (Er : chunk_end_result (Z.of_nat (length s) - p)
                   = COMUX_PARSE_CONN_LEN_MISMATCH).
      { unfold chunk_end_result.
        repeat match goal with
        | |- context [?a =? ?b] => destruct (Z.eqb_spec a b); [lia|]
        | |- context [?a <? ?b] => destruct (Z.ltb_spec a b); [lia|]
        end. reflexivity. }
      rewrite Er. split; [reflexivity|]. split; [constructor|].
      split; [reflexivity|]. split; [reflexivity|]. split; [lia|]. split; [lia|].
      intros [c [W Bc]].
      pose proof W as (_ & _ & _ & Hlen & Hmax).
      unfold COMUX_CHUNK_DATA_MAXLEN in Hmax.
      assert (Hb20 : bytes_at s p 20 = cinfo_header_bytes c).
      { apply (f_equal (firstn 20)) in Bc. unfold cinfo_bytes in Bc.
        rewrite firstn_app, cinfo_header_bytes_length in Bc.
        rewrite Nat.sub_diag, firstn_O in Bc.
        rewrite app_nil_r, (firstn_all2 (n := 20) (cinfo_header_bytes c)) in Bc
          by (rewrite cinfo_header_bytes_length; lia).
        rewrite <- Bc. unfold bytes_at. rewrite firstn_firstn. f_equal. lia. }
      assert (Hlc : len c = len c').
      { apply cinfo_header_bytes_len; [unfold u64_range; lia|exact R2|congruence]. }
      apply (f_equal (@length byte)) in Bc. apply (f_equal Z.of_nat) in Bc.
      rewrite bytes_at_length, available_eq in Bc by lia.
      unfold cinfo_bytes in Bc. rewrite length_app, cinfo_header_bytes_length in Bc.
      lia.
    + assert (Hn0 : n0 = len c') by lia.
      set (c'' := mk_cinfo (id c') n0 (sched c') (flags c')
                           (bytes_at s (p + 20) n0) (offset c')).
      destruct (IH (p + 20 + n0) (acc ++ [c'']) ltac:(lia) ltac:(lia))
        as [l [p' [El [W [Ho [Hb [Hp' [Hrest Hno]]]]]]]].
      cbv zeta in El.
      exists (c'' :: l), p'. cbv zeta.
      rewrite chunks_size_cons. change (len c'') with n0.
      replace (p + (20 + n0 + chunks_size l)) with (p + 20 + n0 + chunks_size l) by lia.
      pose proof (chunks_size_nonneg l W) as Hcs.
      assert (Wc : wf_cinfo c'').
      { unfold wf_cinfo, c'', COMUX_CHUNK_DATA_MAXLEN. cbn [id len sched flags data].
        repeat split; try apply R1; try apply R3; try apply R4; try lia.
        rewrite bytes_at_full_length by lia. lia. }
      split; [rewrite El; now rewrite <- app_assoc|].
      split; [constructor; assumption|].
      split.
      { cbn [with_offsets]. change (len c'') with n0. rewrite Ho.
        f_equal. unfold c'', set_offset. cbn [id len sched flags data]. now rewrite O. }
      split.
      { cbn [map concat]. rewrite Hb. unfold cinfo_bytes.
        assert (Hh : cinfo_header_bytes c'' = bytes_at s p 20).
        { transitivity (cinfo_header_bytes c'); [|exact B].
          unfold cinfo_header_bytes, c''. cbn [id len sched flags]. now rewrite Hn0. }
        rewrite Hh. change (data c'') with (bytes_at s (p + 20) n0).
        rewrite <- app_assoc.
        rewrite (bytes_at_cat s (p + 20) n0 (p + 20 + n0) (chunks_size l)) by lia.
        rewrite (bytes_at_cat s p 20 (p + 20) (n0 + chunks_size l)) by lia.
        f_equal. lia. }
      split; [lia|]. split; [lia|]. exact Hno.
Qed.

Lemma comux_header_read_full (h0 : comux_header_t) (s : list byte) :
  (20 <= length s)%nat -> firstn 8 s = COMUX_MAGIC -> length (magic h0) = 8%nat ->
  exists h,
    comux_header_read h0 (mk_fd s 0) = (COMUX_PARSE_OK, h, mk_fd s 20) /\
    wf_header h /\ header_bytes h = firstn 20 s.
Proof.
  intros L Em Hm.
  destruct (comux_header_read_buffer_full h0 s 0 L Em) as [h [_ [W B]]].
  exists h. split; [|split; assumption].
  rewrite <- (firstn_skipn 20 s) at 1 2. rewrite <- B.
  now apply comux_header_read_bytes.
Qed.

(** [comux_manifest_read] on any file of at least 20 bytes that starts with
    the magic: the reader returns. The chunks it keeps are well formed,
    carry their offsets in the file, and are exactly the complete records
    that follow the header one after the other, up to the first place
    where no complete record starts. What is returned depends on the number
    of bytes left there: [COMUX_PARSE_OK] for 0, but also for 4, 12 and 16
    (a chunk header cut after a field is taken for the end of the file),
    [COMUX_PARSE_CONN_LEN_MISMATCH] for 20 or more, and otherwise the
    result that names the field that was cut. *)
Theorem manifest_read_any_file (s : list byte) :
  (20 <= length s)%nat -> firstn 8 s = COMUX_MAGIC ->
  exists result m p,
    let rest := Z.of_nat (length s) - manifest_size m in
    comux_manifest_read comux_manifest_init (mk_fd s 0)
      = Some (result, m, mk_fd s p) /\
    wf_header (header m) /\ Forall wf_cinfo (cinfo_list m) /\
    with_offsets 20 (cinfo_list m) = cinfo_list m /\
    header_bytes (header m) ++ concat (map cinfo_bytes (cinfo_list m))
      = firstn (Z.to_nat (manifest_size m)) s /\
    manifest_size m <= p <= Z.of_nat (length s) /\
    ~ (exists c, wf_cinfo c /\
                 bytes_at s (manifest_size m) (20 + len c) = cinfo_bytes c) /\
    result = match chunk_end_result rest with
             | COMUX_PARSE_EOF => COMUX_PARSE_OK
             | r => r
             end /\
    (result = COMUX_PARSE_OK <-> rest = 0 \/ rest = 4 \/ rest = 12 \/ rest = 16) /\
    (result = COMUX_PARSE_CONN_LEN_MISMATCH <-> 20 <= rest).
Proof.
  intros L Em. unfold comux_manifest_read.
  destruct (comux_header_read_full (header comux_manifest_init) s L Em eq_refl)
    as [h [-> [W B]]].
  change (nonzero COMUX_PARSE_OK) with false. cbv iota. cbn [contents].
  destruct (manifest_read_loop_any s (S (length s)) 20
              (cinfo_list comux_manifest_init) ltac:(lia) ltac:(lia))
    as [l [p [E [Wl [Ho [Hb [Hp [Hrest Hno]]]]]]]].
  cbv zeta in E. rewrite E. cbn [cinfo_list comux_manifest_init app].
  exists (match chunk_end_result (Z.of_nat (length s) - (20 + chunks_size l)) with
          | COMUX_PARSE_EOF => COMUX_PARSE_OK
          | r => r
          end), (mk_manifest h l), p.
  cbv zeta. unfold manifest_size. cbn [header cinfo_list].
  pose proof (chunks_size_nonneg l Wl) as Hcs.
  split; [now destruct (chunk_end_result _)|].
  split; [exact W|]. split; [exact Wl|].
  split; [exact Ho|]. split.
  { rewrite Hb, B. change (firstn 20 s) with (bytes_at s 0 20).
    rewrite (bytes_at_cat s 0 20 20 (chunks_size l)) by lia. reflexivity. }
  split; [lia|]. split; [exact Hno|]. split; [reflexivity|].
  set (rest := Z.of_nat (length s) - (20 + chunks_size l)) in *.
  unfold chunk_end_result.
  repeat match goal with
  | |- context [?a =? ?b] => destruct (Z.eqb_spec a b)
  | |- context [?a <? ?b] => destruct (Z.ltb_spec a b)
  end; split; split; intros; try discriminate; try lia; try reflexivity.
Qed.

Lemma manifest_read_any_file_witness :
  exists result m p,
    let rest := Z.of_nat (length (cut_input ++ [x00])) - manifest_size m in
    comux_manifest_read comux_manifest_init (mk_fd (cut_input ++ [x00]) 0)
      = Some (result, m, mk_fd (cut_input ++ [x00]) p) /\
    wf_header (header m) /\ Forall wf_cinfo (cinfo_list m) /\
    with_offsets 20 (cinfo_list m) = cinfo_list m /\
    header_bytes (header m) ++ concat (map cinfo_bytes (cinfo_list m))
      = firstn (Z.to_nat (manifest_size m)) (cut_input ++ [x00]) /\
    manifest_size m <= p <= Z.of_nat (length (cut_input ++ [x00])) /\
    ~ (exists c, wf_cinfo c /\
                 bytes_at (cut_input ++ [x00]) (manifest_size m) (20 + len c)
                 = cinfo_bytes c) /\
    result = match chunk_end_result rest with
             | COMUX_PARSE_EOF => COMUX_PARSE_OK
             | r => r
             end /\
    (result = COMUX_PARSE_OK <-> rest = 0 \/ rest = 4 \/ rest = 12 \/ rest = 16) /\
    (result = COMUX_PARSE_CONN_LEN_MISMATCH <-> 20 <= rest).
Proof.
  apply (manifest_read_any_file (cut_input ++ [x00])); [cbn; lia|reflexivity].
Defined.

(** [comux_manifest_cinfo_remove] with an index inside the list hands back
    the chunk at that index, leaves the other chunks in their order and
    counts [num_chunks] down; with an index outside the list it returns
    [NULL] and leaves the manifest as it was. A chunk put in with
    [comux_manifest_cinfo_add] sits at the last index: removing that index
    gives the chunk and the original manifest back, as long as the count
    did not wrap. *)
Theorem manifest_cinfo_add_remove (m : comux_manifest_t) (c : comux_cinfo_t)
    (idx : Z) :
  0 <= idx ->
  u32_range (num_chunks (header m)) -> num_chunks (header m) + 1 < 2 ^ 32 ->
  (let '(r, m') := comux_manifest_cinfo_remove m idx in
   match r with
   | None => Z.of_nat (length (cinfo_list m)) <= idx /\ m' = m
   | Some c' =>
       nth_error (cinfo_list m) (Z.to_nat idx) = Some c' /\
       cinfo_list m = firstn (Z.to_nat idx) (cinfo_list m') ++ c'
                        :: skipn (Z.to_nat idx) (cinfo_list m') /\
       num_chunks (header m') = to_u32 (num_chunks (header m) - 1)
   end) /\
  comux_manifest_cinfo_remove (comux_manifest_cinfo_add m c)
                              (Z.of_nat (length (cinfo_list m)))
  = (Some c, m).
Proof.
  intros Hi Hr Hn. split.
  - unfold comux_manifest_cinfo_remove.
    destruct (Z.ltb_spec idx 0); [lia|]. cbn [orb].
    destruct (Z.geb_spec idx (Z.of_nat (length (cinfo_list m)))) as [Hge|Hlt];
      [split; [lia|reflexivity]|].
    destruct (nth_error (cinfo_list m) (Z.to_nat idx)) as [c'|] eqn:E.
    + cbn [cinfo_list header num_chunks set_num_chunks].
      split; [reflexivity|]. split; [|reflexivity].
      assert (Hl : (Z.to_nat idx < length (cinfo_list m))%nat) by lia.
      rewrite firstn_app, length_firstn, Nat.min_l by lia.
      rewrite Nat.sub_diag, firstn_O, app_nil_r, firstn_firstn, Nat.min_id.
      rewrite skipn_app, length_firstn, Nat.min_l by lia.
      rewrite Nat.sub_diag, skipn_O.
      rewrite skipn_firstn_comm, Nat.sub_diag, firstn_O. cbn [app].
      rewrite <- (firstn_skipn (Z.to_nat idx) (cinfo_list m)) at 1. f_equal.
      apply nth_error_split in E. destruct E as [l1 [l2 [E1 E2]]].
      rewrite E1. rewrite <- E2. clear.
      induction l1 as [|a l1 IH]; [reflexivity|exact IH].
    + apply nth_error_None in E. lia.
  - unfold comux_manifest_cinfo_remove, comux_manifest_cinfo_add.
    cbn [cinfo_list header num_chunks set_num_chunks].
    rewrite length_app. cbn [length].
    destruct (Z.ltb_spec (Z.of_nat (length (cinfo_list m))) 0); [lia|]. cbn [orb].
    destruct (Z.geb_spec (Z.of_nat (length (cinfo_list m)))
                (Z.of_nat (length (cinfo_list m) + 1))); [lia|].
    rewrite Nat2Z.id, nth_error_app2, Nat.sub_diag by lia. cbn [nth_error].
    rewrite firstn_app, Nat.sub_diag, firstn_all, firstn_O, app_nil_r.
    rewrite skipn_all2 by (rewrite length_app; cbn [length]; lia).
    rewrite app_nil_r. unfold to_u32, u32_range in *.
    rewrite (Z.mod_small (num_chunks (header m) + 1)) by lia.
    replace (num_chunks (header m) + 1 - 1) with (num_chunks (header m)) by lia.
    rewrite Z.mod_small by lia.
    destruct m as [[mg v nc nk] l]. reflexivity.
Qed.

Lemma manifest_cinfo_add_remove_witness :
  (let '(r, m') := comux_manifest_cinfo_remove hello_manifest 0 in
   match r with
   | None => Z.of_nat (length (cinfo_list hello_manifest)) <= 0 /\ m' = hello_manifest
   | Some c' =>
       nth_error (cinfo_list hello_manifest) (Z.to_nat 0) = Some c' /\
       cinfo_list hello_manifest
       = firstn (Z.to_nat 0) (cinfo_list m') ++ c' :: skipn (Z.to_nat 0) (cinfo_list m') /\
       num_chunks (header m') = to_u32 (num_chunks (header hello_manifest) - 1)
   end) /\
  comux_manifest_cinfo_remove (comux_manifest_cinfo_add hello_manifest comux_cinfo_init)
                              (Z.of_nat (length (cinfo_list hello_manifest)))
  = (Some comux_cinfo_init, hello_manifest).
Proof.
  apply (manifest_cinfo_add_remove hello_manifest comux_cinfo_init 0);
    [lia|apply hello_manifest_wf|now cbn].
Defined.

End ComuxFacts.

(* ===================================================================== *)
(** * Properties of the replay library *)
(* ===================================================================== *)
Module PreloadFacts.
Import Utils UtilsFacts Comux ComuxFacts Preload Mutator.

(** The selection as a function on lists. *)
Fixpoint select_order (fuel : nat) (l : list elem) : list elem :=
  match l with
  | [] => []
  | e :: _ =>
      match fuel with
      | O => []
      | S fuel' =>
          let next := find_next e l in
          next :: select_order fuel' (dllist_remove l next)
      end
  end.

Definition increasing (l : list elem) : Prop :=
  StronglySorted (fun a b => (fst a < fst b)%nat) l.

Lemma before_trans a b c : before a b -> before b c -> before a c.
Proof. unfold before. intros [H|[H H']] [G|[G G']]; lia. Qed.

Lemma find_next_least (rest : list elem) : forall cur,
  (forall x, In x rest -> (fst cur < fst x)%nat) -> increasing rest ->
  let m := find_next cur rest in
  In m (cur :: rest) /\ (m = cur \/ before m cur) /\
  (forall x, In x rest -> m = x \/ before m x).
Proof.
  induction rest as [|e r IH]; intros cur Hcur Hinc; cbn [find_next].
  - split; [now left|]. split; [now left|]. intros x [].
  - inversion Hinc as [|? ? Hr He]; subst.
    rewrite Forall_forall in He.
    destruct (Z.ltb_spec (sched (snd e)) (sched (snd cur))) as [Hlt|Hge].
    + destruct (IH e) as (Hin & Hle & Hall); [intros x Hx; now apply He|assumption|].
      split; [right; exact Hin|]. split.
      * right. destruct Hle as [->|Hb]; [now left|].
        eapply before_trans; [exact Hb|now left].
      * intros x [<-|Hx]; [exact Hle|now apply Hall].
    + destruct (IH cur) as (Hin & Hle & Hall);
        [intros x Hx; apply Hcur; now right|assumption|].
      assert (Hce : before cur e).
      { unfold before. specialize (Hcur e (or_introl eq_refl)). lia. }
      split; [destruct Hin as [<-|Hin]; [now left|right; now right]|].
      split; [exact Hle|].
      intros x [<-|Hx]; [|now apply Hall].
      right. destruct Hle as [->|Hb]; [exact Hce|].
      eapply before_trans; eassumption.
Qed.

Lemma find_next_head (e : elem) (r : list elem) :
  increasing (e :: r) ->
  let m := find_next e (e :: r) in
  In m (e :: r) /\ (forall x, In x (e :: r) -> m = x \/ before m x).
Proof.
  intros Hinc. inversion Hinc as [|? ? Hr He]; subst.
  rewrite Forall_forall in He.
  cbn [find_next]. rewrite Z.ltb_irrefl.
  destruct (find_next_least r e He Hr) as (Hin & Hle & Hall).
  split; [exact Hin|]. intros x [<-|Hx]; [exact Hle|now apply Hall].
Qed.

Lemma dllist_remove_spec (l : list elem) (m : elem) :
  increasing l -> In m l ->
  Permutation l (m :: dllist_remove l m) /\ increasing (dllist_remove l m).
Proof.
  induction l as [|e r IH]; intros Hinc Hin; [destruct Hin|].
  inversion Hinc as [|? ? Hr He]; subst. rewrite Forall_forall in He.
  cbn [dllist_remove]. destruct (Nat.eqb_spec (fst e) (fst m)) as [Heq|Hne].
  - destruct Hin as [->|Hin]; [split; auto|].
    specialize (He m Hin). lia.
  - destruct Hin as [->|Hin]; [contradiction|].
    destruct (IH Hr Hin) as (Hp & Hi). split.
    + eapply perm_trans; [apply perm_skip; exact Hp|apply perm_swap].
    + constructor; [exact Hi|]. rewrite Forall_forall. intros x Hx. apply He.
      eapply Permutation_in; [apply Permutation_sym; exact Hp|now right].
Qed.

Lemma select_order_spec (fuel : nat) : forall l,
  increasing l -> (length l <= fuel)%nat ->
  Permutation (select_order fuel l) l /\
  StronglySorted before (select_order fuel l).
Proof.
  induction fuel as [|fuel IH]; intros l Hinc Hlen.
  - destruct l; [split; constructor|simpl in Hlen; lia].
  - destruct l as [|e r]; [split; constructor|].
    cbn [select_order].
    destruct (find_next_head e r Hinc) as (Hin & Hleast).
    set (m := find_next e (e :: r)) in *.
    destruct (dllist_remove_spec (e :: r) m Hinc Hin) as (Hperm & Hinc').
    assert (Hlen' : (length (dllist_remove (e :: r) m) <= fuel)%nat).
    { apply Permutation_length in Hperm. simpl in *. lia. }
    destruct (IH _ Hinc' Hlen') as (Hp & Hs). split.
    + eapply perm_trans; [apply perm_skip; exact Hp|apply Permutation_sym; exact Hperm].
    + constructor; [exact Hs|]. rewrite Forall_forall. intros x Hx.
      assert (Hx' : In x (dllist_remove (e :: r) m))
        by (eapply Permutation_in; eassumption).
      assert (Hxl : In x (e :: r))
        by (eapply Permutation_in; [apply Permutation_sym; exact Hperm|now right]).
      destruct (Hleast x Hxl) as [Heq|Hb]; [|exact Hb].
      exfalso. subst x.
      (* m cannot remain in the list: indices are distinct *)
      assert (Hnd : NoDup (map fst (m :: dllist_remove (e :: r) m))).
      { eapply Permutation_NoDup; [apply Permutation_map; exact Hperm|].
        clear - Hinc. induction Hinc as [|a l Hl IHl Ha]; [constructor|].
        cbn [map]. constructor; [|exact IHl].
        rewrite Forall_forall in Ha. intros Hin.
        apply in_map_iff in Hin. destruct Hin as (y & Hy & Hyl).
        specialize (Ha y Hyl). lia. }
      inversion Hnd as [|? ? Hni _]; subst. apply Hni. now apply in_map.
Qed.

Lemma spawned_app (a b : list event) : spawned (a ++ b) = spawned a ++ spawned b.
Proof.
  induction a as [|e a IH]; [reflexivity|].
  destruct e; cbn [app spawned]; rewrite IH; reflexivity.
Qed.

Lemma find_next_in (rest : list elem) : forall cur,
  In (find_next cur rest) (cur :: rest).
Proof.
  induction rest as [|e r IH]; intros cur; cbn [find_next]; [now left|].
  destruct (sched (snd e) <? sched (snd cur)).
  - right. apply IH.
  - destruct (IH cur) as [H|H]; [now left|right; now right].
Qed.

Lemma dllist_remove_length (l : list elem) (m : elem) :
  In m l -> S (length (dllist_remove l m)) = length l.
Proof.
  induction l as [|e r IH]; intros Hin; [destruct Hin|].
  cbn [dllist_remove]. destruct (Nat.eqb_spec (fst e) (fst m)) as [Heq|Hne];
    [reflexivity|].
  destruct Hin as [->|Hin]; [contradiction|].
  cbn [length]. now rewrite IH.
Qed.

Lemma controller_loop_returning (fuel : nat) : forall l ccheck_buff idx p,
  (length l <= fuel)%nat ->
  exists p',
    controller_loop (fun _ p => Returned tt p) fuel l ccheck_buff idx p
    = Returned tt p' /\
    spawned (events p')
    = spawned (events p) ++ map fst (select_order fuel l).
Proof.
  induction fuel as [|fuel IH]; intros l cb idx p Hlen.
  - destruct l; [|simpl in Hlen; lia]. exists p. cbn. now rewrite app_nil_r.
  - destruct l as [|e r]; [exists p; cbn; now rewrite app_nil_r|].
    cbn [controller_loop select_order bind].
    set (m := find_next e (e :: r)).
    assert (Hlen' : (length (dllist_remove (e :: r) m) <= fuel)%nat).
    { assert (Hin : In m (e :: r)).
      { unfold m. destruct (find_next_in (e :: r) e) as [H|H]; [rewrite <- H; now left|exact H]. }
      apply dllist_remove_length in Hin. cbn [length] in *. lia. }
    edestruct (IH (dllist_remove (e :: r) m)) as (p' & E & Hs); [exact Hlen'|].
    exists p'. split; [exact E|].
    rewrite Hs. cbn [events log_event]. rewrite spawned_app. cbn [spawned map].
    now rewrite <- app_assoc.
Qed.

Lemma dispatch_order_select (l : list comux_cinfo_t) :
  dispatch_order l = map fst (select_order (length l) (chunks_of l)).
Proof.
  unfold dispatch_order.
  destruct (controller_loop_returning (length l) (chunks_of l) (fun _ => 0) 0
              (start_process [])) as (p' & E & Hs).
  - unfold chunks_of. rewrite length_combine, length_seq. lia.
  - rewrite E, Hs. reflexivity.
Qed.

Lemma chunks_from_increasing (l : list comux_cinfo_t) : forall s,
  increasing (combine (seq s (length l)) l).
Proof.
  induction l as [|c l IH]; intros s; cbn [length seq combine]; constructor.
  - apply IH.
  - rewrite Forall_forall. intros [i x] Hin. cbn [fst].
    apply in_combine_l in Hin. apply in_seq in Hin. lia.
Qed.

Lemma chunks_from_nth (l : list comux_cinfo_t) : forall s i c,
  In (i, c) (combine (seq s (length l)) l) ->
  (s <= i)%nat /\ nth (i - s) l comux_cinfo_init = c.
Proof.
  induction l as [|a l IH]; intros s i c Hin; cbn [length seq combine] in Hin;
    [destruct Hin|].
  destruct Hin as [Heq|Hin].
  - inversion Heq; subst. rewrite Nat.sub_diag. split; [lia|reflexivity].
  - destruct (IH _ _ _ Hin) as (Hle & Hn). split; [lia|].
    replace (i - s)%nat with (S (i - S s)) by lia. exact Hn.
Qed.

Lemma chunks_of_fst (l : list comux_cinfo_t) :
  map fst (chunks_of l) = seq 0 (length l).
Proof.
  unfold chunks_of. generalize 0%nat.
  induction l as [|c l IH]; intros s; cbn [length seq combine map]; [reflexivity|].
  now rewrite IH.
Qed.

(** C4: the controller spawns one thread per chunk, in ascending order of
    [sched], chunks with equal [sched] in the order of the array; for the
    chunks (conn, sched) = (0,8), (1,2), (1,4), (0,1) the order is the
    4th, the 2nd, the 3rd and then the 1st chunk. *)
Theorem controller_dispatch_order (l : list comux_cinfo_t) :
  Permutation (dispatch_order l) (seq 0 (length l)) /\
  StronglySorted
    (fun i j => sched_at l i < sched_at l j \/
                (sched_at l i = sched_at l j /\ (i < j)%nat))
    (dispatch_order l) /\
  dispatch_order interleaved_chunks = [3; 1; 2; 0]%nat.
Proof.
  rewrite dispatch_order_select.
  destruct (select_order_spec (length l) (chunks_of l)) as (Hp & Hs).
  - apply chunks_from_increasing.
  - unfold chunks_of. rewrite length_combine, length_seq. lia.
  - split; [|split].
    + rewrite <- chunks_of_fst. now apply Permutation_map.
    + assert (Hall : Forall (fun e => snd e = nth (fst e) l comux_cinfo_init)
                            (select_order (length l) (chunks_of l))).
      { rewrite Forall_forall. intros [i c] Hin.
        eapply Permutation_in in Hin; [|exact Hp].
        apply chunks_from_nth in Hin. cbn [fst snd].
        destruct Hin as (_ & Hn). now rewrite Nat.sub_0_r in Hn. }
      revert Hs Hall. generalize (select_order (length l) (chunks_of l)).
      intros o Hs. induction Hs as [|a o Ho IHo Ha]; intros Hall; [constructor|].
      inversion Hall as [|? ? Hsa Hall']; subst.
      cbn [map]. constructor; [now apply IHo|].
      rewrite Forall_forall in *. intros j Hj.
      apply in_map_iff in Hj. destruct Hj as (b & <- & Hb).
      specialize (Ha b Hb). specialize (Hall' b Hb).
      unfold before in Ha. unfold sched_at. now rewrite <- Hsa, <- Hall'.
    + reflexivity.
Qed.

Lemma loads_app (a b : list event) : loads (a ++ b) = loads a ++ loads b.
Proof.
  induction a as [|e a IH]; [reflexivity|].
  destruct e; cbn [app loads]; rewrite IH; reflexivity.
Qed.

Lemma received_on_app cid (a b : list event) :
  received_on cid (a ++ b) = received_on cid a ++ received_on cid b.
Proof.
  induction a as [|e a IH]; [reflexivity|].
  destruct e; cbn [app received_on]; rewrite ?IH; try reflexivity.
  destruct (cid0 =? cid); [now rewrite app_assoc|reflexivity].
Qed.

(** What holds of an outcome: [Q] of a normal return, and only the fatal
    exit code otherwise. *)
Definition outcome_ok {A : Type} (Q : A -> process_t -> Prop) (o : outcome A)
  : Prop :=
  match o with
  | Returned a p => Q a p
  | Exited code _ => code = FATAL_EXIT_CODE
  | Blocked _ => True
  | OutOfFuel => True
  end.

Lemma outcome_ok_bind {A B : Type} (Q : A -> process_t -> Prop)
    (R : B -> process_t -> Prop) (m : outcome A)
    (k : A -> process_t -> outcome B) :
  outcome_ok Q m -> (forall a p, Q a p -> outcome_ok R (k a p)) ->
  outcome_ok R (bind m k).
Proof. destruct m; cbn; auto. Qed.

Lemma outcome_ok_weaken {A : Type} (Q Q' : A -> process_t -> Prop) (o : outcome A) :
  outcome_ok Q o -> (forall a p, Q a p -> Q' a p) -> outcome_ok Q' o.
Proof. destruct o; cbn; auto. Qed.

(** Code that adds events but loads no payload. *)
Definition quiet (p : process_t) {A : Type} (_ : A) (p' : process_t) : Prop :=
  exists evs, events p' = events p ++ evs /\ loads evs = [] /\ spawned evs = [].

Lemma quiet_refl {A} (a : A) p : quiet p a p.
Proof. exists []. now rewrite app_nil_r. Qed.

Lemma quiet_log {A} (a : A) p q e :
  quiet p a q -> loads [e] = [] -> spawned [e] = [] -> quiet p a (log_event q e).
Proof.
  intros (evs & E & L & S) He Hs. exists (evs ++ [e]). cbn [events log_event].
  rewrite E, <- app_assoc, loads_app, spawned_app, L, S, He, Hs. auto.
Qed.

Lemma quiet_same_events {A} (a : A) p q q' :
  quiet p a q -> events q' = events q -> quiet p a q'.
Proof. intros (evs & E & L) H. exists evs. now rewrite H. Qed.

Lemma send_loop_quiet tg cid dptr len isz (fuel : nat) : forall wcount total p q,
  quiet p tt q ->
  outcome_ok (fun _ q' => quiet p tt q')
             (send_loop fuel tg cid dptr len isz wcount total q).
Proof.
  induction fuel as [|fuel IH]; intros wcount total p q Hq; cbn [send_loop]; [exact I|].
  destruct (on_send tg (sends q) (MIN (len - total) isz));
    try (cbn; eapply quiet_same_events; [exact Hq|reflexivity]).
  match goal with |- context [if ?b then _ else _] => destruct b end.
  - apply IH. apply quiet_log; [|reflexivity|reflexivity].
    eapply quiet_same_events; [exact Hq|reflexivity].
  - cbn. apply quiet_log; [|reflexivity|reflexivity].
    eapply quiet_same_events; [exact Hq|reflexivity].
Qed.

Lemma chunk_send_data_quiet tg bs fin c fd p q :
  quiet p tt q ->
  outcome_ok (fun _ q' => quiet p tt q') (chunk_send_data tg bs fin c fd q).
Proof.
  intros Hq. unfold chunk_send_data.
  eapply outcome_ok_bind; [apply send_loop_quiet; exact Hq|].
  intros [last total] q1 H1. cbn beta iota.
  destruct last; cbn.
  - destruct (fin && _); [destruct (shutdown_ok tg (id c))|]; cbn; auto.
    apply quiet_log; auto.
  - apply quiet_log; [|reflexivity|reflexivity].
    eapply quiet_same_events; [exact H1|reflexivity].
  - apply quiet_log; [|reflexivity|reflexivity].
    eapply quiet_same_events; [exact H1|reflexivity].
  - reflexivity.
Qed.

Lemma chunk_recv_data_quiet tg c fd p q :
  quiet p tt q ->
  outcome_ok (fun _ q' => quiet p tt q') (chunk_recv_data tg c fd q).
Proof.
  intros Hq. unfold chunk_recv_data.
  destruct (on_recv tg (recvs q)) as [pieces ending].
  destruct ending; cbn;
    repeat match goal with
    | |- context [if ?b then _ else _] => destruct b; cbn
    end; auto;
    try (apply quiet_log; [|reflexivity|reflexivity]);
    eapply quiet_same_events; try exact Hq; reflexivity.
Qed.

(** What a thread that returns has done: it was skipped, or it has loaded
    a payload that is not empty. *)
Definition worked (tid : Z) (evs : list event) : Prop :=
  (In (EvSkip tid) evs /\ loads evs = []) \/
  (exists n, n <> 0 /\ In (EvLoad tid n) evs /\ loads evs = [n]).

Lemma chunk_main_worked tg bs params p :
  outcome_ok (fun _ p' => exists evs, events p' = events p ++ evs /\
                                      spawned evs = [] /\
                                      worked (thread_id params) evs)
             (chunk_main tg bs params p).
Proof.
  unfold chunk_main, chunk_get_connection.
  destruct (status (ctable p (id (cinfo params)))); cbn [bind].
  3:{ cbn. exists [EvSkip (thread_id params)]. split; [reflexivity|].
      split; [reflexivity|]. left. split; [now left|reflexivity]. }
  all: try (destruct (connect_ok tg (id (cinfo params))); cbn [bind]; [|reflexivity]).
  all: match goal with |- context [if ?b then _ else _] => destruct b; [reflexivity|] end.
  all: unfold chunk_load_data;
       (destruct (offset (cinfo params) + 20 <? 0); [reflexivity|]);
       match goal with
       | |- context [comux_cinfo_data_read ?c ?f] =>
           destruct (comux_cinfo_data_read c f) as [[[rcount c'] fd']|]; [|exact I]
       end;
       cbn [bind];
       (destruct (Z.eqb_spec rcount 0) as [Hz|Hnz]; [reflexivity|]).
  all: match goal with
       | |- outcome_ok _ (bind (chunk_send_data _ _ _ _ _ ?q) _) =>
           assert (Hq : exists pre, events q = events p ++ pre ++ [EvLoad (thread_id params) rcount]
                                    /\ loads pre = [] /\ spawned pre = [])
       end.
  1:{ exists [EvConnect (id (cinfo params))]. cbn. now rewrite <- app_assoc. }
  2:{ exists []. cbn. auto. }
  all: destruct Hq as (pre & Hq & Lpre & Spre);
       match goal with
       | |- outcome_ok _ (bind (chunk_send_data _ _ _ _ _ ?q) _) =>
       assert (Hfin : forall q', quiet q tt q' ->
                 exists evs, events q' = events p ++ evs /\ spawned evs = [] /\
                             worked (thread_id params) evs);
       [ intros q' (evs & E & L & S);
         exists ((pre ++ [EvLoad (thread_id params) rcount]) ++ evs);
         rewrite E, Hq, <- !app_assoc; split; [reflexivity|];
         split; [rewrite !spawned_app, Spre, S; reflexivity|];
         right; exists rcount; split; [exact Hnz|]; split;
         [ rewrite !in_app_iff; right; left; now left
         | rewrite !loads_app, Lpre, L; reflexivity ]
       | ]
       end.
  all: eapply outcome_ok_bind; [apply chunk_send_data_quiet; apply quiet_refl|];
       intros sent q1 H1; cbn beta;
       (destruct (sent =? 0); [apply Hfin; exact H1|]);
       (destruct (negb _); [|apply Hfin; exact H1]);
       eapply outcome_ok_bind; [apply chunk_recv_data_quiet; exact H1|];
       intros r q2 H2; apply Hfin; exact H2.
Qed.

(** What the events of a run of the controller satisfy: no thread has
    loaded an empty payload, and every thread spawned was skipped or has
    loaded a payload that is not empty. *)
Definition threads_worked (evs : list event) : Prop :=
  Forall (fun n => n <> 0) (loads evs) /\
  forall tid k fin, In (EvSpawn tid k fin) evs ->
    In (EvSkip tid) evs \/ exists n, n <> 0 /\ In (EvLoad tid n) evs.

Lemma controller_loop_worked tg bs (fuel : nat) : forall l cb idx p,
  outcome_ok (fun _ p' => exists evs, events p' = events p ++ evs /\
                                      threads_worked evs)
    (controller_loop (chunk_main tg bs) fuel l cb idx p).
Proof.
  induction fuel as [|fuel IH]; intros l cb idx p; destruct l as [|e r];
    cbn [controller_loop]; try exact I;
    try (exists []; rewrite app_nil_r; split; [reflexivity|];
         split; [constructor|intros ? ? ? []]).
  set (next := find_next e (e :: r)).
  set (fin := to_u8 (cb (id (snd next)) - 1) =? 0).
  eapply outcome_ok_bind; [apply chunk_main_worked|].
  intros a p1 (evs1 & E1 & S1 & W1). cbn [thread_id] in W1.
  eapply outcome_ok_weaken; [apply IH|].
  intros b p2 (evs2 & E2 & (F2 & J2)).
  exists ((EvSpawn idx (fst next) fin :: evs1) ++ evs2).
  split; [rewrite E2, E1; cbn; now rewrite <- !app_assoc|].
  assert (Hw : In (EvSkip idx) evs1 \/ exists n, n <> 0 /\ In (EvLoad idx n) evs1).
  { destruct W1 as [(Hs & _)|(n & Hn & Hl & _)]; [now left|right; eauto]. }
  split.
  - rewrite loads_app. cbn [loads]. apply Forall_app. split; [|exact F2].
    destruct W1 as [(_ & ->)|(n & Hn & _ & ->)]; repeat constructor; auto.
  - intros tid k f Hin. apply in_app_or in Hin. destruct Hin as [[Heq|Hin]|Hin].
    + inversion Heq; subst.
      destruct Hw as [Hs|(n & Hn & Hl)].
      * left. apply in_or_app. left. now right.
      * right. exists n. split; [exact Hn|]. apply in_or_app. left. now right.
    + exfalso. clear - Hin S1. induction evs1 as [|x evs1 IHe]; [destruct Hin|].
      destruct Hin as [->|Hin]; [discriminate|].
      apply IHe; [|exact Hin]. destruct x; cbn in S1; try exact S1; discriminate.
    + destruct (J2 _ _ _ Hin) as [Hs|(n & Hn & Hl)].
      * left. apply in_or_app. now right.
      * right. exists n. split; [exact Hn|]. apply in_or_app. now right.
Qed.

Lemma read_chunk_headers_events (n : nat) : forall i h l cb p,
  outcome_ok (fun _ p' => events p' = events p)
             (read_chunk_headers n i h l cb p).
Proof.
  induction n as [|n IH]; intros i h l cb p; cbn [read_chunk_headers]; [reflexivity|].
  destruct (comux_cinfo_read comux_cinfo_init (stdin p)) as [[res current] fd].
  repeat match goal with
  | |- context [if ?b then _ else _] => destruct b; [reflexivity|]
  end.
  eapply outcome_ok_weaken; [apply IH|]. intros a p' H. now rewrite H.
Qed.

(** A run of the controller ends the process, with the fatal code or,
    after all threads were joined, with [EXIT_SUCCESS]. *)
Lemma controller_main_exit tg bs p code p' :
  controller_main tg bs p = Exited code p' ->
  code = FATAL_EXIT_CODE \/
  (code = EXIT_SUCCESS /\
   exists evs, events p' = events p ++ evs /\ threads_worked evs).
Proof.
  unfold controller_main.
  destruct (comux_header_read comux_header_init (stdin p)) as [[res h] fd].
  repeat match goal with
  | |- context [if ?b then _ else _] =>
      destruct b; [intros H; inversion H; now left|]
  end.
  pose proof (read_chunk_headers_events (Z.to_nat (num_chunks h)) 0 h []
                (fun _ => 0) (set_stdin p fd)) as H1.
  destruct (read_chunk_headers _ _ _ _ _ _) as [[l cb] p1|c1 p1| |]; cbn [bind];
    cbn [outcome_ok] in H1; try discriminate.
  2:{ intros H; inversion H; subst. now left. }
  destruct (existsb _ _); [intros H; inversion H; now left|].
  pose proof (controller_loop_worked tg bs (length l) l cb 0 p1) as H2.
  destruct (controller_loop _ _ _ _ _ _) as [[] p2|c2 p2| |]; cbn [bind];
    cbn [outcome_ok] in H2; try discriminate.
  - intros H; inversion H; subst. right. split; [reflexivity|].
    destruct H2 as (evs & H2 & W). exists evs. split; [|exact W].
    rewrite H2, H1. reflexivity.
  - intros H; inversion H; subst. now left.
Qed.

Lemma loads_In tid n evs : In (EvLoad tid n) evs -> In n (loads evs).
Proof.
  induction evs as [|e evs IH]; [intros []|].
  intros [->|H]; [now left|]. destruct e; cbn; auto.
Qed.

(** The worker of a chunk that loads nothing: skipped when the target had
    closed the connection, fatal otherwise; nothing is sent. *)
Lemma chunk_main_loads_nothing tg bs params p :
  0 <= offset (cinfo params) -> 0 <= len (cinfo params) ->
  loads_nothing (contents (stdin p)) (cinfo params) ->
  match status (ctable p (id (cinfo params))) with
  | CONN_STATUS_CLOSED_REMOTE =>
      chunk_main tg bs params p
      = Returned tt (log_event p (EvSkip (thread_id params)))
  | _ =>
      exists p', chunk_main tg bs params p = Exited FATAL_EXIT_CODE p' /\
                 forall cid, received_on cid (events p')
                             = received_on cid (events p)
  end.
Proof.
  intros Hoff Hlen Hzero. unfold chunk_main, chunk_get_connection.
  assert (Hload : forall q fd, contents (stdin q) = contents (stdin p) ->
            exists q', bind (chunk_load_data (thread_id params) (cinfo params) q)
                     (fun '(data_length, c) p0 =>
                        if data_length =? 0 then fatality p0 else
                        bind (chunk_send_data tg bs (is_final_chunk params) c fd p0)
                          (fun sent p1 =>
                           if sent =? 0 then Returned tt p1 else
                           if negb (Z.land (flags c) COMUX_CHUNK_FLAGS_AWAIT_RESPONSE =? 0)
                           then bind (chunk_recv_data tg c fd p1)
                                     (fun _ p2 => Returned tt p2)
                           else Returned tt p1))
                   = Exited FATAL_EXIT_CODE q' /\
                   forall cid, received_on cid (events q') = received_on cid (events q)).
  { intros q fd Hq. unfold chunk_load_data.
    destruct (Z.ltb_spec (offset (cinfo params) + 20) 0); [lia|].
    rewrite comux_cinfo_data_read_spec by (cbn; lia).
    cbn [lseek_set contents pos]. rewrite Hq.
    unfold loads_nothing in Hzero. rewrite Hzero. cbn [bind Z.eqb].
    eexists. split; [reflexivity|]. intros cid. cbn.
    rewrite received_on_app. cbn. apply app_nil_r. }
  destruct (status (ctable p (id (cinfo params)))) eqn:Hst; cbn [bind].
  - destruct (connect_ok tg (id (cinfo params))); cbn [bind].
    + destruct (Z.eqb_spec (id (cinfo params)) (-1)).
      * eexists. split; [reflexivity|]. intros cid. cbn.
        rewrite received_on_app. cbn. apply app_nil_r.
      * edestruct (Hload (log_event (set_ctable p (upd (ctable p) (id (cinfo params))
                      (mk_entry (id (cinfo params)) CONN_STATUS_ALIVE)))
                      (EvConnect (id (cinfo params)))) (id (cinfo params)))
          as (q' & E & R); [reflexivity|].
        exists q'. split; [exact E|]. intros cid. rewrite R. cbn.
        rewrite received_on_app. cbn. apply app_nil_r.
    + eexists. split; [reflexivity|]. reflexivity.
  - destruct (entry_fd (ctable p (id (cinfo params))) =? -1) eqn:Hfd.
    + eexists. split; [reflexivity|]. reflexivity.
    + destruct (Hload p (entry_fd (ctable p (id (cinfo params)))) eq_refl) as (q' & E & R).
      exists q'. split; assumption.
  - reflexivity.
Qed.

(** A target that takes everything sent to it and closes the connection
    without answering when a response is awaited. *)
Definition closing_target : target_t :=
  mk_target (fun _ => true) (fun _ count => SendAccepted count)
            (fun _ => ([], RecvEOF)) (fun _ => true).

(** One connection, two chunks: "x" with AWAIT_RESPONSE at sched 0, then
    a chunk with no data at sched 1. *)
Definition empty_chunk : comux_cinfo_t := mk_cinfo 0 0 1 0 [] 0.
Definition manifest_with_empty_chunk : comux_manifest_t :=
  mk_manifest (mk_header COMUX_MAGIC 0 1 2)
    [mk_cinfo 0 1 0 COMUX_CHUNK_FLAGS_AWAIT_RESPONSE ["x"%byte] 0; empty_chunk].
Definition input_with_empty_chunk : list byte :=
  snd (comux_manifest_write_buffer manifest_with_empty_chunk 1024).

(** C10, as amended: the worker of a chunk whose payload loads as no bytes
    (declared length 0, or nothing left at its data offset) ends the whole
    process with exit code 24060 and sends nothing, unless the target had
    already closed the chunk's connection: then the worker ends before it
    loads anything. Hence in a replay that ends with [EXIT_SUCCESS] no
    thread has loaded an empty payload: every thread spawned was skipped
    or has loaded at least one byte. *)
Theorem zero_load_worker_and_replay (tg : target_t) (bs : Z) :
  (forall params p,
     0 <= offset (cinfo params) -> 0 <= len (cinfo params) ->
     loads_nothing (contents (stdin p)) (cinfo params) ->
     match status (ctable p (id (cinfo params))) with
     | CONN_STATUS_CLOSED_REMOTE =>
         chunk_main tg bs params p
         = Returned tt (log_event p (EvSkip (thread_id params)))
     | _ =>
         exists p', chunk_main tg bs params p = Exited FATAL_EXIT_CODE p' /\
                    forall cid, received_on cid (events p')
                                = received_on cid (events p)
     end) /\
  (forall input p',
     controller_main tg bs (start_process input) = Exited EXIT_SUCCESS p' ->
     (forall tid, ~ In (EvLoad tid 0) (events p')) /\
     (forall tid k fin, In (EvSpawn tid k fin) (events p') ->
        In (EvSkip tid) (events p') \/
        exists n, n <> 0 /\ In (EvLoad tid n) (events p'))).
Proof.
  split.
  - intros params p. apply chunk_main_loads_nothing.
  - intros input p' Hrun.
    destruct (controller_main_exit _ _ _ _ _ Hrun) as [Hc|(_ & evs & E & F & J)];
      [discriminate|].
    cbn in E. subst. split.
    + intros tid Hin. apply loads_In in Hin.
      rewrite Forall_forall in F. now apply (F 0).
    + exact J.
Qed.

(** C10, as stated, fails: this manifest holds a chunk of length zero, the
    codec and the validators accept it, and its replay against a target
    that closes the connection after the first chunk ends with
    [EXIT_SUCCESS]: the empty chunk's thread is skipped. *)
Lemma zero_length_chunk_replay_completes :
  In empty_chunk (cinfo_list manifest_with_empty_chunk) /\
  len empty_chunk = 0 /\
  wf_manifest manifest_with_empty_chunk /\
  check_comux_header (header manifest_with_empty_chunk) = None /\
  Forall (fun c => check_comux_cinfo (header manifest_with_empty_chunk) c = None)
         (cinfo_list manifest_with_empty_chunk) /\
  exists p',
    controller_main closing_target 2048 (start_process input_with_empty_chunk)
    = Exited EXIT_SUCCESS p' /\
    events p' = [EvSpawn 0 0 false; EvConnect 0; EvLoad 0 1;
                 EvSend 0 ["x"%byte]; EvSend 0 []; EvClose 0;
                 EvSpawn 1 1 true; EvSkip 1].
Proof.
  split; [right; now left|]. split; [reflexivity|]. split.
  { unfold wf_manifest, wf_header. cbn [header cinfo_list manifest_with_empty_chunk].
    split; [unfold u32_range; cbn; repeat split; lia|]. split; [reflexivity|].
    apply Forall_cons; [|apply Forall_cons; [|apply Forall_nil]];
      unfold wf_cinfo, u32_range, COMUX_CHUNK_DATA_MAXLEN,
        COMUX_CHUNK_FLAGS_AWAIT_RESPONSE; cbn; repeat split; lia. }
  split; [reflexivity|]. split; [repeat constructor|].
  eexists. split; vm_compute; reflexivity.
Qed.

Definition completed_run : process_t :=
  match controller_main closing_target 2048
          (start_process input_with_empty_chunk) with
  | Exited _ p => p
  | _ => start_process []
  end.

Lemma zero_load_worker_and_replay_witness :
  (exists p',
     chunk_main closing_target 2048 (mk_params 1 empty_chunk 1 true)
                (start_process input_with_empty_chunk)
     = Exited FATAL_EXIT_CODE p' /\
     forall cid, received_on cid (events p')
                 = received_on cid (events (start_process input_with_empty_chunk))) /\
  ((forall tid, ~ In (EvLoad tid 0) (events completed_run)) /\
   (forall tid k fin, In (EvSpawn tid k fin) (events completed_run) ->
      In (EvSkip tid) (events completed_run) \/
      exists n, n <> 0 /\ In (EvLoad tid n) (events completed_run))).
Proof.
  destruct (zero_load_worker_and_replay closing_target 2048) as [W R].
  split.
  - apply (W (mk_params 1 empty_chunk 1 true)
             (start_process input_with_empty_chunk)).
    + cbn. lia.
    + cbn. lia.
    + vm_compute. reflexivity.
  - apply (R input_with_empty_chunk completed_run).
    vm_compute. reflexivity.
Defined.

(** A six-byte payload sent in slices of two bytes, and a payload of 4097
    bytes sent in slices of the default 2048 bytes. *)
Definition six_bytes : comux_cinfo_t :=
  mk_cinfo 0 6 0 0 ["A"; "B"; "C"; "D"; "E"; "F"]%byte 0.
Definition long_payload : list byte := repeat "a"%byte 4096 ++ ["b"%byte].
Definition long_chunk : comux_cinfo_t := mk_cinfo 0 4097 0 0 long_payload 0.

(** C3 fails on the code: [chunk_send_data] passes [dptr + wcount] to
    [send], the offset of the previous call's count instead of the running
    total, so from the third slice on it sends bytes it has already sent.
    With slices of 2 bytes the payload ABCDEF reaches the target as
    ABCDCD; with the default slice of 2048 bytes the last byte of a
    4097-byte payload is replaced by the byte at offset 2048. *)
Theorem chunk_send_data_resends_slice :
  match chunk_send_data closing_target 2 true six_bytes 0 (start_process []) with
  | Returned n p =>
      n = 6 /\
      received_on 0 (events p) = ["A"; "B"; "C"; "D"; "C"; "D"]%byte /\
      received_on 0 (events p) <> data six_bytes
  | _ => False
  end /\
  match chunk_send_data closing_target 2048 true long_chunk 0 (start_process []) with
  | Returned n p =>
      n = 4097 /\
      received_on 0 (events p) = repeat "a"%byte 4097 /\
      received_on 0 (events p) <> data long_chunk
  | _ => False
  end.
Proof.
  split.
  - vm_compute. repeat split; discriminate.
  - assert (E : chunk_send_data closing_target 2048 true long_chunk 0 (start_process [])
                = Returned 4097
                    (mk_process (mk_fd [] 0) (fun _ => mk_entry 0 CONN_STATUS_DEAD) 4 0 []
                       [EvSend 0 (repeat "a"%byte 2048); EvSend 0 (repeat "a"%byte 2048);
                        EvSend 0 ["a"%byte]; EvSend 0 []; EvShutdown 0]))
      by (vm_compute; reflexivity).
    rewrite E. split; [reflexivity|]. split; [vm_compute; reflexivity|].
    intros H. apply (f_equal (fun l => nth 4096 l "a"%byte)) in H.
    vm_compute in H. discriminate.
Qed.

Lemma send_loop_step (tg : target_t) (cid : Z) (dptr : list byte)
    (len isz w t : Z) (fuel : nat) (p : process_t) :
  takes_all tg ->
  send_loop (S fuel) tg cid dptr len isz w t p
  = let count := MIN (len - t) isz in
    if 0 <? count
    then send_loop fuel tg cid dptr len isz count (t + count)
           (log_event (set_sends p (S (sends p)))
                      (EvSend cid (bytes_at dptr w count)))
    else Returned (SendAccepted 0, t)
           (log_event (set_sends p (S (sends p))) (EvSend cid [])).
Proof.
  intros Hall. cbn [send_loop]. rewrite Hall. cbv zeta.
  set (count := MIN (len - t) isz). unfold accepted.
  destruct (Z.leb_spec count 0) as [Hle|Hgt].
  - destruct (Z.ltb_spec 0 count); [lia|]. cbn [Z.gtb Z.compare].
    unfold bytes_at. cbn [Z.to_nat firstn]. reflexivity.
  - rewrite Z.min_id, Z.max_r by lia.
    destruct (Z.ltb_spec 0 count); [|lia].
    destruct (Z.gtb_spec count 0); [reflexivity|lia].
Qed.

(** The send loop when the payload fits in two slices and the target takes
    every slice in full. *)
Lemma send_loop_two_slices (tg : target_t) (cid : Z) (dptr : list byte)
    (len isz : Z) (fuel : nat) (p : process_t) :
  takes_all tg -> len = Z.of_nat (length dptr) ->
  0 < isz <= len -> len <= 2 * isz -> (Z.to_nat len < fuel)%nat ->
  exists p' evs,
    send_loop fuel tg cid dptr len isz 0 0 p = Returned (SendAccepted 0, len) p' /\
    events p' = events p ++ evs /\
    Forall (fun e => exists b, e = EvSend cid b) evs /\
    received_on cid evs = dptr /\
    ctable p' = ctable p /\ stdout p' = stdout p.
Proof.
  intros Hall Hlen Hisz H2 Hfuel.
  assert (Hfull : bytes_at dptr 0 len = dptr).
  { unfold bytes_at. cbn [Z.to_nat skipn]. apply firstn_all2. lia. }
  destruct fuel as [|fuel]; [lia|]. rewrite send_loop_step by exact Hall.
  cbv zeta. rewrite Z.sub_0_r, Z.add_0_l.
  assert (M1 : MIN len isz = isz) by (unfold MIN; destruct (Z.ltb_spec len isz); lia).
  rewrite M1. destruct (Z.ltb_spec 0 isz); [|lia].
  destruct fuel as [|fuel]; [lia|]. rewrite send_loop_step by exact Hall.
  cbv zeta.
  assert (M2 : MIN (len - isz) isz = len - isz)
    by (unfold MIN; destruct (Z.ltb_spec (len - isz) isz); lia).
  rewrite M2. destruct (Z.ltb_spec 0 (len - isz)) as [Hmore|Hdone].
  - destruct fuel as [|fuel]; [lia|]. rewrite send_loop_step by exact Hall.
    cbv zeta. replace (len - (isz + (len - isz))) with 0 by lia.
    assert (M3 : MIN 0 isz = 0) by (unfold MIN; destruct (Z.ltb_spec 0 isz); lia).
    rewrite M3. cbn [Z.ltb Z.compare].
    eexists. exists [EvSend cid (bytes_at dptr 0 isz);
                     EvSend cid (bytes_at dptr isz (len - isz)); EvSend cid []].
    split; [do 2 f_equal; lia|].
    cbn [events log_event set_sends ctable stdout].
    split; [now rewrite <- !app_assoc|].
    split; [repeat constructor; eauto|].
    split; [|split; reflexivity].
    cbn [received_on]. rewrite Z.eqb_refl, !app_nil_r.
    rewrite (bytes_at_cat dptr 0 isz isz (len - isz)) by lia.
    replace (isz + (len - isz)) with len by lia. exact Hfull.
  - assert (isz = len) by lia. subst isz.
    eexists. exists [EvSend cid (bytes_at dptr 0 len); EvSend cid []].
    split; [do 2 f_equal; lia|].
    cbn [events log_event set_sends ctable stdout].
    split; [now rewrite <- !app_assoc|].
    split; [repeat constructor; eauto|].
    split; [|split; reflexivity].
    cbn [received_on]. rewrite Z.eqb_refl, !app_nil_r. exact Hfull.
Qed.

Lemma received_on_sends (cid c : Z) (evs : list event) :
  Forall (fun e => exists b, e = EvSend cid b) evs -> c <> cid ->
  received_on c evs = [].
Proof.
  induction 1 as [|e evs [b ->] _ IH]; intros Hc; [reflexivity|].
  cbn [received_on]. destruct (Z.eqb_spec cid c); [congruence|]. now apply IH.
Qed.

(** With a target that takes every [send] in full, [chunk_send_data]
    delivers a payload of at most two slices of the write buffer size
    exactly: it returns the payload's length and the target has received
    the payload's bytes, in order, on the chunk's connection and nothing on
    any other. The write side is then shut down when the chunk is the
    connection's last and [NO_SHUTDOWN] is not set, and only then. *)
Theorem chunk_send_data_two_slices (tg : target_t) (bs : Z) (fin : bool)
    (c : comux_cinfo_t) (sockfd : Z) (p : process_t) :
  takes_all tg -> shutdown_ok tg (id c) = true ->
  len c = Z.of_nat (length (data c)) -> 0 < len c <= 2 * bs ->
  exists p' evs,
    chunk_send_data tg bs fin c sockfd p = Returned (len c) p' /\
    events p' = events p ++ evs /\
    received_on (id c) evs = data c /\
    (forall cid, cid <> id c -> received_on cid evs = []) /\
    (In (EvShutdown (id c)) evs <->
     fin = true /\ Z.land (flags c) COMUX_CHUNK_FLAGS_NO_SHUTDOWN = 0).
Proof.
  intros Hall Hsh Hlen Hb. unfold chunk_send_data.
  set (isz := if len c >? bs then bs else len c).
  assert (Hisz : 0 < isz <= len c /\ len c <= 2 * isz)
    by (unfold isz; destruct (Z.gtb_spec (len c) bs); lia).
  destruct (send_loop_two_slices tg (id c) (data c) (len c) isz
              (S (Z.to_nat (len c))) p Hall Hlen (proj1 Hisz) (proj2 Hisz)
              ltac:(lia)) as (q & evs & -> & He & Hs & Hr & Hct & Hso).
  cbn [bind]. rewrite Hsh.
  assert (Hno : ~ In (EvShutdown (id c)) evs).
  { intros Hin. rewrite Forall_forall in Hs. destruct (Hs _ Hin) as [b Hb']. discriminate. }
  destruct fin; cbn [andb].
  - destruct (Z.eqb_spec (Z.land (flags c) COMUX_CHUNK_FLAGS_NO_SHUTDOWN) 0) as [E0|N0].
    + eexists. exists (evs ++ [EvShutdown (id c)]). split; [reflexivity|].
      cbn [events log_event]. rewrite He.
      split; [now rewrite app_assoc|]. split; [|split].
      * rewrite received_on_app. cbn [received_on]. now rewrite app_nil_r.
      * intros cid Hc. rewrite received_on_app. cbn [received_on].
        rewrite (received_on_sends (id c) cid evs Hs Hc). reflexivity.
      * rewrite in_app_iff. cbn [In]. intuition.
    + eexists. exists evs. split; [reflexivity|]. split; [exact He|].
      split; [exact Hr|]. split; [intros cid Hc; now apply (received_on_sends (id c))|].
      split; [contradiction|]. intros [_ E]. contradiction.
  - eexists. exists evs. split; [reflexivity|]. split; [exact He|].
    split; [exact Hr|]. split; [intros cid Hc; now apply (received_on_sends (id c))|].
    split; [contradiction|]. intros [E _]. discriminate.
Qed.

Lemma chunk_send_data_two_slices_witness :
  exists p' evs,
    chunk_send_data closing_target 2 true four_bytes 0 (start_process [])
      = Returned (len four_bytes) p' /\
    events p' = events (start_process []) ++ evs /\
    received_on (id four_bytes) evs = data four_bytes /\
    (forall cid, cid <> id four_bytes -> received_on cid evs = []) /\
    (In (EvShutdown (id four_bytes)) evs <->
     true = true /\ Z.land (flags four_bytes) COMUX_CHUNK_FLAGS_NO_SHUTDOWN = 0).
Proof.
  apply (chunk_send_data_two_slices closing_target 2 true four_bytes 0
           (start_process [])).
  - intros n count. reflexivity.
  - reflexivity.
  - reflexivity.
  - cbn. lia.
Defined.

(** An outcome whose process state, if there is one, satisfies [conns_ok],
    and whose result satisfies [Q]. *)
Definition outcome_conns {A : Type} (Q : A -> process_t -> Prop) (o : outcome A)
  : Prop :=
  match o with
  | Returned a p => conns_ok p /\ Q a p
  | Exited _ p => conns_ok p
  | Blocked p => conns_ok p
  | OutOfFuel => True
  end.

Lemma outcome_conns_bind {A B : Type} (Q : A -> process_t -> Prop)
    (R : B -> process_t -> Prop) (m : outcome A)
    (k : A -> process_t -> outcome B) :
  outcome_conns Q m ->
  (forall a p, conns_ok p -> Q a p -> outcome_conns R (k a p)) ->
  outcome_conns R (bind m k).
Proof.
  destruct m as [a p|code p|p|]; cbn [outcome_conns bind]; auto.
  intros [H1 H2] Hk. now apply Hk.
Qed.

Lemma conns_ok_same (p p' : process_t) :
  conns_ok p -> events p' = events p -> ctable p' = ctable p -> conns_ok p'.
Proof.
  intros H He Hc cid. specialize (H cid). unfold conn_ok in *.
  now rewrite He, Hc.
Qed.

Lemma conns_ok_thread_event (p : process_t) (e : event) :
  conns_ok p -> (forall cid, on_conn cid e = false) -> conns_ok (log_event p e).
Proof.
  intros H He cid. specialize (H cid). unfold conn_ok in *.
  cbn [events log_event ctable]. rewrite filter_app. cbn [filter].
  rewrite He, app_nil_r. exact H.
Qed.

Lemma conns_ok_traffic (p : process_t) (cid : Z) (e : event) :
  conns_ok p -> status (ctable p cid) = CONN_STATUS_ALIVE ->
  traffic e = true -> (forall c, on_conn c e = (cid =? c)) ->
  conns_ok (log_event p e).
Proof.
  intros H Hs Ht He c. specialize (H c). unfold conn_ok in *.
  cbn [events log_event ctable]. rewrite filter_app. cbn [filter]. rewrite He.
  destruct (Z.eqb_spec cid c) as [<-|Hne]; [|now rewrite app_nil_r].
  rewrite Hs in *. destruct H as [rest [E F]]. exists (rest ++ [e]).
  rewrite E. split; [reflexivity|].
  rewrite forallb_app, F. cbn [forallb]. now rewrite Ht.
Qed.

Lemma upd_same {A : Type} (a : Z -> A) (i : Z) (v : A) : upd a i v i = v.
Proof. unfold upd. now rewrite Z.eqb_refl. Qed.

Lemma upd_other {A : Type} (a : Z -> A) (i j : Z) (v : A) :
  j <> i -> upd a i v j = a j.
Proof. intros H. unfold upd. destruct (Z.eqb_spec j i); [contradiction|reflexivity]. Qed.

Lemma conns_ok_connect (p : process_t) (cid fd : Z) :
  conns_ok p -> status (ctable p cid) = CONN_STATUS_DEAD ->
  conns_ok (log_event (set_ctable p (upd (ctable p) cid
                                         (mk_entry fd CONN_STATUS_ALIVE)))
                      (EvConnect cid)).
Proof.
  intros H Hs c. specialize (H c). unfold conn_ok in *.
  cbn [events log_event set_ctable ctable]. rewrite filter_app. cbn [filter on_conn].
  destruct (Z.eqb_spec cid c) as [<-|Hne].
  - rewrite upd_same. cbn [status]. rewrite Hs in H. rewrite H.
    exists []. split; reflexivity.
  - rewrite upd_other by congruence. now rewrite app_nil_r.
Qed.

Lemma conns_ok_close (p : process_t) (cid fd : Z) :
  conns_ok p -> status (ctable p cid) = CONN_STATUS_ALIVE ->
  conns_ok (log_event (set_ctable p (upd (ctable p) cid
                                         (mk_entry fd CONN_STATUS_CLOSED_REMOTE)))
                      (EvClose cid)).
Proof.
  intros H Hs c. specialize (H c). unfold conn_ok in *.
  cbn [events log_event set_ctable ctable]. rewrite filter_app. cbn [filter on_conn].
  destruct (Z.eqb_spec cid c) as [<-|Hne].
  - rewrite upd_same. cbn [status]. rewrite Hs in H. destruct H as [rest [E F]].
    exists rest. rewrite E. split; [reflexivity|exact F].
  - rewrite upd_other by congruence. now rewrite app_nil_r.
Qed.

Lemma chunk_get_connection_conns tg tid cid p :
  conns_ok p ->
  outcome_conns (fun r p' => match r with
                             | Some _ => status (ctable p' cid) = CONN_STATUS_ALIVE
                             | None => True
                             end)
                (chunk_get_connection tg tid cid p).
Proof.
  intros H. unfold chunk_get_connection.
  destruct (status (ctable p cid)) eqn:Hs; cbn [outcome_conns].
  - destruct (connect_ok tg cid); cbn [outcome_conns fatality]; [|exact H].
    split; [now apply conns_ok_connect|].
    cbn [log_event set_ctable ctable]. now rewrite upd_same.
  - split; [exact H|exact Hs].
  - split; [|exact I]. now apply conns_ok_thread_event.
Qed.

Lemma data_read_loop_id_flags (fuel : nat) : forall c fd cap bs t c' fd' t',
  data_read_loop fuel c fd cap bs t = Some (c', fd', t') ->
  id c' = id c /\ flags c' = flags c.
Proof.
  induction fuel as [|fuel IH]; intros c fd cap bs t c' fd' t' E; [discriminate|].
  cbn [data_read_loop] in E.
  destruct (read fd (MIN (cap - t) bs)) as [bytes fd1].
  destruct (_ && _).
  - apply IH in E. destruct E as [E1 E2]. rewrite E1, E2. split; reflexivity.
  - injection E as <- _ _. split; reflexivity.
Qed.

Lemma chunk_load_data_conns tid c p :
  conns_ok p -> status (ctable p (id c)) = CONN_STATUS_ALIVE ->
  outcome_conns (fun r p' => status (ctable p' (id (snd r))) = CONN_STATUS_ALIVE)
                (chunk_load_data tid c p).
Proof.
  intros H Hs. unfold chunk_load_data.
  destruct (Z.ltb_spec (offset c + 20) 0); [exact H|].
  destruct (comux_cinfo_data_read c (lseek_set (stdin p) (offset c + 20)))
    as [[[rcount c'] fd]|] eqn:E; [|exact I].
  cbn [outcome_conns]. split.
  - apply conns_ok_thread_event; [|reflexivity].
    apply (conns_ok_same p); auto.
  - cbn [snd log_event set_stdin ctable]. unfold comux_cinfo_data_read in E.
    destruct (data_read_loop _ _ _ _ _ _) as [[[c2 fd2] t]|] eqn:El; [|discriminate].
    injection E as _ <- _. apply data_read_loop_id_flags in El.
    destruct El as [El _]. cbn [id set_len set_data] in *.
    replace (id c2) with (id c) by (rewrite El; reflexivity). exact Hs.
Qed.

Lemma send_loop_conns tg cid dptr len bs (fuel : nat) : forall wcount total p,
  conns_ok p -> status (ctable p cid) = CONN_STATUS_ALIVE ->
  outcome_conns (fun _ p' => status (ctable p' cid) = CONN_STATUS_ALIVE)
                (send_loop fuel tg cid dptr len bs wcount total p).
Proof.
  induction fuel as [|fuel IH]; intros wcount total p H Hs; [exact I|].
  cbn [send_loop].
  assert (H1 : conns_ok (set_sends p (S (sends p))))
    by (apply (conns_ok_same p); auto).
  destruct (on_send tg (sends p) _) as [n| | |]; try (split; [exact H1|exact Hs]).
  set (e := EvSend cid _).
  assert (H2 : conns_ok (log_event (set_sends p (S (sends p))) e)).
  { apply (conns_ok_traffic _ cid); auto. }
  destruct (_ >? 0).
  - apply IH; [exact H2|exact Hs].
  - split; [exact H2|exact Hs].
Qed.

(** When [chunk_send_data] returns a count other than zero, the connection
    is still live. *)
Lemma chunk_send_data_conns tg bs fin c fd p :
  conns_ok p -> status (ctable p (id c)) = CONN_STATUS_ALIVE ->
  outcome_conns (fun sent p' => sent <> 0 ->
                                status (ctable p' (id c)) = CONN_STATUS_ALIVE)
                (chunk_send_data tg bs fin c fd p).
Proof.
  intros H Hs. unfold chunk_send_data.
  eapply outcome_conns_bind; [apply send_loop_conns; assumption|].
  intros [last total] q Hq Hsq. cbn beta iota.
  destruct last.
  - destruct (_ && _).
    + destruct (shutdown_ok tg (id c)); [|exact Hq].
      split; [|intros _; exact Hsq].
      apply (conns_ok_traffic _ (id c)); auto.
    + split; [exact Hq|intros _; exact Hsq].
  - split; [now apply conns_ok_close|intros F; now elim F].
  - split; [now apply conns_ok_close|intros F; now elim F].
  - exact Hq.
Qed.

Lemma chunk_recv_data_conns tg c fd p :
  conns_ok p -> status (ctable p (id c)) = CONN_STATUS_ALIVE ->
  outcome_conns (fun _ _ => True) (chunk_recv_data tg c fd p).
Proof.
  intros H Hs. unfold chunk_recv_data.
  destruct (on_recv tg (recvs p)) as [pieces ending].
  set (p1 := put_stdout (set_recvs p (S (recvs p))) (concat pieces)).
  assert (H1 : conns_ok p1) by (apply (conns_ok_same p); auto).
  set (p2 := if _ >? 0 then put_stdout p1 [x0a] else p1).
  assert (H2 : conns_ok p2).
  { subst p2. destruct (_ >? 0); [apply (conns_ok_same p1); auto|exact H1]. }
  assert (S2 : status (ctable p2 (id c)) = CONN_STATUS_ALIVE).
  { subst p2. destruct (_ >? 0); exact Hs. }
  destruct ending; cbn [outcome_conns fatality]; try exact H1; try exact H2.
  - destruct (_ =? 0); (split; [|exact I]); [now apply conns_ok_close|exact H2].
  - split; [|exact I]. now apply conns_ok_close.
Qed.

Lemma chunk_main_conns tg bs params p :
  conns_ok p -> outcome_conns (fun _ _ => True) (chunk_main tg bs params p).
Proof.
  intros H. unfold chunk_main.
  eapply outcome_conns_bind; [apply chunk_get_connection_conns; exact H|].
  intros [fd|] p1 H1 S1; cbn beta iota; [|split; [exact H1|exact I]].
  destruct (fd =? -1); [exact H1|].
  eapply outcome_conns_bind; [apply chunk_load_data_conns; assumption|].
  intros [n c'] p2 H2 S2. cbn [snd] in S2. cbn beta iota.
  destruct (n =? 0); [exact H2|].
  eapply outcome_conns_bind; [apply chunk_send_data_conns; assumption|].
  intros sent p3 H3 S3. cbn beta.
  destruct (Z.eqb_spec sent 0); [split; [exact H3|exact I]|].
  destruct (negb _); [|split; [exact H3|exact I]].
  eapply outcome_conns_bind; [apply chunk_recv_data_conns; auto|].
  intros _ p4 H4 _. split; [exact H4|exact I].
Qed.

Lemma controller_loop_conns tg bs (fuel : nat) : forall l cb idx p,
  conns_ok p ->
  outcome_conns (fun _ _ => True)
                (controller_loop (chunk_main tg bs) fuel l cb idx p).
Proof.
  induction fuel as [|fuel IH]; intros l cb idx p H;
    (destruct l as [|e l]; [split; [exact H|exact I]|]); [exact I|].
  cbn [controller_loop].
  eapply outcome_conns_bind.
  - apply chunk_main_conns. apply conns_ok_thread_event; [exact H|reflexivity].
  - intros _ q Hq _. now apply IH.
Qed.

Lemma read_chunk_headers_conns (n : nat) : forall i h l cb p,
  conns_ok p -> outcome_conns (fun _ _ => True) (read_chunk_headers n i h l cb p).
Proof.
  induction n as [|n IH]; intros i h l cb p H; [split; [exact H|exact I]|].
  cbn [read_chunk_headers].
  destruct (comux_cinfo_read comux_cinfo_init (stdin p)) as [[res cur] fd].
  assert (H1 : conns_ok (set_stdin p fd)) by (apply (conns_ok_same p); auto).
  destruct (nonzero res); [exact H1|].
  destruct (_ >=? _); [exact H1|].
  destruct (_ || _); [exact H1|].
  apply IH. apply (conns_ok_same p); auto.
Qed.

Lemma conns_ok_start (input : list byte) : conns_ok (start_process input).
Proof. intros cid. reflexivity. Qed.

(** In the default mode, in which the controller joins each chunk thread
    before it spawns the next ([wait_for_chunk_threads] is 1, as it is
    unless GURTHANG_LIB_NO_WAIT is set): whatever the input and whatever
    the target does, at the end of a run of the controller (an exit, or a
    thread blocked for ever) the events of every connection agree with its
    status in the table: nothing has happened on a connection never
    opened; an open connection has been connected once, before all its
    traffic; a connection the target closed has been connected once, and
    its closing is its last event. The runs of the other mode, in which
    the chunk threads run side by side, are not covered. *)
Theorem controller_connections_ordered (tg : target_t) (bs : Z) (input : list byte) :
  match controller_main tg bs (start_process input) with
  | Returned _ p | Exited _ p | Blocked p => conns_ok p
  | OutOfFuel => True
  end.
Proof.
  assert (G : outcome_conns (fun _ _ => True)
                (controller_main tg bs (start_process input))).
  { unfold controller_main.
    pose proof (conns_ok_start input) as H0.
    destruct (comux_header_read comux_header_init (stdin (start_process input)))
      as [[res h] fd].
    assert (H1 : conns_ok (set_stdin (start_process input) fd))
      by (apply (conns_ok_same (start_process input)); auto).
    destruct (nonzero res); [exact H1|].
    destruct (_ >? _); [exact H1|].
    destruct (_ >? _); [exact H1|].
    eapply outcome_conns_bind; [apply read_chunk_headers_conns; exact H1|].
    intros [l cb] p Hp _. cbn beta iota.
    destruct (existsb _ _); [exact Hp|].
    eapply outcome_conns_bind; [apply controller_loop_conns; exact Hp|].
    intros _ q Hq _. exact Hq. }
  destruct (controller_main tg bs (start_process input)); cbn in G; tauto.
Qed.

Lemma read_chunk_headers_counts (n : nat) : forall i h l cb p l' cb' p',
  read_chunk_headers n i h l cb p = Returned (l', cb') p' ->
  exists added,
    l' = l ++ added /\ map fst added = seq i n /\
    cb' = fold_left (fun ccheck_buff e =>
                       upd ccheck_buff (id (snd e))
                           (to_u8 (ccheck_buff (id (snd e)) + 1)))
                    added cb.
Proof.
  induction n as [|n IH]; intros i h l cb p l' cb' p' H; cbn [read_chunk_headers] in H.
  - injection H as <- <- _. exists []. now rewrite app_nil_r.
  - destruct (comux_cinfo_read comux_cinfo_init (stdin p)) as [[res cur] fd].
    destruct (nonzero res); [discriminate|].
    destruct (_ >=? _); [discriminate|].
    destruct (_ || _); [discriminate|].
    apply IH in H. destruct H as (added & -> & Hfst & ->).
    exists ((i, cur) :: added). rewrite <- app_assoc.
    cbn [app map fold_left fst snd seq].
    split; [reflexivity|]. split; [now rewrite Hfst|reflexivity].
Qed.

Lemma to_u8_succ (x : Z) : to_u8 (to_u8 x + 1) = to_u8 (x + 1).
Proof. unfold to_u8. now rewrite Zplus_mod_idemp_l. Qed.

Lemma ccheck_fold (l : list elem) : forall cb a,
  (forall cid, cb cid = to_u8 (a cid)) ->
  forall cid,
  fold_left (fun ccheck_buff e =>
               upd ccheck_buff (id (snd e))
                   (to_u8 (ccheck_buff (id (snd e)) + 1))) l cb cid
  = to_u8 (a cid + elems_on l cid).
Proof.
  unfold elems_on. induction l as [|c l IH]; intros cb a H cid; cbn [fold_left filter].
  - cbn [length]. rewrite Z.add_0_r. apply H.
  - rewrite (IH _ (fun x => if x =? id (snd c) then a x + 1 else a x)).
    + destruct (Z.eqb_spec cid (id (snd c))) as [->|Hne].
      * rewrite Z.eqb_refl. cbn [length]. f_equal. lia.
      * destruct (Z.eqb_spec (id (snd c)) cid); [congruence|]. reflexivity.
    + intros x. unfold upd. destruct (Z.eqb_spec x (id (snd c))) as [->|]; [|apply H].
      rewrite H. apply to_u8_succ.
Qed.

Lemma elems_on_perm (l l' : list elem) (cid : Z) :
  Permutation l l' -> elems_on l cid = elems_on l' cid.
Proof.
  intros P. unfold elems_on. f_equal. apply Permutation_length.
  clear -P. induction P; cbn [filter].
  - constructor.
  - destruct (id (snd x) =? cid); [now constructor|assumption].
  - destruct (id (snd x) =? cid); destruct (id (snd y) =? cid);
      try apply perm_swap; reflexivity.
  - eapply perm_trans; eassumption.
Qed.

Lemma elems_on_zero (l : list elem) (cid : Z) :
  elems_on l cid = 0 <-> existsb (fun e => id (snd e) =? cid) l = false.
Proof.
  unfold elems_on. induction l as [|e l IH]; cbn [filter existsb length]; [tauto|].
  destruct (id (snd e) =? cid); cbn [length orb]; [|exact IH].
  split; [lia|discriminate].
Qed.

(** The flags of an order of dispatch: a chunk is final when no chunk of
    its connection comes after it. *)
Fixpoint flags_of (order : list elem) : list (nat * bool) :=
  match order with
  | [] => []
  | e :: rest =>
      (fst e, negb (existsb (fun e' => id (snd e') =? id (snd e)) rest))
      :: flags_of rest
  end.

Lemma spawn_flags_app (a b : list event) :
  spawn_flags (a ++ b) = spawn_flags a ++ spawn_flags b.
Proof.
  induction a as [|e a IH]; [reflexivity|].
  destruct e; cbn [app spawn_flags]; rewrite IH; reflexivity.
Qed.

Lemma controller_loop_flags (fuel : nat) : forall l cb idx p,
  increasing l -> (length l <= fuel)%nat ->
  (forall cid, cb cid = elems_on l cid) -> (forall cid, elems_on l cid < 256) ->
  exists p',
    controller_loop (fun _ p => Returned tt p) fuel l cb idx p = Returned tt p' /\
    spawn_flags (events p')
    = spawn_flags (events p) ++ flags_of (select_order fuel l).
Proof.
  induction fuel as [|fuel IH]; intros l cb idx p Hinc Hlen Hcb Hsmall.
  - destruct l; [|simpl in Hlen; lia]. exists p. cbn. now rewrite app_nil_r.
  - destruct l as [|e r]; [exists p; cbn; now rewrite app_nil_r|].
    cbn [controller_loop select_order bind flags_of].
    destruct (find_next_head e r Hinc) as (Hin & _).
    set (m := find_next e (e :: r)) in *.
    destruct (dllist_remove_spec (e :: r) m Hinc Hin) as (Hperm & Hinc').
    set (l' := dllist_remove (e :: r) m) in *.
    assert (Hlen' : (length l' <= fuel)%nat).
    { apply Permutation_length in Hperm. simpl in *. lia. }
    assert (Hcount : forall cid, elems_on (e :: r) cid
                       = (if id (snd m) =? cid then 1 else 0) + elems_on l' cid).
    { intros cid. rewrite (elems_on_perm _ _ cid Hperm). unfold elems_on.
      cbn [filter]. destruct (id (snd m) =? cid); cbn [length]; lia. }
    assert (Hnn : forall cid, 0 <= elems_on l' cid) by (intros; unfold elems_on; lia).
    assert (Hnew : to_u8 (cb (id (snd m)) - 1) = elems_on l' (id (snd m))).
    { rewrite Hcb, Hcount, Z.eqb_refl. unfold to_u8.
      replace (1 + elems_on l' (id (snd m)) - 1) with (elems_on l' (id (snd m))) by lia.
      apply Z.mod_small. specialize (Hsmall (id (snd m))).
      rewrite Hcount, Z.eqb_refl in Hsmall. specialize (Hnn (id (snd m))).
      change (2 ^ 8) with 256. lia. }
    rewrite Hnew.
    destruct (IH l' (upd cb (id (snd m)) (elems_on l' (id (snd m)))) (idx + 1)
                (log_event p (EvSpawn idx (fst m) (elems_on l' (id (snd m)) =? 0))))
      as (p' & E & Hs); try assumption.
    + intros cid. unfold upd. destruct (Z.eqb_spec cid (id (snd m))) as [->|Hne];
        [reflexivity|].
      rewrite Hcb, Hcount. destruct (Z.eqb_spec (id (snd m)) cid); [congruence|]. lia.
    + intros cid. specialize (Hsmall cid). rewrite Hcount in Hsmall.
      destruct (id (snd m) =? cid); lia.
    + exists p'. split; [exact E|]. rewrite Hs.
      cbn [events log_event]. rewrite spawn_flags_app. cbn [spawn_flags].
      rewrite <- app_assoc. cbn [app]. do 3 f_equal.
      destruct (select_order_spec fuel l' Hinc' Hlen') as (Hp & _).
      destruct (Z.eqb_spec (elems_on l' (id (snd m))) 0) as [Hz|Hz].
      * rewrite (elems_on_perm _ _ _ (Permutation_sym Hp)) in Hz.
        apply elems_on_zero in Hz. now rewrite Hz.
      * destruct (existsb _ (select_order fuel l')) eqn:Ex; [reflexivity|].
        apply elems_on_zero in Ex.
        rewrite (elems_on_perm _ _ _ Hp) in Ex. contradiction.
Qed.

Lemma flags_of_fst (order : list elem) : map fst (flags_of order) = map fst order.
Proof. induction order as [|e r IH]; cbn; [reflexivity|now rewrite IH]. Qed.

Lemma flags_of_split (order : list elem) : forall pre k fin post,
  flags_of order = pre ++ (k, fin) :: post ->
  exists o1 e o2,
    order = o1 ++ e :: o2 /\ fst e = k /\ post = flags_of o2 /\
    fin = negb (existsb (fun e' => id (snd e') =? id (snd e)) o2).
Proof.
  induction order as [|e r IH]; intros pre k fin post H; cbn [flags_of] in H.
  - destruct pre; discriminate.
  - destruct pre as [|x pre]; cbn [app] in H.
    + injection H as <- <- <-. exists [], e, r. repeat split.
    + injection H as _ H. apply IH in H.
      destruct H as (o1 & e' & o2 & -> & Hk & Hp & Hf).
      exists (e :: o1), e', o2. repeat split; assumption.
Qed.

Lemma increasing_seq (l : list elem) : forall s n,
  map fst l = seq s n -> increasing l.
Proof.
  induction l as [|e l IH]; intros s n H; [constructor|].
  destruct n as [|n]; [discriminate|]. cbn [map seq] in H.
  injection H as He H. constructor; [apply (IH (S s) n H)|].
  rewrite Forall_forall. intros x Hx.
  apply (in_map fst) in Hx. rewrite H in Hx. apply in_seq in Hx. lia.
Qed.

Lemma nth_of_seq (l : list elem) (d e : elem) :
  map fst l = seq 0 (length l) -> In e l -> nth (fst e) l d = e.
Proof.
  assert (G : forall s, map fst l = seq s (length l) -> In e l ->
                        (s <= fst e)%nat /\ nth (fst e - s) l d = e).
  { induction l as [|x l IH]; intros s H Hin; [destruct Hin|].
    cbn [map length seq] in H. injection H as Hx H.
    destruct Hin as [->|Hin].
    - rewrite Hx, Nat.sub_diag. split; [lia|reflexivity].
    - destruct (IH (S s) H Hin) as [Hle Hn]. split; [lia|].
      replace (fst e - s)%nat with (S (fst e - S s)) by lia. exact Hn. }
  intros H Hin. destruct (G 0%nat H Hin) as [_ Hn].
  now rewrite Nat.sub_0_r in Hn.
Qed.

(** The two loops of the controller, with threads that return: for the
    chunk headers read by the first loop, with fewer than 256 chunks on
    every connection, the second loop spawns one thread per chunk, and it
    marks a chunk as the final one of its connection exactly when no
    chunk of that connection is dispatched after it. *)
Theorem final_flag_on_last_chunk (n : nat) (h : comux_header_t)
    (p p' : process_t) (l : list elem) (ccheck_buff : Z -> Z) :
  read_chunk_headers n 0 h [] (fun _ => 0) p = Returned (l, ccheck_buff) p' ->
  (forall cid, elems_on l cid < 256) ->
  exists q log,
    controller_loop (fun _ p => Returned tt p) (length l) l ccheck_buff 0 p'
      = Returned tt q /\
    spawn_flags (events q) = spawn_flags (events p') ++ log /\
    Permutation (map fst log) (seq 0 n) /\
    forall pre k fin post, log = pre ++ (k, fin) :: post ->
      (fin = true <->
       forall k', In k' (map fst post) -> conn_of l k' <> conn_of l k).
Proof.
  intros Hread Hsmall.
  apply read_chunk_headers_counts in Hread.
  destruct Hread as (added & El & Hfst & Ecb). cbn [app] in El. subst added.
  assert (Hlen : length l = n).
  { rewrite <- (length_map fst), Hfst. apply length_seq. }
  assert (Hinc : increasing l) by (eapply increasing_seq; exact Hfst).
  assert (Hcb : forall cid, ccheck_buff cid = elems_on l cid).
  { intros cid. rewrite Ecb, (ccheck_fold l _ (fun _ => 0)) by reflexivity.
    cbn [Z.add]. unfold to_u8. apply Z.mod_small.
    specialize (Hsmall cid). unfold elems_on in *. change (2 ^ 8) with 256. lia. }
  destruct (controller_loop_flags (length l) l ccheck_buff 0 p' Hinc
              (Nat.le_refl _) Hcb Hsmall) as (q & E & Hs).
  destruct (select_order_spec (length l) l Hinc (Nat.le_refl _)) as (Hp & _).
  set (order := select_order (length l) l) in *.
  exists q, (flags_of order). split; [exact E|]. split; [exact Hs|]. split.
  { rewrite flags_of_fst, <- Hfst. now apply Permutation_map. }
  assert (Hconn : forall e, In e order -> conn_of l (fst e) = id (snd e)).
  { intros e He. unfold conn_of. rewrite nth_of_seq; [reflexivity| |].
    - now rewrite Hlen.
    - eapply Permutation_in; [exact Hp|exact He]. }
  intros pre k fin post Hsplit.
  apply flags_of_split in Hsplit.
  destruct Hsplit as (o1 & e & o2 & Eo & <- & -> & ->).
  assert (Hin2 : forall e', In e' o2 -> In e' order).
  { intros e' H'. rewrite Eo. apply in_or_app. right. now right. }
  assert (Hine : In e order) by (rewrite Eo; apply in_or_app; right; now left).
  rewrite flags_of_fst, negb_true_iff. split.
  - intros Hex k' Hk'. apply in_map_iff in Hk'. destruct Hk' as (e' & <- & He').
    rewrite (Hconn e' (Hin2 e' He')), (Hconn e Hine).
    intros Heq. apply Z.eqb_eq in Heq.
    assert (existsb (fun e'0 => id (snd e'0) =? id (snd e)) o2 = true).
    { apply existsb_exists. exists e'. split; assumption. }
    congruence.
  - intros Hall. destruct (existsb _ o2) eqn:Ex; [|reflexivity].
    apply existsb_exists in Ex. destruct Ex as (e' & He' & Heq).
    apply Z.eqb_eq in Heq. exfalso.
    apply (Hall (fst e')); [now apply in_map|].
    now rewrite (Hconn e' (Hin2 e' He')), (Hconn e Hine).
Qed.

Lemma final_flag_on_last_chunk_witness :
  exists q log,
    controller_loop (fun _ p => Returned tt p) (length interleaved_elems)
                    interleaved_elems interleaved_counts 0 (interleaved_at 104)
      = Returned tt q /\
    spawn_flags (events q) = spawn_flags (events (interleaved_at 104)) ++ log /\
    Permutation (map fst log) (seq 0 4) /\
    forall pre k fin post, log = pre ++ (k, fin) :: post ->
      (fin = true <->
       forall k', In k' (map fst post) ->
                  conn_of interleaved_elems k' <> conn_of interleaved_elems k).
Proof.
  apply (final_flag_on_last_chunk 4 (mk_header COMUX_MAGIC 0 2 4)
           (interleaved_at 20) (interleaved_at 104)
           interleaved_elems interleaved_counts).
  - vm_compute. reflexivity.
  - intros cid. unfold elems_on.
    pose proof (filter_length_le (fun e : elem => id (snd e) =? cid)
                  interleaved_elems) as H.
    cbn [interleaved_elems length] in H. lia.
Defined.














Section Simulation.
Variable R : elem -> elem -> Prop.
Hypothesis R_fst : forall a b, R a b -> fst a = fst b.
Hypothesis R_sched : forall a b, R a b -> sched (snd a) = sched (snd b).



End Simulation.





Lemma received_on_single (cid : Z) (e : event) :
  (forall c b, e <> EvSend c b) -> received_on cid [e] = [].
Proof. intros H. destruct e; try reflexivity. now elim (H cid0 bytes). Qed.










End PreloadFacts.

(* ===================================================================== *)
(** * Facts about the [float] arithmetic *)
(* ===================================================================== *)
Module FloatFacts.
Import Float.
Import Stdlib.QArith.QArith.
Local Open Scope Z_scope.








Section Rounding.
Variables p q : Z.
Hypothesis Hp : 0 < p.
Hypothesis Hq : 0 < q.
Hypothesis Hlo : q <= p * 2 ^ 64.
Hypothesis Hhi : p < q * 2 ^ 64.

Let e := binade p q.
Let up := 2 ^ Z.max 0 (e - 23).
Let down := 2 ^ Z.max 0 (- (e - 23)).
Let m := rne (p * down) (q * up).











End Rounding.







End FloatFacts.

(* ===================================================================== *)
(** * Properties of the mutator *)
(* ===================================================================== *)
Module MutatorFacts.
Import Utils UtilsFacts Comux ComuxFacts Float FloatFacts Mutator.
Import Stdlib.QArith.QArith.
Local Open Scope Z_scope.

Lemma flags_mask_bit (i : Z) :
  0 <= i ->
  Z.testbit (to_u32 (Z.lnot COMUX_CHUNK_FLAGS_ALL)) i
  = (i <? 32) && negb (Z.testbit COMUX_CHUNK_FLAGS_ALL i).
Proof.
  intros Hi. unfold to_u32.
  destruct (Z.ltb_spec i 32).
  - rewrite Z.mod_pow2_bits_low by lia. now rewrite Z.lnot_spec by lia.
  - now rewrite Z.mod_pow2_bits_high by lia.
Qed.

Lemma unsupported_flags_iff (f : Z) :
  u32_range f ->
  Z.land f (to_u32 (Z.lnot COMUX_CHUNK_FLAGS_ALL)) <> 0 <->
  exists i, Z.testbit f i = true /\ Z.testbit COMUX_CHUNK_FLAGS_ALL i = false.
Proof.
  intros [Hlo Hhi]. split.
  - intros Hnz.
    set (x := Z.land f (to_u32 (Z.lnot COMUX_CHUNK_FLAGS_ALL))) in *.
    assert (Hx : 0 < x).
    { assert (0 <= x) by (apply Z.land_nonneg; now left). lia. }
    pose proof (Z.bit_log2 x Hx) as Hb.
    pose proof (Z.log2_nonneg x) as Hl.
    unfold x in Hb. rewrite Z.land_spec, flags_mask_bit in Hb by assumption.
    apply andb_true_iff in Hb. destruct Hb as (Hf & Hm).
    apply andb_true_iff in Hm. destruct Hm as (_ & Hm).
    exists (Z.log2 x). split; [exact Hf|]. now apply negb_true_iff.
  - intros (i & Hf & Hm) Hz.
    assert (Hi : 0 <= i).
    { destruct (Z.lt_ge_cases i 0); [|assumption].
      rewrite Z.testbit_neg_r in Hf by assumption. discriminate. }
    assert (Hi32 : i < 32).
    { destruct (Z.lt_ge_cases i 32); [assumption|].
      destruct (Z.eq_dec f 0) as [->|Hf0]; [now rewrite Z.testbit_0_l in Hf|].
      assert (Z.log2 f < 32) by (apply Z.log2_lt_pow2; lia).
      rewrite Z.bits_above_log2 in Hf by lia. discriminate. }
    apply (f_equal (fun z => Z.testbit z i)) in Hz.
    rewrite Z.land_spec, flags_mask_bit, Hf, Hm, Z.testbit_0_l in Hz by assumption.
    destruct (Z.ltb_spec i 32); [discriminate|lia].
Qed.

(** C6: [check_comux_header] returns a message exactly when [num_conns]
    is 0 or above 4096 or [num_chunks] is 0 or above 8192, and
    [check_comux_cinfo] returns a message exactly when the chunk's
    connection id is not below [num_conns] or its flags have a bit set
    outside [COMUX_CHUNK_FLAGS_ALL] (0x3); otherwise each returns [NULL]. *)
Theorem validators_fail_iff (h : comux_header_t) (c : comux_cinfo_t) :
  u32_range (flags c) ->
  (check_comux_header h <> None <->
   num_conns h = 0 \/ num_conns h > 4096 \/
   num_chunks h = 0 \/ num_chunks h > 8192) /\
  (check_comux_cinfo h c <> None <->
   id c >= num_conns h \/
   exists i, Z.testbit (flags c) i = true /\
             Z.testbit COMUX_CHUNK_FLAGS_ALL i = false).
Proof.
  intros Hf. split.
  - unfold check_comux_header, MAX_CONNECTIONS, MAX_CHUNKS.
    change (Z.shiftl 1 12) with 4096. change (Z.shiftl 1 13) with 8192.
    destruct (Z.gtb_spec (num_conns h) 4096);
    destruct (Z.gtb_spec (num_chunks h) 8192);
    destruct (Z.eqb_spec (num_conns h) 0);
    destruct (Z.eqb_spec (num_chunks h) 0);
    split; intros HH; try discriminate; try lia; try (exfalso; now apply HH).
  - unfold check_comux_cinfo.
    rewrite <- unsupported_flags_iff by assumption.
    destruct (Z.geb_spec (id c) (num_conns h)).
    + split; [intros _; left; lia|discriminate].
    + destruct (Z.eqb_spec (Z.land (flags c) (to_u32 (Z.lnot COMUX_CHUNK_FLAGS_ALL))) 0);
        cbn [negb]; split; intros HH; try discriminate.
      * exfalso; now apply HH.
      * destruct HH; [lia|contradiction].
      * now right.
Qed.

Lemma validators_fail_iff_witness :
  let h := mk_header COMUX_MAGIC 0 2 3 in
  let c := mk_cinfo 1 0 0 6 [] 0 in
  (check_comux_header h <> None <->
   num_conns h = 0 \/ num_conns h > 4096 \/
   num_chunks h = 0 \/ num_chunks h > 8192) /\
  (check_comux_cinfo h c <> None <->
   id c >= num_conns h \/
   exists i, Z.testbit (flags c) i = true /\
             Z.testbit COMUX_CHUNK_FLAGS_ALL i = false).
Proof.
  apply (validators_fail_iff (mk_header COMUX_MAGIC 0 2 3) (mk_cinfo 1 0 0 6 [] 0)).
  unfold u32_range. cbn. lia.
Defined.





(** ** The fuzz driver and [NO_SHUTDOWN] *)

(** Whatever a computation that draws from [rand] returns satisfies [Q]. *)
Definition establishes {A : Type} (m : draw A) (Q : A -> Prop) : Prop :=
  forall calls a calls', m calls = Drawn a calls' -> Q a.

Lemma establishes_pure {A : Type} (a : A) (Q : A -> Prop) :
  Q a -> establishes (pure a) Q.
Proof. intros H calls a' calls' E. inversion E; now subst. Qed.

Lemma establishes_and_then {A B : Type} (m : draw A) (k : A -> draw B)
    (P : A -> Prop) (Q : B -> Prop) :
  establishes m P -> (forall a, P a -> establishes (k a) Q) ->
  establishes (and_then m k) Q.
Proof.
  intros Hm Hk calls b calls'. unfold and_then.
  destruct (m calls) as [a c| |] eqn:E; try discriminate.
  apply (Hk a (Hm _ _ _ E)).
Qed.

Lemma establishes_any {A : Type} (m : draw A) : establishes m (fun _ => True).
Proof. intros calls a calls' _. exact I. Qed.

Lemma establishes_failed {A : Type} (Q : A -> Prop) :
  establishes division_by_zero Q /\ establishes spinning Q.
Proof. split; intros calls a calls' E; discriminate. Qed.

Lemma no_shutdown_clear_init : no_shutdown_clear comux_cinfo_init.
Proof. reflexivity. Qed.

Lemma no_shutdown_clear_at (l : list comux_cinfo_t) (i : Z) :
  Forall no_shutdown_clear l -> no_shutdown_clear (cinfo_at l i).
Proof.
  intros H. unfold cinfo_at. destruct (nth_in_or_default (Z.to_nat i) l comux_cinfo_init) as [Hin| ->].
  - rewrite Forall_forall in H. now apply H.
  - apply no_shutdown_clear_init.
Qed.

Lemma update_nth_Forall {A : Type} (P : A -> Prop) (f : A -> A) (l : list A) :
  forall n, Forall P l -> (forall x, P x -> P (f x)) -> Forall P (update_nth n f l).
Proof.
  induction l as [|x l IH]; intros n Hl Hf; [destruct n; constructor|].
  inversion Hl; subst. destruct n; cbn [update_nth]; constructor; auto.
Qed.

Lemma cinfo_update_clear (l : list comux_cinfo_t) (i : Z)
    (f : comux_cinfo_t -> comux_cinfo_t) :
  Forall no_shutdown_clear l ->
  (forall c, no_shutdown_clear c -> no_shutdown_clear (f c)) ->
  Forall no_shutdown_clear (cinfo_update l i f).
Proof. intros. now apply update_nth_Forall. Qed.

(** The other flag bit does not touch [NO_SHUTDOWN]. *)
Lemma await_lor (f : Z) :
  Z.land (Z.lor f COMUX_CHUNK_FLAGS_AWAIT_RESPONSE) COMUX_CHUNK_FLAGS_NO_SHUTDOWN
  = Z.land f COMUX_CHUNK_FLAGS_NO_SHUTDOWN.
Proof. rewrite Z.land_lor_distr_l. cbn. now rewrite Z.lor_0_r. Qed.

Lemma await_lxor (f : Z) :
  Z.land (Z.lxor f COMUX_CHUNK_FLAGS_AWAIT_RESPONSE) COMUX_CHUNK_FLAGS_NO_SHUTDOWN
  = Z.land f COMUX_CHUNK_FLAGS_NO_SHUTDOWN.
Proof.
  apply Z.bits_inj'. intros n Hn.
  rewrite !Z.land_spec, Z.lxor_spec.
  unfold COMUX_CHUNK_FLAGS_AWAIT_RESPONSE, COMUX_CHUNK_FLAGS_NO_SHUTDOWN.
  destruct (Z.eq_dec n 1) as [->|N1].
  - cbn. now rewrite xorb_false_r.
  - replace (Z.testbit 2 n) with false; [now rewrite !andb_false_r|].
    destruct (Z.eq_dec n 0) as [->|N0]; [reflexivity|].
    symmetry. apply (Z.bits_above_log2 2 n); cbn; lia.
Qed.

Lemma stripped_clear (f : Z) :
  Z.land (Z.land f (to_u32 (Z.lnot COMUX_CHUNK_FLAGS_NO_SHUTDOWN)))
         COMUX_CHUNK_FLAGS_NO_SHUTDOWN = 0.
Proof. rewrite <- Z.land_assoc. cbn. apply Z.land_0_r. Qed.

Lemma appendn_flags (c : comux_cinfo_t) (bytes : list byte) :
  flags (comux_cinfo_data_appendn c bytes) = flags c.
Proof. reflexivity. Qed.

Lemma data_read_buffer_flags (c : comux_cinfo_t) (buff : list byte) :
  flags (snd (comux_cinfo_data_read_buffer c buff)) = flags c.
Proof. reflexivity. Qed.

Lemma parse_chunks_clear (todo : nat) (h : comux_header_t) (buff : list byte) :
  forall total_rcount rcount l l',
  parse_chunks todo h buff total_rcount rcount l = Some l' ->
  Forall no_shutdown_clear l -> Forall no_shutdown_clear l'.
Proof.
  induction todo as [|todo IH]; intros total_rcount rcount l l'; cbn [parse_chunks].
  - intros E; inversion E; now subst.
  - destruct (comux_cinfo_read_buffer _ _ _) as [[pr c] rc].
    destruct (nonzero pr); [discriminate|].
    destruct (check_comux_cinfo _ _); [discriminate|].
    destruct (comux_cinfo_data_read_buffer _ _) as [rc' c'] eqn:Ed.
    intros E Hl. apply IH in E; [exact E|].
    apply Forall_app. split; [exact Hl|]. constructor; [|constructor].
    unfold no_shutdown_clear. cbn [flags set_len].
    change c' with (snd (rc', c')). rewrite <- Ed, data_read_buffer_flags.
    cbn [flags set_flags]. apply stripped_clear.
Qed.

Ltac est :=
  repeat first
    [ apply establishes_pure
    | apply (proj1 (establishes_failed _))
    | apply (proj2 (establishes_failed _))
    | match goal with
      | |- establishes (and_then _ _) _ =>
          eapply establishes_and_then; [apply establishes_any | intros ? _]
      | |- establishes (if ?b then _ else _) _ => destruct b
      | |- establishes (match ?x with _ => _ end) _ => destruct x
      end ].

Section Strategies.
Variable E : environment.
Variable fuel : nat.

Lemma mutate_cinfo_data_havoc_clear (c : comux_cinfo_t) :
  no_shutdown_clear c ->
  establishes (mutate_cinfo_data_havoc E c) no_shutdown_clear.
Proof. intros H. unfold mutate_cinfo_data_havoc. est; exact H. Qed.

Lemma mutate_cinfo_data_extra_clear (c : comux_cinfo_t) :
  no_shutdown_clear c ->
  establishes (mutate_cinfo_data_extra E fuel c) no_shutdown_clear.
Proof. intros H. unfold mutate_cinfo_data_extra. est; exact H. Qed.

Lemma mutate_cinfo_sched_bump_clear (l : list comux_cinfo_t) (n : Z) :
  Forall no_shutdown_clear l ->
  establishes (mutate_cinfo_sched_bump E fuel l n)
              (fun r => Forall no_shutdown_clear (snd r)).
Proof.
  intros H. unfold mutate_cinfo_sched_bump. est; cbn [snd]; try exact H.
  apply cinfo_update_clear; [exact H|]. intros c Hc. exact Hc.
Qed.

Lemma mutate_cinfo_split_clear (l : list comux_cinfo_t) (n : Z)
    (new : comux_cinfo_t) :
  Forall no_shutdown_clear l ->
  establishes (mutate_cinfo_split E fuel l n new)
              (fun r => Forall no_shutdown_clear (snd (fst r)) /\
                        (fst (fst r) <> -1 -> no_shutdown_clear (snd r))).
Proof.
  intros H. unfold mutate_cinfo_split.
  eapply establishes_and_then; [apply establishes_any|intros index _].
  destruct (split_search _ _ _ _ _ _) as [[index' count] lims].
  destruct (count =? n).
  { apply establishes_pure. cbn. split; [exact H|]. intros N; now elim N. }
  eapply establishes_and_then; [apply establishes_any|intros r _].
  eapply establishes_and_then; [apply establishes_any|intros [old_sched new_sched] _].
  pose proof (no_shutdown_clear_at l index' H) as Hc.
  destruct (negb _); apply establishes_pure; cbn [fst snd]; split.
  - apply cinfo_update_clear; [exact H|]. intros _ _.
    unfold no_shutdown_clear. cbn [flags set_flags]. rewrite await_lxor. exact Hc.
  - intros _. unfold no_shutdown_clear. cbn [flags set_flags set_id set_sched].
    rewrite await_lor. reflexivity.
  - apply cinfo_update_clear; [exact H|]. intros _ _. exact Hc.
  - intros _. reflexivity.
Qed.

Lemma mutate_cinfo_splice_clear (h : comux_header_t) (l : list comux_cinfo_t)
    (n : Z) :
  Forall no_shutdown_clear l ->
  establishes (mutate_cinfo_splice E h l n)
              (fun r => Forall no_shutdown_clear (snd r)).
Proof.
  intros H. unfold mutate_cinfo_splice.
  destruct (n <? 2); [apply establishes_pure; exact H|].
  eapply establishes_and_then; [apply establishes_any|intros cid _].
  destruct (splice_search _ _ _ _ _) as [cid' count].
  destruct (count =? num_conns h); [apply establishes_pure; exact H|].
  eapply establishes_and_then; [apply establishes_any|intros pair_index _].
  apply establishes_pure. cbn [snd].
  assert (H1 : Forall no_shutdown_clear
                 (cinfo_update l (nth (Z.to_nat pair_index) (conn_indexes l cid' 0) 0)
                    (fun c => comux_cinfo_data_appendn c
                       (data (cinfo_at l (nth (Z.to_nat (pair_index + 1))
                                              (conn_indexes l cid' 0) 0)))))).
  { apply cinfo_update_clear; [exact H|]. intros c Hc. exact Hc. }
  destruct (negb _); [|exact H1].
  apply cinfo_update_clear; [exact H1|]. intros c Hc.
  unfold no_shutdown_clear. cbn [flags set_flags]. rewrite await_lor. exact Hc.
Qed.

Lemma swap_in_dicts_clear (dicts : list Dict.dict_t) (c : comux_cinfo_t) :
  no_shutdown_clear c ->
  establishes (swap_in_dicts E fuel dicts c)
              (fun r => match r with
                        | Some c' => no_shutdown_clear c'
                        | None => True
                        end).
Proof.
  intros H. induction dicts as [|dict rest IH]; cbn [swap_in_dicts].
  - now apply establishes_pure.
  - eapply establishes_and_then; [apply establishes_any|intros idx _].
    destruct (find_entry _ _ _ _ _) as [[dentry off]|]; [|exact IH].
    eapply establishes_and_then; [apply establishes_any|intros swap _].
    apply establishes_pure. exact H.
Qed.

Lemma dict_swap_search_clear (l : list comux_cinfo_t) (n : Z) (todo : nat) :
  Forall no_shutdown_clear l ->
  forall index count,
  establishes (dict_swap_search E fuel l n todo index count)
              (fun r => Forall no_shutdown_clear (snd r)).
Proof.
  intros H. induction todo as [|todo IH]; intros index count;
    cbn [dict_swap_search].
  - now apply establishes_pure.
  - eapply establishes_and_then;
      [apply swap_in_dicts_clear, no_shutdown_clear_at, H|].
    intros [c'|] Hc'; [|apply IH].
    apply establishes_pure. cbn [snd].
    apply cinfo_update_clear; [exact H|]. intros _ _. exact Hc'.
Qed.

Lemma mutate_cinfo_dict_swap_clear (l : list comux_cinfo_t) (n : Z) :
  Forall no_shutdown_clear l ->
  establishes (mutate_cinfo_dict_swap E fuel l n)
              (fun r => Forall no_shutdown_clear (snd r)).
Proof.
  intros H. unfold mutate_cinfo_dict_swap.
  eapply establishes_and_then; [apply establishes_any|intros index _].
  now apply dict_swap_search_clear.
Qed.

(** What [afl_custom_fuzz] relies on when it writes the chunks. *)
Definition mutation_clear (m : mutation) : Prop :=
  Forall no_shutdown_clear (cinfos m) /\
  (new_cinfo_index m <> -1 -> no_shutdown_clear (new_cinfo m)).

Lemma retry_strategy_clear (turns : nat) (h : comux_header_t) (n : Z) :
  forall free_strats strat m,
  mutation_clear m -> new_cinfo_index m = -1 ->
  establishes (retry_strategy E fuel turns h n free_strats strat m)
              mutation_clear.
Proof.
  induction turns as [|turns IH]; intros free_strats strat m Hm Hnew;
    cbn [retry_strategy]; [apply establishes_failed|].
  destruct Hm as (Hl & Hn).
  assert (Hdata : forall (f : comux_cinfo_t -> draw comux_cinfo_t),
            (forall c, no_shutdown_clear c -> establishes (f c) no_shutdown_clear) ->
            establishes
              (and_then (RAND_UNDER E (num_chunks h)) (fun i =>
               and_then (f (cinfo_at (cinfos m) i)) (fun cinfo =>
               pure (set_cinfos m (cinfo_update (cinfos m) i (fun _ => cinfo))))))
              mutation_clear).
  { intros f Hf.
    eapply establishes_and_then; [apply establishes_any|intros i _].
    eapply establishes_and_then; [apply Hf, no_shutdown_clear_at, Hl|].
    intros c Hc. apply establishes_pure. split; cbn; [|exact Hn].
    apply cinfo_update_clear; [exact Hl|]. intros _ _. exact Hc. }
  assert (Hretry : forall s m', mutation_clear m' -> new_cinfo_index m' = -1 ->
            establishes
              (and_then (gurthang_strategy_choose E (mark free_strats s))
                 (fun strat0 =>
                    retry_strategy E fuel turns h n (mark free_strats s) strat0 m'))
              mutation_clear).
  { intros s m' Hm' Hnew'.
    eapply establishes_and_then; [apply establishes_any|intros s' _].
    now apply IH. }
  destruct strat.
  - apply (Hdata _ mutate_cinfo_data_havoc_clear).
  - apply (Hdata _ mutate_cinfo_data_extra_clear).
  - eapply establishes_and_then; [apply mutate_cinfo_sched_bump_clear, Hl|].
    intros [index l] Hl'. cbn [snd] in Hl'.
    destruct (index =? -1).
    + apply Hretry; [split; assumption|assumption].
    + apply establishes_pure. split; cbn; assumption.
  - eapply establishes_and_then; [apply mutate_cinfo_split_clear, Hl|].
    intros [[index l] new] (Hl' & Hn'). cbn [fst snd] in Hl', Hn'.
    destruct (Z.eqb_spec index (-1)) as [->|Hne].
    + apply Hretry; [|reflexivity]. split; cbn; [exact Hl'|]. intros N; now elim N.
    + apply establishes_pure. split; cbn; [exact Hl'|]. intros _. now apply Hn'.
  - eapply establishes_and_then; [apply mutate_cinfo_splice_clear, Hl|].
    intros [index l] Hl'. cbn [snd] in Hl'.
    destruct (index =? -1).
    + apply Hretry; [split; cbn; assumption|exact Hnew].
    + apply establishes_pure. split; cbn; assumption.
  - eapply establishes_and_then; [apply mutate_cinfo_dict_swap_clear, Hl|].
    intros [failed l] Hl'. cbn [snd] in Hl'.
    destruct (negb (failed =? 0)).
    + apply Hretry; [split; assumption|assumption].
    + apply establishes_pure. split; cbn; assumption.
  - apply (Hdata _ mutate_cinfo_data_havoc_clear).
  - apply (Hdata _ mutate_cinfo_data_havoc_clear).
  - apply establishes_pure. split; assumption.
Qed.

Lemma mutate_cinfos_clear (h : comux_header_t) (l : list comux_cinfo_t)
    (n : Z) (new : comux_cinfo_t) :
  Forall no_shutdown_clear l ->
  establishes (mutate_cinfos E fuel h l n new) mutation_clear.
Proof.
  intros H. unfold mutate_cinfos.
  eapply establishes_and_then; [apply establishes_any|intros s _].
  apply retry_strategy_clear; [|reflexivity].
  split; cbn; [exact H|]. intros N; now elim N.
Qed.

End Strategies.

Lemma comux_cinfo_write_buffer_bytes (c : comux_cinfo_t) (max_len w : Z)
    (bytes : list byte) :
  comux_cinfo_write_buffer c max_len = (w, bytes) -> (w <? 0) = false ->
  bytes = cinfo_header_bytes c.
Proof.
  unfold comux_cinfo_write_buffer.
  destruct (max_len <? 4 + 8 + 4 + 4); intros E Hw.
  - apply (f_equal fst) in E. cbn [fst] in E. subst w. discriminate.
  - apply (f_equal snd) in E. cbn [snd] in E. symmetry. exact E.
Qed.

Lemma to_ssize_opp_neg (z : Z) : 0 < to_ssize z -> to_ssize (- to_ssize z) < 0.
Proof.
  intros H. set (s := to_ssize z) in *.
  assert (Hs : s < 2 ^ 63).
  { unfold s, to_ssize.
    pose proof (Z.mod_pos_bound z (2 ^ 64) ltac:(lia)).
    destruct (Z.ltb_spec (z mod 2 ^ 64) (2 ^ 63)); lia. }
  unfold to_ssize.
  replace (- s) with (2 ^ 64 - s + (-1) * 2 ^ 64) by lia.
  rewrite Z.mod_add by lia. rewrite Z.mod_small by lia.
  destruct (Z.ltb_spec (2 ^ 64 - s) (2 ^ 63)); lia.
Qed.

Lemma comux_cinfo_data_write_buffer_bytes (c : comux_cinfo_t) (buff_len w : Z)
    (bytes : list byte) :
  comux_cinfo_data_write_buffer c buff_len = (w, bytes) -> (w <? 0) = false ->
  bytes = firstn (Z.to_nat (to_ssize (len c))) (data c).
Proof.
  unfold comux_cinfo_data_write_buffer.
  destruct (to_u64 (to_ssize (len c)) >? buff_len); intros E Hw.
  - apply (f_equal fst) in E as E1. apply (f_equal snd) in E as E2.
    cbn [fst snd] in E1, E2. subst w bytes. apply Z.ltb_ge in Hw.
    destruct (Z.lt_ge_cases 0 (to_ssize (len c))) as [Hpos|Hneg].
    + apply to_ssize_opp_neg in Hpos. lia.
    + destruct (Z.to_nat (to_ssize (len c))) eqn:En; [reflexivity|lia].
  - apply (f_equal snd) in E. cbn [snd] in E. symmetry. exact E.
Qed.

Lemma comux_header_write_buffer_bytes (h : comux_header_t) (max_len w : Z)
    (bytes : list byte) :
  comux_header_write_buffer h max_len = (w, bytes) -> (w <? 0) = false ->
  bytes = header_bytes h.
Proof.
  unfold comux_header_write_buffer.
  destruct (max_len <? COMUX_MAGIC_LEN + 4 + 4 + 4); intros E Hw.
  - apply (f_equal fst) in E. cbn [fst] in E. subst w. discriminate.
  - apply (f_equal snd) in E. cbn [snd] in E. symmetry. exact E.
Qed.

Lemma header_read_magic (buff : list byte) (h0 h : comux_header_t)
    (r0 rcount : Z) (pr : comux_parse_result_t) :
  comux_header_read_buffer h0 buff r0 = (pr, h, rcount) ->
  nonzero pr = false -> magic h = COMUX_MAGIC.
Proof.
  unfold comux_header_read_buffer. cbv zeta.
  assert (Hbad : forall (bad : comux_parse_result_t) (x : comux_header_t) (y : Z),
            nonzero bad = true -> (bad, x, y) = (pr, h, rcount) ->
            nonzero pr = false -> magic h = COMUX_MAGIC).
  { intros bad x y Hb E Hz. apply (f_equal (fun t => fst (fst t))) in E.
    cbn [fst] in E. subst pr. congruence. }
  destruct (_ <? 0); [now apply Hbad|].
  destruct (memcmp_differs _ _) eqn:Em; [now apply Hbad|].
  destruct (_ <? 0); [now apply Hbad|].
  destruct (_ <? 0); [now apply Hbad|].
  destruct (_ <? 0); [now apply Hbad|].
  intros E _. apply (f_equal (fun t => snd (fst t))) in E. cbn [fst snd] in E.
  subst h. cbn [magic set_magic set_version set_num_conns set_num_chunks].
  unfold memcmp_differs in Em. cbn [magic set_magic] in Em.
  destruct (list_eq_dec _ _ _) as [Heq|]; [exact Heq|discriminate].
Qed.

Lemma written_snoc (l : list comux_cinfo_t) (c : comux_cinfo_t)
    (prefix : list byte) :
  ((prefix ++ concat (map written_record l)) ++ cinfo_header_bytes c)
    ++ firstn (Z.to_nat (to_ssize (len c))) (data c)
  = prefix ++ concat (map written_record (l ++ [c])).
Proof.
  rewrite map_app, concat_app. cbn [map concat]. unfold written_record.
  now rewrite app_nil_r, <- !app_assoc.
Qed.

Lemma write_chunks_clear (m : mutation) (num_chunks max_len : Z)
    (prefix : list byte) (turns : nat) :
  Forall no_shutdown_clear (cinfos m) ->
  forall i new_cinfo_index written written' out',
  (new_cinfo_index <> -1 -> no_shutdown_clear (new_cinfo m)) ->
  Forall no_shutdown_clear written ->
  write_chunks turns m num_chunks max_len i new_cinfo_index written
               (prefix ++ concat (map written_record written))
    = Some (Rewritten written' out') ->
  Forall no_shutdown_clear written' /\
  out' = prefix ++ concat (map written_record written').
Proof.
  intros Hl. induction turns as [|turns IH];
    intros i nci written written' out' Hnew Hw; cbn [write_chunks];
    [discriminate|].
  destruct (negb (i <? to_u32 (num_chunks + 1))).
  { intros E. injection E as <- <-. now split. }
  destruct ((i =? num_chunks) && negb ((nci >? -1) && (to_u32 nci =? i))).
  { now apply IH. }
  destruct (negb (i =? num_chunks) && (delete_cinfo_index m >? -1)
            && (to_u32 (delete_cinfo_index m) =? i)).
  { now apply IH. }
  set (c := if (nci >? -1) && (to_u32 nci =? i) then new_cinfo m
            else cinfo_at (cinfos m) i).
  assert (Hc : no_shutdown_clear c).
  { unfold c. destruct (Z.gtb_spec nci (-1)) as [Hgt|Hle]; cbn [andb].
    - destruct (to_u32 nci =? i); [apply Hnew; lia|now apply no_shutdown_clear_at].
    - now apply no_shutdown_clear_at. }
  destruct (comux_cinfo_write_buffer c _) as [w hbytes] eqn:Eh.
  destruct (w <? 0) eqn:Hw0; [discriminate|].
  apply comux_cinfo_write_buffer_bytes in Eh; [|exact Hw0]. subst hbytes.
  destruct (comux_cinfo_data_write_buffer c _) as [w' dbytes] eqn:Ed.
  destruct (w' <? 0) eqn:Hw'; [discriminate|].
  apply comux_cinfo_data_write_buffer_bytes in Ed; [|exact Hw']. subst dbytes.
  rewrite written_snoc.
  assert (Hw2 : Forall no_shutdown_clear (written ++ [c])).
  { apply Forall_app. split; [exact Hw|now constructor]. }
  destruct ((nci >? -1) && (to_u32 nci =? i)); apply IH; try assumption.
  intros N; now elim N.
Qed.

Section Driver.
Variable E : environment.
Variable fuel : nat.

Lemma afl_custom_fuzz_clear (buff : list byte) (max_len : Z) :
  establishes (afl_custom_fuzz E fuel buff max_len)
    (fun output =>
       match output with
       | Unchanged => True
       | Rewritten written out =>
           Forall no_shutdown_clear written /\
           exists h, magic h = COMUX_MAGIC /\ version h = 0 /\
                     out = header_bytes h ++ concat (map written_record written)
       end).
Proof.
  unfold afl_custom_fuzz, make_new_comux.
  destruct (comux_header_read_buffer _ _ _) as [[pr h] rcount] eqn:Er.
  destruct (nonzero pr) eqn:Hpr; [now apply establishes_pure|].
  apply header_read_magic in Er; [|exact Hpr].
  destruct (check_comux_header h); [now apply establishes_pure|].
  destruct (parse_chunks _ _ _ _ _ _) as [l|] eqn:Ep;
    [|now apply establishes_pure].
  apply parse_chunks_clear in Ep; [|constructor].
  eapply establishes_and_then; [apply mutate_cinfos_clear, Ep|].
  intros m (Hl & Hnew).
  set (h' := if new_cinfo_index m >? -1 then _ else _).
  assert (Hh' : magic h' = COMUX_MAGIC /\ version h' = 0).
  { unfold h'. destruct (new_cinfo_index m >? -1);
      [|destruct (delete_cinfo_index m >? -1)]; cbn; now split. }
  destruct (comux_header_write_buffer h' max_len) as [w hbytes] eqn:Eh.
  destruct (w <? 0) eqn:Hw; [now apply establishes_pure|].
  apply comux_header_write_buffer_bytes in Eh; [|exact Hw]. subst hbytes.
  destruct (write_chunks _ _ _ _ _ _ _ _) as [[|written out]|] eqn:Ew.
  - now apply establishes_pure.
  - apply establishes_pure.
    rewrite <- (app_nil_r (header_bytes h')) in Ew.
    change (header_bytes h' ++ [])
      with (header_bytes h' ++ concat (map written_record [])) in Ew.
    apply write_chunks_clear in Ew; [|exact Hl|exact Hnew|constructor].
    destruct Ew as (Hwr & ->). split; [exact Hwr|].
    exists h'. destruct Hh' as (Hm & Hv). now repeat split.
  - apply establishes_failed.
Qed.

End Driver.

(** C5, as the code has it: whenever [afl_custom_fuzz] hands back the
    bytes it wrote to its own buffer, these are a header with the magic
    and version 0 followed by the records of the chunks it gave to the
    chunk writers, and none of these chunks has [NO_SHUTDOWN] set. On the
    other paths it hands back the input buffer as it is. *)
Theorem fuzz_rewrites_without_no_shutdown (E : environment) (fuel : nat)
    (buff : list byte) (max_len : Z) (calls calls' : nat)
    (written : list comux_cinfo_t) (out : list byte) :
  afl_custom_fuzz E fuel buff max_len calls = Drawn (Rewritten written out) calls' ->
  Forall no_shutdown_clear written /\
  exists h, magic h = COMUX_MAGIC /\ version h = 0 /\
            out = header_bytes h ++ concat (map written_record written).
Proof.
  intros H. apply (afl_custom_fuzz_clear E fuel buff max_len) in H. exact H.
Qed.

(** A call of the hook: [rand] counts its calls from 1, the havoc turns
    the buffer round, dictionaries are off and the split is asked for. *)
Definition sample_environment : environment :=
  mk_environment (fun n => Z.of_nat n + 1) (fun buf calls => (rev buf, S calls))
                 (fun _ _ => x00) comux_cinfo_init 0 [] STRAT_CHUNK_SPLIT.

(** Two chunks of connection 0; both carry [NO_SHUTDOWN], the second
    also [AWAIT_RESPONSE]. *)
Definition held_open : comux_cinfo_t :=
  mk_cinfo 0 5 0 COMUX_CHUNK_FLAGS_NO_SHUTDOWN
           ["h"; "e"; "l"; "l"; "o"]%byte 0.
Definition held_open_await : comux_cinfo_t :=
  mk_cinfo 0 3 2 COMUX_CHUNK_FLAGS_ALL ["a"; "b"; "c"]%byte 0.
Definition held_open_input : list byte :=
  snd (comux_manifest_write_buffer
         (mk_manifest (mk_header COMUX_MAGIC 0 1 2) [held_open; held_open_await])
         4096).

Definition held_open_written : list comux_cinfo_t :=
  [mk_cinfo 0 5 0 0 ["h"; "e"; "l"; "l"; "o"]%byte 0;
   mk_cinfo 0 1 1 0 ["a"%byte] 0;
   mk_cinfo 0 2 2 COMUX_CHUNK_FLAGS_AWAIT_RESPONSE ["b"; "c"]%byte 0].

Lemma fuzz_rewrites_without_no_shutdown_witness :
  exists out,
    afl_custom_fuzz sample_environment 10 held_open_input 4096 0%nat
      = Drawn (Rewritten held_open_written out) 2 /\
    Forall no_shutdown_clear held_open_written.
Proof.
  eexists. split; [vm_compute; reflexivity|].
  eapply (fuzz_rewrites_without_no_shutdown sample_environment 10
            held_open_input 4096 0 2).
  vm_compute. reflexivity.
Defined.

(** The same first chunk, followed by a chunk that names connection 5 of
    a manifest with one connection. *)
Definition stray : comux_cinfo_t :=
  mk_cinfo 5 3 1 COMUX_CHUNK_FLAGS_NONE ["a"; "b"; "c"]%byte 0.
Definition stray_input : list byte :=
  snd (comux_manifest_write_buffer
         (mk_manifest (mk_header COMUX_MAGIC 0 1 2) [held_open; stray]) 4096).

(** The flags of the chunk records of a manifest in a buffer. *)
Definition flags_in (buff : list byte) : list Z :=
  let '(_, m, _) := comux_manifest_read_buffer comux_manifest_init buff 0 in
  map flags (cinfo_list m).

(** C5 as stated fails on the paths that hand back the input: a chunk
    with a connection number out of bounds sends the hook to
    [make_new_comux], and an output buffer too small for the header makes
    it return the input buffer; in both cases the first chunk record of
    what is emitted still has [NO_SHUTDOWN] set. *)
Theorem fuzz_hands_back_no_shutdown :
  (forall (E : environment) (fuel : nat) (max_len : Z) (calls : nat),
     afl_custom_fuzz E fuel stray_input max_len calls
     = Drawn Unchanged calls) /\
  flags_in (emitted stray_input Unchanged)
    = [COMUX_CHUNK_FLAGS_NO_SHUTDOWN; COMUX_CHUNK_FLAGS_NONE] /\
  afl_custom_fuzz sample_environment 10 held_open_input 16 0%nat
    = Drawn Unchanged 2 /\
  flags_in (emitted held_open_input Unchanged)
    = [COMUX_CHUNK_FLAGS_NO_SHUTDOWN; COMUX_CHUNK_FLAGS_ALL].
Proof. repeat split; vm_compute; reflexivity. Qed.

(** The walk of [gurthang_strategy_choose]: it stays among the six
    strategies, and it ends on a marked one only after it has seen all
    six marked. *)
Lemma choose_walk_spec (free_strats : Z -> Z) : forall turns idx count,
  0 <= idx < 6 -> 0 <= count <= 6 -> (7 <= Z.of_nat turns + count) ->
  (forall k, 0 <= k < count -> free_strats ((idx - 1 - k) mod 6) <> 0) ->
  let r := choose_walk turns free_strats idx count in
  0 <= r < 6 /\
  (free_strats r <> 0 -> forall i, 0 <= i < 6 -> free_strats i <> 0).
Proof.
  induction turns as [|turns IH]; intros idx count Hi Hc Ht Hseen; [lia|].
  cbn [choose_walk strategy_value].
  destruct (Z.eqb_spec (free_strats idx) 0) as [F|F]; cbn [negb andb].
  - split; [exact Hi|]. intros N. contradiction.
  - destruct (Z.ltb_spec count 6) as [Hlt|Hge].
    + apply IH; [apply Z.mod_pos_bound; lia|lia|lia|].
      intros k Hk. destruct (Z.eq_dec k 0) as [->|Hk0].
      * replace (((idx + 1) mod 6 - 1 - 0) mod 6) with idx; [exact F|].
        pose proof (Z.mod_pos_bound (idx + 1) 6 ltac:(lia)).
        Z.div_mod_to_equations. lia.
      * replace (((idx + 1) mod 6 - 1 - k) mod 6) with ((idx - 1 - (k - 1)) mod 6);
          [apply Hseen; lia|].
        Z.div_mod_to_equations. lia.
    + split; [exact Hi|]. intros _ i Hr.
      replace i with ((idx - 1 - ((idx - 1 - i) mod 6)) mod 6);
        [apply Hseen; pose proof (Z.mod_pos_bound (idx - 1 - i) 6 ltac:(lia)); lia|].
      Z.div_mod_to_equations. lia.
Qed.

(** [gurthang_strategy_choose] calls [rand] once and always returns. It
    returns [STRAT_UNKNOWN] exactly when all six strategies are marked in
    [free_strats]; any other result is one of the six strategies, and one
    that is not marked. *)
Theorem strategy_choose_unmarked (E : environment) (free_strats : Z -> Z)
    (calls : nat) :
  exists s,
    gurthang_strategy_choose E free_strats calls = Drawn s (S calls) /\
    (s = STRAT_UNKNOWN <-> forall i, 0 <= i < 6 -> free_strats i <> 0) /\
    (s <> STRAT_UNKNOWN ->
     0 <= strategy_value s < 6 /\ free_strats (strategy_value s) = 0).
Proof.
  unfold gurthang_strategy_choose, RAND_UNDER, and_then, rand, pure.
  cbn [strategy_value]. change (6 =? 0) with false. cbv iota.
  set (idx := (rand_values E calls mod (RAND_MAX + 1)) mod 6).
  assert (Hidx : 0 <= idx < 6) by (apply Z.mod_pos_bound; lia).
  destruct (choose_walk_spec free_strats 7 idx 0 Hidx ltac:(lia) ltac:(cbn; lia)
              ltac:(intros; lia)) as [Hr Hall].
  cbv zeta in Hr, Hall.
  set (r := choose_walk 7 free_strats idx 0) in *. clearbody r.
  eexists. split; [reflexivity|].
  assert (Hv : strategy_of_index r <> STRAT_UNKNOWN /\
               strategy_value (strategy_of_index r) = r).
  { assert (Hc : r = 0 \/ r = 1 \/ r = 2 \/ r = 3 \/ r = 4 \/ r = 5) by lia.
    destruct Hc as [->|[->|[->|[->|[->| ->]]]]]; split; (discriminate || reflexivity). }
  destruct Hv as [Hv1 Hv2].
  destruct (Z.eqb_spec (free_strats r) 0) as [F|F]; cbn [negb].
  - split; [split; [contradiction|]|].
    + intros H. exfalso. now apply (H r).
    + intros _. rewrite Hv2. split; assumption.
  - split; [split; [intros _; now apply Hall|reflexivity]|]. intros N. now destruct N.
Qed.

Lemma cinfo_at_sched_room (l : list comux_cinfo_t) (i : Z) :
  sched_room l -> 0 <= sched (cinfo_at l i) < 2 ^ 32 - 1.
Proof.
  intros H. unfold cinfo_at.
  destruct (Nat.lt_ge_cases (Z.to_nat i) (length l)) as [Hlt|Hge].
  - unfold sched_room in H. rewrite Forall_forall in H. apply H, nth_In, Hlt.
  - rewrite nth_overflow by exact Hge. cbn. lia.
Qed.

Section Bounds.
Variable cinfos : list comux_cinfo_t.
Variable index : Z.

Let s (j : Z) : Z := sched (cinfo_at cinfos j).
Let same (j : Z) : Prop := id (cinfo_at cinfos j) = id (cinfo_at cinfos index).

Lemma sched_bounds_scan_spec (todo : nat) : forall i lims0 lims1 max_sched,
  lims0 <= 0 <= lims1 ->
  exists l0 l1 mx,
    sched_bounds_scan cinfos index todo i lims0 lims1 max_sched = (l0, l1, mx) /\
    l0 <= 0 <= l1 /\ max_sched <= mx /\
    (forall d, d < 0 -> lims0 <> 0 -> d <= lims0 -> l0 <> 0 /\ d <= l0) /\
    (forall d, d > 0 -> lims1 <> 0 -> lims1 <= d -> l1 <> 0 /\ l1 <= d) /\
    (forall j, i <= j < i + Z.of_nat todo -> j <> index -> same j ->
               (s j < s index -> l0 <> 0 /\ s j - s index <= l0) /\
               (s index < s j -> l1 <> 0 /\ l1 <= s j - s index)) /\
    (forall j, i <= j < i + Z.of_nat todo -> s j <= mx) /\
    (mx = max_sched \/ exists j, i <= j < i + Z.of_nat todo /\ mx = s j) /\
    (l0 = lims0 \/ exists j, i <= j < i + Z.of_nat todo /\ l0 = s j - s index) /\
    (l1 = lims1 \/ exists j, i <= j < i + Z.of_nat todo /\ l1 = s j - s index).
Proof.
  induction todo as [|todo IH]; intros i l0 l1 mx Hl.
  - exists l0, l1, mx. cbn [sched_bounds_scan].
    repeat split; auto; try lia.
  - cbn [sched_bounds_scan]. fold (s i) (s index).
    set (mx1 := if s i >? mx then s i else mx).
    assert (Hmx1 : mx <= mx1 /\ s i <= mx1 /\ (mx1 = mx \/ mx1 = s i))
      by (unfold mx1; destruct (Z.gtb_spec (s i) mx); lia).
    destruct (Z.eqb_spec i index) as [Ei|Ni].
    + destruct (IH (i + 1) l0 l1 mx1 Hl)
        as (l0' & l1' & mx' & E & Hs & Hm & H0 & H1 & Hj & Hx & Hw & W0 & W1).
      exists l0', l1', mx'. split; [exact E|]. split; [exact Hs|]. split; [lia|].
      split; [exact H0|]. split; [exact H1|]. split; [|split; [|split; [|split]]].
      * intros j Hr Hn Hsame. apply Hj; auto. lia.
      * intros j Hr. destruct (Z.eq_dec j i) as [->|Hne]; [lia|]. apply Hx. lia.
      * destruct Hw as [->|[j [Hr ->]]];
          [destruct Hmx1 as (_ & _ & [->| ->]); [now left|right; exists i; lia]
          |right; exists j; lia].
      * destruct W0 as [->|[j [Hr ->]]]; [now left|right; exists j; lia].
      * destruct W1 as [->|[j [Hr ->]]]; [now left|right; exists j; lia].
    + destruct (Z.eqb_spec (id (cinfo_at cinfos i)) (id (cinfo_at cinfos index)))
        as [Es|Ns].
      * set (diff := s i - s index).
        set (n0 := if (diff <? 0) && ((l0 =? 0) || (diff >? l0)) then diff else l0).
        set (n1 := if (diff >? 0) && ((l1 =? 0) || (diff <? l1)) then diff else l1).
        assert (Hn0 : n0 <= 0 /\ (l0 <> 0 -> l0 <= n0 /\ n0 <> 0) /\
                      (diff < 0 -> n0 <> 0 /\ diff <= n0)).
        { unfold n0. destruct (Z.ltb_spec diff 0), (Z.eqb_spec l0 0),
            (Z.gtb_spec diff l0); cbn [andb orb]; lia. }
        assert (Hn1 : 0 <= n1 /\ (l1 <> 0 -> n1 <= l1 /\ n1 <> 0) /\
                      (diff > 0 -> n1 <> 0 /\ n1 <= diff)).
        { unfold n1. destruct (Z.gtb_spec diff 0), (Z.eqb_spec l1 0),
            (Z.ltb_spec diff l1); cbn [andb orb]; lia. }
        destruct (IH (i + 1) n0 n1 mx1 ltac:(lia))
          as (l0' & l1' & mx' & E & Hs & Hm & H0 & H1 & Hj & Hx & Hw & W0 & W1).
        exists l0', l1', mx'. split; [exact E|]. split; [exact Hs|]. split; [lia|].
        split; [|split; [|split; [|split; [|split; [|split]]]]].
        -- intros d Hd Hz Hle. apply H0; lia.
        -- intros d Hd Hz Hle. apply H1; lia.
        -- intros j Hr Hn Hsame. destruct (Z.eq_dec j i) as [->|Hne].
           ++ fold diff. split; intros Hlt.
              ** apply (H0 diff); lia.
              ** apply (H1 diff); lia.
           ++ apply Hj; auto. lia.
        -- intros j Hr. destruct (Z.eq_dec j i) as [->|Hne]; [lia|]. apply Hx. lia.
        -- destruct Hw as [->|[j [Hr ->]]];
             [destruct Hmx1 as (_ & _ & [->| ->]); [now left|right; exists i; lia]
             |right; exists j; lia].
        -- destruct W0 as [->|[j [Hr ->]]]; [|right; exists j; lia].
           unfold n0. destruct ((diff <? 0) && ((l0 =? 0) || (diff >? l0)));
             [right; exists i; split; [lia|reflexivity]|now left].
        -- destruct W1 as [->|[j [Hr ->]]]; [|right; exists j; lia].
           unfold n1. destruct ((diff >? 0) && ((l1 =? 0) || (diff <? l1)));
             [right; exists i; split; [lia|reflexivity]|now left].
      * destruct (IH (i + 1) l0 l1 mx1 Hl)
          as (l0' & l1' & mx' & E & Hs & Hm & H0 & H1 & Hj & Hx & Hw & W0 & W1).
        exists l0', l1', mx'. split; [exact E|]. split; [exact Hs|]. split; [lia|].
        split; [exact H0|]. split; [exact H1|]. split; [|split; [|split; [|split]]].
        -- intros j Hr Hn Hsame. destruct (Z.eq_dec j i) as [->|Hne];
             [contradiction|]. apply Hj; auto. lia.
        -- intros j Hr. destruct (Z.eq_dec j i) as [->|Hne]; [lia|]. apply Hx. lia.
        -- destruct Hw as [->|[j [Hr ->]]];
             [destruct Hmx1 as (_ & _ & [->| ->]); [now left|right; exists i; lia]
             |right; exists j; lia].
        -- destruct W0 as [->|[j [Hr ->]]]; [now left|right; exists j; lia].
        -- destruct W1 as [->|[j [Hr ->]]]; [now left|right; exists j; lia].
Qed.

(** The range [find_cinfo_sched_bounds] gives holds the chunk's own
    [sched] and at least one more value, and lies strictly between the
    [sched] values below and above it on the chunk's connection. *)
Lemma find_cinfo_sched_bounds_spec (cinfos_len lo hi : Z) :
  sched_room cinfos -> 0 <= index < cinfos_len ->
  find_cinfo_sched_bounds cinfos cinfos_len index = Some (lo, hi) ->
  0 <= lo <= s index /\ s index < hi < 2 ^ 32 /\ lo + 2 <= hi /\
  forall j, 0 <= j < cinfos_len -> j <> index -> same j ->
            (s j < s index -> s j < lo) /\ (s index < s j -> hi <= s j).
Proof.
  intros Hroom Hidx. unfold find_cinfo_sched_bounds.
  destruct (sched_bounds_scan_spec (Z.to_nat cinfos_len) 0 0 0 0 ltac:(lia))
    as (l0 & l1 & mx & -> & Hs & Hm & _ & _ & Hj & Hx & Hw & W0 & W1).
  fold (s index).
  pose proof (cinfo_at_sched_room cinfos index Hroom) as Hsi. fold (s index) in Hsi.
  assert (Hall : forall j, 0 <= s j < 2 ^ 32 - 1)
    by (intros j; apply cinfo_at_sched_room, Hroom).
  assert (Hmx : mx < 2 ^ 32 - 1).
  { destruct Hw as [->|[j [_ ->]]]; [lia|]. apply Hall. }
  assert (Hsmx : s index <= mx) by (apply Hx; lia).
  cbv zeta. unfold to_u32.
  rewrite (Z.mod_small (mx + 1)), ?(Z.mod_small (s index + 1)) by lia.
  set (lo' := if l0 =? 0 then 0 else l0 + (s index + 1)).
  set (hi' := if l1 =? 0 then mx + 1 else l1 + s index).
  destruct (Z.ltb_spec (hi' - lo') 2) as [|Hw2]; [discriminate|].
  assert (Hlo : 0 <= lo' <= s index).
  { unfold lo'. destruct (Z.eqb_spec l0 0) as [E0|N0]; [lia|].
    destruct W0 as [->|[j [_ ->]]]; [lia|]. pose proof (Hall j). lia. }
  assert (Hhi : s index < hi' < 2 ^ 32).
  { unfold hi'. destruct (Z.eqb_spec l1 0) as [E1|N1]; [lia|].
    destruct W1 as [->|[j [_ ->]]]; [lia|]. pose proof (Hall j). lia. }
  rewrite (Z.mod_small lo'), (Z.mod_small hi') by lia.
  intros [= <- <-].
  split; [exact Hlo|]. split; [exact Hhi|]. split; [lia|].
  intros j Hr Hn Hsame. destruct (Hj j ltac:(lia) Hn Hsame) as [H0 H1]. split.
  - intros Hlt. specialize (H0 Hlt). unfold lo'.
    destruct (Z.eqb_spec l0 0); lia.
  - intros Hgt. specialize (H1 Hgt). unfold hi'.
    destruct (Z.eqb_spec l1 0); lia.
Qed.

End Bounds.

Lemma bump_search_spec (cinfos : list comux_cinfo_t) (cinfos_len : Z) :
  0 < cinfos_len ->
  forall todo index count lims,
  0 <= index < cinfos_len ->
  exists i c r,
    bump_search cinfos cinfos_len todo index count lims = (i, c, r) /\
    0 <= i < cinfos_len /\
    (c = count + Z.of_nat todo \/
     (c < count + Z.of_nat todo /\
      find_cinfo_sched_bounds cinfos cinfos_len i = Some r)).
Proof.
  intros Hlen. induction todo as [|todo IH]; intros index count lims Hi.
  - exists index, count, lims. cbn [bump_search]. split; [reflexivity|].
    split; [exact Hi|left; lia].
  - cbn [bump_search].
    destruct (find_cinfo_sched_bounds cinfos cinfos_len index) as [range|] eqn:F.
    + exists index, count, range. split; [reflexivity|]. split; [exact Hi|].
      right. split; [lia|exact F].
    + destruct (IH (to_u32 (index + 1) mod cinfos_len) (count + 1) lims
                  ltac:(apply Z.mod_pos_bound; lia)) as (i & c & r & E & Hr & Hc).
      exists i, c, r. split; [exact E|]. split; [exact Hr|].
      destruct Hc as [->|[Hc F']]; [left; lia|right; split; [lia|exact F']].
Qed.

Lemma new_sched_draw_spec (E : environment) (old lo hi : Z) :
  0 <= lo -> lo + 2 <= hi -> hi < 2 ^ 32 ->
  forall turns calls new calls',
  new_sched_draw E turns old (lo, hi) calls = Drawn new calls' ->
  lo <= new < hi /\ new <> old.
Proof.
  intros Hlo Hw Hhi. induction turns as [|turns IH]; intros calls new calls' H.
  - discriminate.
  - cbn [new_sched_draw] in H. unfold and_then, rand in H. cbn [fst snd] in H.
    unfold to_u32 in H. rewrite (Z.mod_small (hi - lo)) in H by lia.
    destruct (Z.eqb_spec (hi - lo) 0); [lia|].
    set (r := rand_values E calls mod (RAND_MAX + 1)) in H.
    pose proof (Z.mod_pos_bound r (hi - lo) ltac:(lia)) as Hr.
    rewrite (Z.mod_small (r mod (hi - lo) + lo)) in H by lia.
    destruct (Z.eqb_spec (r mod (hi - lo) + lo) old) as [Eo|No].
    + eapply IH, H.
    + unfold pure in H. injection H as <- _. split; [lia|exact No].
Qed.

Lemma cinfo_at_update_other (l : list comux_cinfo_t) (i j : Z)
    (f : comux_cinfo_t -> comux_cinfo_t) :
  0 <= i -> 0 <= j -> j <> i -> cinfo_at (cinfo_update l i f) j = cinfo_at l j.
Proof.
  intros Hi Hj Hn. unfold cinfo_at, cinfo_update.
  assert (Hne : Z.to_nat j <> Z.to_nat i) by lia.
  generalize (Z.to_nat j) (Z.to_nat i) Hne. clear.
  induction l as [|c l IH]; intros [|j] [|i] Hne; cbn [update_nth nth];
    try reflexivity; try contradiction.
  apply IH. congruence.
Qed.

Lemma cinfo_at_update_same (l : list comux_cinfo_t) (i : Z)
    (f : comux_cinfo_t -> comux_cinfo_t) :
  0 <= i < Z.of_nat (length l) ->
  cinfo_at (cinfo_update l i f) i = f (cinfo_at l i).
Proof.
  intros Hi. unfold cinfo_at, cinfo_update.
  assert (Hlt : (Z.to_nat i < length l)%nat) by lia.
  generalize (Z.to_nat i) Hlt. clear.
  induction l as [|c l IH]; intros [|i] Hlt; cbn [update_nth nth length] in *;
    try lia; try reflexivity.
  apply IH. lia.
Qed.

(** [mutate_cinfo_sched_bump], on an array of at least [cinfos_len] chunks
    whose [sched] values are all below [2 ^ 32 - 1], either reports that no
    chunk can be moved and leaves the chunks as they were, or it gives one
    chunk a [sched] that differs from the old one and changes nothing
    else. The new value is again below every larger [sched] and above
    every smaller [sched] of the other chunks of the same connection.
    Hence two chunks of one connection whose [sched] values differ are
    still ordered by [sched] the same way afterwards. Chunks of the
    connection whose [sched] equals that of the chosen chunk are left out
    of the bounds: nothing is said about the order among equal values. *)
Theorem sched_bump_keeps_order (E : environment) (fuel : nat)
    (cinfos : list comux_cinfo_t) (cinfos_len : Z) (calls calls' : nat)
    (index : Z) (l' : list comux_cinfo_t) :
  sched_room cinfos -> cinfos_len <= Z.of_nat (length cinfos) ->
  mutate_cinfo_sched_bump E fuel cinfos cinfos_len calls = Drawn (index, l') calls' ->
  (index = -1 /\ l' = cinfos) \/
  (0 <= index < cinfos_len /\
   exists new,
     l' = cinfo_update cinfos index (fun c => set_sched c new) /\
     0 <= new < 2 ^ 32 /\ new <> sched (cinfo_at cinfos index) /\
     sched (cinfo_at l' index) = new /\
     (forall j, 0 <= j < cinfos_len -> j <> index ->
                cinfo_at l' j = cinfo_at cinfos j) /\
     (forall j, 0 <= j < cinfos_len -> j <> index ->
                id (cinfo_at cinfos j) = id (cinfo_at cinfos index) ->
                (sched (cinfo_at cinfos j) < sched (cinfo_at cinfos index) ->
                 sched (cinfo_at cinfos j) < new) /\
                (sched (cinfo_at cinfos index) < sched (cinfo_at cinfos j) ->
                 new < sched (cinfo_at cinfos j))) /\
     (forall j k, 0 <= j < cinfos_len -> 0 <= k < cinfos_len ->
                  id (cinfo_at l' j) = id (cinfo_at cinfos j) /\
                  (id (cinfo_at cinfos j) = id (cinfo_at cinfos k) ->
                   sched (cinfo_at cinfos j) < sched (cinfo_at cinfos k) ->
                   sched (cinfo_at l' j) < sched (cinfo_at l' k)))).
Proof.
  intros Hroom Hsize H. unfold mutate_cinfo_sched_bump, RAND_UNDER in H.
  unfold and_then, rand in H.
  destruct (Z.eqb_spec cinfos_len 0) as [|Hnz]; [discriminate|].
  unfold pure in H. cbv beta iota in H.
  set (r := rand_values E calls mod (RAND_MAX + 1)) in H.
  assert (Hr : 0 <= r) by (apply Z.mod_pos_bound; unfold RAND_MAX; lia).
  destruct (Z.lt_ge_cases cinfos_len 0) as [Hneg|Hpos].
  { (* a negative length: nothing is searched, the count is zero *)
    replace (Z.to_nat cinfos_len) with 0%nat in H by lia. cbn [bump_search] in H.
    destruct (Z.eqb_spec 0 cinfos_len); [lia|].
    destruct fuel as [|fuel]; [discriminate|]. cbn [new_sched_draw] in H.
    unfold and_then, rand in H. cbn [fst snd] in H.
    change (to_u32 (0 - 0)) with 0 in H. discriminate. }
  assert (Hlen : 0 < cinfos_len) by lia.
  destruct (bump_search_spec cinfos cinfos_len Hlen (Z.to_nat cinfos_len)
              (r mod cinfos_len) 0 (0, 0) ltac:(apply Z.mod_pos_bound; lia))
    as (i & c & [lo hi] & Eb & Hi & Hc).
  rewrite Eb in H. rewrite Z2Nat.id in Hc by lia.
  destruct (Z.eqb_spec c cinfos_len) as [Ec|Nc].
  - injection H as <- <- _. now left.
  - destruct Hc as [Hc|[Hc F]]; [lia|].
    destruct (find_cinfo_sched_bounds_spec cinfos i cinfos_len lo hi Hroom Hi F)
      as (Hlo & Hhi & Hw & Hord).
    destruct (new_sched_draw E fuel (sched (cinfo_at cinfos i)) (lo, hi) (S calls))
      as [new calls2| |] eqn:En; try discriminate.
    apply new_sched_draw_spec in En; [|lia|lia|lia].
    injection H as <- <- _. right. split; [exact Hi|].
    set (l' := cinfo_update cinfos i (fun c0 => set_sched c0 new)).
    assert (Hsame : cinfo_at l' i = set_sched (cinfo_at cinfos i) new)
      by (apply cinfo_at_update_same; lia).
    assert (Hother : forall j, 0 <= j < cinfos_len -> j <> i ->
                               cinfo_at l' j = cinfo_at cinfos j)
      by (intros j Hj Hn; apply cinfo_at_update_other; lia).
    assert (Hbounds : forall j, 0 <= j < cinfos_len -> j <> i ->
              id (cinfo_at cinfos j) = id (cinfo_at cinfos i) ->
              (sched (cinfo_at cinfos j) < sched (cinfo_at cinfos i) ->
               sched (cinfo_at cinfos j) < new) /\
              (sched (cinfo_at cinfos i) < sched (cinfo_at cinfos j) ->
               new < sched (cinfo_at cinfos j))).
    { intros j Hj Hn Hs. destruct (Hord j Hj Hn Hs) as [H0 H1]. split.
      - intros Hlt. specialize (H0 Hlt). lia.
      - intros Hgt. specialize (H1 Hgt). lia. }
    exists new. split; [reflexivity|]. split; [lia|]. split; [apply En|].
    split; [now rewrite Hsame|]. split; [exact Hother|]. split; [exact Hbounds|].
    intros j k Hj Hk. split.
    + destruct (Z.eq_dec j i) as [->|Nj]; [now rewrite Hsame|now rewrite Hother].
    + intros Hid Hlt.
      destruct (Z.eq_dec j i) as [Ej|Nj], (Z.eq_dec k i) as [Ek|Nk].
      * subst j k. lia.
      * subst j. rewrite Hsame, (Hother k Hk Nk). cbn [sched set_sched].
        now apply (Hbounds k Hk Nk (eq_sym Hid)).
      * subst k. rewrite Hsame, (Hother j Hj Nj). cbn [sched set_sched].
        now apply (Hbounds j Hj Nj Hid).
      * now rewrite (Hother j Hj Nj), (Hother k Hk Nk).
Qed.

(** With the sample environment the second of two chunks of connection 0,
    scheduled at 0 and at 5, is moved to 3. *)
Lemma sched_bump_keeps_order_witness :
  let l' := [mk_cinfo 0 1 0 0 ["a"%byte] 0; mk_cinfo 0 1 3 0 ["b"%byte] 0] in
  (1 = -1 /\ l' = two_on_one) \/
  (0 <= 1 < 2 /\
   exists new,
     l' = cinfo_update two_on_one 1 (fun c => set_sched c new) /\
     0 <= new < 2 ^ 32 /\ new <> sched (cinfo_at two_on_one 1) /\
     sched (cinfo_at l' 1) = new /\
     (forall j, 0 <= j < 2 -> j <> 1 -> cinfo_at l' j = cinfo_at two_on_one j) /\
     (forall j, 0 <= j < 2 -> j <> 1 ->
                id (cinfo_at two_on_one j) = id (cinfo_at two_on_one 1) ->
                (sched (cinfo_at two_on_one j) < sched (cinfo_at two_on_one 1) ->
                 sched (cinfo_at two_on_one j) < new) /\
                (sched (cinfo_at two_on_one 1) < sched (cinfo_at two_on_one j) ->
                 new < sched (cinfo_at two_on_one j))) /\
     (forall j k, 0 <= j < 2 -> 0 <= k < 2 ->
                  id (cinfo_at l' j) = id (cinfo_at two_on_one j) /\
                  (id (cinfo_at two_on_one j) = id (cinfo_at two_on_one k) ->
                   sched (cinfo_at two_on_one j) < sched (cinfo_at two_on_one k) ->
                   sched (cinfo_at l' j) < sched (cinfo_at l' k)))).
Proof.
  apply (sched_bump_keeps_order sample_environment 10 two_on_one 2 0 2 1
           [mk_cinfo 0 1 0 0 ["a"%byte] 0; mk_cinfo 0 1 3 0 ["b"%byte] 0]).
  - repeat constructor; cbn; lia.
  - cbn; lia.
  - reflexivity.
Defined.

Lemma c_string_text (s : list byte) :
  Forall (fun b => b <> x00) s -> c_string s = s.
Proof.
  induction 1 as [|b s Hb _ IH]; [reflexivity|].
  cbn [c_string]. destruct (Byte.eqb b x00) eqn:E.
  - apply Byte.byte_dec_bl in E. contradiction.
  - now rewrite IH.
Qed.

Lemma snprintf_s_text (E : environment) (array : nat) (n : Z) (src : list byte) :
  Forall (fun b => b <> x00) src -> 0 <= n <= Z.of_nat (length src) ->
  snprintf_s E array n src = firstn (Z.to_nat n) src.
Proof.
  intros Ht Hn. unfold snprintf_s. rewrite c_string_text by exact Ht.
  rewrite firstn_app, length_firstn, Nat.min_l by lia.
  rewrite Nat.sub_diag, firstn_O, app_nil_r, firstn_firstn, Nat.min_id. reflexivity.
Qed.

Lemma split_search_spec (cinfos : list comux_cinfo_t) (cinfos_len : Z) :
  0 < cinfos_len ->
  forall todo index count lims,
  0 <= index < cinfos_len ->
  exists i c r,
    split_search cinfos cinfos_len todo index count lims = (i, c, r) /\
    0 <= i < cinfos_len /\
    (c = count + Z.of_nat todo \/
     (c < count + Z.of_nat todo /\
      find_cinfo_sched_bounds cinfos cinfos_len i = Some r /\
      1 < len (cinfo_at cinfos i))).
Proof.
  intros Hlen. induction todo as [|todo IH]; intros index count lims Hi.
  - exists index, count, lims. cbn [split_search]. split; [reflexivity|].
    split; [exact Hi|left; lia].
  - cbn [split_search].
    destruct (find_cinfo_sched_bounds cinfos cinfos_len index) as [range|] eqn:F.
    + destruct (Z.gtb_spec (len (cinfo_at cinfos index)) 1) as [Hgt|Hle].
      * exists index, count, range. split; [reflexivity|]. split; [exact Hi|].
        right. split; [lia|]. split; [exact F|lia].
      * destruct (IH (to_u32 (index + 1) mod cinfos_len) (count + 1) range
                    ltac:(apply Z.mod_pos_bound; lia)) as (i & c & r & E & Hr & Hc).
        exists i, c, r. split; [exact E|]. split; [exact Hr|].
        destruct Hc as [->|[Hc F']]; [left; lia|right; split; [lia|exact F']].
    + destruct (IH (to_u32 (index + 1) mod cinfos_len) (count + 1) lims
                  ltac:(apply Z.mod_pos_bound; lia)) as (i & c & r & E & Hr & Hc).
      exists i, c, r. split; [exact E|]. split; [exact Hr|].
      destruct Hc as [->|[Hc F']]; [left; lia|right; split; [lia|exact F']].
Qed.

Lemma split_scheds_spec (old lo hi : Z) :
  0 <= lo <= old -> old < hi -> lo + 2 <= hi -> hi < 2 ^ 32 ->
  forall turns calls r calls',
  split_scheds turns old (to_u32 (old + 1)) hi calls = Drawn r calls' ->
  lo <= fst r /\ snd r = fst r + 1 /\ snd r < hi /\ fst r <= old.
Proof.
  intros Hlo Hold Hw Hhi turns calls r calls' H.
  unfold to_u32 in H. rewrite (Z.mod_small (old + 1)) in H by lia.
  destruct turns as [|turns]; [discriminate|]. cbn [split_scheds] in H.
  destruct (Z.geb_spec (old + 1) hi) as [Hge|Hlt].
  - unfold to_u32 in H. rewrite !Z.mod_small in H by lia.
    destruct turns as [|turns]; [discriminate|]. cbn [split_scheds] in H.
    replace (old + 1 - 1) with old in H by lia.
    destruct (Z.geb_spec old hi); [lia|].
    unfold pure in H. injection H as <- _. cbn [fst snd]. lia.
  - unfold pure in H. injection H as <- _. cbn [fst snd]. lia.
Qed.

Lemma Forall_skipn_all {A : Type} (P : A -> Prop) (l : list A) :
  Forall P l -> forall n, Forall P (skipn n l).
Proof.
  induction 1 as [|x l Hx Hl IH]; intros [|n]; cbn [skipn]; auto.
Qed.

Lemma and_then_Drawn {A B : Type} (m : draw A) (k : A -> draw B)
    (calls calls'' : nat) (b : B) :
  and_then m k calls = Drawn b calls'' ->
  exists a calls', m calls = Drawn a calls' /\ k a calls' = Drawn b calls''.
Proof.
  unfold and_then. destruct (m calls) as [a calls'| |]; try discriminate.
  intros H. now exists a, calls'.
Qed.

Lemma RAND_UNDER_Drawn (E : environment) (ceiling : Z) (calls calls' : nat) (v : Z) :
  RAND_UNDER E ceiling calls = Drawn v calls' ->
  ceiling <> 0 /\ (0 < ceiling -> 0 <= v < ceiling).
Proof.
  unfold RAND_UNDER, and_then, rand.
  destruct (Z.eqb_spec ceiling 0) as [|Hnz]; [discriminate|].
  unfold pure. intros [= <- _]. split; [exact Hnz|]. intros Hc.
  apply Z.mod_pos_bound, Hc.
Qed.

Lemma pure_Drawn {A : Type} (a b : A) (calls calls' : nat) :
  pure a calls = Drawn b calls' -> a = b.
Proof. unfold pure. now intros [= -> _]. Qed.

Lemma cinfo_at_text (l : list comux_cinfo_t) (i : Z) :
  Forall text_chunk l -> text_chunk (cinfo_at l i).
Proof.
  intros H. unfold cinfo_at.
  destruct (Nat.lt_ge_cases (Z.to_nat i) (length l)) as [Hlt|Hge].
  - rewrite Forall_forall in H. apply H, nth_In, Hlt.
  - rewrite nth_overflow by exact Hge. repeat split; cbn; try lia. constructor.
Qed.

Lemma land_await (f : Z) :
  Z.land f COMUX_CHUNK_FLAGS_AWAIT_RESPONSE = if Z.testbit f 0 then 1 else 0.
Proof.
  unfold COMUX_CHUNK_FLAGS_AWAIT_RESPONSE. change 1 with (Z.ones 1) at 1.
  rewrite Z.land_ones by lia. change (2 ^ 1) with 2.
  rewrite <- Z.bit0_mod. now destruct (Z.testbit f 0).
Qed.

Lemma await_moves (f : Z) :
  let has := negb (Z.land f COMUX_CHUNK_FLAGS_AWAIT_RESPONSE =? 0) in
  let left := if has then Z.lxor f COMUX_CHUNK_FLAGS_AWAIT_RESPONSE else f in
  let new := if has then Z.lor 0 COMUX_CHUNK_FLAGS_AWAIT_RESPONSE else 0 in
  new = Z.land f COMUX_CHUNK_FLAGS_AWAIT_RESPONSE /\
  Z.land left COMUX_CHUNK_FLAGS_AWAIT_RESPONSE = 0 /\
  Z.lor left new = f.
Proof.
  cbv zeta. rewrite (land_await f).
  destruct (Z.testbit f 0) eqn:Hb; cbn [Z.eqb negb].
  - split; [reflexivity|]. split.
    + rewrite land_await, Z.lxor_spec, Hb. reflexivity.
    + apply Z.bits_inj'. intros n Hn.
      rewrite Z.lor_spec, Z.lxor_spec, Z.lor_0_l.
      unfold COMUX_CHUNK_FLAGS_AWAIT_RESPONSE.
      destruct (Z.eq_dec n 0) as [->|Hn0].
      * rewrite Hb. reflexivity.
      * rewrite (Z.bits_above_log2 1 n) by (cbn; lia).
        now rewrite xorb_false_r, orb_false_r.
  - split; [reflexivity|]. split; [now rewrite land_await, Hb|apply Z.lor_0_r].
Qed.

(** [mutate_cinfo_split] either reports that no chunk can be split and
    leaves everything as it was, or it cuts the payload of one chunk in
    two parts that are not empty: the chunk keeps the first part and the
    new chunk, to be put right behind it, takes the rest, on the same
    connection and scheduled one step later. Both are scheduled above
    every smaller and below every larger [sched] of the other chunks of
    the connection. This holds for chunks whose payload holds no
    terminator byte. *)
Theorem split_keeps_payload_and_order (E : environment) (fuel : nat)
    (cinfos : list comux_cinfo_t) (cinfos_len : Z) (new0 : comux_cinfo_t)
    (calls calls' : nat) (index : Z) (l' : list comux_cinfo_t)
    (new : comux_cinfo_t) :
  sched_room cinfos -> Forall text_chunk cinfos ->
  0 <= cinfos_len < 2 ^ 32 ->
  mutate_cinfo_split E fuel cinfos cinfos_len new0 calls
    = Drawn (index, l', new) calls' ->
  (index = -1 /\ l' = cinfos /\ new = new0) \/
  (exists i left,
     0 <= i < cinfos_len /\ index = i + 1 /\
     l' = cinfo_update cinfos i (fun _ => left) /\
     let old := cinfo_at cinfos i in
     data left ++ data new = data old /\
     len left = Z.of_nat (length (data left)) /\
     len new = Z.of_nat (length (data new)) /\
     0 < len left /\ 0 < len new /\
     id left = id old /\ id new = id old /\
     sched left <= sched old /\ sched new = sched left + 1 /\
     flags new = Z.land (flags old) COMUX_CHUNK_FLAGS_AWAIT_RESPONSE /\
     Z.land (flags left) COMUX_CHUNK_FLAGS_AWAIT_RESPONSE = 0 /\
     Z.lor (flags left) (flags new) = flags old /\
     (forall j, 0 <= j < cinfos_len -> j <> i ->
                id (cinfo_at cinfos j) = id old ->
                (sched (cinfo_at cinfos j) < sched old ->
                 sched (cinfo_at cinfos j) < sched left) /\
                (sched old < sched (cinfo_at cinfos j) ->
                 sched new < sched (cinfo_at cinfos j)))).
Proof.
  intros Hroom Htext Hmax H. unfold mutate_cinfo_split in H.
  apply and_then_Drawn in H. destruct H as (i0 & c1 & Hi0 & H).
  apply RAND_UNDER_Drawn in Hi0. destruct Hi0 as [Hnz Hi0].
  assert (Hlen : 0 < cinfos_len) by lia. specialize (Hi0 Hlen).
  destruct (split_search_spec cinfos cinfos_len Hlen (Z.to_nat cinfos_len)
              i0 0 (0, 0) Hi0) as (i & c & [lo hi] & Es & Hi & Hc).
  rewrite Es in H. rewrite Z2Nat.id in Hc by lia.
  destruct (Z.eqb_spec c cinfos_len) as [Ec|Nc].
  { apply pure_Drawn in H. injection H as <- <- <-. now left. }
  destruct Hc as [Hc|(Hc & F & Hl1)]; [lia|].
  destruct (find_cinfo_sched_bounds_spec cinfos i cinfos_len lo hi Hroom Hi F)
    as (Hlo & Hhi & Hw & Hord).
  destruct (cinfo_at_text cinfos i Htext) as (Hdl & Hd63 & Hnul).

  set (old := cinfo_at cinfos i) in *.
  assert (Eold : cinfo_at cinfos i = old) by reflexivity. clearbody old.
  apply and_then_Drawn in H. destruct H as (r & c2 & Hr & H).
  apply RAND_UNDER_Drawn in Hr. destruct Hr as [_ Hr].
  unfold to_u64 in Hr. rewrite !(Z.mod_small (len old - 1)) in Hr by lia.
  specialize (Hr ltac:(lia)).
  unfold to_u64 in H. rewrite (Z.mod_small (r + 1)) in H by lia.
  rewrite (Z.mod_small (len old - (r + 1))) in H by lia.
  rewrite (snprintf_s_text E 0 (r + 1) (data old)) in H by (auto; lia).
  rewrite (snprintf_s_text E 1 (len old - (r + 1))) in H
    by (first [rewrite length_skipn; lia|now apply Forall_skipn_all]).
  apply and_then_Drawn in H. destruct H as ([os ns] & c3 & Hss & H).
  cbn [sched comux_cinfo_data_appendn set_len set_data snd] in Hss.
  apply (split_scheds_spec (sched old) lo hi) in Hss; try lia.
  cbn [fst snd] in Hss. destruct Hss as (Hos & Hns & Hnh & Hoo).
  right. exists i.
  set (left0 := comux_cinfo_data_appendn (set_len (set_data old []) 0)
                  (firstn (Z.to_nat (r + 1)) (data old))) in *.
  set (right0 := comux_cinfo_data_appendn comux_cinfo_init
                   (firstn (Z.to_nat (len old - (r + 1)))
                           (skipn (Z.to_nat (r + 1)) (data old)))) in *.
  assert (Lleft : data left0 = firstn (Z.to_nat (r + 1)) (data old) /\
                  len left0 = r + 1 /\ id left0 = id old /\ flags left0 = flags old).
  { unfold left0, comux_cinfo_data_appendn. cbn. 
    rewrite length_firstn. unfold to_u64. rewrite Z.mod_small by lia.
    repeat split; lia. }
  assert (Lright : data right0 = skipn (Z.to_nat (r + 1)) (data old) /\
                   len right0 = len old - (r + 1) /\ flags right0 = 0).
  { unfold right0, comux_cinfo_data_appendn. cbn [data len set_len set_data comux_cinfo_init app flags].
    rewrite firstn_all2 by (rewrite length_skipn; lia).
    rewrite length_skipn. unfold to_u64. rewrite Z.mod_small by lia.
    repeat split; lia. }
  destruct Lleft as (Dl & Ll & Il & Fl). destruct Lright as (Dr & Lr & Fr).
  assert (Hcat : firstn (Z.to_nat (r + 1)) (data old)
                 ++ skipn (Z.to_nat (r + 1)) (data old) = data old)
    by apply firstn_skipn.
  assert (Hll : Z.of_nat (length (firstn (Z.to_nat (r + 1)) (data old))) = r + 1)
    by (rewrite length_firstn; lia).
  assert (Hlr : Z.of_nat (length (skipn (Z.to_nat (r + 1)) (data old)))
                = len old - (r + 1))
    by (rewrite length_skipn; lia).
  assert (Hidx : to_u32 (i + 1) = i + 1)
    by (unfold to_u32; rewrite Z.mod_small; lia).
  pose proof (await_moves (flags old)) as Haw. cbv zeta in Haw.
  change (flags (set_sched left0 os)) with (flags left0) in H.
  change (flags (set_id (set_sched right0 ns) (id (set_sched left0 os))))
    with (flags right0) in H.
  rewrite Fl, Fr in H.
  destruct (negb (Z.land (flags old) COMUX_CHUNK_FLAGS_AWAIT_RESPONSE =? 0));
    apply pure_Drawn in H; injection H as <- <- <-;
    (eexists; split; [exact Hi|]; split; [exact Hidx|]; split; [reflexivity|];
     cbv zeta; rewrite !Eold;
     cbn [data len id sched flags set_flags set_sched set_id];
     rewrite ?Dl, ?Dr, ?Ll, ?Lr, ?Il, ?Fl, ?Fr;
     split; [exact Hcat|]; split; [now rewrite Hll|]; split; [now rewrite Hlr|];
     split; [lia|]; split; [lia|]; split; [reflexivity|]; split; [reflexivity|];
     split; [lia|]; split; [lia|];
     split; [apply Haw|]; split; [apply Haw|]; split; [apply Haw|];
     intros j Hj Hn Hs; destruct (Hord j Hj Hn Hs) as [H0 H1]; split;
     [intros Hlt; specialize (H0 Hlt); lia|intros Hgt; specialize (H1 Hgt); lia]).
Qed.

Lemma split_keeps_payload_and_order_witness :
  (1 = -1 /\ [split_sample_left] = split_sample /\
   split_sample_new = comux_cinfo_init) \/
  (exists i left,
     0 <= i < 1 /\ 1 = i + 1 /\
     [split_sample_left] = cinfo_update split_sample i (fun _ => left) /\
     let old := cinfo_at split_sample i in
     data left ++ data split_sample_new = data old /\
     len left = Z.of_nat (length (data left)) /\
     len split_sample_new = Z.of_nat (length (data split_sample_new)) /\
     0 < len left /\ 0 < len split_sample_new /\
     id left = id old /\ id split_sample_new = id old /\
     sched left <= sched old /\ sched split_sample_new = sched left + 1 /\
     flags split_sample_new = Z.land (flags old) COMUX_CHUNK_FLAGS_AWAIT_RESPONSE /\
     Z.land (flags left) COMUX_CHUNK_FLAGS_AWAIT_RESPONSE = 0 /\
     Z.lor (flags left) (flags split_sample_new) = flags old /\
     (forall j, 0 <= j < 1 -> j <> i ->
                id (cinfo_at split_sample j) = id old ->
                (sched (cinfo_at split_sample j) < sched old ->
                 sched (cinfo_at split_sample j) < sched left) /\
                (sched old < sched (cinfo_at split_sample j) ->
                 sched split_sample_new < sched (cinfo_at split_sample j)))).
Proof.
  apply (split_keeps_payload_and_order sample_environment 10 split_sample 1
           comux_cinfo_init 0 2 1 [split_sample_left] split_sample_new).
  - repeat constructor; cbn; lia.
  - repeat constructor; cbn; try lia; discriminate.
  - lia.
  - reflexivity.
Defined.

Lemma splice_search_spec (cinfos : list comux_cinfo_t) (n : Z) (todo : nat) :
  forall cid count cid' count',
  0 <= cid < n -> n < 2 ^ 32 ->
  splice_search cinfos n todo cid count = (cid', count') ->
  0 <= cid' < n /\
  ((count' < count + Z.of_nat todo /\ cid_count cinfos cid' > 1) \/
   (count' = count + Z.of_nat todo /\
    forall k, 0 <= k < Z.of_nat todo -> cid_count cinfos ((cid + k) mod n) <= 1)).
Proof.
  induction todo as [|todo IH]; intros cid count cid' count' Hc Hn E.
  - cbn in E. injection E as <- <-. split; [exact Hc|]. right. split; [lia|].
    intros k Hk. lia.
  - cbn [splice_search] in E.
    destruct (Z.gtb_spec (cid_count cinfos cid) 1) as [Hg|Hg].
    + injection E as <- <-. split; [exact Hc|]. left. split; lia.
    + assert (Hu : to_u32 (cid + 1) = cid + 1).
      { unfold to_u32. apply Z.mod_small. lia. }
      rewrite Hu in E.
      apply IH in E; [|apply Z.mod_pos_bound; lia|exact Hn].
      destruct E as [R [[E1 E2]|[E1 E2]]]; (split; [exact R|]).
      * left. split; [lia|exact E2].
      * right. split; [lia|]. intros k Hk.
        destruct (Z.eq_dec k 0) as [->|Hk0].
        -- rewrite Z.add_0_r, Z.mod_small by lia. exact Hg.
        -- specialize (E2 (k - 1) ltac:(lia)).
           rewrite Zplus_mod_idemp_l in E2.
           replace (cid + 1 + (k - 1)) with (cid + k) in E2 by lia. exact E2.
Qed.

Lemma conn_indexes_length (cinfos : list comux_cinfo_t) (cid : Z) : forall i,
  Z.of_nat (length (conn_indexes cinfos cid i)) = cid_count cinfos cid.
Proof.
  unfold cid_count. induction cinfos as [|c rest IH]; intros i; [reflexivity|].
  cbn [conn_indexes filter]. destruct (id c =? cid); cbn [length]; rewrite ?Nat2Z.inj_succ, IH; reflexivity.
Qed.

Lemma conn_indexes_first (cinfos : list comux_cinfo_t) (cid : Z) : forall i,
  (0 < length (conn_indexes cinfos cid i))%nat ->
  exists B c1 C, cinfos = B ++ c1 :: C /\ id c1 = cid /\
                 Forall (fun c => id c <> cid) B /\
                 nth 0 (conn_indexes cinfos cid i) 0 = i + Z.of_nat (length B).
Proof.
  induction cinfos as [|c rest IH]; intros i H; [cbn in H; lia|].
  cbn [conn_indexes] in *. destruct (Z.eqb_spec (id c) cid) as [Ec|Ec].
  - exists [], c, rest. cbn. repeat split; auto. lia.
  - destruct (IH (i + 1) H) as (B & c1 & C & E1 & E2 & E3 & E4).
    exists (c :: B), c1, C. rewrite E4, E1. cbn [app length].
    repeat split; auto. lia.
Qed.

Lemma conn_indexes_pair (cinfos : list comux_cinfo_t) (cid : Z) : forall i k,
  (S k < length (conn_indexes cinfos cid i))%nat ->
  exists A c0 B c1 C,
    cinfos = A ++ c0 :: B ++ c1 :: C /\ id c0 = cid /\ id c1 = cid /\
    Forall (fun c => id c <> cid) B /\
    nth k (conn_indexes cinfos cid i) 0 = i + Z.of_nat (length A) /\
    nth (S k) (conn_indexes cinfos cid i) 0
      = i + Z.of_nat (length A) + 1 + Z.of_nat (length B).
Proof.
  induction cinfos as [|c rest IH]; intros i k H; [cbn in H; lia|].
  cbn [conn_indexes] in *. destruct (Z.eqb_spec (id c) cid) as [Ec|Ec].
  - cbn [length] in H. destruct k as [|k].
    + destruct (conn_indexes_first rest cid (i + 1) ltac:(lia))
        as (B & c1 & C & E1 & E2 & E3 & E4).
      exists [], c, B, c1, C. cbn [app length nth]. rewrite E4, E1.
      repeat split; auto; lia.
    + destruct (IH (i + 1) k ltac:(lia)) as (A & c0 & B & c1 & C & E1 & E2 & E3 & E4 & E5 & E6).
      exists (c :: A), c0, B, c1, C. cbn [nth]. rewrite E5, E6, E1.
      cbn [app length]. repeat split; auto; lia.
  - destruct (IH (i + 1) k H) as (A & c0 & B & c1 & C & E1 & E2 & E3 & E4 & E5 & E6).
    exists (c :: A), c0, B, c1, C. rewrite E5, E6, E1.
    cbn [app length]. repeat split; auto; lia.
Qed.

Lemma update_nth_app {A : Type} (f : A -> A) (l : list A) (x : A) (r : list A) :
  update_nth (length l) f (l ++ x :: r) = l ++ f x :: r.
Proof. induction l as [|y l IH]; cbn; [reflexivity|now rewrite IH]. Qed.

Lemma conn_stream_app (cid : Z) (l1 l2 : list comux_cinfo_t) :
  conn_stream cid (l1 ++ l2) = conn_stream cid l1 ++ conn_stream cid l2.
Proof. unfold conn_stream. now rewrite filter_app, map_app, concat_app. Qed.

Lemma conn_stream_none (cid : Z) (l : list comux_cinfo_t) :
  Forall (fun c => id c <> cid) l -> conn_stream cid l = [].
Proof.
  unfold conn_stream. induction 1 as [|c l Hc _ IH]; [reflexivity|].
  cbn [filter]. destruct (Z.eqb_spec (id c) cid); [contradiction|exact IH].
Qed.

Lemma conn_stream_cons (cid : Z) (c : comux_cinfo_t) (l : list comux_cinfo_t) :
  conn_stream cid (c :: l)
  = (if id c =? cid then data c else []) ++ conn_stream cid l.
Proof. unfold conn_stream. cbn [filter]. now destruct (id c =? cid). Qed.

Lemma splice_stream (A B C : list comux_cinfo_t) (c0 c1 : comux_cinfo_t) (cid : Z) :
  id c1 = id c0 -> Forall (fun c => id c <> id c0) B ->
  conn_stream cid (A ++ spliced c0 c1 :: B ++ C)
  = conn_stream cid (A ++ c0 :: B ++ c1 :: C).
Proof.
  intros E1 HB.
  rewrite !conn_stream_app, !conn_stream_cons, !conn_stream_app, conn_stream_cons.
  cbn [id data spliced]. rewrite E1.
  destruct (Z.eqb_spec (id c0) cid) as [<-|Hne]; [|reflexivity].
  rewrite (conn_stream_none _ B HB). cbn [app]. now rewrite <- app_assoc.
Qed.

(** What [mutate_cinfo_splice] returns. *)
Lemma mutate_cinfo_splice_spec (E : environment) (header : comux_header_t)
    (cinfos : list comux_cinfo_t) (calls calls' : nat) (idx : Z)
    (l' : list comux_cinfo_t) :
  0 < num_conns header < 2 ^ 32 -> Z.of_nat (length cinfos) < 2 ^ 32 ->
  mutate_cinfo_splice E header cinfos (Z.of_nat (length cinfos)) calls
    = Drawn (idx, l') calls' ->
  (idx = -1 /\ l' = cinfos /\
   forall cid, 0 <= cid < num_conns header -> cid_count cinfos cid <= 1) \/
  (exists A c0 B c1 C,
     cinfos = A ++ c0 :: B ++ c1 :: C /\
     idx = Z.of_nat (length A) + 1 + Z.of_nat (length B) /\
     0 <= id c0 < num_conns header /\ id c1 = id c0 /\
     Forall (fun c => id c <> id c0) B /\
     l' = A ++ spliced c0 c1 :: B ++ c1 :: C).
Proof.
  intros Hn Hlen32 H. unfold mutate_cinfo_splice in H.
  destruct (Z.ltb_spec (Z.of_nat (length cinfos)) 2) as [Hl|Hl].
  { apply pure_Drawn in H. injection H as <- <-. left. split; [reflexivity|].
    split; [reflexivity|]. intros cid _. unfold cid_count.
    pose proof (filter_length_le (fun c => id c =? cid) cinfos). lia. }
  apply and_then_Drawn in H. destruct H as (cid0 & calls1 & Hr & H).
  apply RAND_UNDER_Drawn in Hr. destruct Hr as [_ Hr]. specialize (Hr ltac:(lia)).
  destruct (splice_search cinfos (num_conns header) (Z.to_nat (num_conns header)) cid0 0)
    as [cid count] eqn:Es.
  apply splice_search_spec in Es; [|exact Hr|lia].
  rewrite Z2Nat.id in Es by lia. destruct Es as [Rc Es].
  destruct (Z.eqb_spec count (num_conns header)) as [Hcount|Hcount].
  { apply pure_Drawn in H. injection H as <- <-. left. split; [reflexivity|].
    split; [reflexivity|]. destruct Es as [[Es _]|[_ Es]]; [lia|].
    intros c Hc. specialize (Es ((c - cid0) mod num_conns header)
                                ltac:(apply Z.mod_pos_bound; lia)).
    rewrite Zplus_mod_idemp_r in Es.
    replace (cid0 + (c - cid0)) with c in Es by lia.
    rewrite Z.mod_small in Es by lia. exact Es. }
  destruct Es as [[_ Es]|[Es _]]; [|lia].
  apply and_then_Drawn in H. destruct H as (pair_index & calls2 & Hr2 & H).
  pose proof (conn_indexes_length cinfos cid 0) as Hlen.
  assert (Hu : to_u32 (Z.of_nat (length (conn_indexes cinfos cid 0)) - 1)
               = Z.of_nat (length (conn_indexes cinfos cid 0)) - 1).
  { unfold to_u32. apply Z.mod_small.
    unfold cid_count in *.
    pose proof (filter_length_le (fun c => id c =? cid) cinfos).
    lia. }
  rewrite Hu in Hr2.
  apply RAND_UNDER_Drawn in Hr2. destruct Hr2 as [_ Hr2]. specialize (Hr2 ltac:(lia)).
  apply pure_Drawn in H. injection H as <- <-.
  destruct (conn_indexes_pair cinfos cid 0 (Z.to_nat pair_index) ltac:(lia))
    as (A & c0 & B & c1 & C & E1 & E2 & E3 & E4 & E5 & E6).
  replace (Z.to_nat (pair_index + 1)) with (S (Z.to_nat pair_index)) by lia.
  rewrite E5, E6. right. exists A, c0, B, c1, C.
  assert (Hat : cinfo_at cinfos (0 + Z.of_nat (length A) + 1 + Z.of_nat (length B)) = c1).
  { unfold cinfo_at. rewrite E1.
    replace (Z.to_nat _) with (length A + S (length B))%nat by lia.
    rewrite app_nth2_plus. cbn [nth].
    replace (length B) with (length B + 0)%nat by lia.
    now rewrite app_nth2_plus. }
  rewrite Hat.
  assert (Hl' : (if negb (Z.land (flags c1) COMUX_CHUNK_FLAGS_AWAIT_RESPONSE =? 0)
     then cinfo_update
            (cinfo_update cinfos (0 + Z.of_nat (length A))
               (fun c => comux_cinfo_data_appendn c (data c1)))
            (0 + Z.of_nat (length A))
            (fun c => set_flags c (Z.lor (flags c) COMUX_CHUNK_FLAGS_AWAIT_RESPONSE))
     else cinfo_update cinfos (0 + Z.of_nat (length A))
            (fun c => comux_cinfo_data_appendn c (data c1)))
     = A ++ spliced c0 c1 :: B ++ c1 :: C).
  { unfold cinfo_update. replace (Z.to_nat (0 + Z.of_nat (length A))) with (length A) by lia.
    rewrite E1, update_nth_app. unfold spliced.
    destruct (Z.land (flags c1) COMUX_CHUNK_FLAGS_AWAIT_RESPONSE =? 0); cbn [negb].
    - reflexivity.
    - rewrite update_nth_app. reflexivity. }
  rewrite Hl'.
  split; [exact E1|]. split; [lia|]. split; [rewrite E2; exact Rc|].
  split; [congruence|]. split; [rewrite E2; exact E4|]. reflexivity.
Qed.

(** [mutate_cinfo_splice] either returns -1 and leaves the chunks as they
    are, which it does only when no connection has two chunks, or it joins
    two chunks of one connection that are next to each other among that
    connection's chunks in the array: the first one gets the second one's
    payload behind its own and inherits its [AWAIT_RESPONSE] flag, the
    index returned is that of the second one, and every connection carries
    the same payload once the chunk at that index is left out. *)
Theorem splice_joins_neighbours (E : environment) (header : comux_header_t)
    (cinfos : list comux_cinfo_t) (calls calls' : nat) (idx : Z)
    (l' : list comux_cinfo_t) :
  0 < num_conns header < 2 ^ 32 -> Z.of_nat (length cinfos) < 2 ^ 32 ->
  mutate_cinfo_splice E header cinfos (Z.of_nat (length cinfos)) calls
    = Drawn (idx, l') calls' ->
  (idx = -1 /\ l' = cinfos /\
   forall cid, 0 <= cid < num_conns header -> cid_count cinfos cid <= 1) \/
  (exists A c0 B c1 C,
     cinfos = A ++ c0 :: B ++ c1 :: C /\
     idx = Z.of_nat (length A) + 1 + Z.of_nat (length B) /\
     0 <= id c0 < num_conns header /\ id c1 = id c0 /\
     Forall (fun c => id c <> id c0) B /\
     l' = A ++ spliced c0 c1 :: B ++ c1 :: C /\
     forall cid, conn_stream cid (drop_at idx l') = conn_stream cid cinfos).
Proof.
  intros Hn Hlen H.
  destruct (mutate_cinfo_splice_spec E header cinfos calls calls' idx l' Hn Hlen H)
    as [Hfail|(A & c0 & B & c1 & C & E1 & Ei & Hr & Hid & HB & El)];
    [left; exact Hfail|right].
  exists A, c0, B, c1, C. repeat (split; [assumption|]).
  intros cid. subst idx l'. unfold drop_at.
  replace (Z.to_nat (Z.of_nat (length A) + 1 + Z.of_nat (length B)))
    with (length (A ++ spliced c0 c1 :: B)) by (rewrite length_app; cbn [length]; lia).
  replace (A ++ spliced c0 c1 :: B ++ c1 :: C)
    with ((A ++ spliced c0 c1 :: B) ++ c1 :: C) by (now rewrite <- app_assoc).
  rewrite firstn_app, Nat.sub_diag, firstn_all, firstn_O, app_nil_r.
  replace (S (length (A ++ spliced c0 c1 :: B)))
    with (length ((A ++ spliced c0 c1 :: B) ++ [c1])) by (rewrite !length_app; cbn [length]; lia).
  replace ((A ++ spliced c0 c1 :: B) ++ c1 :: C)
    with (((A ++ spliced c0 c1 :: B) ++ [c1]) ++ C) by (now rewrite <- !app_assoc).
  rewrite skipn_app, skipn_all, Nat.sub_diag, skipn_O. cbn [app].
  rewrite <- app_assoc. cbn [app]. rewrite E1.
  apply splice_stream; assumption.
Qed.

Lemma splice_joins_neighbours_witness :
  (1 = -1 /\ [mk_cinfo 0 2 0 0 ["a"; "b"]%byte 0; mk_cinfo 0 1 5 0 ["b"%byte] 0]
             = two_on_one /\
   forall cid, 0 <= cid < 1 -> cid_count two_on_one cid <= 1) \/
  (exists A c0 B c1 C,
     two_on_one = A ++ c0 :: B ++ c1 :: C /\
     1 = Z.of_nat (length A) + 1 + Z.of_nat (length B) /\
     0 <= id c0 < 1 /\ id c1 = id c0 /\
     Forall (fun c => id c <> id c0) B /\
     [mk_cinfo 0 2 0 0 ["a"; "b"]%byte 0; mk_cinfo 0 1 5 0 ["b"%byte] 0]
       = A ++ spliced c0 c1 :: B ++ c1 :: C /\
     forall cid,
       conn_stream cid
         (drop_at 1 [mk_cinfo 0 2 0 0 ["a"; "b"]%byte 0;
                     mk_cinfo 0 1 5 0 ["b"%byte] 0])
       = conn_stream cid two_on_one).
Proof.
  apply (splice_joins_neighbours sample_environment (mk_header COMUX_MAGIC 0 1 2)
           two_on_one 0 2 1
           [mk_cinfo 0 2 0 0 ["a"; "b"]%byte 0; mk_cinfo 0 1 5 0 ["b"%byte] 0]).
  - cbn; lia.
  - cbn; lia.
  - reflexivity.
Defined.

(** The chunks the writing loop has yet to write when it is at index [i]
    with [l] the chunks from [i] on. *)
Fixpoint pending (new : comux_cinfo_t) (del nci i : Z) (l : list comux_cinfo_t)
  : list comux_cinfo_t :=
  match l with
  | [] => if nci =? i then [new] else []
  | c :: rest =>
      if del =? i then pending new del nci (i + 1) rest
      else (if nci =? i then [new] else []) ++ c :: pending new del nci (i + 1) rest
  end.

Lemma pending_past (new : comux_cinfo_t) (del nci : Z) (l : list comux_cinfo_t) :
  forall i, 0 <= i -> nci < i -> pending new del nci i l = pending new del (-1) i l.
Proof.
  induction l as [|c rest IH]; intros i Hi H; cbn [pending].
  - destruct (Z.eqb_spec nci i); [lia|]. destruct (Z.eqb_spec (-1) i); [lia|reflexivity].
  - rewrite (IH (i + 1)) by lia.
    destruct (Z.eqb_spec nci i); [lia|]. destruct (Z.eqb_spec (-1) i); [lia|reflexivity].
Qed.

Lemma pending_del_past (new : comux_cinfo_t) (del nci : Z) (l : list comux_cinfo_t) :
  forall i, 0 <= i -> del < i -> pending new del nci i l = pending new (-1) nci i l.
Proof.
  induction l as [|c rest IH]; intros i Hi H; cbn [pending]; [reflexivity|].
  rewrite (IH (i + 1)) by lia.
  destruct (Z.eqb_spec del i); [lia|]. destruct (Z.eqb_spec (-1) i); [lia|reflexivity].
Qed.

Lemma pending_plain (new : comux_cinfo_t) (l : list comux_cinfo_t) :
  forall i, 0 <= i -> pending new (-1) (-1) i l = l.
Proof.
  induction l as [|c rest IH]; intros i H; cbn [pending];
    (destruct (Z.eqb_spec (-1) i); [lia|]); [reflexivity|].
  cbn [app]. now rewrite IH by lia.
Qed.

Lemma pending_new (new : comux_cinfo_t) (l : list comux_cinfo_t) :
  forall i k, 0 <= i -> (k <= length l)%nat ->
  pending new (-1) (i + Z.of_nat k) i l = firstn k l ++ new :: skipn k l.
Proof.
  induction l as [|c rest IH]; intros i k Hi Hk.
  - cbn [length] in Hk. replace k with 0%nat by lia. cbn.
    rewrite Z.add_0_r, Z.eqb_refl. reflexivity.
  - cbn [pending]. destruct (Z.eqb_spec (-1) i); [lia|].
    destruct k as [|k].
    + rewrite Z.add_0_r, Z.eqb_refl. cbn [firstn skipn app].
      rewrite pending_past by lia. now rewrite pending_plain by lia.
    + destruct (Z.eqb_spec (i + Z.of_nat (S k)) i); [lia|].
      cbn [firstn skipn app length] in *.
      replace (i + Z.of_nat (S k)) with (i + 1 + Z.of_nat k) by lia.
      now rewrite IH by lia.
Qed.

Lemma pending_del (new : comux_cinfo_t) (l : list comux_cinfo_t) :
  forall i k, 0 <= i ->
  pending new (i + Z.of_nat k) (-1) i l = firstn k l ++ skipn (S k) l.
Proof.
  induction l as [|c rest IH]; intros i k Hi.
  - cbn [pending]. destruct (Z.eqb_spec (-1) i); [lia|].
    now rewrite firstn_nil, skipn_nil.
  - cbn [pending]. destruct (Z.eqb_spec (-1) i); [lia|].
    destruct k as [|k].
    + rewrite Z.add_0_r, Z.eqb_refl. cbn [firstn skipn app].
      rewrite pending_del_past by lia. now rewrite pending_plain by lia.
    + destruct (Z.eqb_spec (i + Z.of_nat (S k)) i); [lia|].
      cbn [firstn skipn app].
      replace (i + Z.of_nat (S k)) with (i + 1 + Z.of_nat k) by lia.
      now rewrite IH by lia.
Qed.

Lemma pending_assembled (n : Z) (m : mutation) :
  mutation_shape n m ->
  pending (new_cinfo m) (delete_cinfo_index m) (new_cinfo_index m) 0 (cinfos m)
  = assembled m.
Proof.
  intros [Hl [[H1 H2]|[[H1 H2]|[H1 H2]]]]; unfold assembled; rewrite ?H1, ?H2.
  - cbn. now apply pending_plain.
  - destruct (Z.gtb_spec (new_cinfo_index m) (-1)); [|lia].
    rewrite <- (Z2Nat.id (new_cinfo_index m)) at 1 by lia.
    apply (pending_new _ _ 0); lia.
  - cbn. unfold drop_at.
    destruct (Z.gtb_spec (delete_cinfo_index m) (-1)); [|lia].
    rewrite <- (Z2Nat.id (delete_cinfo_index m)) at 1 by lia.
    apply (pending_del _ _ 0); lia.
Qed.

Lemma assembled_length (n : Z) (m : mutation) :
  mutation_shape n m ->
  Z.of_nat (length (assembled m))
  = if new_cinfo_index m >? -1 then n + 1
    else if delete_cinfo_index m >? -1 then n - 1 else n.
Proof.
  intros [Hl [[H1 H2]|[[H1 H2]|[H1 H2]]]]; unfold assembled; rewrite ?H1, ?H2.
  - cbn. exact Hl.
  - destruct (Z.gtb_spec (new_cinfo_index m) (-1)); [|lia].
    rewrite length_app. cbn [length]. rewrite length_firstn, length_skipn. lia.
  - cbn. destruct (Z.gtb_spec (delete_cinfo_index m) (-1)); [|lia].
    unfold drop_at. rewrite length_app, length_firstn, length_skipn. lia.
Qed.

Lemma skipn_cinfo_at (l : list comux_cinfo_t) (i : Z) :
  0 <= i < Z.of_nat (length l) ->
  skipn (Z.to_nat i) l = cinfo_at l i :: skipn (Z.to_nat (i + 1)) l.
Proof.
  intros H. unfold cinfo_at.
  replace (Z.to_nat (i + 1)) with (S (Z.to_nat i)) by lia.
  assert (Hn : (Z.to_nat i < length l)%nat) by lia.
  revert Hn. generalize (Z.to_nat i). clear H.
  induction l as [|c rest IH]; intros k Hk; [cbn in Hk; lia|].
  destruct k as [|k]; [reflexivity|]. cbn [skipn nth]. apply IH. cbn in Hk. lia.
Qed.

Lemma cinfo_write_buffer_room (c : comux_cinfo_t) (room w : Z) (bytes : list byte) :
  comux_cinfo_write_buffer c room = (w, bytes) -> (w <? 0) = false ->
  Z.of_nat (length bytes) <= room.
Proof.
  unfold comux_cinfo_write_buffer.
  destruct (Z.ltb_spec room (4 + 8 + 4 + 4)); intros E Hw.
  - apply (f_equal fst) in E. cbn [fst] in E. subst w. discriminate.
  - apply (f_equal snd) in E. cbn [snd] in E. subst bytes.
    rewrite !length_app, !u32_to_bytes_length, u64_to_bytes_length. lia.
Qed.

Lemma cinfo_data_write_buffer_room (c : comux_cinfo_t) (room w : Z)
    (bytes : list byte) :
  comux_cinfo_data_write_buffer c room = (w, bytes) -> 0 <= room ->
  Z.of_nat (length bytes) <= room.
Proof.
  unfold comux_cinfo_data_write_buffer.
  destruct (Z.gtb_spec (to_u64 (to_ssize (len c))) room) as [Hg|Hg];
    intros E Hr; apply (f_equal snd) in E; cbn [snd] in E; subst bytes;
    [cbn [length]; lia|].
  pose proof (length_firstn (Z.to_nat (to_ssize (len c))) (data c)) as Hf.
  destruct (Z.lt_ge_cases (to_ssize (len c)) 0) as [Hneg|Hpos]; [lia|].
  assert (to_u64 (to_ssize (len c)) = to_ssize (len c)); [|lia].
  unfold to_u64. apply Z.mod_small. split; [lia|].
  unfold to_ssize in *.
  pose proof (Z.mod_pos_bound (len c) (2 ^ 64) ltac:(lia)).
  destruct (Z.ltb_spec (len c mod 2 ^ 64) (2 ^ 63)); lia.
Qed.

Lemma pending_match (new : comux_cinfo_t) (del i : Z) (l : list comux_cinfo_t) :
  0 <= i -> del <> i ->
  pending new del i i l = new :: pending new del (-1) i l.
Proof.
  intros Hi Hd. destruct l as [|c rest]; cbn [pending]; rewrite Z.eqb_refl.
  - destruct (Z.eqb_spec (-1) i); [lia|reflexivity].
  - destruct (Z.eqb_spec del i); [contradiction|].
    destruct (Z.eqb_spec (-1) i); [lia|]. cbn [app].
    now rewrite pending_past by lia.
Qed.

(** The writing loop of [afl_custom_fuzz] from any of its states: it ends
    within the turns left, and when it has not run out of room it has
    written the pending chunks, within [max_len]. *)
Lemma write_chunks_pending (m : mutation) (max_len : Z) :
  let n := Z.of_nat (length (cinfos m)) in
  n + 1 < 2 ^ 32 -> 0 <= max_len < 2 ^ 64 ->
  delete_cinfo_index m = -1 \/ 0 <= delete_cinfo_index m < n ->
  forall turns i nci written out,
  0 <= i <= n + 1 -> nci = -1 \/ (i <= nci <= n /\ delete_cinfo_index m = -1) ->
  Z.of_nat (length out) <= max_len ->
  n + 1 - i + 1 + (if nci =? -1 then 0 else 1) <= Z.of_nat turns ->
  exists result,
    write_chunks turns m n max_len i nci written out = Some result /\
    match result with
    | Unchanged => True
    | Rewritten written' out' =>
        let p := if i <=? n
                 then pending (new_cinfo m) (delete_cinfo_index m) nci i
                              (skipn (Z.to_nat i) (cinfos m))
                 else [] in
        written' = written ++ p /\
        out' = out ++ concat (map written_record p) /\
        Z.of_nat (length out') <= max_len
    end.
Proof.
  intros n Hn Hmax Hdel. induction turns as [|turns IH];
    intros i nci written out Hi Hnci Hout Hturns.
  { destruct (nci =? -1); lia. }
  cbn [write_chunks].
  assert (Hu : to_u32 (n + 1) = n + 1) by (unfold to_u32; apply Z.mod_small; lia).
  rewrite Hu.
  destruct (Z.ltb_spec i (n + 1)) as [Hlt|Hge]; cbn [negb].
  2:{ exists (Rewritten written out). split; [reflexivity|].
      destruct (Z.leb_spec i n); [lia|]. cbn. rewrite !app_nil_r. auto. }
  destruct (Z.leb_spec i n) as [_|]; [|lia].
  assert (Hm : (nci >? -1) && (to_u32 nci =? i) = (nci =? i)).
  { destruct Hnci as [->|[Hr _]].
    - change (-1 >? -1) with false. cbn [andb].
      destruct (Z.eqb_spec (-1) i); [lia|reflexivity].
    - destruct (Z.gtb_spec nci (-1)); [|lia]. cbn [andb].
      unfold to_u32. rewrite Z.mod_small by lia. reflexivity. }
  assert (Hd : (delete_cinfo_index m >? -1) && (to_u32 (delete_cinfo_index m) =? i)
               = (delete_cinfo_index m =? i)).
  { destruct Hdel as [->|Hr].
    - change (-1 >? -1) with false. cbn [andb].
      destruct (Z.eqb_spec (-1) i); [lia|reflexivity].
    - destruct (Z.gtb_spec (delete_cinfo_index m) (-1)); [|lia]. cbn [andb].
      unfold to_u32. rewrite Z.mod_small by lia. reflexivity. }
  rewrite Hm. rewrite <- andb_assoc, Hd.
  assert (Hu1 : to_u32 (i + 1) = i + 1) by (unfold to_u32; apply Z.mod_small; lia).
  rewrite Hu1.
  assert (Hturns' : forall nci', (nci' = -1 \/ nci' <> -1 /\ nci <> -1) ->
             n + 1 - (i + 1) + 1 + (if nci' =? -1 then 0 else 1) <= Z.of_nat turns).
  { intros nci' H'. destruct (Z.eqb_spec nci' (-1)); destruct (Z.eqb_spec nci (-1)); lia. }
  destruct (Z.eqb_spec i n) as [Hin|Hin]; cbn [andb negb].
  - (* the extra turn at the end *)
    assert (Hs : skipn (Z.to_nat i) (cinfos m) = [])
      by (apply skipn_all2; lia).
    rewrite Hs. cbn [pending].
    destruct (Z.eqb_spec nci i) as [Hni|Hni]; cbn [negb].
    + destruct (comux_cinfo_write_buffer (new_cinfo m) _) as [w hbytes] eqn:Eh.
      destruct (w <? 0) eqn:Hw; [exists Unchanged; now split|].
      pose proof (cinfo_write_buffer_room _ _ _ _ Eh Hw) as Rh.
      apply comux_cinfo_write_buffer_bytes in Eh; [|exact Hw].
      assert (U1 : to_u64 (max_len - Z.of_nat (length out))
                   = max_len - Z.of_nat (length out))
        by (unfold to_u64; apply Z.mod_small; lia).
      rewrite U1 in Rh.
      destruct (comux_cinfo_data_write_buffer (new_cinfo m) _) as [w' dbytes] eqn:Ed.
      destruct (w' <? 0) eqn:Hw'; [exists Unchanged; now split|].
      assert (U2 : to_u64 (max_len - Z.of_nat (length (out ++ hbytes)))
                   = max_len - Z.of_nat (length (out ++ hbytes)))
        by (unfold to_u64; apply Z.mod_small; rewrite length_app; lia).
      rewrite U2 in Ed.
      pose proof (cinfo_data_write_buffer_room _ _ _ _ Ed
                    ltac:(rewrite length_app; lia)) as Rd.
      apply comux_cinfo_data_write_buffer_bytes in Ed; [|exact Hw'].
      destruct (IH i (-1) (written ++ [new_cinfo m]) ((out ++ hbytes) ++ dbytes))
        as (result & E & R).
      * lia.
      * now left.
      * rewrite !length_app in *. lia.
      * cbn. destruct (Z.eqb_spec nci (-1)); lia.
      * exists result. split; [exact E|]. destruct result as [|w2 o2]; [exact I|].
        destruct (Z.leb_spec i n); [|lia]. rewrite Hs in R. cbn [pending] in R.
        destruct (Z.eqb_spec (-1) i); [lia|]. cbn [map concat] in *.
        destruct R as (R1 & R2 & R3). rewrite app_nil_r in R1, R2.
        split; [exact R1|]. split; [|exact R3].
        rewrite R2. subst hbytes dbytes. unfold written_record.
        now rewrite app_nil_r, <- !app_assoc.
    + destruct (IH (i + 1) nci written out) as (result & E & R).
      * lia.
      * destruct Hnci as [->|[Hr Hd']]; [now left|lia].
      * exact Hout.
      * apply Hturns'. destruct (Z.eq_dec nci (-1)); [now left|right; now split].
      * exists result. split; [exact E|]. destruct result as [|w' o']; [exact I|].
        destruct (Z.leb_spec (i + 1) n); [lia|]. exact R.
  - assert (Hlen : 0 <= i < Z.of_nat (length (cinfos m))) by (unfold n in *; lia).
    rewrite (skipn_cinfo_at _ _ Hlen). cbn [pending].
    destruct (Z.eqb_spec (delete_cinfo_index m) i) as [Hdi|Hdi].
    + (* the chunk to leave out *)
      destruct (IH (i + 1) nci written out) as (result & E & R).
      * lia.
      * destruct Hnci as [->|[Hr Hd']]; [now left|lia].
      * exact Hout.
      * apply Hturns'. destruct (Z.eq_dec nci (-1)); [now left|right; now split].
      * exists result. split; [exact E|]. destruct result as [|w' o']; [exact I|].
        destruct (Z.leb_spec (i + 1) n); [|lia]. exact R.
    + set (c := if nci =? i then new_cinfo m else cinfo_at (cinfos m) i).
      destruct (comux_cinfo_write_buffer c _) as [w hbytes] eqn:Eh.
      destruct (w <? 0) eqn:Hw; [exists Unchanged; now split|].
      pose proof (cinfo_write_buffer_room _ _ _ _ Eh Hw) as Rh.
      apply comux_cinfo_write_buffer_bytes in Eh; [|exact Hw].
      assert (U1 : to_u64 (max_len - Z.of_nat (length out))
                   = max_len - Z.of_nat (length out))
        by (unfold to_u64; apply Z.mod_small; lia).
      rewrite U1 in Rh.
      destruct (comux_cinfo_data_write_buffer c _) as [w' dbytes] eqn:Ed.
      destruct (w' <? 0) eqn:Hw'; [exists Unchanged; now split|].
      assert (U2 : to_u64 (max_len - Z.of_nat (length (out ++ hbytes)))
                   = max_len - Z.of_nat (length (out ++ hbytes)))
        by (unfold to_u64; apply Z.mod_small; rewrite length_app; lia).
      rewrite U2 in Ed.
      pose proof (cinfo_data_write_buffer_room _ _ _ _ Ed
                    ltac:(rewrite length_app; lia)) as Rd.
      apply comux_cinfo_data_write_buffer_bytes in Ed; [|exact Hw'].
      assert (Hrec : (out ++ hbytes) ++ dbytes = out ++ written_record c).
      { subst hbytes dbytes. unfold written_record. now rewrite <- app_assoc. }
      assert (Hroom : Z.of_nat (length ((out ++ hbytes) ++ dbytes)) <= max_len)
        by (rewrite !length_app in *; lia).
      rewrite Hrec in *.
      destruct (Z.eqb_spec nci i) as [Hni|Hni].
      * destruct (IH i (-1) (written ++ [c]) (out ++ written_record c))
          as (result & E & R).
        -- lia.
        -- now left.
        -- exact Hroom.
        -- cbn. destruct (Z.eqb_spec nci (-1)); lia.
        -- exists result. split; [exact E|]. destruct result as [|w2 o2]; [exact I|].
           destruct (Z.leb_spec i n); [|lia].
           rewrite (skipn_cinfo_at _ _ Hlen) in R. cbn [pending] in R.
           destruct (Z.eqb_spec (delete_cinfo_index m) i); [contradiction|].
           destruct (Z.eqb_spec (-1) i); [lia|]. cbn [app] in *.
           rewrite pending_past by lia.
           destruct R as (R1 & R2 & R3). cbn [map concat] in *.
           rewrite <- !app_assoc in R1, R2. cbn [app] in R1.
           split; [exact R1|]. split; [exact R2|exact R3].
      * destruct (IH (i + 1) nci (written ++ [c]) (out ++ written_record c))
          as (result & E & R).
        -- lia.
        -- destruct Hnci as [->|[Hr Hd']]; [now left|right; split; [lia|exact Hd']].
        -- exact Hroom.
        -- apply Hturns'. destruct (Z.eq_dec nci (-1)); [now left|right; now split].
        -- exists result. split; [exact E|]. destruct result as [|w2 o2]; [exact I|].
           destruct (Z.leb_spec (i + 1) n); [|lia]. cbn [app] in *.
           destruct R as (R1 & R2 & R3). cbn [map concat] in *.
           rewrite <- !app_assoc in R1, R2. cbn [app] in R1.
           split; [exact R1|]. split; [exact R2|exact R3].
Qed.

Lemma length_cinfo_update (l : list comux_cinfo_t) (i : Z)
    (f : comux_cinfo_t -> comux_cinfo_t) :
  length (cinfo_update l i f) = length l.
Proof.
  unfold cinfo_update. generalize (Z.to_nat i). induction l as [|c rest IH];
    intros k; destruct k; cbn; try reflexivity. now rewrite IH.
Qed.

Section Shapes.
Variable E : environment.
Variable fuel : nat.

Lemma establishes_RAND_UNDER (ceiling : Z) :
  establishes (RAND_UNDER E ceiling) (fun v => 0 < ceiling -> 0 <= v < ceiling).
Proof. intros calls v calls' H. now apply RAND_UNDER_Drawn in H. Qed.

Lemma mutate_cinfo_sched_bump_length (l : list comux_cinfo_t) (n : Z) :
  establishes (mutate_cinfo_sched_bump E fuel l n)
              (fun r => length (snd r) = length l).
Proof.
  unfold mutate_cinfo_sched_bump. est; cbn [snd]; try reflexivity.
  apply length_cinfo_update.
Qed.

Lemma mutate_cinfo_split_shape (l : list comux_cinfo_t) (n : Z)
    (new : comux_cinfo_t) :
  0 < n -> n + 1 < 2 ^ 32 ->
  establishes (mutate_cinfo_split E fuel l n new)
              (fun r => length (snd (fst r)) = length l /\
                        (fst (fst r) = -1 \/ 1 <= fst (fst r) <= n)).
Proof.
  intros Hn Hn'. unfold mutate_cinfo_split.
  eapply establishes_and_then; [apply establishes_RAND_UNDER|intros index Hi].
  specialize (Hi Hn).
  destruct (split_search_spec l n Hn (Z.to_nat n) index 0 (0, 0) Hi)
    as (i & c & r & Es & Ri & _).
  rewrite Es. destruct (c =? n).
  { apply establishes_pure. cbn. split; [reflexivity|now left]. }
  eapply establishes_and_then; [apply establishes_any|intros r0 _].
  eapply establishes_and_then; [apply establishes_any|intros [old_sched new_sched] _].
  assert (Hu : to_u32 (i + 1) = i + 1) by (unfold to_u32; apply Z.mod_small; lia).
  destruct (negb _); apply establishes_pure; cbn [fst snd]; rewrite Hu;
    (split; [apply length_cinfo_update|right; lia]).
Qed.

Lemma mutate_cinfo_splice_shape (h : comux_header_t) (l : list comux_cinfo_t) :
  0 < num_conns h < 2 ^ 32 -> Z.of_nat (length l) < 2 ^ 32 ->
  establishes (mutate_cinfo_splice E h l (Z.of_nat (length l)))
              (fun r => length (snd r) = length l /\
                        (fst r = -1 \/ 1 <= fst r < Z.of_nat (length l))).
Proof.
  intros Hc Hl calls [idx l'] calls' H.
  apply mutate_cinfo_splice_spec in H; [|exact Hc|exact Hl]. cbn [fst snd].
  destruct H as [(-> & -> & _)|(A & c0 & B & c1 & C & -> & -> & _ & _ & _ & ->)].
  - split; [reflexivity|now left].
  - rewrite !length_app. cbn [length]. rewrite !length_app. cbn [length].
    split; [reflexivity|right; lia].
Qed.

Lemma dict_swap_search_length (l : list comux_cinfo_t) (n : Z) (todo : nat) :
  forall index count,
  establishes (dict_swap_search E fuel l n todo index count)
              (fun r => length (snd r) = length l).
Proof.
  induction todo as [|todo IH]; intros index count; cbn [dict_swap_search].
  - now apply establishes_pure.
  - eapply establishes_and_then; [apply establishes_any|intros [c'|] _]; [|apply IH].
    apply establishes_pure. apply length_cinfo_update.
Qed.

Lemma retry_strategy_shape (turns : nat) (h : comux_header_t) (n : Z) :
  0 < n -> n + 1 < 2 ^ 32 -> 0 < num_conns h < 2 ^ 32 ->
  forall free_strats strat m,
  Z.of_nat (length (cinfos m)) = n ->
  new_cinfo_index m = -1 -> delete_cinfo_index m = -1 ->
  establishes (retry_strategy E fuel turns h n free_strats strat m)
              (mutation_shape n).
Proof.
  intros Hn Hn' Hc.
  induction turns as [|turns IH]; intros free_strats strat m Hl Hnew Hdel;
    cbn [retry_strategy]; [apply establishes_failed|].
  assert (Hdata : forall (f : comux_cinfo_t -> draw comux_cinfo_t),
            establishes
              (and_then (RAND_UNDER E (num_chunks h)) (fun i =>
               and_then (f (cinfo_at (cinfos m) i)) (fun cinfo =>
               pure (set_cinfos m (cinfo_update (cinfos m) i (fun _ => cinfo))))))
              (mutation_shape n)).
  { intros f.
    eapply establishes_and_then; [apply establishes_any|intros i _].
    eapply establishes_and_then; [apply establishes_any|intros c _].
    apply establishes_pure. split; cbn; [|now left].
    now rewrite length_cinfo_update. }
  assert (Hretry : forall s m', Z.of_nat (length (cinfos m')) = n ->
            new_cinfo_index m' = -1 -> delete_cinfo_index m' = -1 ->
            establishes
              (and_then (gurthang_strategy_choose E (mark free_strats s))
                 (fun strat0 =>
                    retry_strategy E fuel turns h n (mark free_strats s) strat0 m'))
              (mutation_shape n)).
  { intros s m' H1 H2 H3.
    eapply establishes_and_then; [apply establishes_any|intros s' _].
    now apply IH. }
  destruct strat.
  - apply Hdata.
  - apply Hdata.
  - eapply establishes_and_then; [apply mutate_cinfo_sched_bump_length|].
    intros [index l] Hl'. cbn [snd] in Hl'.
    destruct (index =? -1).
    + now apply Hretry.
    + apply establishes_pure. split; cbn; [lia|now left].
  - eapply establishes_and_then; [apply mutate_cinfo_split_shape; assumption|].
    intros [[index l] new] (Hl' & Hi). cbn [fst snd] in Hl', Hi.
    destruct (Z.eqb_spec index (-1)) as [->|Hne].
    + apply Hretry; cbn; [lia|reflexivity|exact Hdel].
    + apply establishes_pure. split; cbn; [lia|].
      right. left. split; [lia|exact Hdel].
  - rewrite <- Hl.
    eapply establishes_and_then; [apply mutate_cinfo_splice_shape; [exact Hc|lia]|].
    intros [index l] (Hl' & Hi). cbn [fst snd] in Hl', Hi. rewrite Hl.
    destruct (Z.eqb_spec index (-1)) as [->|Hne].
    + apply Hretry; cbn; [lia|exact Hnew|reflexivity].
    + apply establishes_pure. split; cbn; [lia|].
      right. right. split; [exact Hnew|lia].
  - eapply establishes_and_then.
    { unfold mutate_cinfo_dict_swap.
      eapply establishes_and_then; [apply establishes_any|intros index _].
      apply dict_swap_search_length. }
    intros [failed l] Hl'. cbn [snd] in Hl'.
    destruct (negb (failed =? 0)).
    + now apply Hretry.
    + apply establishes_pure. split; cbn; [lia|now left].
  - apply Hdata.
  - apply Hdata.
  - apply establishes_pure. split; [exact Hl|now left].
Qed.

Lemma mutate_cinfos_shape (h : comux_header_t) (l : list comux_cinfo_t)
    (new : comux_cinfo_t) :
  0 < Z.of_nat (length l) -> Z.of_nat (length l) + 1 < 2 ^ 32 ->
  0 < num_conns h < 2 ^ 32 ->
  establishes (mutate_cinfos E fuel h l (Z.of_nat (length l)) new)
              (mutation_shape (Z.of_nat (length l))).
Proof.
  intros H1 H2 H3. unfold mutate_cinfos.
  eapply establishes_and_then; [apply establishes_any|intros s _].
  apply retry_strategy_shape; auto.
Qed.

End Shapes.

Lemma parse_chunks_length (todo : nat) (h : comux_header_t) (buff : list byte) :
  forall total_rcount rcount l l',
  parse_chunks todo h buff total_rcount rcount l = Some l' ->
  length l' = (length l + todo)%nat.
Proof.
  induction todo as [|todo IH]; intros total_rcount rcount l l'; cbn [parse_chunks].
  - intros E; inversion E; subst. lia.
  - destruct (comux_cinfo_read_buffer _ _ _) as [[pr c] rc].
    destruct (nonzero pr); [discriminate|].
    destruct (check_comux_cinfo _ _); [discriminate|].
    destruct (comux_cinfo_data_read_buffer _ _) as [rc' c'].
    intros E. apply IH in E. rewrite E, length_app. cbn [length]. lia.
Qed.

Lemma header_read_counts (buff : list byte) (h0 h : comux_header_t)
    (r0 rcount : Z) (pr : comux_parse_result_t) :
  comux_header_read_buffer h0 buff r0 = (pr, h, rcount) ->
  nonzero pr = false -> 0 <= num_conns h < 2 ^ 32 /\ 0 <= num_chunks h < 2 ^ 32.
Proof.
  unfold comux_header_read_buffer. cbv zeta.
  assert (Hbad : forall (bad : comux_parse_result_t) (x : comux_header_t) (y : Z),
            nonzero bad = true -> (bad, x, y) = (pr, h, rcount) ->
            nonzero pr = false ->
            0 <= num_conns h < 2 ^ 32 /\ 0 <= num_chunks h < 2 ^ 32).
  { intros bad x y Hb E Hz. apply (f_equal (fun t => fst (fst t))) in E.
    cbn [fst] in E. subst pr. congruence. }
  destruct (_ <? 0); [now apply Hbad|].
  destruct (memcmp_differs _ _); [now apply Hbad|].
  destruct (_ <? 0); [now apply Hbad|].
  destruct (_ <? 0); [now apply Hbad|].
  destruct (_ <? 0); [now apply Hbad|].
  intros E _. apply (f_equal (fun t => snd (fst t))) in E. cbn [fst snd] in E.
  subst h. cbn [num_conns num_chunks set_magic set_version set_num_conns set_num_chunks].
  unfold bytes_to_u32. split; apply BYTES_TO_INT_HELPER_range; lia.
Qed.

(** The writing loop from its start. *)
Lemma write_chunks_from_start (m : mutation) (max_len : Z) (prefix : list byte) :
  mutation_shape (Z.of_nat (length (cinfos m))) m ->
  Z.of_nat (length (cinfos m)) + 1 < 2 ^ 32 -> 0 <= max_len < 2 ^ 64 ->
  Z.of_nat (length prefix) <= max_len ->
  exists result,
    write_chunks (length (cinfos m) + 3) m (Z.of_nat (length (cinfos m)))
                 max_len 0 (new_cinfo_index m) [] prefix = Some result /\
    match result with
    | Unchanged => True
    | Rewritten written out =>
        written = assembled m /\
        out = prefix ++ concat (map written_record (assembled m)) /\
        Z.of_nat (length out) <= max_len
    end.
Proof.
  intros Hs Hn Hmax Hp.
  destruct (write_chunks_pending m max_len Hn Hmax) with
    (turns := (length (cinfos m) + 3)%nat) (i := 0) (nci := new_cinfo_index m)
    (written := @nil comux_cinfo_t) (out := prefix) as (result & E & R).
  - destruct Hs as [_ [[_ H]|[[_ H]|[_ H]]]]; [now left|now left|right; lia].
  - lia.
  - destruct Hs as [_ [[H _]|[[H1 H2]|[H _]]]]; [now left| |now left].
    right. split; [lia|exact H2].
  - exact Hp.
  - destruct (new_cinfo_index m =? -1); lia.
  - exists result. split; [exact E|]. destruct result as [|w o]; [exact I|].
    destruct (Z.leb_spec 0 (Z.of_nat (length (cinfos m)))); [|lia].
    change (Z.to_nat 0) with 0%nat in R. rewrite skipn_O in R.
    rewrite (pending_assembled _ _ Hs) in R. cbn [app] in R. exact R.
Qed.

(** ** When the writing loop gives up
    The two writer calls of one turn of the loop, made for the chunks of
    [l] one after the other. *)
Fixpoint place_records (max_len : Z) (l written : list comux_cinfo_t)
    (out : list byte) : fuzz_output :=
  match l with
  | [] => Rewritten written out
  | cinfo :: rest =>
      let '(wcount, hbytes) :=
        comux_cinfo_write_buffer cinfo
          (to_u64 (max_len - Z.of_nat (length out))) in
      if wcount <? 0 then Unchanged else
      let out := out ++ hbytes in
      let '(wcount, dbytes) :=
        comux_cinfo_data_write_buffer cinfo
          (to_u64 (max_len - Z.of_nat (length out))) in
      if wcount <? 0 then Unchanged else
      place_records max_len rest (written ++ [cinfo]) (out ++ dbytes)
  end.

(** A chunk whose [len] is the size of its payload. *)
Definition sized (c : comux_cinfo_t) : Prop :=
  len c = Z.of_nat (length (data c)) /\ len c < 2 ^ 63.

(** The writing loop from any of its states makes the writer calls for
    the pending chunks, in their order, and ends within the turns left. *)
Lemma write_chunks_places (m : mutation) (max_len : Z) :
  let n := Z.of_nat (length (cinfos m)) in
  n + 1 < 2 ^ 32 ->
  delete_cinfo_index m = -1 \/ 0 <= delete_cinfo_index m < n ->
  forall turns i nci written out,
  0 <= i <= n + 1 -> nci = -1 \/ (i <= nci <= n /\ delete_cinfo_index m = -1) ->
  n + 1 - i + 1 + (if nci =? -1 then 0 else 1) <= Z.of_nat turns ->
  write_chunks turns m n max_len i nci written out
  = Some (place_records max_len
            (if i <=? n
             then pending (new_cinfo m) (delete_cinfo_index m) nci i
                          (skipn (Z.to_nat i) (cinfos m))
             else []) written out).
Proof.
  intros n Hn Hdel. induction turns as [|turns IH];
    intros i nci written out Hi Hnci Hturns.
  { destruct (nci =? -1); lia. }
  cbn [write_chunks].
  assert (Hu : to_u32 (n + 1) = n + 1) by (unfold to_u32; apply Z.mod_small; lia).
  rewrite Hu.
  destruct (Z.ltb_spec i (n + 1)) as [Hlt|Hge]; cbn [negb].
  2:{ destruct (Z.leb_spec i n); [lia|]. reflexivity. }
  destruct (Z.leb_spec i n) as [_|]; [|lia].
  assert (Hm : (nci >? -1) && (to_u32 nci =? i) = (nci =? i)).
  { destruct Hnci as [->|[Hr _]].
    - change (-1 >? -1) with false. cbn [andb].
      destruct (Z.eqb_spec (-1) i); [lia|reflexivity].
    - destruct (Z.gtb_spec nci (-1)); [|lia]. cbn [andb].
      unfold to_u32. rewrite Z.mod_small by lia. reflexivity. }
  assert (Hd : (delete_cinfo_index m >? -1) && (to_u32 (delete_cinfo_index m) =? i)
               = (delete_cinfo_index m =? i)).
  { destruct Hdel as [->|Hr].
    - change (-1 >? -1) with false. cbn [andb].
      destruct (Z.eqb_spec (-1) i); [lia|reflexivity].
    - destruct (Z.gtb_spec (delete_cinfo_index m) (-1)); [|lia]. cbn [andb].
      unfold to_u32. rewrite Z.mod_small by lia. reflexivity. }
  rewrite Hm. rewrite <- andb_assoc, Hd.
  assert (Hu1 : to_u32 (i + 1) = i + 1) by (unfold to_u32; apply Z.mod_small; lia).
  rewrite Hu1.
  assert (Hturns' : forall nci', (nci' = -1 \/ nci' <> -1 /\ nci <> -1) ->
             n + 1 - (i + 1) + 1 + (if nci' =? -1 then 0 else 1) <= Z.of_nat turns).
  { intros nci' H'. destruct (Z.eqb_spec nci' (-1)); destruct (Z.eqb_spec nci (-1)); lia. }
  assert (Hnext : nci <> i ->
            nci = -1 \/ (i + 1 <= nci <= n /\ delete_cinfo_index m = -1)).
  { intros Hne. destruct Hnci as [->|[Hr Hd']]; [now left|right; split; [lia|exact Hd']]. }
  assert (Hback : n + 1 - i + 1 + (if -1 =? -1 then 0 else 1) <= Z.of_nat turns
                  \/ nci <> i).
  { destruct (Z.eq_dec nci i) as [Hni|Hni]; [left|now right].
    cbn. destruct (Z.eqb_spec nci (-1)); lia. }
  destruct (Z.eqb_spec i n) as [Hin|Hin]; cbn [andb negb].
  - (* the extra turn at the end *)
    assert (Hs : skipn (Z.to_nat i) (cinfos m) = [])
      by (apply skipn_all2; lia).
    rewrite Hs. cbn [pending].
    destruct (Z.eqb_spec nci i) as [Hni|Hni]; cbn [negb].
    + cbn [place_records].
      destruct (comux_cinfo_write_buffer (new_cinfo m) _) as [w hbytes].
      destruct (w <? 0); [reflexivity|].
      destruct (comux_cinfo_data_write_buffer (new_cinfo m) _) as [w' dbytes].
      destruct (w' <? 0); [reflexivity|].
      rewrite IH; [|lia|now left|destruct Hback as [Hb|Hb]; [exact Hb|contradiction]].
      destruct (Z.leb_spec i n); [|lia]. rewrite Hs. cbn [pending].
      destruct (Z.eqb_spec (-1) i); [lia|]. reflexivity.
    + rewrite IH; [|lia|now apply Hnext|].
      * destruct (Z.leb_spec (i + 1) n); [lia|]. reflexivity.
      * apply Hturns'. destruct (Z.eq_dec nci (-1)); [now left|right; now split].
  - assert (Hlen : 0 <= i < Z.of_nat (length (cinfos m))) by (unfold n in *; lia).
    rewrite (skipn_cinfo_at _ _ Hlen). cbn [pending].
    destruct (Z.eqb_spec (delete_cinfo_index m) i) as [Hdi|Hdi].
    + (* the chunk to leave out *)
      rewrite IH; [|lia| |].
      * destruct (Z.leb_spec (i + 1) n); [|lia]. reflexivity.
      * apply Hnext. destruct Hnci as [->|[_ Hd']]; lia.
      * apply Hturns'. destruct (Z.eq_dec nci (-1)); [now left|right; now split].
    + destruct (Z.eqb_spec nci i) as [Hni|Hni]; cbn [app place_records].
      * destruct (comux_cinfo_write_buffer (new_cinfo m) _) as [w hbytes].
        destruct (w <? 0); [reflexivity|].
        destruct (comux_cinfo_data_write_buffer (new_cinfo m) _) as [w' dbytes].
        destruct (w' <? 0); [reflexivity|].
        rewrite IH; [|lia|now left|destruct Hback as [Hb|Hb]; [exact Hb|contradiction]].
        destruct (Z.leb_spec i n); [|lia].
        rewrite (skipn_cinfo_at _ _ Hlen). cbn [pending].
        destruct (Z.eqb_spec (delete_cinfo_index m) i); [contradiction|].
        destruct (Z.eqb_spec (-1) i); [lia|]. cbn [app].
        now rewrite (pending_past _ _ nci) by lia.
      * destruct (comux_cinfo_write_buffer (cinfo_at (cinfos m) i) _) as [w hbytes].
        destruct (w <? 0); [reflexivity|].
        destruct (comux_cinfo_data_write_buffer (cinfo_at (cinfos m) i) _)
          as [w' dbytes].
        destruct (w' <? 0); [reflexivity|].
        rewrite IH; [|lia|now apply Hnext|].
        -- destruct (Z.leb_spec (i + 1) n); [|lia]. reflexivity.
        -- apply Hturns'. destruct (Z.eq_dec nci (-1)); [now left|right; now split].
Qed.

(** For chunks whose [len] is the size of their payload the writer calls
    succeed exactly as long as the records fit behind what is written. *)
Lemma place_records_fit (max_len : Z) (l : list comux_cinfo_t) :
  0 <= max_len < 2 ^ 64 -> Forall sized l ->
  forall written out,
  Z.of_nat (length out) <= max_len ->
  place_records max_len l written out
  = if Z.of_nat (length (out ++ concat (map cinfo_bytes l))) <=? max_len
    then Rewritten (written ++ l) (out ++ concat (map cinfo_bytes l))
    else Unchanged.
Proof.
  intros Hmax. induction 1 as [|c l [Hlen Hbig] _ IH]; intros written out Hout.
  - cbn [place_records map concat]. rewrite !app_nil_r.
    destruct (Z.leb_spec (Z.of_nat (length out)) max_len); [reflexivity|lia].
  - cbn [place_records map concat].
    assert (Hl0 : 0 <= len c) by lia.
    assert (Htot : Z.of_nat (length (out ++ cinfo_bytes c ++ concat (map cinfo_bytes l)))
                   = Z.of_nat (length out) + 20 + len c
                     + Z.of_nat (length (concat (map cinfo_bytes l)))).
    { unfold cinfo_bytes at 1.
      rewrite !length_app, cinfo_header_bytes_length. lia. }
    unfold comux_cinfo_write_buffer. fold (cinfo_header_bytes c).
    rewrite (to_u64_small (max_len - Z.of_nat (length out))) by lia.
    destruct (Z.ltb_spec (max_len - Z.of_nat (length out)) (4 + 8 + 4 + 4)) as [H20|H20].
    { change (- (4 + 8 + 4 + 4) <? 0) with true. cbv iota.
      destruct (Z.leb_spec (Z.of_nat (length (out ++ cinfo_bytes c
                                      ++ concat (map cinfo_bytes l)))) max_len);
        [lia|reflexivity]. }
    change (4 + 8 + 4 + 4 <? 0) with false. cbv iota.
    unfold comux_cinfo_data_write_buffer.
    rewrite length_app, cinfo_header_bytes_length.
    rewrite (to_ssize_small (len c)) by lia.
    rewrite (to_u64_small (len c)) by lia.
    rewrite (to_u64_small (max_len - Z.of_nat (length out + 20))) by lia.
    destruct (Z.gtb_spec (len c) (max_len - Z.of_nat (length out + 20))) as [Hgt|Hle].
    { rewrite to_ssize_opp by lia.
      destruct (Z.ltb_spec (- len c) 0); [|lia].
      destruct (Z.leb_spec (Z.of_nat (length (out ++ cinfo_bytes c
                                      ++ concat (map cinfo_bytes l)))) max_len);
        [lia|reflexivity]. }
    destruct (Z.ltb_spec (len c) 0); [lia|].
    rewrite firstn_all2 by lia.
    rewrite IH by (rewrite !length_app, cinfo_header_bytes_length; lia).
    unfold cinfo_bytes at 3 6. rewrite <- !app_assoc. cbn [app]. reflexivity.
Qed.

(** The writing loop of [afl_custom_fuzz], started behind a header of
    [prefix] bytes on a mutation of the shape [mutate_cinfos] leaves, in
    which every chunk to write has a [len] that is the size of its
    payload: it ends within its [n + 3] turns. The chunks to write are
    those of the array in their order, without the one to delete and with
    the new chunk right before the chunk at its index (or last). When the
    header and the records of all these chunks fit in [max_len], the loop
    has written exactly these records behind the header; when they do
    not, it gives up and the hook hands back its input. *)
Theorem write_loop_assembles (m : mutation) (max_len : Z) (prefix : list byte) :
  mutation_shape (Z.of_nat (length (cinfos m))) m ->
  Z.of_nat (length (cinfos m)) + 1 < 2 ^ 32 -> 0 <= max_len < 2 ^ 64 ->
  Z.of_nat (length prefix) <= max_len ->
  Forall sized (assembled m) ->
  let output :=
    write_chunks (length (cinfos m) + 3) m (Z.of_nat (length (cinfos m)))
                 max_len 0 (new_cinfo_index m) [] prefix in
  let out := prefix ++ concat (map cinfo_bytes (assembled m)) in
  (Z.of_nat (length out) <= max_len ->
   output = Some (Rewritten (assembled m) out)) /\
  (max_len < Z.of_nat (length out) -> output = Some Unchanged).
Proof.
  intros Hs Hn Hmax Hp Hsized output out.
  assert (E : output = Some (place_records max_len (assembled m) [] prefix)).
  { unfold output. rewrite write_chunks_places.
    - destruct (Z.leb_spec 0 (Z.of_nat (length (cinfos m)))); [|lia].
      change (Z.to_nat 0) with 0%nat. rewrite skipn_O.
      now rewrite (pending_assembled _ _ Hs).
    - exact Hn.
    - destruct Hs as [_ [[_ H]|[[_ H]|[_ H]]]]; [now left|now left|right; lia].
    - lia.
    - destruct Hs as [_ [[H _]|[[H1 H2]|[H _]]]]; [now left| |now left].
      right. split; [lia|exact H2].
    - destruct (new_cinfo_index m =? -1); lia. }
  rewrite E, (place_records_fit max_len (assembled m) Hmax Hsized [] prefix Hp).
  fold out. cbn [app].
  destruct (Z.leb_spec (Z.of_nat (length out)) max_len); split; intros; (reflexivity || lia).
Qed.

(** A new chunk for index 1 of two chunks. *)
Definition inserted_sample : mutation :=
  mk_mutation two_on_one (mk_cinfo 0 1 1 0 ["x"%byte] 0) 1 (-1).

Lemma write_loop_assembles_witness :
  let output := write_chunks 5 inserted_sample 2 4096 0 1 [] [] in
  let out := [] ++ concat (map cinfo_bytes (assembled inserted_sample)) in
  (Z.of_nat (length out) <= 4096 ->
   output = Some (Rewritten (assembled inserted_sample) out)) /\
  (4096 < Z.of_nat (length out) -> output = Some Unchanged).
Proof.
  apply (write_loop_assembles inserted_sample 4096 []).
  - split; [reflexivity|]. right. left. cbn. lia.
  - cbn. lia.
  - lia.
  - cbn. lia.
  - repeat constructor.
Defined.

(** Whenever [afl_custom_fuzz] hands back the bytes it wrote, they fit in
    [max_len] and are a header followed by at least one chunk record, and
    the header announces the connections of the input's header and
    exactly as many chunks as records follow. *)
Theorem fuzz_output_counts (E : environment) (fuel : nat) (buff : list byte)
    (max_len : Z) (calls calls' : nat) (written : list comux_cinfo_t)
    (out : list byte) :
  0 <= max_len < 2 ^ 64 ->
  afl_custom_fuzz E fuel buff max_len calls = Drawn (Rewritten written out) calls' ->
  Z.of_nat (length out) <= max_len /\ written <> [] /\
  exists h,
    out = header_bytes h ++ concat (map written_record written) /\
    num_chunks h = Z.of_nat (length written) /\
    num_conns h
      = num_conns (snd (fst (comux_header_read_buffer comux_header_init buff 0))).
Proof.
  intros Hmax. revert calls written out calls'.
  assert (G : establishes (afl_custom_fuzz E fuel buff max_len)
    (fun output =>
       match output with
       | Unchanged => True
       | Rewritten written out =>
           Z.of_nat (length out) <= max_len /\ written <> [] /\
           exists h,
             out = header_bytes h ++ concat (map written_record written) /\
             num_chunks h = Z.of_nat (length written) /\
             num_conns h
             = num_conns (snd (fst (comux_header_read_buffer comux_header_init buff 0)))
       end)).
  2:{ intros calls written out calls' H. apply G in H. exact H. }
  unfold afl_custom_fuzz, make_new_comux.
  destruct (comux_header_read_buffer _ _ _) as [[pr h] rcount] eqn:Er.
  cbn [fst snd].
  destruct (nonzero pr) eqn:Hpr; [now apply establishes_pure|].
  pose proof (header_read_magic _ _ _ _ _ _ Er Hpr) as Hmagic.
  apply header_read_counts in Er; [|exact Hpr]. destruct Er as [Rc Rn].
  destruct (check_comux_header h) eqn:Ec; [now apply establishes_pure|].
  unfold check_comux_header in Ec.
  destruct (Z.gtb_spec (num_conns h) MAX_CONNECTIONS); [discriminate|].
  destruct (Z.gtb_spec (num_chunks h) MAX_CHUNKS) as [|Hle]; [discriminate|].
  destruct (Z.eqb_spec (num_conns h) 0); [discriminate|].
  destruct (Z.eqb_spec (num_chunks h) 0); [discriminate|]. clear Ec.
  change MAX_CHUNKS with 8192 in Hle.
  cbn [num_chunks num_conns set_version].
  destruct (parse_chunks _ _ _ _ _ _) as [l|] eqn:Ep;
    [|now apply establishes_pure].
  apply parse_chunks_length in Ep. cbn [length] in Ep.
  assert (Hl : num_chunks h = Z.of_nat (length l)) by lia.
  rewrite Hl.
  eapply establishes_and_then.
  { apply mutate_cinfos_shape; cbn [num_conns set_version]; lia. }
  intros m Hs.
  set (h' := if new_cinfo_index m >? -1 then _ else _).
  assert (Hh' : magic h' = COMUX_MAGIC /\ num_conns h' = num_conns h /\
                num_chunks h' = Z.of_nat (length (assembled m))).
  { rewrite (assembled_length _ _ Hs). unfold h'.
    destruct (new_cinfo_index m >? -1); [|destruct (delete_cinfo_index m >? -1)];
      cbn [magic num_conns num_chunks set_num_chunks set_version];
      (split; [exact Hmagic|]); (split; [reflexivity|]).
    - unfold to_u32. apply Z.mod_small. lia.
    - unfold to_u32. apply Z.mod_small.
      destruct Hs as [_ Hs]. lia.
    - exact Hl. }
  destruct Hh' as (Hm' & Hc' & Hn').
  destruct (comux_header_write_buffer h' max_len) as [w hbytes] eqn:Eh.
  destruct (w <? 0) eqn:Hw; [now apply establishes_pure|].
  assert (Hroom : Z.of_nat (length (header_bytes h')) <= max_len).
  { unfold comux_header_write_buffer in Eh.
    destruct (Z.ltb_spec max_len (COMUX_MAGIC_LEN + 4 + 4 + 4)) as [Hlt|Hge].
    - apply (f_equal fst) in Eh. cbn [fst] in Eh. subst w. discriminate.
    - unfold header_bytes. rewrite Hm', !length_app, !u32_to_bytes_length.
      unfold COMUX_MAGIC_LEN in Hge. change (length COMUX_MAGIC) with 8%nat. lia. }
  apply comux_header_write_buffer_bytes in Eh; [|exact Hw]. subst hbytes.
  pose proof Hs as [Hlm _]. apply Nat2Z.inj in Hlm.
  rewrite Nat2Z.id, <- Hlm.
  destruct (write_chunks_from_start m max_len (header_bytes h'))
    as (result & Ew & Rw).
  - rewrite Hlm. exact Hs.
  - lia.
  - exact Hmax.
  - exact Hroom.
  - rewrite Ew. destruct result as [|wr o]; [now apply establishes_pure|].
    destruct Rw as (Hw' & Ho & Rw). subst wr o.
    apply establishes_pure. split; [exact Rw|]. split.
    + intros Hnil. pose proof (assembled_length _ _ Hs) as Ha.
      rewrite Hnil in Ha. cbn [length] in Ha.
      destruct Hs as [_ Hs].
      destruct (new_cinfo_index m >? -1); [|destruct (Z.gtb_spec (delete_cinfo_index m) (-1))];
        lia.
    + exists h'. split; [reflexivity|]. split; [exact Hn'|exact Hc'].
Qed.

(** What the hook writes for the two chunks held open. *)
Definition held_open_output : list byte :=
  match afl_custom_fuzz sample_environment 10 held_open_input 4096 0%nat with
  | Drawn output _ => emitted held_open_input output
  | _ => []
  end.

Lemma fuzz_output_counts_witness :
  Z.of_nat (length held_open_output) <= 4096 /\ held_open_written <> [] /\
  exists h,
    held_open_output
      = header_bytes h ++ concat (map written_record held_open_written) /\
    num_chunks h = Z.of_nat (length held_open_written) /\
    num_conns h
      = num_conns (snd (fst (comux_header_read_buffer comux_header_init
                               held_open_input 0))).
Proof.
  apply (fuzz_output_counts sample_environment 10 held_open_input 4096 0 2
           held_open_written held_open_output).
  - lia.
  - vm_compute. reflexivity.
Defined.

(** The loop over the indexes still to process. *)
Fixpoint trim_remove_rest (old : list byte) (i : Z) (ix : list Z) : list byte :=
  match old with
  | [] => []
  | b :: rest =>
      match ix with
      | [] => b :: trim_remove_rest rest (i + 1) []
      | x :: ix' =>
          if i >? x then b :: trim_remove_rest rest (i + 1) ix'
          else if i =? x then trim_remove_rest rest (i + 1) ix'
          else b :: trim_remove_rest rest (i + 1) ix
      end
  end.

Lemma trim_remove_loop_rest (ixs : list Z) (old : list byte) :
  forall i k, (k <= length ixs)%nat ->
  trim_remove_loop old i ixs (Z.of_nat (length ixs)) (Z.of_nat k)
  = trim_remove_rest old i (skipn k ixs).
Proof.
  induction old as [|b rest IH]; intros i k Hk; [reflexivity|].
  cbn [trim_remove_loop trim_remove_rest]. rewrite Nat2Z.id.
  destruct (Z.ltb_spec (Z.of_nat k) (Z.of_nat (length ixs))) as [Hlt|Hge].
  - assert (Hs : skipn k ixs = nth k ixs 0 :: skipn (S k) ixs).
    { clear -Hlt. revert k Hlt. induction ixs as [|x r IHr]; intros k Hlt;
        [cbn in Hlt; lia|].
      destruct k as [|k]; [reflexivity|]. cbn [skipn nth]. apply IHr.
      cbn [length] in Hlt. lia. }
    rewrite Hs.
    replace (Z.of_nat k + 1) with (Z.of_nat (S k)) by lia.
    rewrite !(IH _ (S k)) by lia. rewrite (IH _ k) by lia. rewrite Hs.
    reflexivity.
  - rewrite skipn_all2 by lia. rewrite (IH _ k) by lia.
    rewrite skipn_all2 by lia. reflexivity.
Qed.

(** The positions the loop leaves out. *)
Fixpoint trim_removed (old : list byte) (i : Z) (ix : list Z) : list Z :=
  match old with
  | [] => []
  | b :: rest =>
      match ix with
      | [] => []
      | x :: ix' =>
          if i >? x then trim_removed rest (i + 1) ix'
          else if i =? x then i :: trim_removed rest (i + 1) ix'
          else trim_removed rest (i + 1) ix
      end
  end.

Lemma trim_removed_bounds (old : list byte) : forall i ix p,
  In p (trim_removed old i ix) -> i <= p /\ In p ix.
Proof.
  induction old as [|b rest IH]; intros i ix p H; [contradiction|].
  cbn [trim_removed] in H. destruct ix as [|x ix']; [contradiction|].
  destruct (Z.gtb_spec i x).
  - apply IH in H. split; [lia|right; tauto].
  - destruct (Z.eqb_spec i x) as [->|].
    + destruct H as [<-|H]; [split; [lia|now left]|].
      apply IH in H. split; [lia|right; tauto].
    + apply IH in H. split; [lia|tauto].
Qed.

Lemma without_below (removed : list Z) (old : list byte) : forall i x,
  x < i -> without (x :: removed) i old = without removed i old.
Proof.
  induction old as [|b rest IH]; intros i x H; [reflexivity|].
  cbn [without existsb]. destruct (Z.eqb_spec i x); [lia|]. cbn [orb].
  now rewrite !IH by lia.
Qed.

Lemma without_nil (old : list byte) : forall i, without [] i old = old.
Proof.
  induction old as [|b rest IH]; intros i; [reflexivity|].
  cbn [without existsb]. now rewrite IH.
Qed.

Lemma existsb_eqb_false (i : Z) (l : list Z) :
  (forall p, In p l -> i < p) -> existsb (Z.eqb i) l = false.
Proof.
  intros H. induction l as [|x r IH]; [reflexivity|]. cbn [existsb].
  destruct (Z.eqb_spec i x) as [->|].
  - specialize (H x (or_introl eq_refl)). lia.
  - apply IH. intros p Hp. apply H. now right.
Qed.

Lemma trim_remove_rest_nil (old : list byte) : forall i,
  trim_remove_rest old i [] = old.
Proof.
  induction old as [|b rest IH]; intros i; [reflexivity|].
  cbn [trim_remove_rest]. now rewrite IH.
Qed.

Lemma trim_remove_rest_without (old : list byte) : forall i ix,
  trim_remove_rest old i ix = without (trim_removed old i ix) i old.
Proof.
  induction old as [|b rest IH]; intros i ix; [reflexivity|].
  cbn [trim_remove_rest trim_removed]. destruct ix as [|x ix'].
  - cbn [without existsb]. now rewrite without_nil, trim_remove_rest_nil.
  - assert (Hkeep : forall ix0,
              without (trim_removed rest (i + 1) ix0) i (b :: rest)
              = b :: without (trim_removed rest (i + 1) ix0) (i + 1) rest).
    { intros ix0. cbn [without]. rewrite existsb_eqb_false; [reflexivity|].
      intros p Hp. apply trim_removed_bounds in Hp. lia. }
    destruct (Z.gtb_spec i x).
    + rewrite Hkeep. now rewrite IH.
    + destruct (Z.eqb_spec i x) as [->|].
      * cbn [without existsb]. rewrite Z.eqb_refl. cbn [orb].
        rewrite without_below by lia. apply IH.
      * rewrite Hkeep. now rewrite IH.
Qed.

Lemma trim_removed_length (old : list byte) : forall i ix,
  (length (trim_remove_rest old i ix) + length (trim_removed old i ix)
   = length old)%nat.
Proof.
  induction old as [|b rest IH]; intros i ix; [reflexivity|].
  cbn [trim_remove_rest trim_removed]. destruct ix as [|x ix'].
  - rewrite trim_remove_rest_nil. cbn [length]. lia.
  - destruct (Z.gtb_spec i x); [|destruct (Z.eqb_spec i x)]; cbn [length].
    + specialize (IH (i + 1) ix'). lia.
    + specialize (IH (i + 1) ix'). lia.
    + specialize (IH (i + 1) (x :: ix')). lia.
Qed.

Lemma trim_removed_at_most (old : list byte) : forall i ix,
  (length (trim_removed old i ix) <= length ix)%nat.
Proof.
  induction old as [|b rest IH]; intros i ix; cbn [trim_removed length]; [lia|].
  destruct ix as [|x ix']; cbn [length]; [lia|].
  destruct (Z.gtb_spec i x); [|destruct (Z.eqb_spec i x)]; cbn [length].
  - specialize (IH (i + 1) ix'). lia.
  - specialize (IH (i + 1) ix'). lia.
  - specialize (IH (i + 1) (x :: ix')). cbn [length] in IH. lia.
Qed.

Lemma trim_removed_first (old : list byte) : forall i x ix,
  i <= x < i + Z.of_nat (length old) -> In x (trim_removed old i (x :: ix)).
Proof.
  induction old as [|b rest IH]; intros i x ix H; [cbn in H; lia|].
  cbn [trim_removed]. destruct (Z.gtb_spec i x); [lia|].
  destruct (Z.eqb_spec i x) as [->|]; [now left|].
  apply IH. cbn [length] in H. lia.
Qed.

Lemma trim_removed_distinct (old : list byte) : forall i ix,
  StronglySorted Z.lt ix -> Forall (fun x => i <= x < i + Z.of_nat (length old)) ix ->
  trim_removed old i ix = ix.
Proof.
  induction old as [|b rest IH]; intros i ix Hs Hr.
  - destruct ix as [|x ix']; [reflexivity|]. inversion Hr; subst. cbn in *. lia.
  - cbn [trim_removed]. destruct ix as [|x ix']; [reflexivity|].
    inversion Hs as [|? ? Hs' Hlt]; subst. inversion Hr as [|? ? Hx Hr']; subst.
    cbn [length] in *.
    destruct (Z.gtb_spec i x); [lia|].
    destruct (Z.eqb_spec i x) as [->|].
    + f_equal. apply IH; [exact Hs'|].
      rewrite Forall_forall in *. intros y Hy.
      specialize (Hlt y Hy). specialize (Hr' y Hy). lia.
    + apply IH; [exact Hs|]. constructor; [lia|].
      rewrite Forall_forall in *. intros y Hy.
      specialize (Hlt y Hy). specialize (Hr' y Hy). lia.
Qed.

(** One trimming step, for indexes that lie within the old payload: the
    loop copies the old payload in order and leaves out only bytes at
    positions among [byte_indexes], the one at the first index (the
    smallest, after [qsort]) among them, so the new payload is shorter by
    at least one byte and by at most [trim_bytes_per_step]; when the
    indexes are ascending and all different it leaves out exactly the
    bytes at these positions. *)
Theorem trim_step_removes (old : list byte) (byte_indexes : list Z) :
  byte_indexes <> [] ->
  Forall (fun x => 0 <= x < Z.of_nat (length old)) byte_indexes ->
  let new := trim_remove_loop old 0 byte_indexes
                              (Z.of_nat (length byte_indexes)) 0 in
  (exists removed,
     new = without removed 0 old /\ incl removed byte_indexes /\
     In (hd 0 byte_indexes) removed) /\
  Z.of_nat (length old) - Z.of_nat (length byte_indexes)
    <= Z.of_nat (length new) < Z.of_nat (length old) /\
  (StronglySorted Z.lt byte_indexes -> new = without byte_indexes 0 old).
Proof.
  intros Hne Hr new.
  assert (E : new = trim_remove_rest old 0 byte_indexes).
  { unfold new. change 0 with (Z.of_nat 0) at 2.
    rewrite trim_remove_loop_rest by lia. reflexivity. }
  destruct byte_indexes as [|x ix]; [contradiction|].
  assert (Hx : 0 <= x < 0 + Z.of_nat (length old)) by (inversion Hr; subst; lia).
  pose proof (trim_removed_first old 0 x ix Hx) as Hfirst.
  pose proof (trim_removed_length old 0 (x :: ix)) as Hlen.
  pose proof (trim_removed_at_most old 0 (x :: ix)) as Hmost.
  rewrite <- E in Hlen.
  split; [|split].
  - exists (trim_removed old 0 (x :: ix)). split; [|split].
    + rewrite E. apply trim_remove_rest_without.
    + intros p Hp. now apply trim_removed_bounds in Hp.
    + exact Hfirst.
  - destruct (trim_removed old 0 (x :: ix)) as [|r rs] eqn:Er; [contradiction|].
    cbn [length] in *. lia.
  - intros Hd. rewrite E, trim_remove_rest_without.
    rewrite trim_removed_distinct; [reflexivity|exact Hd|].
    rewrite Forall_forall in *. intros y Hy. specialize (Hr y Hy). lia.
Qed.

Lemma trim_step_removes_witness :
  (exists removed,
     trim_remove_loop ["a"; "b"; "c"; "d"; "e"]%byte 0 [2; 2; 3] 3 0
       = without removed 0 ["a"; "b"; "c"; "d"; "e"]%byte /\
     incl removed [2; 2; 3] /\ In 2 removed) /\
  5 - 3 <= Z.of_nat (length (trim_remove_loop ["a"; "b"; "c"; "d"; "e"]%byte 0
                                              [2; 2; 3] 3 0)) < 5 /\
  (StronglySorted Z.lt [2; 2; 3] ->
   trim_remove_loop ["a"; "b"; "c"; "d"; "e"]%byte 0 [2; 2; 3] 3 0
   = without [2; 2; 3] 0 ["a"; "b"; "c"; "d"; "e"]%byte).
Proof.
  apply (trim_step_removes ["a"; "b"; "c"; "d"; "e"]%byte [2; 2; 3]).
  - discriminate.
  - repeat constructor; cbn; lia.
Defined.

Lemma havoc_length (E : environment) (buf buf' : list byte) (calls calls' : nat) :
  havoc E buf calls = Drawn buf' calls' -> length buf' = length buf.
Proof.
  unfold havoc. destruct (surgical_havoc_mutate E buf calls) as [b c].
  intros [= <- _]. rewrite length_app, length_firstn, length_skipn. lia.
Qed.

Lemma reverse_bytes_perm (buf : list byte) (idx size : Z) :
  0 <= idx -> 0 <= size -> idx + size <= Z.of_nat (length buf) ->
  Permutation buf (reverse_bytes buf idx size).
Proof.
  intros Hi Hs Hl. unfold reverse_bytes, bytes_at.
  rewrite <- (firstn_skipn (Z.to_nat idx) buf) at 1.
  apply Permutation_app_head.
  rewrite <- (firstn_skipn (Z.to_nat size) (skipn (Z.to_nat idx) buf)) at 1.
  rewrite skipn_skipn.
  replace (Z.to_nat size + Z.to_nat idx)%nat with (Z.to_nat (idx + size)) by lia.
  apply Permutation_app_tail, Permutation_rev.
Qed.

Lemma update_nth_length {A : Type} (f : A -> A) (l : list A) : forall n,
  length (update_nth n f l) = length l.
Proof.
  induction l as [|x r IH]; intros n; destruct n; cbn; try reflexivity.
  now rewrite IH.
Qed.

Lemma nth_split_at {A : Type} (l : list A) (d : A) : forall n,
  (n < length l)%nat -> l = firstn n l ++ nth n l d :: skipn (S n) l.
Proof.
  induction l as [|x r IH]; intros n H; [cbn in H; lia|].
  destruct n as [|n]; [reflexivity|]. cbn [firstn nth skipn app].
  f_equal. apply IH. cbn in H. lia.
Qed.

Lemma swap_bytes_perm_lt (buf : list byte) (i j : nat) :
  (i < j < length buf)%nat ->
  Permutation buf (swap_bytes buf (Z.of_nat i) (Z.of_nat j)) /\
  Permutation buf (swap_bytes buf (Z.of_nat j) (Z.of_nat i)).
Proof.
  intros H. unfold swap_bytes. rewrite !Nat2Z.id.
  set (x := nth i buf x00). set (y := nth j buf x00).
  pose proof (nth_split_at buf x00 i ltac:(lia)) as E1. fold x in E1.
  set (A := firstn i buf) in *. set (R := skipn (S i) buf) in *.
  assert (LA : length A = i) by (unfold A; rewrite length_firstn; lia).
  assert (LR : (j - S i < length R)%nat) by (unfold R; rewrite length_skipn; lia).
  pose proof (nth_split_at R x00 (j - S i) LR) as E2.
  assert (Hy : nth (j - S i) R x00 = y).
  { unfold y. rewrite E1 at 1. rewrite app_nth2 by lia. rewrite LA.
    replace (j - i)%nat with (S (j - S i)) by lia. reflexivity. }
  rewrite Hy in E2.
  set (B := firstn (j - S i) R) in *. set (C := skipn (S (j - S i)) R) in *.
  assert (LB : length B = (j - S i)%nat) by (unfold B; rewrite length_firstn; lia).
  assert (Ebuf : buf = A ++ x :: B ++ y :: C) by (rewrite E1 at 1; now rewrite E2 at 1).
  clearbody A B C x y. clear E1 E2 Hy R LR. subst buf.
  assert (Ei : i = length A) by lia.
  assert (Ej : j = length (A ++ x :: B)) by (rewrite length_app; cbn [length]; lia).
  assert (P : Permutation (A ++ x :: B ++ y :: C) (A ++ y :: B ++ x :: C)).
  { apply Permutation_app_head.
    change (x :: B ++ y :: C) with ((x :: B) ++ y :: C).
    rewrite <- Permutation_middle.
    change (y :: B ++ x :: C) with (y :: (B ++ x :: C)).
    apply perm_skip. cbn [app]. apply Permutation_middle. }
  split.
  - rewrite Ei at 1. rewrite update_nth_app.
    replace (A ++ y :: B ++ y :: C) with ((A ++ y :: B) ++ y :: C)
      by (now rewrite <- app_assoc).
    rewrite Ej at 1.
    replace (length (A ++ x :: B)) with (length (A ++ y :: B))
      by (rewrite !length_app; reflexivity).
    rewrite update_nth_app. rewrite <- app_assoc. exact P.
  - replace (A ++ x :: B ++ y :: C) with ((A ++ x :: B) ++ y :: C) at 2
      by (now rewrite <- app_assoc).
    rewrite Ej at 1. rewrite update_nth_app. rewrite <- app_assoc. cbn [app].
    rewrite Ei at 1. rewrite update_nth_app. exact P.
Qed.

Lemma swap_bytes_perm (buf : list byte) (idx1 idx2 : Z) :
  0 <= idx1 < Z.of_nat (length buf) -> 0 <= idx2 < Z.of_nat (length buf) ->
  idx1 <> idx2 -> Permutation buf (swap_bytes buf idx1 idx2).
Proof.
  intros H1 H2 Hne.
  rewrite <- (Z2Nat.id idx1), <- (Z2Nat.id idx2) by lia.
  destruct (Z.lt_ge_cases idx1 idx2).
  - apply (swap_bytes_perm_lt buf (Z.to_nat idx1) (Z.to_nat idx2)). lia.
  - apply (swap_bytes_perm_lt buf (Z.to_nat idx2) (Z.to_nat idx1)). lia.
Qed.

Lemma other_index_spec (E : environment) (data_len idx1 : Z) (fuel : nat) :
  forall calls idx2 calls',
  other_index E fuel data_len idx1 calls = Drawn idx2 calls' ->
  idx2 <> idx1 /\ (0 < data_len -> 0 <= idx2 < data_len).
Proof.
  induction fuel as [|fuel IH]; intros calls idx2 calls' H; [discriminate|].
  cbn [other_index] in H. apply and_then_Drawn in H.
  destruct H as (v & c1 & Hr & H). apply RAND_UNDER_Drawn in Hr.
  destruct (Z.eqb_spec idx1 v) as [->|Hne].
  - now apply IH in H.
  - apply pure_Drawn in H. subst v. split; [congruence|tauto].
Qed.

(** What the call of [rand] numbered [k] returns. *)
Definition rand_at (E : environment) (k : nat) : Z :=
  rand_values E k mod (RAND_MAX + 1).

Lemma RAND_UNDER_exact (E : environment) (ceiling : Z) (calls calls' : nat) (v : Z) :
  RAND_UNDER E ceiling calls = Drawn v calls' ->
  ceiling <> 0 /\ v = rand_at E calls mod ceiling /\ calls' = S calls.
Proof.
  unfold RAND_UNDER, and_then, rand, rand_at.
  destruct (Z.eqb_spec ceiling 0) as [|Hnz]; [discriminate|].
  unfold pure. intros [= <- <-]. auto.
Qed.

(** The second index of the swap is the first value drawn that differs
    from the first index. *)
Lemma other_index_first (E : environment) (data_len idx1 : Z) (fuel : nat) :
  forall calls idx2 calls',
  other_index E fuel data_len idx1 calls = Drawn idx2 calls' ->
  (calls < calls')%nat /\ idx2 = rand_at E (pred calls') mod data_len /\
  idx2 <> idx1 /\
  forall k, (calls <= k < pred calls')%nat -> rand_at E k mod data_len = idx1.
Proof.
  induction fuel as [|fuel IH]; intros calls idx2 calls' H; [discriminate|].
  cbn [other_index] in H. apply and_then_Drawn in H.
  destruct H as (v & c1 & Hr & H). apply RAND_UNDER_exact in Hr.
  destruct Hr as (_ & -> & ->).
  destruct (Z.eqb_spec idx1 (rand_at E calls mod data_len)) as [Heq|Hne].
  - apply IH in H. destruct H as (Hc & Hj & Hn & Hk).
    split; [lia|]. split; [exact Hj|]. split; [exact Hn|].
    intros k Hr. destruct (Nat.eq_dec k calls) as [->|Hkc]; [now symmetry|].
    apply Hk. lia.
  - unfold pure in H. injection H as <- <-. cbn [pred].
    split; [lia|]. split; [reflexivity|]. split; [congruence|].
    intros k Hr. lia.
Qed.

Lemma nth_update_nth_other {A : Type} (f : A -> A) (l : list A) (d : A) :
  forall n k, k <> n -> nth k (update_nth n f l) d = nth k l d.
Proof.
  induction l as [|x r IH]; intros [|n] [|k] H; cbn [update_nth nth];
    try reflexivity; try contradiction.
  apply IH. congruence.
Qed.

Lemma nth_update_nth_same {A : Type} (f : A -> A) (l : list A) (d : A) :
  forall n, (n < length l)%nat -> nth n (update_nth n f l) d = f (nth n l d).
Proof.
  induction l as [|x r IH]; intros [|n] H; cbn [update_nth nth length] in *;
    try lia; try reflexivity.
  apply IH. lia.
Qed.

(** [swap_bytes] exchanges the bytes at two different positions and
    leaves every other byte where it is. *)
Lemma swap_bytes_nth (buf : list byte) (idx1 idx2 : Z) :
  0 <= idx1 < Z.of_nat (length buf) -> 0 <= idx2 < Z.of_nat (length buf) ->
  idx1 <> idx2 ->
  nth (Z.to_nat idx1) (swap_bytes buf idx1 idx2) x00 = nth (Z.to_nat idx2) buf x00 /\
  nth (Z.to_nat idx2) (swap_bytes buf idx1 idx2) x00 = nth (Z.to_nat idx1) buf x00 /\
  forall k, k <> Z.to_nat idx1 -> k <> Z.to_nat idx2 ->
            nth k (swap_bytes buf idx1 idx2) x00 = nth k buf x00.
Proof.
  intros H1 H2 Hne. unfold swap_bytes.
  split; [|split].
  - rewrite nth_update_nth_other by lia.
    now rewrite nth_update_nth_same by lia.
  - now rewrite nth_update_nth_same by (rewrite update_nth_length; lia).
  - intros k K1 K2. now rewrite !nth_update_nth_other by assumption.
Qed.

(** [reverse_bytes] turns round a stretch of the buffer that ends before
    the buffer's last byte. *)
Lemma reverse_bytes_parts (buf : list byte) (idx size : Z) :
  0 <= idx -> 0 <= size -> idx + size < Z.of_nat (length buf) ->
  exists a b z,
    buf = a ++ b ++ z /\ reverse_bytes buf idx size = a ++ rev b ++ z /\
    z <> [] /\ Z.of_nat (length a) = idx /\ Z.of_nat (length b) = size.
Proof.
  intros Hi Hs Hl.
  exists (firstn (Z.to_nat idx) buf), (bytes_at buf idx size),
         (skipn (Z.to_nat (idx + size)) buf).
  split; [|split; [reflexivity|split; [|split]]].
  - unfold bytes_at.
    replace (Z.to_nat (idx + size)) with (Z.to_nat idx + Z.to_nat size)%nat by lia.
    rewrite <- skipn_skipn', firstn_skipn. now rewrite firstn_skipn.
  - intros Hz. apply (f_equal (@length byte)) in Hz.
    rewrite length_skipn in Hz. cbn [length] in Hz. lia.
  - rewrite length_firstn. lia.
  - unfold bytes_at. rewrite length_firstn, length_skipn. lia.
Qed.

(** [mutate_cinfo_data_extra] on a chunk whose [len] is the size of its
    payload. The chunk keeps its header fields and the size of its
    payload, and from two bytes on the new payload holds the same bytes in
    another order. What is done follows from the values [rand] returns:
    - an empty chunk is left as it is, without a call of [rand];
    - a chunk of one byte goes to [surgical_havoc_mutate];
    - with more than two bytes and an even first value, a stretch of the
      payload is turned round where it is: its length is the second value
      modulo [len], its start the third value modulo what is left, so the
      stretch may be empty and never holds the last byte;
    - otherwise two bytes at different positions change places and every
      other byte stays: the first position is the second value modulo
      [len], the other one the first later value that differs from it. *)
Theorem data_extra_permutes (E : environment) (fuel : nat) (c c' : comux_cinfo_t)
    (calls calls' : nat) :
  len c = Z.of_nat (length (data c)) -> len c < 2 ^ 64 ->
  mutate_cinfo_data_extra E fuel c calls = Drawn c' calls' ->
  id c' = id c /\ len c' = len c /\ sched c' = sched c /\
  flags c' = flags c /\ offset c' = offset c /\
  length (data c') = length (data c) /\
  (2 <= len c -> Permutation (data c) (data c')) /\
  ((len c = 0 /\ c' = c /\ calls' = calls) \/
   (len c = 1 /\ havoc E (data c) (S calls) = Drawn (data c') calls') \/
   (2 < len c /\ rand_at E calls mod 2 = 0 /\ calls' = S (S (S calls)) /\
    exists a b z,
      data c = a ++ b ++ z /\ data c' = a ++ rev b ++ z /\ z <> [] /\
      Z.of_nat (length b) = rand_at E (S calls) mod len c /\
      Z.of_nat (length a)
      = rand_at E (S (S calls)) mod (len c - Z.of_nat (length b))) \/
   (2 <= len c /\ (len c = 2 \/ rand_at E calls mod 2 <> 0) /\
    (S (S calls) < calls')%nat /\
    exists idx1 idx2,
      idx1 = rand_at E (S calls) mod len c /\
      idx2 = rand_at E (pred calls') mod len c /\
      0 <= idx1 < len c /\ 0 <= idx2 < len c /\ idx2 <> idx1 /\
      (forall k, (S (S calls) <= k < pred calls')%nat ->
                 rand_at E k mod len c = idx1) /\
      nth (Z.to_nat idx1) (data c') x00 = nth (Z.to_nat idx2) (data c) x00 /\
      nth (Z.to_nat idx2) (data c') x00 = nth (Z.to_nat idx1) (data c) x00 /\
      forall k, k <> Z.to_nat idx1 -> k <> Z.to_nat idx2 ->
                nth k (data c') x00 = nth k (data c) x00)).
Proof.
  intros Hl H64 H. unfold mutate_cinfo_data_extra in H.
  destruct (Z.eqb_spec (len c) 0) as [H0|H0].
  { unfold pure in H. injection H as <- <-.
    do 6 (split; [reflexivity|]). split; [lia|]. left. auto. }
  apply and_then_Drawn in H. destruct H as (extra & c1 & Hx & H).
  apply RAND_UNDER_exact in Hx. destruct Hx as (_ & -> & ->).
  assert (Hkeep : forall d, length d = length (data c) ->
            id (set_data c d) = id c /\ len (set_data c d) = len c /\
            sched (set_data c d) = sched c /\ flags (set_data c d) = flags c /\
            offset (set_data c d) = offset c /\
            length (data (set_data c d)) = length (data c)).
  { intros d L. cbn [id len sched flags offset data set_data].
    repeat (split; [reflexivity|]). exact L. }
  assert (Hjoin : forall (P Q : Prop) d, length d = length (data c) -> P -> Q ->
            id (set_data c d) = id c /\ len (set_data c d) = len c /\
            sched (set_data c d) = sched c /\ flags (set_data c d) = flags c /\
            offset (set_data c d) = offset c /\
            length (data (set_data c d)) = length (data c) /\ P /\ Q).
  { intros P Q d L HP HQ. destruct (Hkeep d L) as (K1 & K2 & K3 & K4 & K5 & K6).
    repeat (split; [assumption|]). exact HQ. }
  destruct ((rand_at E calls mod 2 =? 0) && (len c >? 2)) eqn:Ex.
  - apply andb_prop in Ex. destruct Ex as [Ex0 Ex]. apply Z.gtb_lt in Ex.
    apply Z.eqb_eq in Ex0.
    apply and_then_Drawn in H. destruct H as (size & c2 & Hr1 & H).
    apply RAND_UNDER_exact in Hr1. destruct Hr1 as (_ & -> & ->).
    apply and_then_Drawn in H. destruct H as (idx & c3 & Hr2 & H).
    apply RAND_UNDER_exact in Hr2. destruct Hr2 as (_ & -> & ->).
    set (size := rand_at E (S calls) mod len c) in *.
    assert (Hsize : 0 <= size < len c) by (apply Z.mod_pos_bound; lia).
    assert (Hu : to_u64 (len c - size) = len c - size)
      by (unfold to_u64; apply Z.mod_small; lia).
    rewrite Hu in H.
    set (idx := rand_at E (S (S calls)) mod (len c - size)) in *.
    assert (Hidx : 0 <= idx < len c - size) by (apply Z.mod_pos_bound; lia).
    unfold pure in H. injection H as <- <-.
    destruct (reverse_bytes_parts (data c) idx size) as (a & b & z & Ed & Er & Hz & La & Lb);
      [lia|lia|lia|].
    assert (P : Permutation (data c) (reverse_bytes (data c) idx size))
      by (apply reverse_bytes_perm; lia).
    apply Hjoin.
    + symmetry. now apply Permutation_length.
    + intros _. exact P.
    + right. right. left. split; [lia|]. split; [exact Ex0|]. split; [reflexivity|].
      exists a, b, z. cbn [data set_data].
      split; [exact Ed|]. split; [exact Er|]. split; [exact Hz|].
      split; [exact Lb|]. rewrite Lb. exact La.
  - destruct (Z.gtb_spec (len c) 1) as [H1|H1].
    + apply and_then_Drawn in H. destruct H as (idx1 & c2 & Hr1 & H).
      apply RAND_UNDER_exact in Hr1. destruct Hr1 as (_ & -> & ->).
      apply and_then_Drawn in H. destruct H as (idx2 & c3 & Hr2 & H).
      apply other_index_first in Hr2. destruct Hr2 as (Hc & Hj & Hne & Hk).
      unfold pure in H. injection H as <- <-.
      rewrite <- Hl in *.
      set (idx1 := rand_at E (S calls) mod len c) in *.
      assert (Hi1 : 0 <= idx1 < len c) by (apply Z.mod_pos_bound; lia).
      assert (Hi2 : 0 <= idx2 < len c) by (rewrite Hj; apply Z.mod_pos_bound; lia).
      assert (P : Permutation (data c) (swap_bytes (data c) idx1 idx2))
        by (apply swap_bytes_perm; lia).
      destruct (swap_bytes_nth (data c) idx1 idx2) as (N1 & N2 & N3); [lia|lia|lia|].
      apply Hjoin.
      * symmetry. now apply Permutation_length.
      * intros _. exact P.
      * right. right. right. split; [lia|]. split.
        { destruct (Z.eqb_spec (rand_at E calls mod 2) 0) as [E0|E0]; [|now right].
          cbn [andb] in Ex. destruct (Z.gtb_spec (len c) 2); [discriminate|]. left. lia. }
        split; [exact Hc|]. exists idx1, idx2. cbn [data set_data].
        split; [reflexivity|]. split; [exact Hj|]. split; [exact Hi1|].
        split; [exact Hi2|]. split; [exact Hne|]. split; [exact Hk|].
        split; [exact N1|]. split; [exact N2|exact N3].
    + apply and_then_Drawn in H. destruct H as (buf & c2 & Hh & H).
      pose proof (havoc_length _ _ _ _ _ Hh) as Lh.
      unfold pure in H. injection H as <- <-.
      apply Hjoin.
      * exact Lh.
      * lia.
      * right. left. split; [lia|]. cbn [data set_data]. exact Hh.
Qed.

Lemma data_extra_permutes_witness :
  let c := mk_cinfo 0 3 4 1 ["a"; "b"; "c"]%byte 0 in
  let c' := mk_cinfo 0 3 4 1 ["c"; "b"; "a"]%byte 0 in
  let E := sample_environment in
  id c' = id c /\ len c' = len c /\ sched c' = sched c /\
  flags c' = flags c /\ offset c' = offset c /\
  length (data c') = length (data c) /\
  (2 <= len c -> Permutation (data c) (data c')) /\
  ((len c = 0 /\ c' = c /\ 3%nat = 0%nat) \/
   (len c = 1 /\ havoc E (data c) 1%nat = Drawn (data c') 3%nat) \/
   (2 < len c /\ rand_at E 0%nat mod 2 = 0 /\ 3%nat = 3%nat /\
    exists a b z,
      data c = a ++ b ++ z /\ data c' = a ++ rev b ++ z /\ z <> [] /\
      Z.of_nat (length b) = rand_at E 1%nat mod len c /\
      Z.of_nat (length a) = rand_at E 2%nat mod (len c - Z.of_nat (length b))) \/
   (2 <= len c /\ (len c = 2 \/ rand_at E 0%nat mod 2 <> 0) /\
    (2 < 3)%nat /\
    exists idx1 idx2,
      idx1 = rand_at E 1%nat mod len c /\
      idx2 = rand_at E (pred 3%nat) mod len c /\
      0 <= idx1 < len c /\ 0 <= idx2 < len c /\ idx2 <> idx1 /\
      (forall k, (2 <= k < pred 3)%nat -> rand_at E k mod len c = idx1) /\
      nth (Z.to_nat idx1) (data c') x00 = nth (Z.to_nat idx2) (data c) x00 /\
      nth (Z.to_nat idx2) (data c') x00 = nth (Z.to_nat idx1) (data c) x00 /\
      forall k, k <> Z.to_nat idx1 -> k <> Z.to_nat idx2 ->
                nth k (data c') x00 = nth k (data c) x00)).
Proof.
  apply (data_extra_permutes sample_environment 10
           (mk_cinfo 0 3 4 1 ["a"; "b"; "c"]%byte 0)
           (mk_cinfo 0 3 4 1 ["c"; "b"; "a"]%byte 0) 0 3).
  - reflexivity.
  - cbn. lia.
  - vm_compute. reflexivity.
Defined.

End MutatorFacts.

(* ===================================================================== *)
(** * Properties of the dictionary *)
(* ===================================================================== *)
Module DictFacts.
Import Utils UtilsFacts Dict.

Lemma strcmp_total (a : list byte) : forall b, 0 < strcmp a b -> strcmp b a < 0.
Proof.
  induction a as [|x a IH]; intros [|y b]; cbn [strcmp]; intros H; try lia.
  rewrite (Z.eqb_sym (Z_of_byte y)).
  destruct (Z.eqb_spec (Z_of_byte x) (Z_of_byte y)); [now apply IH|lia].
Qed.

Lemma qsort_insert_perm e l : Permutation (qsort_insert e l) (e :: l).
Proof.
  induction l as [|x l IH]; cbn [qsort_insert]; [reflexivity|].
  destruct (dict_entry_cmp e x <=? 0); [reflexivity|].
  eapply perm_trans; [apply perm_skip; exact IH|apply perm_swap].
Qed.

Lemma qsort_perm l : Permutation (qsort l) l.
Proof.
  induction l as [|x l IH]; cbn; [constructor|].
  eapply perm_trans; [apply qsort_insert_perm|now apply perm_skip].
Qed.

Lemma qsort_insert_sorted e l :
  Sorted entry_le l -> Sorted entry_le (qsort_insert e l).
Proof.
  induction 1 as [|x l Hl IH Hx]; cbn [qsort_insert]; [repeat constructor|].
  destruct (Z.leb_spec (dict_entry_cmp e x) 0) as [Hle|Hgt].
  - constructor; [now constructor|constructor; exact Hle].
  - constructor; [exact IH|].
    assert (Hxe : entry_le x e).
    { unfold entry_le, dict_entry_cmp in *. apply strcmp_total in Hgt. lia. }
    destruct l as [|y l]; cbn [qsort_insert]; [constructor; exact Hxe|].
    destruct (dict_entry_cmp e y <=? 0); constructor; [exact Hxe|].
    now inversion Hx.
Qed.

Lemma qsort_sorted l : Sorted entry_le (qsort l).
Proof.
  induction l as [|x l IH]; cbn; [constructor|]. now apply qsort_insert_sorted.
Qed.

Lemma dict_sort_perm d : Permutation (dict_sort d) d.
Proof. unfold dict_sort. destruct (size d =? 0); [reflexivity|apply qsort_perm]. Qed.

Lemma dict_sort_sorted d : Sorted entry_le (dict_sort d).
Proof.
  unfold dict_sort, size. destruct (Z.eqb_spec (Z.of_nat (length d)) 0).
  - destruct d; [constructor|cbn in *; lia].
  - apply qsort_sorted.
Qed.

Lemma dict_add_ok d s n d' :
  0 <= n -> dict_ok d -> dict_add d s n = Added d' -> dict_ok d'.
Proof.
  intros Hn (Hsz & Hall & Hs). unfold dict_add.
  destruct (dict_search d s); [discriminate|].
  unfold dict_entry_init.
  destruct (Z.eqb_spec n 0); cbn [orb]; [discriminate|].
  destruct (Z.gtb_spec n DICT_ENTRY_MAXLEN); [discriminate|].
  destruct (Z.ltb_spec (size d) DICT_MAXLEN); [|discriminate].
  intros HA; inversion HA; subst. split; [|split].
  - unfold size in *. rewrite (Permutation_length (dict_sort_perm _)).
    rewrite length_app. cbn. lia.
  - eapply Permutation_Forall; [apply Permutation_sym, dict_sort_perm|].
    apply Forall_app. split; [exact Hall|]. constructor; [|constructor].
    cbn [len str]. rewrite length_firstn. lia.
  - apply dict_sort_sorted.
Qed.

Lemma getlines_nonempty (file : list byte) : forall cur,
  Forall (fun line => line <> []) (getlines cur file).
Proof.
  induction file as [|b file IH]; intros cur; cbn [getlines].
  - destruct cur as [|c cur]; constructor; [|constructor].
    cbn [rev]. intros H. now apply app_eq_nil in H as [_ H].
  - destruct (Byte.eqb b x0a); [|apply IH].
    constructor; [|apply IH].
    cbn [rev]. intros H. now apply app_eq_nil in H as [_ H].
Qed.

Lemma load_lines_ok (lines : list (list byte)) : forall d d',
  Forall (fun line => line <> []) lines ->
  dict_ok d -> load_lines d lines = Loaded d' -> dict_ok d'.
Proof.
  induction lines as [|line lines IH]; intros d d' Hne Hd; cbn [load_lines].
  - intros H; inversion H; now subst.
  - inversion Hne as [|? ? Hl Hls]; subst.
    destruct (dict_add d _ _) as [d1| |] eqn:E; try discriminate.
    apply IH; [exact Hls|].
    eapply dict_add_ok; [|exact Hd|exact E].
    destruct line; [contradiction|cbn [length]; lia].
Qed.

(** On success the dictionary has at most 2048 entries, each of a length
    between 1 and 128, sorted by [strcmp]. *)
Lemma dict_from_file_loaded (file : list byte) (d : dict_t) :
  dict_from_file file = Loaded d -> dict_ok d.
Proof.
  apply load_lines_ok; [apply getlines_nonempty|].
  unfold dict_ok, dict_init, size, DICT_MAXLEN. cbn. repeat constructor; lia.
Qed.

Ltac byte_ranges :=
  repeat match goal with
         | b : byte |- _ =>
             lazymatch goal with
             | _ : 0 <= Z_of_byte b < 256 |- _ => fail
             | _ => pose proof (Z_of_byte_range b)
             end
         end.

Lemma strcmp_antisym (a : list byte) : forall b, strcmp a b < 0 -> 0 < strcmp b a.
Proof.
  induction a as [|x a IH]; intros [|y b]; cbn [strcmp]; intros H; try lia.
  rewrite (Z.eqb_sym (Z_of_byte y)).
  destruct (Z.eqb_spec (Z_of_byte x) (Z_of_byte y)); [now apply IH|lia].
Qed.

Lemma strlt_trans : Transitive strlt.
Proof.
  unfold Transitive, strlt. intros a. induction a as [|x a IH]; intros [|y b] [|z c];
    cbn [strcmp]; intros H1 H2; byte_ranges; try lia;
    repeat match goal with
           | H : context [Z_of_byte ?p =? Z_of_byte ?q] |- _ =>
               destruct (Z.eqb_spec (Z_of_byte p) (Z_of_byte q))
           | |- context [Z_of_byte ?p =? Z_of_byte ?q] =>
               destruct (Z.eqb_spec (Z_of_byte p) (Z_of_byte q))
           end; try lia.
  now apply (IH b c).
Qed.

Lemma ascending_Sorted (ws : list (list byte)) :
  ascending ws = true -> StronglySorted strlt ws.
Proof.
  intros H. apply Sorted_StronglySorted; [exact strlt_trans|].
  induction ws as [|w ws IH]; [constructor|].
  cbn [ascending] in H. destruct ws as [|w' ws]; [repeat constructor|].
  apply andb_true_iff in H. destruct H as (H1 & H2).
  constructor; [now apply IH|]. constructor. unfold strlt.
  now apply Z.ltb_lt.
Qed.

Lemma plain_word_spec (w : list byte) :
  plain_word w = true ->
  (0 < Z.of_nat (length w) <= DICT_ENTRY_MAXLEN) /\
  Forall (fun b => Byte.eqb b x00 = false /\ Byte.eqb b x0a = false) w.
Proof.
  unfold plain_word. intros H.
  apply andb_true_iff in H. destruct H as (H & H3).
  apply andb_true_iff in H. destruct H as (H1 & H2).
  apply negb_true_iff, Z.eqb_neq in H1. apply Z.leb_le in H2.
  split; [lia|]. rewrite forallb_forall in H3. rewrite Forall_forall.
  intros b Hb. specialize (H3 b Hb). apply andb_true_iff in H3.
  destruct H3 as (Ha & Hn). now rewrite !negb_true_iff in *.
Qed.

Lemma cstr_plain (w rest : list byte) :
  Forall (fun b => Byte.eqb b x00 = false /\ Byte.eqb b x0a = false) w ->
  cstr (w ++ x00 :: rest) = w.
Proof.
  induction 1 as [|b w (Hb & _) _ IH]; cbn [app cstr]; [reflexivity|].
  now rewrite Hb, IH.
Qed.

Lemma getlines_plain (w : list byte) : forall cur rest,
  Forall (fun b => Byte.eqb b x00 = false /\ Byte.eqb b x0a = false) w ->
  getlines cur (w ++ x0a :: rest) = (rev cur ++ w ++ [x0a]) :: getlines [] rest.
Proof.
  induction w as [|b w IH]; intros cur rest Hw; cbn [app getlines].
  - cbn [Byte.eqb]. cbn [rev]. reflexivity.
  - inversion Hw as [|? ? (_ & Hn) Hw']; subst. rewrite Hn.
    rewrite IH by assumption. cbn [rev]. now rewrite <- app_assoc.
Qed.

Lemma getlines_file_of (ws : list (list byte)) :
  forallb plain_word ws = true ->
  getlines [] (file_of ws) = map (fun w => w ++ [x0a]) ws.
Proof.
  unfold file_of. induction ws as [|w ws IH]; intros H; [reflexivity|].
  cbn [forallb] in H. apply andb_true_iff in H. destruct H as (Hw & Hws).
  cbn [map concat]. rewrite <- app_assoc. cbn [app].
  rewrite getlines_plain by (apply plain_word_spec; exact Hw).
  cbn [rev app]. now rewrite IH.
Qed.

Lemma search_loop_above (d : dict_t) (w : list byte) (fuel : nat) :
  forall left right,
  (forall i, 0 <= left <= i -> i <= right ->
             0 < strcmp w (str (nth (Z.to_nat i) d (mk_dict_entry [] 0)))) ->
  0 <= left -> right - left < Z.of_nat fuel ->
  search_loop fuel d w left right = -1.
Proof.
  induction fuel as [|fuel IH]; intros left right Hall Hl Hf; [reflexivity|].
  cbn [search_loop]. destruct (Z.leb_spec left right); [|reflexivity].
  assert (Hmid : left <= (left + right) / 2 <= right).
  { split; [apply Z.div_le_lower_bound|apply Z.div_le_upper_bound]; lia. }
  specialize (Hall ((left + right) / 2) ltac:(lia) ltac:(lia)) as Hc.
  unfold dict_entry_cmp. cbn [str].
  destruct (Z.ltb_spec (strcmp w (str (nth (Z.to_nat ((left + right) / 2)) d
                                           (mk_dict_entry [] 0)))) 0); [lia|].
  destruct (Z.gtb_spec (strcmp w (str (nth (Z.to_nat ((left + right) / 2)) d
                                           (mk_dict_entry [] 0)))) 0); [|lia].
  apply IH; [|lia|lia]. intros i Hi Hr. apply Hall; lia.
Qed.

Lemma dict_search_above (d : dict_t) (w : list byte) :
  Forall (fun e => strlt (str e) w) d ->
  Forall (fun b => Byte.eqb b x00 = false /\ Byte.eqb b x0a = false) w ->
  dict_search d (w ++ [x00]) = None.
Proof.
  intros Hd Hw. unfold dict_search. rewrite cstr_plain by assumption.
  rewrite search_loop_above; [reflexivity| |lia|unfold size; lia].
  intros i Hi Hr. unfold size in Hr. apply strcmp_antisym.
  rewrite Forall_forall in Hd. apply Hd. apply nth_In. lia.
Qed.

Lemma qsort_sorted_id (l : list dict_entry_t) :
  StronglySorted (fun a b => strlt (str a) (str b)) l -> qsort l = l.
Proof.
  induction 1 as [|x l Hl IH Hx]; [reflexivity|].
  cbn [qsort fold_right]. fold (qsort l). rewrite IH.
  destruct l as [|y l]; [reflexivity|]. cbn [qsort_insert].
  inversion Hx as [|? ? Hxy _]; subst. unfold strlt in Hxy.
  unfold dict_entry_cmp. destruct (Z.leb_spec (strcmp (str x) (str y)) 0); [reflexivity|lia].
Qed.

Lemma StronglySorted_prefix {A : Type} (R : A -> A -> Prop) (l1 l2 : list A) :
  StronglySorted R (l1 ++ l2) -> StronglySorted R l1.
Proof.
  induction l1 as [|x l1 IH]; cbn [app]; intros H; [constructor|].
  inversion H as [|? ? Hs Hx]; subst. constructor; [now apply IH|].
  apply Forall_app in Hx. tauto.
Qed.

Lemma load_lines_ascending (ws : list (list byte)) : forall (d : dict_t),
  StronglySorted (fun a b => strlt (str a) (str b)) (d ++ map entry_of ws) ->
  forallb plain_word ws = true ->
  size d <= DICT_MAXLEN ->
  load_lines d (map (fun w => w ++ [x0a]) ws)
  = if Z.of_nat (length d + length ws) <=? DICT_MAXLEN
    then Loaded (d ++ map entry_of ws)
    else LoadStoredPastEnd.
Proof.
  induction ws as [|w ws IH]; intros d Hs Hp Hsz; cbn [map load_lines].
  - rewrite app_nil_r, Nat.add_0_r. fold (size d).
    destruct (Z.leb_spec (size d) DICT_MAXLEN); [reflexivity|lia].
  - cbn [forallb] in Hp. apply andb_true_iff in Hp. destruct Hp as (Hw & Hws).
    destruct (plain_word_spec w Hw) as (Hlen & Hbytes).
    rewrite length_app. cbn [length].
    replace (Z.of_nat (length w + 1) - 1) with (Z.of_nat (length w)) by lia.
    rewrite Nat2Z.id, firstn_app, Nat.sub_diag, firstn_all. cbn [firstn].
    rewrite app_nil_r.
    assert (Hbelow : Forall (fun e => strlt (str e) w) d).
    { clear - Hs. induction d as [|e d IHd]; [constructor|].
      cbn [app map] in Hs. inversion Hs as [|? ? Hs' He]; subst.
      constructor; [|now apply IHd].
      rewrite Forall_forall in He. apply (He (entry_of w)).
      apply in_or_app. right. now left. }
    assert (Hs1 : StronglySorted (fun a b => strlt (str a) (str b)) (d ++ [entry_of w])).
    { cbn [map] in Hs. replace (d ++ entry_of w :: map entry_of ws)
        with ((d ++ [entry_of w]) ++ map entry_of ws) in Hs
        by (now rewrite <- app_assoc).
      now apply StronglySorted_prefix in Hs. }
    unfold dict_add. rewrite dict_search_above by assumption.
    unfold dict_entry_init.
    destruct (Z.eqb_spec (Z.of_nat (length w)) 0); [lia|].
    destruct (Z.gtb_spec (Z.of_nat (length w)) DICT_ENTRY_MAXLEN); [lia|].
    cbn [orb]. rewrite cstr_plain by assumption.
    rewrite Nat2Z.id, firstn_all. fold (entry_of w).
    unfold size in *.
    destruct (Z.ltb_spec (Z.of_nat (length d)) DICT_MAXLEN) as [Hlt|Hge].
    + unfold dict_sort, size. rewrite length_app. cbn [length].
      destruct (Z.eqb_spec (Z.of_nat (length d + 1)) 0); [lia|].
      rewrite qsort_sorted_id by exact Hs1.
      rewrite IH; [| cbn [map] in Hs; now rewrite <- app_assoc | exact Hws
                   | rewrite length_app; cbn [length]; lia].
      rewrite length_app. cbn [length]. rewrite <- app_assoc. cbn [app].
      replace (length d + 1 + length ws)%nat with (length d + S (length ws))%nat by lia.
      reflexivity.
    + destruct (Z.leb_spec (Z.of_nat (length d + S (length ws))) DICT_MAXLEN);
        [lia|reflexivity].
Qed.

(** A file of plain words in ascending order, one per line: up to 2048
    words are loaded as they are; with more, the loader stores past the
    end of [entries]. *)
Lemma dict_from_file_ascending (ws : list (list byte)) :
  forallb plain_word ws = true -> ascending ws = true ->
  dict_from_file (file_of ws)
  = if Z.of_nat (length ws) <=? DICT_MAXLEN then Loaded (map entry_of ws)
    else LoadStoredPastEnd.
Proof.
  intros Hp Ha. unfold dict_from_file. rewrite getlines_file_of by exact Hp.
  rewrite load_lines_ascending; [reflexivity| |exact Hp|unfold dict_init, size, DICT_MAXLEN; cbn; lia].
  cbn [dict_init app]. apply ascending_Sorted in Ha.
  clear - Ha. induction Ha as [|w ws Hs IH Hw]; cbn [map]; constructor; [exact IH|].
  rewrite Forall_map. exact Hw.
Qed.

Lemma ascending_firstn (n : nat) : forall ws,
  ascending ws = true -> ascending (firstn n ws) = true.
Proof.
  induction n as [|n IH]; intros [|w ws] H; try reflexivity.
  cbn [firstn]. specialize (IH ws). cbn [ascending] in H.
  destruct ws as [|w' ws]; [now destruct n|].
  apply andb_true_iff in H. destruct H as (H1 & H2).
  specialize (IH H2). destruct n as [|n]; [reflexivity|].
  cbn [firstn ascending] in *. now rewrite H1, IH.
Qed.

(** C9 fails on the code: [dict_add] never compares [size] with
    [DICT_MAXLEN]. A file of more than 2048 different lines is not
    refused: the first 2048 lines are loaded and the next one is stored to
    [entries[2048]], past the end of the array. Also, the last byte of
    every line is cut as if it were the newline, so a file whose last line
    has none loses a character there: in "ab", newline, "ab" the second
    "ab" is loaded as "a" and the duplicate goes unnoticed. *)
Theorem dict_from_file_past_capacity (ws : list (list byte)) :
  forallb plain_word ws = true -> ascending ws = true ->
  DICT_MAXLEN < Z.of_nat (length ws) ->
  dict_from_file (file_of (firstn 2048 ws)) = Loaded (map entry_of (firstn 2048 ws)) /\
  dict_from_file (file_of ws) = LoadStoredPastEnd /\
  dict_from_file (file_of ws) <> LoadFailed /\
  dict_from_file ["a"; "b"; "010"; "a"; "b"]%byte
    = Loaded [mk_dict_entry ["a"%byte] 1; mk_dict_entry ["a"; "b"]%byte 2].
Proof.
  intros Hp Ha Hl.
  assert (E : dict_from_file (file_of ws) = LoadStoredPastEnd).
  { rewrite dict_from_file_ascending by assumption.
    destruct (Z.leb_spec (Z.of_nat (length ws)) DICT_MAXLEN); [lia|reflexivity]. }
  split; [|split; [exact E|split; [rewrite E; discriminate|vm_compute; reflexivity]]].
  rewrite dict_from_file_ascending.
  - rewrite length_firstn.
    destruct (Z.leb_spec (Z.of_nat (Nat.min 2048 (length ws))) DICT_MAXLEN);
      [reflexivity|unfold DICT_MAXLEN in *; lia].
  - rewrite forallb_forall in *. intros w Hw. apply Hp.
    rewrite <- (firstn_skipn 2048 ws). apply in_or_app. now left.
  - now apply ascending_firstn.
Qed.

Lemma dict_from_file_past_capacity_witness :
  length (numbered_words 2049) = 2049%nat /\
  dict_from_file (file_of (numbered_words 2049)) = LoadStoredPastEnd.
Proof.
  split; [vm_compute; reflexivity|].
  apply (dict_from_file_past_capacity (numbered_words 2049));
    vm_compute; reflexivity.
Defined.

Lemma strcmp_refl (a : list byte) : strcmp a a = 0.
Proof.
  induction a as [|x a IH]; [reflexivity|].
  cbn [strcmp]. now rewrite Z.eqb_refl.
Qed.

Lemma Z_of_byte_zero (b : byte) : Z_of_byte b = 0 -> b = x00.
Proof. intros H. rewrite <- (byte_of_Z_of_byte b), H. reflexivity. Qed.

Lemma strcmp_eq (a : list byte) : forall b,
  c_chars a -> c_chars b -> strcmp a b = 0 -> a = b.
Proof.
  induction a as [|x a IH]; intros [|y b] Ha Hb H; cbn [strcmp] in H.
  - reflexivity.
  - inversion Hb as [|? ? Hy _]; subst. exfalso. apply Hy, Z_of_byte_zero. lia.
  - inversion Ha as [|? ? Hx _]; subst. exfalso. apply Hx, Z_of_byte_zero. lia.
  - inversion Ha; inversion Hb; subst.
    destruct (Z.eqb_spec (Z_of_byte x) (Z_of_byte y)) as [E|N]; [|lia].
    apply Z_of_byte_inj in E. subst y. f_equal. now apply IH.
Qed.

Lemma cstr_c_chars (s : list byte) : c_chars (cstr s).
Proof.
  induction s as [|b s IH]; cbn [cstr]; [constructor|].
  destruct (Byte.eqb b x00) eqn:E; constructor; [|exact IH].
  intros ->. discriminate.
Qed.

Lemma StronglySorted_nth {A : Type} (R : A -> A -> Prop) (l : list A) (a : A) :
  StronglySorted R l ->
  forall i j, (i < j < length l)%nat -> R (nth i l a) (nth j l a).
Proof.
  induction 1 as [|x l Hs IH Hx]; intros i j Hij; cbn [length] in Hij; [lia|].
  destruct j as [|j]; [lia|]. destruct i as [|i]; cbn [nth].
  - rewrite Forall_forall in Hx. apply Hx, nth_In. lia.
  - apply IH. lia.
Qed.

(** The binary search: a result that is not [-1] is an index in the
    interval whose entry is the word; on a sorted dictionary the result is
    [-1] only when no entry of the interval is the word. *)
Lemma search_loop_spec (d : dict_t) (w : list byte) :
  c_chars w -> Forall (fun e => c_chars (str e)) d ->
  forall fuel left right,
  0 <= left -> right < Z.of_nat (length d) ->
  right - left < Z.of_nat fuel ->
  let idx := search_loop fuel d w left right in
  (idx = -1 \/ (left <= idx <= right /\
                str (nth (Z.to_nat idx) d (mk_dict_entry [] 0)) = w)) /\
  (StronglySorted (fun a b => strlt (str a) (str b)) d -> idx = -1 ->
   forall i, left <= i <= right ->
             str (nth (Z.to_nat i) d (mk_dict_entry [] 0)) <> w).
Proof.
  intros Hw Hd. induction fuel as [|fuel IH]; intros left right Hl Hr Hf.
  - cbn [search_loop]. split; [now left|]. intros _ _ i Hi. lia.
  - cbn [search_loop]. destruct (Z.leb_spec left right) as [Hle|Hgt].
    2:{ split; [now left|]. intros _ _ i Hi. lia. }
    set (mid := (left + right) / 2).
    assert (Hmid : left <= mid <= right).
    { unfold mid. split; [apply Z.div_le_lower_bound; lia|
                          apply Z.div_le_upper_bound; lia]. }
    unfold dict_entry_cmp. cbn [str].
    set (dflt := mk_dict_entry [] 0).
    assert (Hin : c_chars (str (nth (Z.to_nat mid) d dflt))).
    { rewrite Forall_forall in Hd. apply Hd, nth_In. lia. }
    destruct (Z.ltb_spec (strcmp w (str (nth (Z.to_nat mid) d dflt))) 0) as [Hlt|Hge].
    + destruct (IH left (mid - 1) ltac:(lia) ltac:(lia) ltac:(lia)) as [I1 I2].
      cbv zeta in I1, I2. split.
      * destruct I1 as [I1|[I1 I1']]; [now left|right; split; [lia|exact I1']].
      * intros Hs Hidx i Hi.
        destruct (Z.lt_ge_cases i mid) as [Him|Him]; [apply I2; auto; lia|].
        intros E. 
        destruct (Z.eq_dec i mid) as [->|Hne].
        { rewrite E, strcmp_refl in Hlt. lia. }
        pose proof (StronglySorted_nth _ d dflt Hs (Z.to_nat mid) (Z.to_nat i)
                      ltac:(lia)) as Hord.
        cbv beta in Hord. rewrite E in Hord.
        unfold strlt in Hord. apply strcmp_antisym in Hord. lia.
    + destruct (Z.gtb_spec (strcmp w (str (nth (Z.to_nat mid) d dflt))) 0) as [Hgt|Hle0].
      * destruct (IH (mid + 1) right ltac:(lia) ltac:(lia) ltac:(lia)) as [I1 I2].
        cbv zeta in I1, I2. split.
        -- destruct I1 as [I1|[I1 I1']]; [now left|right; split; [lia|exact I1']].
        -- intros Hs Hidx i Hi.
           destruct (Z.lt_ge_cases mid i) as [Him|Him]; [apply I2; auto; lia|].
           intros E.
           destruct (Z.eq_dec i mid) as [->|Hne].
           { rewrite E, strcmp_refl in Hgt. lia. }
           pose proof (StronglySorted_nth _ d dflt Hs (Z.to_nat i) (Z.to_nat mid)
                         ltac:(lia)) as Hord.
           cbv beta in Hord. rewrite E in Hord.
           unfold strlt in Hord. lia.
      * assert (E0 : strcmp w (str (nth (Z.to_nat mid) d dflt)) = 0) by lia.
        apply strcmp_eq in E0; [|assumption|assumption].
        split; [right; split; [lia|now symmetry]|]. intros _ Hidx. lia.
Qed.

Lemma dict_search_found (d : dict_t) (word : list byte) (e : dict_entry_t) :
  Forall (fun e => c_chars (str e)) d ->
  dict_search d word = Some e -> In e d /\ str e = cstr word.
Proof.
  intros Hc. unfold dict_search, size.
  destruct (search_loop_spec d (cstr word) (cstr_c_chars word) Hc
              (S (length d)) 0 (Z.of_nat (length d) - 1)
              ltac:(lia) ltac:(lia) ltac:(lia)) as [S1 _].
  cbv zeta in S1.
  set (idx := search_loop (S (length d)) d (cstr word) 0 (Z.of_nat (length d) - 1)) in *.
  destruct (Z.ltb_spec idx 0) as [Hneg|Hpos]; [discriminate|].
  destruct S1 as [S1|[S1 S1']]; [lia|]. intros E.
  split; [eapply nth_error_In; eassumption|].
  rewrite (nth_error_nth d (Z.to_nat idx) _ E) in S1'. exact S1'.
Qed.

Lemma dict_search_missing (d : dict_t) (word : list byte) :
  strictly_sorted d -> dict_search d word = None ->
  forall e, In e d -> str e <> cstr word.
Proof.
  intros [Hs Hc]. unfold dict_search, size.
  destruct (search_loop_spec d (cstr word) (cstr_c_chars word) Hc
              (S (length d)) 0 (Z.of_nat (length d) - 1)
              ltac:(lia) ltac:(lia) ltac:(lia)) as [S1 S2].
  cbv zeta in S1, S2.
  set (idx := search_loop (S (length d)) d (cstr word) 0 (Z.of_nat (length d) - 1)) in *.
  destruct (Z.ltb_spec idx 0) as [Hneg|Hpos].
  - destruct S1 as [S1|[S1 _]]; [|lia].
    intros _ e He. destruct (In_nth d e (mk_dict_entry [] 0) He) as [i [Hi <-]].
    specialize (S2 Hs S1 (Z.of_nat i) ltac:(lia)). now rewrite Nat2Z.id in S2.
  - destruct S1 as [S1|[S1 S1']]; [lia|]. intros E.
    apply nth_error_None in E. lia.
Qed.

(** [dict_search] in a dictionary whose entries are in strictly ascending
    order finds the entry whose string is the word, and returns [NULL]
    only when no entry has that string. *)
Theorem dict_search_sorted (d : dict_t) (word : list byte) :
  strictly_sorted d ->
  match dict_search d word with
  | Some e => In e d /\ str e = cstr word
  | None => forall e, In e d -> str e <> cstr word
  end.
Proof.
  intros Hd. destruct (dict_search d word) as [e|] eqn:E.
  - apply (dict_search_found d word e); [apply Hd|exact E].
  - now apply dict_search_missing.
Qed.

Lemma abc_strictly_sorted : strictly_sorted (map entry_of abc_words).
Proof.
  split.
  - repeat constructor; unfold strlt; cbn; lia.
  - repeat constructor; discriminate.
Qed.

Lemma dict_search_sorted_witness :
  match dict_search (map entry_of abc_words) ["a"; "b"; x00; "z"]%byte with
  | Some e => In e (map entry_of abc_words) /\ str e = cstr ["a"; "b"; x00; "z"]%byte
  | None => forall e, In e (map entry_of abc_words) -> str e <> cstr ["a"; "b"; x00; "z"]%byte
  end.
Proof.
  apply (dict_search_sorted (map entry_of abc_words) ["a"; "b"; x00; "z"]%byte).
  apply abc_strictly_sorted.
Defined.

Lemma getlines_last (pre : list byte) (b : byte) : forall cur,
  b <> x0a ->
  exists ls l,
    getlines cur (pre ++ [b]) = ls ++ [l ++ [b]] /\
    getlines cur (pre ++ [x0a]) = ls ++ [l ++ [x0a]].
Proof.
  induction pre as [|a pre IH]; intros cur Hb.
  - exists [], (rev cur). cbn [app getlines].
    destruct (Byte.eqb b x0a) eqn:E; [apply Byte.byte_dec_bl in E; congruence|].
    cbn [Byte.eqb]. change (Byte.eqb x0a x0a) with true. cbn [rev]. auto.
  - cbn [app getlines]. destruct (Byte.eqb a x0a).
    + destruct (IH [] Hb) as [ls [l [E1 E2]]].
      exists (rev (a :: cur) :: ls), l. now rewrite E1, E2.
    + apply IH, Hb.
Qed.

Lemma load_lines_last (ls : list (list byte)) (l : list byte) (b b' : byte) :
  forall d, load_lines d (ls ++ [l ++ [b]]) = load_lines d (ls ++ [l ++ [b']]).
Proof.
  induction ls as [|x ls IH]; intros d.
  - cbn [app load_lines]. rewrite !length_app. cbn [length].
    replace (Z.to_nat (Z.of_nat (length l + 1) - 1)) with (length l) by lia.
    rewrite !firstn_app, !firstn_all, !Nat.sub_diag. reflexivity.
  - cbn [app load_lines]. destruct (dict_add d _ _); auto.
Qed.

(** The loader cuts the last byte of every line, and so the last byte of
    the file, whatever it is: a file gives what it would give with a
    newline in place of its last byte. A word on a last line that no
    newline ends loses its last character. *)
Theorem dict_from_file_last_byte (file : list byte) (b : byte)
    (ws : list (list byte)) (w : list byte) :
  dict_from_file (file ++ [b]) = dict_from_file (file ++ [x0a]) /\
  dict_from_file (file_of ws ++ w ++ [b]) = dict_from_file (file_of (ws ++ [w])).
Proof.
  assert (H : forall f, dict_from_file (f ++ [b]) = dict_from_file (f ++ [x0a])).
  { intros f. destruct (Byte.byte_eq_dec b x0a) as [->|Hb]; [reflexivity|].
    unfold dict_from_file.
    destruct (getlines_last f b [] Hb) as [ls [l [-> ->]]].
    apply load_lines_last. }
  split; [apply H|].
  rewrite app_assoc, H. unfold file_of. rewrite map_app, concat_app.
  cbn [map concat]. now rewrite app_nil_r, <- app_assoc.
Qed.

Lemma cstr_app_nul (l : list byte) : cstr (l ++ [x00]) = cstr l.
Proof.
  induction l as [|b l IH]; [reflexivity|].
  cbn [app cstr]. destruct (Byte.eqb b x00); [reflexivity|now rewrite IH].
Qed.

Lemma cstr_length (l : list byte) : (length (cstr l) <= length l)%nat.
Proof.
  induction l as [|b l IH]; [cbn; lia|].
  cbn [cstr]. destruct (Byte.eqb b x00); cbn [length]; lia.
Qed.

Lemma firstn_pred_removelast (l : list byte) :
  l <> [] -> firstn (Z.to_nat (Z.of_nat (length l) - 1)) l = removelast l.
Proof.
  intros H. destruct (exists_last H) as [l' [a ->]].
  rewrite removelast_last, length_app. cbn [length].
  replace (Z.to_nat (Z.of_nat (length l' + 1) - 1)) with (length l') by lia.
  now rewrite firstn_app, firstn_all, Nat.sub_diag, firstn_O, app_nil_r.
Qed.

Lemma strcmp_neq_sign (a b : list byte) :
  c_chars a -> c_chars b -> a <> b -> strcmp a b <= 0 -> strcmp a b < 0.
Proof.
  intros Ha Hb N H. destruct (Z.eq_dec (strcmp a b) 0) as [E|E]; [|lia].
  apply strcmp_eq in E; [congruence|assumption|assumption].
Qed.

Lemma qsort_insert_strict (e : dict_entry_t) (l : list dict_entry_t) :
  strictly_sorted l -> c_chars (str e) -> ~ In (str e) (map str l) ->
  strictly_sorted (qsort_insert e l).
Proof.
  intros [Hs Hc] He. induction l as [|x l IH]; intros Hn.
  - split; repeat constructor; assumption.
  - cbn [qsort_insert]. unfold dict_entry_cmp.
    inversion Hs as [|? ? Hs' Hx]; subst. inversion Hc as [|? ? Hcx Hc']; subst.
    cbn [map In] in Hn.
    destruct (Z.leb_spec (strcmp (str e) (str x)) 0) as [Hle|Hgt].
    + assert (Hlt : strlt (str e) (str x)).
      { apply strcmp_neq_sign; auto. }
      split; [|constructor; assumption].
      constructor; [exact Hs|]. constructor; [exact Hlt|].
      eapply Forall_impl; [|exact Hx]. cbv beta. intros y Hy.
      eapply strlt_trans; eassumption.
    + destruct (IH Hs' Hc' ltac:(tauto)) as [Is Ic].
      split; [|constructor; assumption].
      constructor; [exact Is|].
      rewrite Forall_forall. intros y Hy.
      apply (Permutation_in _ (qsort_insert_perm e l)) in Hy.
      destruct Hy as [<-|Hy].
      * now apply strcmp_total.
      * rewrite Forall_forall in Hx. now apply Hx.
Qed.

Lemma qsort_snoc_strict (d : dict_t) (e : dict_entry_t) :
  strictly_sorted d -> c_chars (str e) -> ~ In (str e) (map str d) ->
  strictly_sorted (qsort (d ++ [e])).
Proof.
  intros [Hs Hc] He Hn. unfold qsort. rewrite fold_right_app. cbn [fold_right qsort_insert].
  induction d as [|x d IH].
  - split; repeat constructor; assumption.
  - cbn [fold_right].
    inversion Hs as [|? ? Hs' Hx]; subst. inversion Hc as [|? ? Hcx Hc']; subst.
    cbn [map In] in Hn.
    apply qsort_insert_strict; [apply IH; auto; tauto|assumption|].
    intros Hin. apply in_map_iff in Hin. destruct Hin as [y [Ey Hy]].
    assert (Py : Permutation (fold_right qsort_insert [e] d) (d ++ [e])).
    { clear. induction d as [|z d IH]; [reflexivity|]. cbn [fold_right app].
      rewrite qsort_insert_perm. now constructor. }
    apply (Permutation_in _ Py) in Hy. apply in_app_iff in Hy.
    destruct Hy as [Hy|[<-|[]]].
    + rewrite Forall_forall in Hx. specialize (Hx y Hy). cbv beta in Hx.
      unfold strlt in Hx. rewrite Ey, strcmp_refl in Hx. lia.
    + apply Hn. left. now symmetry.
Qed.

(** What [dict_add] does with a line of the file, on a dictionary in
    strictly ascending order. *)
Lemma dict_add_line (d : dict_t) (line : list byte) :
  strictly_sorted d -> line <> [] ->
  let n := Z.of_nat (length line) - 1 in
  dict_add d (firstn (Z.to_nat n) line ++ [x00]) n
  = if in_dec (list_eq_dec Byte.byte_eq_dec) (line_word line) (map str d)
    then AddFailed
    else if (n =? 0) || (n >? DICT_ENTRY_MAXLEN) then AddFailed
    else if size d <? DICT_MAXLEN
         then Added (qsort (d ++ [mk_dict_entry (line_word line) n]))
         else StoredPastEnd.
Proof.
  intros Hd Hl n. unfold dict_add.
  assert (Ew : cstr (firstn (Z.to_nat n) line ++ [x00]) = line_word line).
  { rewrite cstr_app_nul. unfold n. now rewrite firstn_pred_removelast. }
  destruct (dict_search d (firstn (Z.to_nat n) line ++ [x00])) as [e|] eqn:E.
  - apply dict_search_found in E; [|apply Hd]. destruct E as [Hin He].
    rewrite Ew in He.
    destruct (in_dec _ _ _) as [_|N]; [reflexivity|].
    exfalso. apply N. rewrite <- He. now apply in_map.
  - pose proof (dict_search_missing d _ Hd E) as M. rewrite Ew in M.
    destruct (in_dec _ _ _) as [I|_].
    { apply in_map_iff in I. destruct I as [e [He Hin]]. now apply M in Hin. }
    unfold dict_entry_init. destruct ((n =? 0) || (n >? DICT_ENTRY_MAXLEN)); [reflexivity|].
    rewrite Ew.
    assert (Ef : firstn (Z.to_nat n) (line_word line) = line_word line).
    { apply firstn_all2. unfold line_word.
      pose proof (cstr_length (removelast line)) as Hc.
      destruct (exists_last Hl) as [l' [a ->]].
      rewrite removelast_last in *. unfold n. rewrite length_app. cbn [length]. lia. }
    rewrite Ef. unfold dict_sort, size. rewrite length_app. cbn [length].
    destruct (Z.eqb_spec (Z.of_nat (length d + 1)) 0); [lia|]. reflexivity.
Qed.

Lemma load_lines_accepts (lines : list (list byte)) : forall d0,
  strictly_sorted d0 -> Forall (fun line => line <> []) lines ->
  (forall d, load_lines d0 lines = Loaded d ->
     strictly_sorted d /\ Permutation d (d0 ++ map line_entry lines)) /\
  ((exists d, load_lines d0 lines = Loaded d) <->
   Forall line_ok lines /\ NoDup (map line_word lines) /\
   (forall w, In w (map line_word lines) -> ~ In w (map str d0)) /\
   (lines = [] \/ (length d0 + length lines <= 2048)%nat)).
Proof.
  induction lines as [|line lines IH]; intros d0 Hd Hne.
  - cbn [load_lines map]. split.
    + intros d [= <-]. split; [exact Hd|]. now rewrite app_nil_r.
    + split; [intros _|intros _; now exists d0].
      repeat split; try constructor; auto.
  - inversion Hne as [|? ? Hl Hne']; subst.
    cbn [load_lines]. rewrite (dict_add_line d0 line Hd Hl).
    set (n := Z.of_nat (length line) - 1).
    destruct (in_dec _ _ _) as [I|N].
    { split; [discriminate|]. split; [intros [d Ed]; discriminate|].
      intros (_ & _ & Hfresh & _). exfalso.
      apply (Hfresh (line_word line)); [now left|exact I]. }
    destruct ((n =? 0) || (n >? DICT_ENTRY_MAXLEN)) eqn:En.
    { split; [discriminate|]. split; [intros [d Ed]; discriminate|].
      intros (Hok & _). inversion Hok as [|? ? Hk _]; subst.
      unfold line_ok in Hk. unfold DICT_ENTRY_MAXLEN in En.
      apply orb_true_iff in En. destruct En as [En|En];
        [apply Z.eqb_eq in En|apply Z.gtb_lt in En]; lia. }
    apply orb_false_iff in En. destruct En as [En1 En2].
    apply Z.eqb_neq in En1. unfold DICT_ENTRY_MAXLEN in En2.
    assert (En2' : n <= 128) by (destruct (Z.gtb_spec n 128); [discriminate|lia]).
    unfold size, DICT_MAXLEN.
    destruct (Z.ltb_spec (Z.of_nat (length d0)) 2048) as [Hsz|Hsz].
    2:{ split; [discriminate|]. split; [intros [d Ed]; discriminate|].
        intros (_ & _ & _ & [Hnil|Hlen]); [discriminate|]. cbn [length] in Hlen. lia. }
    change (mk_dict_entry (line_word line) n) with (line_entry line).
    assert (Hd1 : strictly_sorted (qsort (d0 ++ [line_entry line]))).
    { apply qsort_snoc_strict; [exact Hd|apply cstr_c_chars|exact N]. }
    pose proof (qsort_perm (d0 ++ [line_entry line])) as P1.
    assert (L1 : length (qsort (d0 ++ [line_entry line])) = S (length d0)).
    { rewrite (Permutation_length P1), length_app. cbn [length]. lia. }
    assert (S1 : forall w, In w (map str (qsort (d0 ++ [line_entry line])))
                           <-> w = line_word line \/ In w (map str d0)).
    { intros w. rewrite (Permutation_map str P1), map_app, in_app_iff.
      cbn [map In line_entry str]. intuition congruence. }
    destruct (IH (qsort (d0 ++ [line_entry line])) Hd1 Hne') as [I1 I2]. split.
    + intros d Ed. destruct (I1 d Ed) as (Hs & Hp). split; [exact Hs|].
      rewrite Hp, P1. cbn [map]. rewrite <- app_assoc. reflexivity.
    + rewrite I2. cbn [map length]. split.
      * intros (Hok & Hnd & Hfresh & Hlen).
        assert (length line <> 0)%nat by (destruct line; [congruence|discriminate]).
        split; [constructor; [unfold line_ok; subst n; lia|exact Hok]|].
        split; [constructor; [|exact Hnd]|].
        { intros Hin. apply (Hfresh _ Hin). apply S1. now left. }
        split.
        { intros w [<-|Hin]; [exact N|]. intros Hw.
          apply (Hfresh _ Hin). apply S1. now right. }
        right. destruct Hlen as [->|Hlen]; cbn [length]; lia.
      * intros (Hok & Hnd & Hfresh & Hlen).
        inversion Hok; inversion Hnd; subst.
        split; [assumption|]. split; [assumption|]. split.
        { intros w Hin Hw. apply S1 in Hw. destruct Hw as [->|Hw];
            [contradiction|]. apply (Hfresh w); [now right|exact Hw]. }
        destruct Hlen as [Hnil|Hlen]; [discriminate|]. right. lia.
Qed.

(** The loader hands out a dictionary exactly for the files whose lines
    all have from 1 to 128 bytes before their last byte, give pairwise
    different words, and number at most 2048. The dictionary then holds one
    entry per line, its string the line's word and its [len] the line's
    length without the last byte, in strictly ascending [strcmp] order. *)
Theorem dict_from_file_accepts (file : list byte) :
  let lines := getlines [] file in
  ((exists d, dict_from_file file = Loaded d) <->
   Forall line_ok lines /\ NoDup (map line_word lines) /\
   (length lines <= 2048)%nat) /\
  (forall d, dict_from_file file = Loaded d ->
     strictly_sorted d /\ Permutation d (map line_entry lines)).
Proof.
  intros lines. unfold dict_from_file. fold lines.
  assert (H0 : strictly_sorted dict_init) by (split; constructor).
  destruct (load_lines_accepts lines dict_init H0 (getlines_nonempty file []))
    as [I1 I2].
  split; [|exact I1]. rewrite I2. cbn [dict_init length map Nat.add].
  split.
  - intros (Hok & Hnd & _ & [->|Hlen]); repeat split; auto. cbn; lia.
  - intros (Hok & Hnd & Hlen). repeat split; auto.
Qed.

(** Loading then searching: in the dictionary [dict_from_file] makes of a
    file, [dict_search] finds a word exactly when a line of the file
    carries it, and the entry found is the one made of such a line. *)
Theorem dict_load_then_search (file : list byte) (d : dict_t) (word : list byte) :
  dict_from_file file = Loaded d ->
  match dict_search d word with
  | Some e => exists line, In line (getlines [] file) /\ e = line_entry line /\
                           line_word line = cstr word
  | None => forall line, In line (getlines [] file) -> line_word line <> cstr word
  end.
Proof.
  intros Hload. unfold dict_from_file in Hload.
  assert (H0 : strictly_sorted dict_init) by (split; constructor).
  destruct (load_lines_accepts (getlines [] file) dict_init H0
              (getlines_nonempty file [])) as [I1 _].
  destruct (I1 d Hload) as [Hs Hp]. cbn [dict_init app] in Hp.
  destruct (dict_search d word) as [e|] eqn:E.
  - destruct (dict_search_found d word e (proj2 Hs) E) as [Hin Hstr].
    eapply Permutation_in in Hin; [|exact Hp].
    apply in_map_iff in Hin. destruct Hin as (line & <- & Hl).
    exists line. split; [exact Hl|]. split; [reflexivity|exact Hstr].
  - intros line Hl Hw.
    apply (dict_search_missing d word Hs E (line_entry line)); [|exact Hw].
    eapply Permutation_in; [apply Permutation_sym; exact Hp|].
    now apply in_map.
Qed.

Lemma dict_load_then_search_witness :
  match dict_search (map entry_of abc_words) ["a"; "b"]%byte with
  | Some e => exists line,
      In line (getlines [] (file_of abc_words)) /\ e = line_entry line /\
      line_word line = cstr ["a"; "b"]%byte
  | None => forall line, In line (getlines [] (file_of abc_words)) ->
                         line_word line <> cstr ["a"; "b"]%byte
  end.
Proof.
  apply (dict_load_then_search (file_of abc_words) (map entry_of abc_words)
           ["a"; "b"]%byte).
  vm_compute. reflexivity.
Defined.

End DictFacts.
